(** * Delta-state CRDT substrate: Dot, DotContext, DotKernel, MVReg

    A shallow embedding of the causal-context substrate of the repository
    (dot.js, dot-context.js, dot-kernel.js, delta-helpers.js and
    3-mv-register.js) together with the properties verified against it.

    Conventions of the embedding.
    - JavaScript strings are [string]s of code units below 256.
    - JavaScript numbers that the code uses as counters are integers, [Z];
      [NaN] is the [None] of an [option Z].  The sum that [makeDot]
      makes is rounded as the code rounds it ([Js.plus]), so that a
      counter that has reached [2^53] stays there.  [parseInt], the
      conversion of a number to a string and the sum in [compact] are
      those of the integers: they are what the code computes on the
      integers up to [2^53] in magnitude, which is where the operations
      keep the counters ([boundedHeap]).  Beyond them the code reads a
      rounded number, prints the shortest digits that read back and,
      from [1e21] on, an exponent; a statement about a dot or a string
      that is given from outside carries [safeInteger] as a
      hypothesis.
    - Payload objects have no identity: two objects are the same element
      of a [Set] when they have the same content.
    - A [Map] or [Set] is an association list in insertion order.
    - A thrown exception is the [Throw] outcome; the state reached at the
      moment of a throw is not tracked.
    - Objects that the code shares by reference (contexts, kernels) live in
      a heap and are named by their position in it. *)

From Stdlib Require Import ZArith Ascii String List Lia Bool DecimalPos Sorted.
From stdpp Require Import base list strings.

Local Open Scope string_scope.
Local Open Scope Z_scope.
Local Set Warnings "-register-all".

(** ** Outcomes of fallible code *)

Inductive JsError : Type :=
| InvalidDotInput      (* Error('Invalid dot input ...') *)
| InvalidDotFormat     (* Error('Invalid dot format ...') *)
| CannotJoin           (* Error('Cannot join these types') *)
| TypeError.           (* raised by the engine: property of undefined, ... *)

(** [OutOfFuel] is the outcome of a loop that was cut by its bound;
    [Unmodelled] marks a call that leaves the typed model (a replica id
    that is not a string). *)
Inductive Outcome (A : Type) : Type :=
| Ok (a : A)
| Throw (e : JsError)
| OutOfFuel
| Unmodelled.

Arguments Ok {A} a.
Arguments Throw {A} e.
Arguments OutOfFuel {A}.
Arguments Unmodelled {A}.

Definition bindO {A B : Type} (m : Outcome A) (f : A -> Outcome B) : Outcome B :=
  match m with
  | Ok a => f a
  | Throw e => Throw e
  | OutOfFuel => OutOfFuel
  | Unmodelled => Unmodelled
  end.

Notation "'let!' x ':=' e 'in' k" := (bindO e (fun x => k))
  (at level 10, x name, e at level 100, k at level 200, only parsing).
Notation "'let!' ' p ':=' e 'in' k" := (bindO e (fun p => k))
  (at level 10, p pattern, e at level 100, k at level 200, only parsing).

(** ** JavaScript built-ins used by the code *)

Module Js.

(** [String.prototype.split] with a one-character separator. *)
Fixpoint split (sep : ascii) (s : string) : list string :=
  match s with
  | EmptyString => [EmptyString]
  | String c rest =>
      if Ascii.eqb c sep then EmptyString :: split sep rest
      else match split sep rest with
           | [] => [String c EmptyString]
           | p :: ps => String c p :: ps
           end
  end.

(** White space skipped by [parseInt] (code units below 256): TAB, LF, VT,
    FF, CR, SP and NBSP. *)
Definition isWhiteSpace (c : ascii) : bool :=
  let n := nat_of_ascii c in
  ((9 <=? n)%nat && (n <=? 13)%nat) || (n =? 32)%nat || (n =? 160)%nat.

Fixpoint trimStart (s : string) : string :=
  match s with
  | String c rest => if isWhiteSpace c then trimStart rest else s
  | EmptyString => EmptyString
  end.

(** Value of a code unit as a digit of the given radix (10 or 16). *)
Definition digitValue (radix : Z) (c : ascii) : option Z :=
  let n := Z.of_nat (nat_of_ascii c) in
  let v := if (48 <=? n) && (n <=? 57) then Some (n - 48)
           else if (97 <=? n) && (n <=? 122) then Some (n - 87)
           else if (65 <=? n) && (n <=? 90) then Some (n - 55)
           else None in
  match v with
  | Some d => if d <? radix then Some d else None
  | None => None
  end.

(** The longest prefix of digits, read most significant digit first;
    [None] when the prefix is empty. *)
Fixpoint parseDigits (radix : Z) (s : string) (acc : Z) (seen : bool) : option Z :=
  match s with
  | String c rest =>
      match digitValue radix c with
      | Some d => parseDigits radix rest (acc * radix + d) true
      | None => if seen then Some acc else None
      end
  | EmptyString => if seen then Some acc else None
  end.

(** After the sign: an optional [0x] / [0X] prefix selects radix 16. *)
Definition parseMagnitude (s : string) : option Z :=
  match s with
  | String "0" (String "x" rest) => parseDigits 16 rest 0 false
  | String "0" (String "X" rest) => parseDigits 16 rest 0 false
  | _ => parseDigits 10 s 0 false
  end.

(** [parseInt(s)] without a radix argument; [None] is [NaN].  The
    result is the integer that the digits denote, which is the number
    that the code reads while that integer is a safe integer. *)
Definition parseInt (s : string) : option Z :=
  match trimStart s with
  | String "-" rest => option_map Z.opp (parseMagnitude rest)
  | String "+" rest => parseMagnitude rest
  | t => parseMagnitude t
  end.

Fixpoint stringOfUint (d : Decimal.uint) : string :=
  match d with
  | Decimal.Nil => EmptyString
  | Decimal.D0 d => String "0" (stringOfUint d)
  | Decimal.D1 d => String "1" (stringOfUint d)
  | Decimal.D2 d => String "2" (stringOfUint d)
  | Decimal.D3 d => String "3" (stringOfUint d)
  | Decimal.D4 d => String "4" (stringOfUint d)
  | Decimal.D5 d => String "5" (stringOfUint d)
  | Decimal.D6 d => String "6" (stringOfUint d)
  | Decimal.D7 d => String "7" (stringOfUint d)
  | Decimal.D8 d => String "8" (stringOfUint d)
  | Decimal.D9 d => String "9" (stringOfUint d)
  end.

(** [String(n)] / [`${n}`] for an integer [n]: the decimal notation,
    which is the string the code gets for a safe integer. *)
Definition numberToString (n : Z) : string :=
  match n with
  | Z0 => "0"
  | Zpos p => stringOfUint (Pos.to_uint p)
  | Zneg p => String "-" (stringOfUint (Pos.to_uint p))
  end.

(** The number nearest to the integer [z]: the integers below [2^53] in
    magnitude are numbers; a larger one is rounded to a significand of
    53 bits, a tie going to the even significand.  The exponent is not
    bounded: an integer from [2^1024] on, which a number holds as
    [Infinity], is outside the embedding. *)
Definition roundToDouble (z : Z) : Z :=
  let m := Z.abs z in
  if m <? 2 ^ 53 then z
  else
    let e := Z.log2 m - 52 in
    let q := m / 2 ^ e in
    let r := m mod 2 ^ e in
    let half := 2 ^ (e - 1) in
    let q' := if r <? half then q
              else if half <? r then q + 1
              else if Z.even q then q else q + 1 in
    Z.sgn z * (q' * 2 ^ e).

(** [a + b] on two numbers that hold integers. *)
Definition plus (a b : Z) : Z := roundToDouble (a + b).

(** The relational operator [<] on two strings: code units compared
    left to right, a proper prefix being smaller. *)
Fixpoint stringLt (a b : string) : bool :=
  match a, b with
  | _, EmptyString => false
  | EmptyString, String _ _ => true
  | String x a', String y b' =>
      let nx := nat_of_ascii x in
      let ny := nat_of_ascii y in
      if (nx <? ny)%nat then true
      else if (ny <? nx)%nat then false
      else stringLt a' b'
  end.

(** Insertion of [x] into a list already ordered by [cmp]; equal
    elements keep their relative order. *)
Fixpoint insertSorted {A : Type} (cmp : A -> A -> Z) (x : A) (l : list A) : list A :=
  match l with
  | [] => [x]
  | y :: l' => if cmp x y <=? 0 then x :: l else y :: insertSorted cmp x l'
  end.

(** [Array.prototype.sort(cmp)]: a stable sort. *)
Fixpoint sort {A : Type} (cmp : A -> A -> Z) (l : list A) : list A :=
  match l with
  | [] => []
  | x :: l' => insertSorted cmp x (sort cmp l')
  end.

End Js.

(** ** Map and Set, in insertion order *)

Module JsMap.

Definition t (V : Type) : Type := list (string * V).

Fixpoint get {V : Type} (k : string) (m : t V) : option V :=
  match m with
  | [] => None
  | (k', v) :: m' => if String.eqb k' k then Some v else get k m'
  end.

Definition has {V : Type} (k : string) (m : t V) : bool :=
  match get k m with Some _ => true | None => false end.

(** [set] keeps the position of a key that is already present. *)
Fixpoint set {V : Type} (k : string) (v : V) (m : t V) : t V :=
  match m with
  | [] => [(k, v)]
  | (k', v') :: m' =>
      if String.eqb k' k then (k, v) :: m' else (k', v') :: set k v m'
  end.

Fixpoint delete {V : Type} (k : string) (m : t V) : t V :=
  match m with
  | [] => []
  | (k', v') :: m' =>
      if String.eqb k' k then delete k m' else (k', v') :: delete k m'
  end.

Definition keys {V : Type} (m : t V) : list string := map fst m.
Definition values {V : Type} (m : t V) : list V := map snd m.

End JsMap.

Module JsSet.

Definition t : Type := list string.

Fixpoint has (x : string) (s : t) : bool :=
  match s with
  | [] => false
  | y :: s' => if String.eqb y x then true else has x s'
  end.

Definition add (x : string) (s : t) : t :=
  if has x s then s else (s ++ [x])%list.

Fixpoint delete (x : string) (s : t) : t :=
  match s with
  | [] => []
  | y :: s' => if String.eqb y x then delete x s' else y :: delete x s'
  end.

End JsSet.

(** ** dot.js *)

Record Dot : Type := mkDot { id : string; counter : Z }.

(** What the code passes where a dot is expected: a string ["id:counter"],
    or a [Dot] instance (a dot-like object [{id, counter}] with a string id
    and an integer counter is converted to one by [Dot.toDot]). *)
Inductive DotInput : Type :=
| InStr (dotStr : string)
| InDot (dot : Dot).

Module Dot.

(** [Dot.prototype.toString] *)
Definition toStringDot (d : Dot) : string :=
  id d ++ ":" ++ Js.numberToString (counter d).

(** [Dot.fromString], for an argument that is a string. *)
Definition fromString (dotStr : string) : Outcome Dot :=
  match Js.split ":" dotStr with
  | [i; counterStr] =>
      match Js.parseInt counterStr with
      | None => Throw InvalidDotFormat
      | Some c =>
          if String.eqb i "" then Throw InvalidDotFormat
          else Ok (mkDot i c)
      end
  | _ => Throw InvalidDotFormat
  end.

(** [Dot.toDot] *)
Definition toDot (dot : DotInput) : Outcome Dot :=
  match dot with
  | InStr s => fromString s
  | InDot d => Ok d
  end.

(** static [Dot.toString] *)
Definition toString (dot : DotInput) : Outcome string :=
  let! d := toDot dot in Ok (toStringDot d).

Section Compare.
(** [String.prototype.localeCompare] depends on the host's collation
    and is a parameter of the development. *)
Variable localeCompare : string -> string -> Z.

Definition compareDots (dot1 dot2 : Dot) : Z :=
  if negb (String.eqb (id dot1) (id dot2))
  then localeCompare (id dot1) (id dot2)
  else counter dot1 - counter dot2.

(** [Dot.compare] *)
Definition compare (_dot1 _dot2 : DotInput) : Outcome Z :=
  let! dot1 := toDot _dot1 in
  let! dot2 := toDot _dot2 in
  Ok (compareDots dot1 dot2).

(** [Array.from(keys).sort(Dot.compare)]: the comparator parses every
    key it is handed, and it is handed every element of an array of
    two or more. *)
Fixpoint parseKeys (keys : list string) : Outcome (list (string * Dot)) :=
  match keys with
  | [] => Ok []
  | k :: ks =>
      let! d := fromString k in
      let! rest := parseKeys ks in
      Ok ((k, d) :: rest)
  end.

Definition sortKeys (keys : list string) : Outcome (list string) :=
  match keys with
  | [] | [_] => Ok keys
  | _ =>
      let! parsed := parseKeys keys in
      Ok (map fst (Js.sort (fun a b => compareDots (snd a) (snd b)) parsed))
  end.
End Compare.

End Dot.

(** ** dot-context.js *)

Record DotContext : Type := mkContext {
  compactCausalContext : JsMap.t Z;   (* Map<id, counter> *)
  dotCloud : JsSet.t                  (* Set<"id:counter"> *)
}.

Module DotContext.

(** [new DotContext()] *)
Definition empty : DotContext := mkContext [] [].

(** [dotIn] *)
Definition dotIn (this : DotContext) (dot : DotInput) : Outcome bool :=
  let! dotObj := Dot.toDot dot in
  let ccValue := JsMap.get (id dotObj) (compactCausalContext this) in
  match ccValue with
  | Some cc =>
      if counter dotObj <=? cc then Ok true
      else Ok (JsSet.has (Dot.toStringDot dotObj) (dotCloud this))
  | None => Ok (JsSet.has (Dot.toStringDot dotObj) (dotCloud this))
  end.

(** One [for (const cloudDotStr of this.dotCloud)] pass of [compact]:
    the map is updated on the way, the deletions are collected, and
    [compactedCloud] records whether the map changed. *)
Fixpoint compactPass (cloud : list string) (cc : JsMap.t Z)
    (toDelete : list string) (compactedCloud : bool)
    : Outcome (JsMap.t Z * list string * bool) :=
  match cloud with
  | [] => Ok (cc, toDelete, compactedCloud)
  | cloudDotStr :: rest =>
      let! cloudDot := Dot.fromString cloudDotStr in
      match JsMap.get (id cloudDot) cc with
      | None =>
          if counter cloudDot =? 1
          then compactPass rest (JsMap.set (id cloudDot) (counter cloudDot) cc)
                           (toDelete ++ [cloudDotStr])%list true
          else compactPass rest cc toDelete compactedCloud
      | Some contextDotCounter =>
          if counter cloudDot =? contextDotCounter + 1
          then compactPass rest (JsMap.set (id cloudDot) (contextDotCounter + 1) cc)
                           (toDelete ++ [cloudDotStr])%list true
          else if counter cloudDot <=? contextDotCounter
          then compactPass rest cc (toDelete ++ [cloudDotStr])%list compactedCloud
          else compactPass rest cc toDelete compactedCloud
      end
  end.

Definition deleteAll (toDelete : list string) (cloud : JsSet.t) : JsSet.t :=
  fold_left (fun s x => JsSet.delete x s) toDelete cloud.

(** The [do ... while (compactedCloud)] loop, with a bound on the number
    of passes. *)
Fixpoint compactLoop (fuel : nat) (this : DotContext) : Outcome DotContext :=
  match fuel with
  | O => OutOfFuel
  | S fuel' =>
      let! '(cc, toDelete, compactedCloud) :=
        compactPass (dotCloud this) (compactCausalContext this) [] false in
      let this' := mkContext cc (deleteAll toDelete (dotCloud this)) in
      if compactedCloud then compactLoop fuel' this' else Ok this'
  end.

(** [compact]: every pass that repeats the loop removes a cloud entry,
    so one pass more than there are entries is enough. *)
Definition compact (this : DotContext) : Outcome DotContext :=
  compactLoop (S (length (dotCloud this))) this.

(** [makeDot]: the new dot and the updated context; [current + 1] is a
    sum of numbers, [Js.plus]. *)
Definition makeDot (this : DotContext) (i : string) : Dot * DotContext :=
  let current := match JsMap.get i (compactCausalContext this) with
                 | Some c => if c =? 0 then 0 else c
                 | None => 0
                 end in
  let newCounter := Js.plus current 1 in
  (mkDot i newCounter,
   mkContext (JsMap.set i newCounter (compactCausalContext this)) (dotCloud this)).

(** [insertDot] *)
Definition insertDot (this : DotContext) (dot : DotInput) (compactNow : bool)
    : Outcome DotContext :=
  let! dotStr := Dot.toString dot in
  let this' := mkContext (compactCausalContext this) (JsSet.add dotStr (dotCloud this)) in
  if compactNow then compact this' else Ok this'.

(** The first loop of [join], over the entries of the other map. *)
Fixpoint joinCompact (entries : list (string * Z)) (cc : JsMap.t Z) : JsMap.t Z :=
  match entries with
  | [] => cc
  | (i, value) :: rest =>
      let current := JsMap.get i cc in
      joinCompact rest
        (JsMap.set i (match current with
                      | None => value
                      | Some c => Z.max c value
                      end) cc)
  end.

(** The second loop of [join], over the other dot cloud. *)
Fixpoint joinCloud (dots : list string) (this : DotContext) : Outcome DotContext :=
  match dots with
  | [] => Ok this
  | dot :: rest =>
      let! this' := insertDot this (InStr dot) false in
      joinCloud rest this'
  end.

(** [join] with a context that is another object than [this]; the
    identity test [this === otherContext] is made where the two are
    known as heap objects. *)
Definition join (this otherContext : DotContext) : Outcome DotContext :=
  let cc := joinCompact (compactCausalContext otherContext) (compactCausalContext this) in
  let! this' := joinCloud (dotCloud otherContext) (mkContext cc (dotCloud this)) in
  compact this'.

(** [clone] *)
Definition clone (this : DotContext) : DotContext :=
  mkContext (compactCausalContext this) (dotCloud this).

Fixpoint joinWith (sep : string) (parts : list string) : string :=
  match parts with
  | [] => ""
  | [p] => p
  | p :: ps => p ++ sep ++ joinWith sep ps
  end.

(** [toString] *)
Definition toString (this : DotContext) : string :=
  let cc := joinWith " " (map (fun kv => Dot.toStringDot (mkDot (fst kv) (snd kv)))
                              (compactCausalContext this)) in
  let dc := joinWith " " (dotCloud this) in
  "Context: CC (" ++ cc ++ ") DC (" ++ dc ++ ")".

End DotContext.

(** ** Payload values *)

(** The JavaScript values that the kernel stores and that [rmv] receives
    as a selector.  A plain object is the list of its own enumerable
    properties, in enumeration order; a [Dot] instance is the plain object
    with the properties [id] and [counter].  [VContext] is an instance of
    [DotContext], the class of the repository whose prototype has a
    [join].  Objects are compared by their contents. *)
Inductive Value : Type :=
| VUndefined
| VNull
| VBool (b : bool)
| VNum (n : Z)
| VStr (s : string)
| VObj (props : list (string * Value))
| VContext (c : DotContext).

Module JsValue.

Definition dquote : ascii := ascii_of_nat 34.
Definition backslash : ascii := ascii_of_nat 92.

Definition hexDigit (n : nat) : ascii :=
  if (n <? 10)%nat then ascii_of_nat (48 + n) else ascii_of_nat (87 + n).

(** The escape of one code unit in [QuoteJSONString]. *)
Definition escapeChar (c : ascii) : string :=
  let n := nat_of_ascii c in
  if (n =? 8)%nat then String backslash "b"
  else if (n =? 9)%nat then String backslash "t"
  else if (n =? 10)%nat then String backslash "n"
  else if (n =? 12)%nat then String backslash "f"
  else if (n =? 13)%nat then String backslash "r"
  else if (n =? 34)%nat then String backslash (String dquote "")
  else if (n =? 92)%nat then String backslash (String backslash "")
  else if (n <? 32)%nat
  then String backslash
         (String "u" (String "0" (String "0"
            (String (hexDigit (n / 16)) (String (hexDigit (n mod 16)) "")))))
  else String c "".

Fixpoint escape (s : string) : string :=
  match s with
  | EmptyString => EmptyString
  | String c rest => escapeChar c ++ escape rest
  end.

Definition quote (s : string) : string :=
  String dquote (escape s ++ String dquote "").

(** [JSON.stringify]; [None] is the result [undefined]. *)
Fixpoint stringify (v : Value) : option string :=
  match v with
  | VUndefined => None
  | VNull => Some "null"
  | VBool true => Some "true"
  | VBool false => Some "false"
  | VNum n => Some (Js.numberToString n)
  | VStr s => Some (quote s)
  | VObj props =>
      let fix members (ps : list (string * Value)) (first : bool) : string :=
        match ps with
        | [] => ""
        | (k, x) :: ps' =>
            match stringify x with
            | None => members ps' first
            | Some sx =>
                (if first then "" else ",") ++ quote k ++ ":" ++ sx
                ++ members ps' false
            end
        end in
      Some ("{" ++ members props true ++ "}")
  | VContext _ =>
      (* a Map and a Set have no enumerable properties *)
      Some ("{" ++ quote "compactCausalContext" ++ ":{},"
                ++ quote "dotCloud" ++ ":{}}")
  end.

(** [JSON.stringify(a) === JSON.stringify(b)] *)
Definition sameJson (a b : Value) : bool :=
  match stringify a, stringify b with
  | Some x, Some y => String.eqb x y
  | None, None => true
  | _, _ => false
  end.

(** The conversion to string made by a template literal; an object is
    taken to inherit [Object.prototype.toString]. *)
Definition templateString (v : Value) : string :=
  match v with
  | VUndefined => "undefined"
  | VNull => "null"
  | VBool true => "true"
  | VBool false => "false"
  | VNum n => Js.numberToString n
  | VStr s => s
  | VObj _ => "[object Object]"
  | VContext c => DotContext.toString c
  end.

(** Property read [v.name] on an object; [VUndefined] when absent. *)
Definition getProp (name : string) (v : Value) : Value :=
  match v with
  | VObj props =>
      match JsMap.get name props with
      | Some x => x
      | None => VUndefined
      end
  | _ => VUndefined
  end.

Definition isUndefined (v : Value) : bool :=
  match v with VUndefined => true | _ => false end.

(** Truthiness, as tested by [left && ...]. *)
Definition truthy (v : Value) : bool :=
  match v with
  | VUndefined | VNull => false
  | VBool b => b
  | VNum n => negb (n =? 0)
  | VStr s => negb (String.eqb s "")
  | VObj _ | VContext _ => true
  end.

Definition eqbContext (a b : DotContext) : bool :=
  bool_decide (compactCausalContext a = compactCausalContext b)
  && bool_decide (dotCloud a = dotCloud b).

(** SameValueZero, the equality of the elements of a [Set]; objects,
    which have no identity here, are compared by content. *)
Fixpoint sameValueZero (a b : Value) : bool :=
  match a, b with
  | VUndefined, VUndefined => true
  | VNull, VNull => true
  | VBool x, VBool y => Bool.eqb x y
  | VNum x, VNum y => x =? y
  | VStr x, VStr y => String.eqb x y
  | VObj ps, VObj qs =>
      (fix props (ps qs : list (string * Value)) : bool :=
         match ps, qs with
         | [], [] => true
         | (k, x) :: ps', (l, y) :: qs' =>
             String.eqb k l && sameValueZero x y && props ps' qs'
         | _, _ => false
         end) ps qs
  | VContext c, VContext d => eqbContext c d
  | _, _ => false
  end.

End JsValue.

(** [Dot.isDotLikeObject] *)
Definition isDotLikeObject (dot : Value) : bool :=
  match dot with
  | VObj _ =>
      negb (JsValue.isUndefined (JsValue.getProp "id" dot))
      && negb (JsValue.isUndefined (JsValue.getProp "counter" dot))
  | _ => false
  end.

(** static [Dot.toString] on a dot-like object: [Dot.toDot] builds
    [new Dot(dot.id, dot.counter)], whose [toString] is the template
    [`${this.id}:${this.counter}`]. *)
Definition dotLikeToString (dot : Value) : string :=
  JsValue.templateString (JsValue.getProp "id" dot) ++ ":"
  ++ JsValue.templateString (JsValue.getProp "counter" dot).

(** ** delta-helpers.js *)

Module DeltaHelpers.

Section Join.
(** [joinMethod left] is [Some m] when [typeof left.join] is
    ['function']; [m right] is then the outcome of [res.join(right)] on
    the copy [res] of [left] that the helper makes with
    [Object.create] and [Object.assign]: the copy after the call, or
    what the call throws. *)
Variable joinMethod : Value -> option (Value -> Outcome Value).

Definition join (left right : Value) : Outcome Value :=
  match left, right with
  | VNum l, VNum r => Ok (VNum (Z.max l r))
  | _, _ =>
      if JsValue.truthy left then
        match joinMethod left with
        | Some m => m right
        | None => Throw CannotJoin
        end
      else Throw CannotJoin
  end.
End Join.

(** The join methods of the classes of the repository that a payload can
    be an instance of: [DotContext.prototype.join].  Its argument must
    have an iterable [compactCausalContext] and [dotCloud]; of the values
    of the model only a [DotContext] has them, the engine raises a
    [TypeError] on the others. *)
Definition repoJoinMethod (left : Value) : option (Value -> Outcome Value) :=
  match left with
  | VContext c =>
      Some (fun right =>
              match right with
              | VContext other =>
                  let! c' := DotContext.join c other in Ok (VContext c')
              | _ => Throw TypeError
              end)
  | _ => None
  end.

End DeltaHelpers.

(** ** The heap of shared objects *)

(** A kernel holds its map itself and names its two contexts by their
    position in the heap: several kernels may name the same context. *)
Record DotKernel : Type := mkKernel {
  dataStorage : JsMap.t Value;   (* Map<"id:counter", value> *)
  contextBase : nat;
  sharedContext : nat
}.

Record Heap : Type := mkHeap {
  contexts : list DotContext;
  kernels : list DotKernel
}.

Module Heap.

Definition empty : Heap := mkHeap [] [].

Definition getContext (r : nat) (h : Heap) : Outcome DotContext :=
  match contexts h !! r with
  | Some c => Ok c
  | None => Throw TypeError
  end.

Definition setContext (r : nat) (c : DotContext) (h : Heap) : Heap :=
  mkHeap (<[r := c]> (contexts h)) (kernels h).

Definition allocContext (c : DotContext) (h : Heap) : nat * Heap :=
  (length (contexts h), mkHeap (contexts h ++ [c])%list (kernels h)).

Definition getKernel (r : nat) (h : Heap) : Outcome DotKernel :=
  match kernels h !! r with
  | Some k => Ok k
  | None => Throw TypeError
  end.

Definition setKernel (r : nat) (k : DotKernel) (h : Heap) : Heap :=
  mkHeap (contexts h) (<[r := k]> (kernels h)).

Definition allocKernel (k : DotKernel) (h : Heap) : nat * Heap :=
  (length (kernels h), mkHeap (contexts h) (kernels h ++ [k])%list).

(** [this.dataStorage] of kernel [r] becomes [st]. *)
Definition setStorage (r : nat) (st : JsMap.t Value) (h : Heap) : Outcome Heap :=
  let! k := getKernel r h in
  Ok (setKernel r (mkKernel st (contextBase k) (sharedContext k)) h).

End Heap.

(** ** dot-kernel.js *)

Module DotKernel.

(** [new DotKernel(sharedContext)]: the default [contextBase] is a new
    context, and [sharedContext || this.contextBase]. *)
Definition new (shared : option nat) (h : Heap) : nat * Heap :=
  let '(base, h1) := Heap.allocContext DotContext.empty h in
  Heap.allocKernel
    (mkKernel [] base (match shared with Some s => s | None => base end)) h1.

(** The value read by [otherKernel.dataStorage.get(otherDot)]. *)
Definition getValue (k : string) (m : JsMap.t Value) : Value :=
  match JsMap.get k m with
  | Some v => v
  | None => VUndefined
  end.

Section WithBuiltins.
Variable localeCompare : string -> string -> Z.
Variable joinMethod : Value -> option (Value -> Outcome Value).

(** The [while] loop of [join]: [thisDots] from index [i] and
    [otherDots] from index [j]; [st] is [this.dataStorage]. *)
Fixpoint joinLoop (thisCtx otherCtx : DotContext) (otherStorage : JsMap.t Value)
    (thisDots : list string)
    : list string -> JsMap.t Value -> Outcome (JsMap.t Value) :=
  fix inner (otherDots : list string) (st : JsMap.t Value)
      : Outcome (JsMap.t Value) :=
    let onlyInThis thisDot rest :=
      let! known := DotContext.dotIn otherCtx (InStr thisDot) in
      joinLoop thisCtx otherCtx otherStorage rest otherDots
               (if known then JsMap.delete thisDot st else st) in
    let onlyInOther otherDot rest :=
      let! known := DotContext.dotIn thisCtx (InStr otherDot) in
      inner rest
            (if known then st
             else JsMap.set otherDot (getValue otherDot otherStorage) st) in
    match thisDots, otherDots with
    | [], [] => Ok st
    | thisDot :: ts, [] => onlyInThis thisDot ts
    | [], otherDot :: os => onlyInOther otherDot os
    | thisDot :: ts, otherDot :: os =>
        if Js.stringLt thisDot otherDot then onlyInThis thisDot ts
        else
          let! c := Dot.compare localeCompare (InStr otherDot) (InStr thisDot) in
          if c <? 0 then onlyInOther otherDot os
          else joinLoop thisCtx otherCtx otherStorage ts os st
    end.

(** [this.sharedContext.join(otherKernel.sharedContext)], with the
    identity test of [DotContext.join]. *)
Definition joinContexts (this other : nat) (h : Heap) : Outcome Heap :=
  if Nat.eqb this other then Ok h
  else
    let! c := Heap.getContext this h in
    let! o := Heap.getContext other h in
    let! c' := DotContext.join c o in
    Ok (Heap.setContext this c' h).

(** [join] *)
Definition join (this otherKernel : nat) (h : Heap) : Outcome Heap :=
  if Nat.eqb this otherKernel then Ok h
  else
    let! kt := Heap.getKernel this h in
    let! ko := Heap.getKernel otherKernel h in
    let! thisDots := Dot.sortKeys localeCompare (JsMap.keys (dataStorage kt)) in
    let! otherDots := Dot.sortKeys localeCompare (JsMap.keys (dataStorage ko)) in
    let! thisCtx := Heap.getContext (sharedContext kt) h in
    let! otherCtx := Heap.getContext (sharedContext ko) h in
    let! st := joinLoop thisCtx otherCtx (dataStorage ko)
                        thisDots otherDots (dataStorage kt) in
    let! h1 := Heap.setStorage this st h in
    joinContexts (sharedContext kt) (sharedContext ko) h1.

(** The [while] loop of [deepJoin]. *)
Fixpoint deepJoinLoop (thisCtx otherCtx : DotContext) (otherStorage : JsMap.t Value)
    (thisDots : list string)
    : list string -> JsMap.t Value -> Outcome (JsMap.t Value) :=
  fix inner (otherDots : list string) (st : JsMap.t Value)
      : Outcome (JsMap.t Value) :=
    let onlyInThis thisDot rest :=
      let! known := DotContext.dotIn otherCtx (InStr thisDot) in
      deepJoinLoop thisCtx otherCtx otherStorage rest otherDots
                   (if known then JsMap.delete thisDot st else st) in
    let onlyInOther otherDot rest :=
      let! known := DotContext.dotIn thisCtx (InStr otherDot) in
      inner rest
            (if known then st
             else JsMap.set otherDot (getValue otherDot otherStorage) st) in
    match thisDots, otherDots with
    | [], [] => Ok st
    | thisDot :: ts, [] => onlyInThis thisDot ts
    | [], otherDot :: os => onlyInOther otherDot os
    | thisDot :: ts, otherDot :: os =>
        if Js.stringLt thisDot otherDot then onlyInThis thisDot ts
        else if Js.stringLt otherDot thisDot then onlyInOther otherDot os
        else
          let thisVal := getValue thisDot st in
          let otherVal := getValue otherDot otherStorage in
          if negb (JsValue.sameJson thisVal otherVal) then
            let! joined := DeltaHelpers.join joinMethod thisVal otherVal in
            deepJoinLoop thisCtx otherCtx otherStorage ts os
                         (JsMap.set thisDot joined st)
          else deepJoinLoop thisCtx otherCtx otherStorage ts os st
    end.

(** [deepJoin] *)
Definition deepJoin (this other : nat) (h : Heap) : Outcome Heap :=
  if Nat.eqb this other then Ok h
  else
    let! kt := Heap.getKernel this h in
    let! ko := Heap.getKernel other h in
    let! thisDots := Dot.sortKeys localeCompare (JsMap.keys (dataStorage kt)) in
    let! otherDots := Dot.sortKeys localeCompare (JsMap.keys (dataStorage ko)) in
    let! thisCtx := Heap.getContext (sharedContext kt) h in
    let! otherCtx := Heap.getContext (sharedContext ko) h in
    let! st := deepJoinLoop thisCtx otherCtx (dataStorage ko)
                            thisDots otherDots (dataStorage kt) in
    let! h1 := Heap.setStorage this st h in
    joinContexts (sharedContext kt) (sharedContext ko) h1.
End WithBuiltins.

(** [add]: the delta kernel and the heap after the call. *)
Definition add (this : nat) (i : string) (val : Value) (h : Heap)
    : Outcome (nat * Heap) :=
  let '(res, h1) := new None h in
  let! kt := Heap.getKernel this h1 in
  let! ctx := Heap.getContext (sharedContext kt) h1 in
  let '(dot, ctx') := DotContext.makeDot ctx i in
  let h2 := Heap.setContext (sharedContext kt) ctx' h1 in
  let dotStr := Dot.toStringDot dot in
  let! h3 := Heap.setStorage this (JsMap.set dotStr val (dataStorage kt)) h2 in
  let! kr := Heap.getKernel res h3 in
  let! h4 := Heap.setStorage res (JsMap.set dotStr val (dataStorage kr)) h3 in
  let! rctx := Heap.getContext (sharedContext kr) h4 in
  let! rctx' := DotContext.insertDot rctx (InDot dot) true in
  Ok (res, Heap.setContext (sharedContext kr) rctx' h4).

(** [dotAdd]: the new dot and the heap after the call. *)
Definition dotAdd (this : nat) (i : string) (val : Value) (h : Heap)
    : Outcome (Dot * Heap) :=
  let! kt := Heap.getKernel this h in
  let! ctx := Heap.getContext (sharedContext kt) h in
  let '(dot, ctx') := DotContext.makeDot ctx i in
  let h1 := Heap.setContext (sharedContext kt) ctx' h in
  let dotStr := Dot.toStringDot dot in
  let! h2 := Heap.setStorage this (JsMap.set dotStr val (dataStorage kt)) h1 in
  Ok (dot, h2).

(** [res.sharedContext.insertDot(dotStr, false)] for each of [dots]. *)
Fixpoint insertDots (dots : list string) (ctx : DotContext) : Outcome DotContext :=
  match dots with
  | [] => Ok ctx
  | dotStr :: rest =>
      let! ctx' := DotContext.insertDot ctx (InStr dotStr) false in
      insertDots rest ctx'
  end.

(** The keys of the entries whose value has the JSON text of [val]. *)
Definition matching (val : Value) (st : JsMap.t Value) : list string :=
  map fst (filter (fun kv => JsValue.sameJson (snd kv) val) st).

Definition deleteKeys (toDelete : list string) (st : JsMap.t Value) : JsMap.t Value :=
  fold_left (fun m k => JsMap.delete k m) toDelete st.

(** [rmv(val = null)]: the delta kernel and the heap after the call.
    An omitted or [undefined] argument takes the default [null]. *)
Definition rmv (this : nat) (val : Value) (h : Heap) : Outcome (nat * Heap) :=
  let '(res, h1) := new None h in
  let! kt := Heap.getKernel this h1 in
  let! kr := Heap.getKernel res h1 in
  let! rctx := Heap.getContext (sharedContext kr) h1 in
  match val with
  | VNull | VUndefined =>
      (* Remove all dots *)
      let! rctx1 := insertDots (JsMap.keys (dataStorage kt)) rctx in
      let! rctx2 := DotContext.compact rctx1 in
      let h2 := Heap.setContext (sharedContext kr) rctx2 h1 in
      let! h3 := Heap.setStorage this [] h2 in
      Ok (res, h3)
  | _ =>
      if isDotLikeObject val then
        (* Remove specific dot *)
        let dotStr := dotLikeToString val in
        if JsMap.has dotStr (dataStorage kt) then
          let! rctx1 := DotContext.insertDot rctx (InStr dotStr) false in
          let h2 := Heap.setContext (sharedContext kr) rctx1 h1 in
          let! h3 := Heap.setStorage this (JsMap.delete dotStr (dataStorage kt)) h2 in
          let! rctx2 := DotContext.compact rctx1 in
          Ok (res, Heap.setContext (sharedContext kr) rctx2 h3)
        else
          let! rctx2 := DotContext.compact rctx in
          Ok (res, Heap.setContext (sharedContext kr) rctx2 h1)
      else
        (* Remove all dots matching value *)
        let toDelete := matching val (dataStorage kt) in
        let! rctx1 := insertDots toDelete rctx in
        let h2 := Heap.setContext (sharedContext kr) rctx1 h1 in
        let! h3 := Heap.setStorage this (deleteKeys toDelete (dataStorage kt)) h2 in
        let! rctx2 := DotContext.compact rctx1 in
        Ok (res, Heap.setContext (sharedContext kr) rctx2 h3)
  end.

(** [clone] *)
Definition clone (this : nat) (h : Heap) : Outcome (nat * Heap) :=
  let! kt := Heap.getKernel this h in
  let! base := Heap.getContext (contextBase kt) h in
  if Nat.eqb (sharedContext kt) (contextBase kt) then
    let '(clonedContext, h1) := Heap.allocContext (DotContext.clone base) h in
    Ok (Heap.allocKernel (mkKernel (dataStorage kt) clonedContext clonedContext) h1)
  else
    let '(clonedBase, h1) := Heap.allocContext (DotContext.clone base) h in
    Ok (Heap.allocKernel (mkKernel (dataStorage kt) clonedBase (sharedContext kt)) h1).

End DotKernel.

(** ** 3-mv-register.js *)

Record MVReg : Type := mkMVReg {
  dotKernel : nat;
  regId : option string    (* [None] is the default [null] *)
}.

Module MVReg.

(** [new MVReg(id, sharedContext)] *)
Definition new (i : option string) (shared : option nat) (h : Heap) : MVReg * Heap :=
  let '(k, h1) := DotKernel.new shared h in
  (mkMVReg k i, h1).

(** [context] *)
Definition context (this : MVReg) (h : Heap) : Outcome nat :=
  let! k := Heap.getKernel (dotKernel this) h in Ok (sharedContext k).

Section WithBuiltins.
Variable localeCompare : string -> string -> Z.

(** [join]; the register itself is unchanged. *)
Definition join (this other : MVReg) (h : Heap) : Outcome Heap :=
  DotKernel.join localeCompare (dotKernel this) (dotKernel other) h.

(** [write]: the delta register and the heap after the call.  The two
    registers made by [new MVReg()] get their kernel replaced at once. *)
Definition write (this : MVReg) (val : Value) (h : Heap) : Outcome (MVReg * Heap) :=
  match regId this with
  | None => Unmodelled
  | Some i =>
      let '(r0, h1) := new None None h in
      let '(a0, h2) := new None None h1 in
      let! '(rk, h3) := DotKernel.rmv (dotKernel this) VNull h2 in
      let r := mkMVReg rk (regId r0) in
      let! '(ak, h4) := DotKernel.add (dotKernel this) i val h3 in
      let a := mkMVReg ak (regId a0) in
      let! h5 := join r a h4 in
      Ok (r, h5)
  end.
End WithBuiltins.

(** The insertion of a value into a [Set]. *)
Definition setAdd (v : Value) (s : list Value) : list Value :=
  if existsb (JsValue.sameValueZero v) s then s else (s ++ [v])%list.

(** [read] *)
Definition read (this : MVReg) (h : Heap) : Outcome (list Value) :=
  let! k := Heap.getKernel (dotKernel this) h in
  Ok (fold_left (fun s v => setAdd v s) (JsMap.values (dataStorage k)) []).

(** [reset] *)
Definition reset (this : MVReg) (h : Heap) : Outcome (MVReg * Heap) :=
  let '(r0, h1) := new None None h in
  let! '(rk, h2) := DotKernel.rmv (dotKernel this) VNull h1 in
  Ok (mkMVReg rk (regId r0), h2).

End MVReg.

(** ** Sequences of public operations *)

(** The public operations on kernels, each on objects named by their
    position in the heap. *)
Inductive Op : Type :=
| OpNewContext                                 (* new DotContext() *)
| OpNewKernel (shared : option nat)            (* new DotKernel(ctx) *)
| OpAdd (k : nat) (i : string) (val : Value)   (* k.add(i, val) *)
| OpDotAdd (k : nat) (i : string) (val : Value)
| OpRmv (k : nat) (sel : Value)                (* k.rmv(sel) *)
| OpJoin (k other : nat)
| OpDeepJoin (k other : nat)
| OpClone (k : nat).

Module World.

(** A heap with one empty kernel that owns its context. *)
Definition initial : Heap := snd (DotKernel.new None Heap.empty).

Section WithBuiltins.
Variable localeCompare : string -> string -> Z.
Variable joinMethod : Value -> option (Value -> Outcome Value).

(** An operation is a method call on an object that exists: the kernel
    is looked up before a call that starts by allocating its result. *)
Definition step (op : Op) (h : Heap) : Outcome Heap :=
  match op with
  | OpNewContext => Ok (snd (Heap.allocContext DotContext.empty h))
  | OpNewKernel None => Ok (snd (DotKernel.new None h))
  | OpNewKernel (Some c) =>
      let! _ := Heap.getContext c h in
      Ok (snd (DotKernel.new (Some c) h))
  | OpAdd k i val =>
      let! _ := Heap.getKernel k h in
      let! '(_, h') := DotKernel.add k i val h in Ok h'
  | OpDotAdd k i val => let! '(_, h') := DotKernel.dotAdd k i val h in Ok h'
  | OpRmv k sel =>
      let! _ := Heap.getKernel k h in
      let! '(_, h') := DotKernel.rmv k sel h in Ok h'
  | OpJoin k other => DotKernel.join localeCompare k other h
  | OpDeepJoin k other => DotKernel.deepJoin localeCompare joinMethod k other h
  | OpClone k => let! '(_, h') := DotKernel.clone k h in Ok h'
  end.

Fixpoint run (ops : list Op) (h : Heap) : Outcome Heap :=
  match ops with
  | [] => Ok h
  | op :: rest => let! h' := step op h in run rest h'
  end.
End WithBuiltins.

End World.

(** ** A collation for the examples *)

(** The comparison of two strings by code units, as a comparator. *)
Definition codeUnitCompare (a b : string) : Z :=
  if Js.stringLt a b then -1 else if Js.stringLt b a then 1 else 0.

(** ** Well-formed identifiers and keys *)

Fixpoint noSep (sep : ascii) (s : string) : bool :=
  match s with
  | EmptyString => true
  | String c rest => negb (Ascii.eqb c sep) && noSep sep rest
  end.

(** A replica identifier: not empty and without the delimiter [':']. *)
Definition wfId (i : string) : bool :=
  negb (String.eqb i "") && noSep ":" i.

(** A key ["id:counter"] that [Dot.fromString] reads and [toString]
    writes back unchanged. *)
Definition wfKey (k : string) : bool :=
  match Dot.fromString k with
  | Ok d => String.eqb (Dot.toStringDot d) k
  | _ => false
  end.

(** The number written by a sequence of decimal digits after [acc]. *)
Fixpoint uintValue (d : Decimal.uint) (acc : Z) : Z :=
  match d with
  | Decimal.Nil => acc
  | Decimal.D0 d => uintValue d (acc * 10 + 0)
  | Decimal.D1 d => uintValue d (acc * 10 + 1)
  | Decimal.D2 d => uintValue d (acc * 10 + 2)
  | Decimal.D3 d => uintValue d (acc * 10 + 3)
  | Decimal.D4 d => uintValue d (acc * 10 + 4)
  | Decimal.D5 d => uintValue d (acc * 10 + 5)
  | Decimal.D6 d => uintValue d (acc * 10 + 6)
  | Decimal.D7 d => uintValue d (acc * 10 + 7)
  | Decimal.D8 d => uintValue d (acc * 10 + 8)
  | Decimal.D9 d => uintValue d (acc * 10 + 9)
  end.

(** ** Inputs used by the examples *)

(** The context reached by [insertDot({id: 'a', counter: 2})] on a new
    context followed by [makeDot('a')]. *)
Definition staleCloudContext : Outcome DotContext :=
  let! c := DotContext.insertDot DotContext.empty (InDot (mkDot "a" 2)) true in
  Ok (snd (DotContext.makeDot c "a")).

(** ** Vocabulary of the statements *)

(** [Number.isSafeInteger] on an integer: the integers that a number
    holds exactly together with their neighbours.  On them [n + 1] is
    not rounded, the string of [n] is its decimal notation and
    [parseInt] of that notation is [n]. *)
Definition safeInteger (n : Z) : bool := Z.abs n <? 2 ^ 53.

(** [CCC[id]], taken as [0] when the map has no entry for [id]. *)
Definition cccOrZero (c : DotContext) (i : string) : Z :=
  match JsMap.get i (compactCausalContext c) with
  | Some k => k
  | None => 0
  end.

(** The counters that the operations can reach from an empty context:
    [makeDot] counts up to [2^53], where the sum [current + 1] is
    rounded back to [current]. *)
Definition boundedCounter (n : Z) : Prop := Z.abs n <= 2 ^ 53.

(** A string that, read as a dot, has a bounded counter. *)
Definition boundedKey (s : string) : Prop :=
  forall d, Dot.fromString s = Ok d -> boundedCounter (counter d).

Definition boundedContext (c : DotContext) : Prop :=
  (forall i k, In (i, k) (compactCausalContext c) -> boundedCounter k)
  /\ (forall s, In s (dotCloud c) -> boundedKey s).

Definition boundedHeap (h : Heap) : Prop :=
  (forall r c, contexts h !! r = Some c -> boundedContext c)
  /\ (forall r k key,
        kernels h !! r = Some k -> In key (JsMap.keys (dataStorage k)) ->
        boundedKey key).

(** What a cloud entry must satisfy to be left in place by a pass that
    does not change the map. *)
Definition staysBeyond (cc : JsMap.t Z) (d : Dot) : Prop :=
  match JsMap.get (id d) cc with
  | None => counter d <> 1
  | Some k => counter d > k + 1
  end.

(** The heap after a join of [this] with another kernel: only the storage
    of [this] and the context that [this] names are written, and the
    context only when the other kernel names another one. *)
Definition joinWrites (this other : nat) (h h' : Heap) : Prop :=
  exists kt ko st,
    kernels h !! this = Some kt
    /\ kernels h !! other = Some ko
    /\ kernels h' = <[this := mkKernel st (contextBase kt) (sharedContext kt)]> (kernels h)
    /\ ((sharedContext kt = sharedContext ko /\ contexts h' = contexts h)
        \/ (sharedContext kt <> sharedContext ko
            /\ exists c', contexts h' = <[sharedContext kt := c']> (contexts h))).


(** Two kernels that name the same context, as made by
    [new DotKernel(ctx)] twice, after one [add] on each. *)
Definition sharedContextHeap : Heap :=
  mkHeap [mkContext [("a", 1); ("b", 1)] []; DotContext.empty; DotContext.empty]
         [mkKernel [("a:1", VStr "x")] 1 0; mkKernel [("b:1", VStr "y")] 2 0].

(** Membership of a dot in a context, as [dotIn] decides it once its
    argument is a [Dot]. *)
Definition member (c : DotContext) (d : Dot) : bool :=
  match JsMap.get (id d) (compactCausalContext c) with
  | Some k => (counter d <=? k) || JsSet.has (Dot.toStringDot d) (dotCloud c)
  | None => JsSet.has (Dot.toStringDot d) (dotCloud c)
  end.

(** Kernel anchoring: every key of the storage of every kernel is a
    member of the context the kernel names. *)
Definition dotInAt (h : Heap) (ctx : nat) (key : string) : Prop :=
  exists c, contexts h !! ctx = Some c /\ DotContext.dotIn c (InStr key) = Ok true.

Definition anchored (h : Heap) : Prop :=
  forall r k key,
    kernels h !! r = Some k -> In key (JsMap.keys (dataStorage k)) ->
    dotInAt h (sharedContext k) key.

(** Every context of [h] is still there in [h'], with at least its
    members. *)
Definition contextsGrow (h h' : Heap) : Prop :=
  forall r c, contexts h !! r = Some c ->
    exists c', contexts h' !! r = Some c'
      /\ forall d, member c d = true -> member c' d = true.

(** The arguments of an operation are well formed when the replica
    identifiers it is given are. *)
Definition wfOp (op : Op) : Prop :=
  match op with
  | OpAdd _ i _ | OpDotAdd _ i _ => wfId i = true
  | _ => True
  end.

(** The map of [c'] is at or above the map of [c]. *)
Definition mapLe (cc cc' : JsMap.t Z) : Prop :=
  forall i k, JsMap.get i cc = Some k -> exists k', JsMap.get i cc' = Some k' /\ k <= k'.

(** Every kernel names contexts of the heap. *)
Definition validRefs (h : Heap) : Prop :=
  forall r k, kernels h !! r = Some k ->
    (sharedContext k < length (contexts h))%nat
    /\ (contextBase k < length (contexts h))%nat.

Definition heapInv (h : Heap) : Prop := validRefs h /\ anchored h.

(** An optional write at one position of a list. *)
Definition optInsert {A : Type} (o : option (nat * A)) (l : list A) : list A :=
  match o with
  | Some (i, x) => <[i := x]> l
  | None => l
  end.

(** A run through every public operation: two replicas that both write
    as ["a"], a delta delivered by [join], a clone, the three modes of
    [rmv], a kernel made on a shared context and a [deepJoin] of numeric
    payloads. *)
Definition sampleOps : list Op :=
  [ OpAdd 0 "a" (VNum 5); OpAdd 0 "b" (VStr "x"); OpDotAdd 0 "a" (VNum 7);
    OpNewKernel None; OpAdd 3 "a" (VNum 9); OpJoin 3 1;
    OpClone 0; OpRmv 5 (VObj [("id", VStr "a"); ("counter", VNum 2)]);
    OpDeepJoin 0 3; OpJoin 0 5; OpRmv 5 (VStr "x");
    OpNewContext; OpNewKernel (Some 8%nat); OpAdd 8 "c" VNull; OpJoin 8 0;
    OpRmv 3 VNull ].

(** Every entry of the dot cloud reads as a dot. *)
Definition cloudParses (c : DotContext) : Prop :=
  forall s, In s (dotCloud c) -> exists d, Dot.fromString s = Ok d.

(** A register of replica [n1] that holds two concurrent values. *)
Definition multiValuedHeap : Heap :=
  mkHeap [mkContext [("n1", 1); ("n2", 1)] []]
         [mkKernel [("n1:1", VStr "A"); ("n2:1", VStr "B")] 0 0].

(** The kernel of replica ["a"] at two moments: kernel 0 after its ninth
    write, kernel 1 later, once the ninth write was removed and a tenth
    made. *)
Definition digitLengthHeap : Heap :=
  mkHeap [mkContext [("a", 9)] []; mkContext [("a", 10)] []]
         [mkKernel [("a:9", VStr "x")] 0 0; mkKernel [("a:10", VStr "y")] 1 1].

(** ** Vocabulary of the lattice laws *)

(** [const r = a.clone(); r.join(b)]: the storage of [r] and the context
    it names after the two calls. *)
Definition joinedClone (lc : string -> string -> Z) (a b : nat) (h : Heap)
    : Outcome (JsMap.t Value * DotContext) :=
  let! '(r, h1) := DotKernel.clone a h in
  let! h2 := DotKernel.join lc r b h1 in
  let! k := Heap.getKernel r h2 in
  let! c := Heap.getContext (sharedContext k) h2 in
  Ok (dataStorage k, c).

(** Two replicas that both wrote as ["a"]: the same dot names two
    writes. *)
Definition twoWritersHeap : Heap :=
  mkHeap [mkContext [("a", 1)] []; mkContext [("a", 1)] []]
         [mkKernel [("a:1", VNum 5)] 0 0; mkKernel [("a:1", VNum 8)] 1 1].

(** A collation that is a strict total order: exchanging the arguments
    exchanges the sign, only equal strings compare as [0], and "before"
    is transitive. *)
Definition strictCollation (lc : string -> string -> Z) : Prop :=
  (forall a b, Z.sgn (lc b a) = - Z.sgn (lc a b))
  /\ (forall a b, lc a b = 0 -> a = b)
  /\ (forall a b c, lc a b < 0 -> lc b c < 0 -> lc a c < 0).

(** [Dot.compare(x, y) < 0] on two keys. *)
Definition keyLtb (lc : string -> string -> Z) (x y : string) : bool :=
  match Dot.compare lc (InStr x) (InStr y) with
  | Ok c => c <? 0
  | _ => false
  end.

(** The operator [<] on the key strings and [Dot.compare] give the same
    answer on every pair of a key of [sa] and a key of [sb]. *)
Definition ordersAgree (lc : string -> string -> Z) (sa sb : JsMap.t Value) : Prop :=
  forall x y, In x (JsMap.keys sa) -> In y (JsMap.keys sb) ->
    Js.stringLt x y = keyLtb lc x y /\ Js.stringLt y x = keyLtb lc y x.

(** The storage of a kernel: a [Map] has each key once, and every key is
    the string of a dot. *)
Definition wfStorage (st : JsMap.t Value) : Prop :=
  NoDup (JsMap.keys st) /\ forall key, In key (JsMap.keys st) -> wfKey key = true.

(** Every entry of the dot cloud is the string of a dot. *)
Definition wfCloud (c : DotContext) : Prop :=
  forall s, In s (dotCloud c) -> wfKey s = true.

(** A dot held by both storages carries the same value in both: a dot
    names one write. *)
Definition sameWrites (sa sb : JsMap.t Value) : Prop :=
  forall key va vb,
    JsMap.get key sa = Some va -> JsMap.get key sb = Some vb -> va = vb.

(** [c.dotIn(key)] where the call returns. *)
Definition knows (c : DotContext) (key : string) : bool :=
  match DotContext.dotIn c (InStr key) with
  | Ok b => b
  | _ => false
  end.

(** What the merge loop of [join] leaves under [key] when the two arrays
    are read as sets. *)
Definition merged (thisCtx otherCtx : DotContext) (otherStorage : JsMap.t Value)
    (thisDots otherDots : list string) (st : JsMap.t Value) (key : string)
    : option Value :=
  match JsSet.has key thisDots, JsSet.has key otherDots with
  | true, false => if knows otherCtx key then None else JsMap.get key st
  | false, true =>
      if knows thisCtx key then JsMap.get key st
      else Some (DotKernel.getValue key otherStorage)
  | _, _ => JsMap.get key st
  end.

(** A context: the map has each replica once, and the cloud holds strings
    of dots. *)
Definition wfContext (c : DotContext) : Prop :=
  NoDup (JsMap.keys (compactCausalContext c)) /\ wfCloud c.

(** Commutativity of [join] at two kernels of a heap: [a.clone()] joined
    with [b] and [b.clone()] joined with [a], each made in the state
    [h], both return, the two storages hold the same entries, and the
    two contexts answer [dotIn] alike on every dot (the counter of a dot
    is positive). *)
Definition joinCommutes (lc : string -> string -> Z) (a b : nat) (h : Heap) : Prop :=
  exists st1 c1 st2 c2,
    joinedClone lc a b h = Ok (st1, c1)
    /\ joinedClone lc b a h = Ok (st2, c2)
    /\ (forall key, JsMap.get key st1 = JsMap.get key st2)
    /\ (forall d, 1 <= counter d ->
          DotContext.dotIn c1 (InDot d) = DotContext.dotIn c2 (InDot d)).

(** Two replicas after some exchange: kernel 0 has removed [b:1] and
    holds [b:2]; kernel 1 still holds [b:1] and has received [c:2]
    before [c:1]. *)
Definition divergedHeap : Heap :=
  mkHeap [mkContext [("a", 1); ("b", 2)] [];
          mkContext [("a", 1); ("b", 1)] ["c:2"]]
         [mkKernel [("a:1", VStr "x"); ("b:2", VStr "y")] 0 0;
          mkKernel [("c:2", VStr "z"); ("b:1", VStr "w"); ("a:1", VStr "x")] 1 1].

(** ** dot.js: the comparison methods of a dot *)

Module DotMethods.

Section WithCollation.
Variable localeCompare : string -> string -> Z.

(** [gt], [gte], [lt], [lte]: [this] is a [Dot] instance, [other] is
    whatever [Dot.compare] converts. *)
Definition gt (this : Dot) (other : DotInput) : Outcome bool :=
  let! c := Dot.compare localeCompare (InDot this) other in Ok (0 <? c).

Definition gte (this : Dot) (other : DotInput) : Outcome bool :=
  let! c := Dot.compare localeCompare (InDot this) other in Ok (0 <=? c).

Definition lt (this : Dot) (other : DotInput) : Outcome bool :=
  let! c := Dot.compare localeCompare (InDot this) other in Ok (c <? 0).

Definition lte (this : Dot) (other : DotInput) : Outcome bool :=
  let! c := Dot.compare localeCompare (InDot this) other in Ok (c <=? 0).
End WithCollation.

End DotMethods.

(** The keys that [rmv] takes out of a storage, by the mode that the
    selector chooses: every key, the one key of a dot-like selector
    when the storage has it, or the keys whose value has the JSON text
    of the selector. *)
Definition removedKeys (sel : Value) (st : JsMap.t Value) : list string :=
  match sel with
  | VNull | VUndefined => JsMap.keys st
  | _ =>
      if isDotLikeObject sel then
        if JsMap.has (dotLikeToString sel) st then [dotLikeToString sel] else []
      else DotKernel.matching sel st
  end.

(** What the merge loop of [deepJoin] leaves under [key] when the two
    arrays are read as sets: as [merged], except that a key of both
    sides whose two values differ in JSON text gets their join. *)
Definition deepMerged (jm : Value -> option (Value -> Outcome Value))
    (thisCtx otherCtx : DotContext) (otherStorage : JsMap.t Value)
    (thisDots otherDots : list string) (st : JsMap.t Value) (key : string)
    : option Value :=
  match JsSet.has key thisDots, JsSet.has key otherDots with
  | true, false => if knows otherCtx key then None else JsMap.get key st
  | false, true =>
      if knows thisCtx key then JsMap.get key st
      else Some (DotKernel.getValue key otherStorage)
  | true, true =>
      let thisVal := DotKernel.getValue key st in
      let otherVal := DotKernel.getValue key otherStorage in
      if negb (JsValue.sameJson thisVal otherVal) then
        match DeltaHelpers.join jm thisVal otherVal with
        | Ok v => Some v
        | _ => None
        end
      else JsMap.get key st
  | false, false => JsMap.get key st
  end.

(** ** 2-or-set.js *)

(** A delta-state observed-remove set.  The two private fields are plain
    objects used as maps from an item (a property key, here a string)
    to a [Set] of tags (strings, by default a random UUID that the
    caller of the model supplies).  A plain object inherits from
    [Object.prototype], so a read [o[item]] of an item that is not an
    own property answers an inherited member when the item is the name
    of one.  Own property keys are enumerated with array indices first,
    in ascending order, then the other keys in order of creation. *)
Module ORSet.

Definition TagMap : Type := JsMap.t JsSet.t.

(** The names of the members of [Object.prototype]. *)
Definition inheritedNames : list string :=
  [ "constructor"; "__defineGetter__"; "__defineSetter__"; "hasOwnProperty";
    "__lookupGetter__"; "__lookupSetter__"; "isPrototypeOf";
    "propertyIsEnumerable"; "toString"; "valueOf"; "__proto__";
    "toLocaleString" ].

(** The result of the read [o[item]]: an own [Set], an inherited member
    (a function or an object, truthy, neither iterable nor with a
    [has]), or [undefined]. *)
Inductive Lookup : Type :=
| Own (tags : JsSet.t)
| Inherited
| Absent.

Definition lookup (item : string) (o : TagMap) : Lookup :=
  match JsMap.get item o with
  | Some tags => Own tags
  | None => if JsSet.has item inheritedNames then Inherited else Absent
  end.

(** The number written by a string of decimal digits. *)
Fixpoint digitsValue (s : string) (acc : Z) : option Z :=
  match s with
  | EmptyString => Some acc
  | String c rest =>
      let n := Z.of_nat (nat_of_ascii c) in
      if (48 <=? n) && (n <=? 57) then digitsValue rest (acc * 10 + (n - 48))
      else None
  end.

(** An array index: a canonical numeric string below [2^32 - 1]. *)
Definition arrayIndex (s : string) : option Z :=
  match s with
  | EmptyString => None
  | String c rest =>
      if Ascii.eqb c "0" && negb (String.eqb rest "") then None
      else
        match digitsValue s 0 with
        | Some n => if n <? 4294967295 then Some n else None
        | None => None
        end
  end.

(** The creation of an own property: an array index goes before the
    first key that is not an array index or is a larger one, another
    key goes last. *)
Fixpoint insertIndex (n : Z) (k : string) (v : JsSet.t) (o : TagMap) : TagMap :=
  match o with
  | [] => [(k, v)]
  | (k', v') :: o' =>
      match arrayIndex k' with
      | Some n' => if n' <? n then (k', v') :: insertIndex n k v o'
                   else (k, v) :: o
      | None => (k, v) :: o
      end
  end.

(** The assignment [o[k] = v] where [k] is an own property or not the
    name of an inherited accessor. *)
Definition setProp (k : string) (v : JsSet.t) (o : TagMap) : TagMap :=
  if JsMap.has k o then JsMap.set k v o
  else
    match arrayIndex k with
    | Some n => insertIndex n k v o
    | None => (o ++ [(k, v)])%list
    end.

(** [new Set(iterable)] *)
Definition newSet (l : list string) : JsSet.t :=
  fold_left (fun s x => JsSet.add x s) l [].

Record t : Type := mk { added : TagMap; removed : TagMap }.

(** [init()] and [new DeltaORSet()] *)
Definition init : t := mk [] [].

(** The object spread [{ ...o }]: the own properties, created in
    order. *)
Definition spread (o : TagMap) : TagMap :=
  fold_left (fun acc kv => setProp (fst kv) (snd kv) acc) o [].

(** [new DeltaORSet({ added, removed })] *)
Definition new (a r : TagMap) : t := mk (spread a) (spread r).

(** The assignment [result[item] = v] on the new object [{}]: the name
    [__proto__] reaches the inherited setter and creates no own
    property. *)
Definition setFresh (item : string) (v : JsSet.t) : TagMap :=
  if String.eqb item "__proto__" then [] else [(item, v)].

(** [add(item, tag)]: the delta. *)
Definition add (item tag : string) (this : t) : Outcome t :=
  match lookup item (added this) with
  | Own a => Ok (mk (setFresh item (newSet (a ++ [tag]))) [])
  | Absent => Ok (mk (setFresh item (newSet [tag])) [])
  | Inherited => Throw TypeError     (* the spread of a value that is not iterable *)
  end.

(** [remove(item)]: the delta. *)
Definition remove (item : string) (this : t) : Outcome t :=
  match lookup item (added this) with
  | Absent => Ok init
  | Inherited => Throw TypeError
  | Own a =>
      match lookup item (removed this) with
      | Own r => Ok (mk [] (setFresh item (newSet (r ++ a))))
      | Absent => Ok (mk [] (setFresh item (newSet a)))
      | Inherited => Throw TypeError
      end
  end.

(** One of the two loops of [join], over the entries of a field of the
    delta. *)
Fixpoint joinEntries (entries : list (string * JsSet.t)) (o : TagMap)
    : Outcome TagMap :=
  match entries with
  | [] => Ok o
  | (item, deltaTags) :: rest =>
      match lookup item o with
      | Own a => joinEntries rest (setProp item (newSet (a ++ deltaTags)) o)
      | Absent => joinEntries rest (setProp item (newSet deltaTags) o)
      | Inherited => Throw TypeError
      end
  end.

(** [join(delta)]: the state of [this] after the call. *)
Definition join (delta this : t) : Outcome t :=
  let! a := joinEntries (added delta) (added this) in
  let! r := joinEntries (removed delta) (removed this) in
  Ok (mk a r).

(** The loop of the getter [value] over [Object.keys(this.#added)]. *)
Fixpoint valueLoop (items : list (string * JsSet.t)) (rem : TagMap)
    : Outcome (list string) :=
  match items with
  | [] => Ok []
  | (item, addTags) :: rest =>
      let live (remTags : JsSet.t) :=
        existsb (fun tag => negb (JsSet.has tag remTags)) addTags in
      match lookup item rem with
      | Own remTags =>
          let! result := valueLoop rest rem in
          Ok (if live remTags then item :: result else result)
      | Absent =>
          let! result := valueLoop rest rem in
          Ok (if live [] then item :: result else result)
      | Inherited =>
          match addTags with
          | [] => valueLoop rest rem
          | _ :: _ => Throw TypeError   (* [remTags.has] is not a function *)
          end
      end
  end.

Definition value (this : t) : Outcome (list string) :=
  valueLoop (added this) (removed this).

End ORSet.

(** ** Vocabulary of the observed-remove set *)

(** The tags recorded for an item, none when the item has no entry. *)
Definition tagsOf (item : string) (o : ORSet.TagMap) : JsSet.t :=
  match JsMap.get item o with
  | Some tags => tags
  | None => []
  end.

(** A field of a set: an object has each own key once, and no own key
    of the field is the name of a member of [Object.prototype]. *)
Definition wfTagMap (o : ORSet.TagMap) : Prop :=
  NoDup (JsMap.keys o)
  /\ forall k, In k (JsMap.keys o) -> JsSet.has k ORSet.inheritedNames = false.

Definition wfORSet (s : ORSet.t) : Prop :=
  wfTagMap (ORSet.added s) /\ wfTagMap (ORSet.removed s).

(** An item is in the set when one of its tags was not removed. *)
Definition liveIn (s : ORSet.t) (item : string) : Prop :=
  exists tag, In tag (tagsOf item (ORSet.added s))
              /\ ~ In tag (tagsOf item (ORSet.removed s)).

(** The two replicas of the usage script of [2-or-set.js] before they
    synchronise, with the tags named. *)
Definition replica0 : ORSet.t :=
  ORSet.mk [("a", ["t1"]); ("b", ["t2"])] [("a", ["t1"])].

Definition replica1 : ORSet.t :=
  ORSet.mk [("b", ["u1"]); ("c", ["u2"; "u3"])] [("b", ["u1"])].

(** Two registers in the same state: replica [n1] has written ["A"] and
    replica [n2] has received it. *)
Definition syncedHeap : Heap :=
  mkHeap [mkContext [("n1", 1)] []; mkContext [("n1", 1)] []]
         [mkKernel [("n1:1", VStr "A")] 0 0; mkKernel [("n1:1", VStr "A")] 1 1].

(** * Properties *)

(** ** Sums of counters *)

Lemma plus_safe c : Z.abs c < 2 ^ 53 -> Js.plus c 1 = c + 1.
Proof.
  intros Hc. unfold Js.plus, Js.roundToDouble.
  destruct (Z.ltb_spec (Z.abs (c + 1)) (2 ^ 53)) as [|Hge]; [done|].
  assert (c + 1 = 2 ^ 53) as -> by lia. by vm_compute.
Qed.

Lemma plus_stalls : Js.plus (2 ^ 53) 1 = 2 ^ 53.
Proof. by vm_compute. Qed.

Lemma plus_small c :
  Z.abs c <= 2 ^ 53 -> c <= Js.plus c 1 /\ Z.abs (Js.plus c 1) <= 2 ^ 53.
Proof.
  intros Hc. destruct (Z.eq_dec c (2 ^ 53)) as [->|Hne].
  - rewrite plus_stalls. lia.
  - destruct (Z.eq_dec c (- 2 ^ 53)) as [->|Hne'].
    + split; by vm_compute.
    + rewrite plus_safe by lia. lia.
Qed.

Lemma plus_pos c : 0 <= c -> 1 <= Js.plus c 1.
Proof.
  intros Hc. unfold Js.plus, Js.roundToDouble.
  destruct (Z.ltb_spec (Z.abs (c + 1)) (2 ^ 53)) as [|Hge]; [lia|].
  rewrite Z.abs_eq in * by lia. rewrite Z.sgn_pos by lia.
  set (m := c + 1) in *.
  assert (53 <= Z.log2 m) as Hlog by (apply Z.log2_le_pow2; lia).
  set (e := Z.log2 m - 52) in *.
  assert (0 < 2 ^ e) as Hpow by (apply Z.pow_pos_nonneg; lia).
  assert (2 ^ e <= m) as Hle.
  { transitivity (2 ^ Z.log2 m); [|apply Z.log2_spec; lia].
    apply Z.pow_le_mono_r; lia. }
  assert (0 < m / 2 ^ e) as Hq by (apply Z.div_str_pos; lia).
  assert (m / 2 ^ e <= (if m mod 2 ^ e <? 2 ^ (e - 1) then m / 2 ^ e
                        else if 2 ^ (e - 1) <? m mod 2 ^ e then m / 2 ^ e + 1
                        else if Z.even (m / 2 ^ e) then m / 2 ^ e else m / 2 ^ e + 1)) as Hq'.
  { repeat match goal with |- context [if ?b then _ else _] => destruct b end; lia. }
  nia.
Qed.

(** ** Outcomes *)

Lemma bindO_Ok {A B : Type} (m : Outcome A) (f : A -> Outcome B) (b : B) :
  bindO m f = Ok b -> exists a, m = Ok a /\ f a = Ok b.
Proof. destruct m; simpl; intros H; try discriminate. eauto. Qed.

Ltac inv_bind H :=
  let x := fresh "x" in
  let Hx := fresh "H" x in
  apply bindO_Ok in H; destruct H as (x & Hx & H).

Tactic Notation "bind_inv" hyp(H) "as" simple_intropattern(x) ident(Hx) :=
  apply bindO_Ok in H; destruct H as (x & Hx & H).

(** ** Maps and sets *)

Section MapFacts.
Context {V : Type}.
Implicit Types (m : JsMap.t V) (k : string) (v : V).

Lemma get_set_eq m k v : JsMap.get k (JsMap.set k v m) = Some v.
Proof.
  induction m as [|[k' v'] m IH]; simpl.
  - by rewrite String.eqb_refl.
  - destruct (String.eqb k' k) eqn:E; simpl.
    + by rewrite String.eqb_refl.
    + by rewrite E.
Qed.

Lemma get_set_ne m k k' v : k <> k' -> JsMap.get k' (JsMap.set k v m) = JsMap.get k' m.
Proof.
  intros Hne. induction m as [|[k0 v0] m IH]; simpl.
  - apply String.eqb_neq in Hne. by rewrite Hne.
  - destruct (String.eqb k0 k) eqn:E; simpl.
    + apply String.eqb_eq in E. subst k0.
      apply String.eqb_neq in Hne. by rewrite Hne.
    + by rewrite IH.
Qed.

Lemma get_set m k k' v :
  JsMap.get k' (JsMap.set k v m) = if String.eqb k k' then Some v else JsMap.get k' m.
Proof.
  destruct (String.eqb_spec k k') as [->|Hne].
  - apply get_set_eq.
  - by apply get_set_ne.
Qed.

Lemma get_delete_eq m k : JsMap.get k (JsMap.delete k m) = None.
Proof.
  induction m as [|[k' v'] m IH]; simpl; [done|].
  destruct (String.eqb k' k) eqn:E; simpl; [done|]. by rewrite E.
Qed.

Lemma get_delete_ne m k k' : k <> k' -> JsMap.get k' (JsMap.delete k m) = JsMap.get k' m.
Proof.
  intros Hne. induction m as [|[k0 v0] m IH]; simpl; [done|].
  destruct (String.eqb k0 k) eqn:E; simpl.
  - apply String.eqb_eq in E. subst k0.
    apply String.eqb_neq in Hne. by rewrite Hne.
  - by rewrite IH.
Qed.

Lemma get_delete m k k' :
  JsMap.get k' (JsMap.delete k m) = if String.eqb k k' then None else JsMap.get k' m.
Proof.
  destruct (String.eqb_spec k k') as [->|Hne].
  - apply get_delete_eq.
  - by apply get_delete_ne.
Qed.

Lemma get_Some_keys m k v : JsMap.get k m = Some v -> In k (JsMap.keys m).
Proof.
  induction m as [|[k' v'] m IH]; simpl; [done|].
  destruct (String.eqb_spec k' k) as [->|Hne]; auto.
Qed.

Lemma keys_get_Some m k : In k (JsMap.keys m) -> exists v, JsMap.get k m = Some v.
Proof.
  induction m as [|[k' v'] m IH]; simpl; [done|].
  intros [->|Hin].
  - rewrite String.eqb_refl. eauto.
  - destruct (String.eqb k' k); eauto.
Qed.

Lemma get_None_keys m k : JsMap.get k m = None <-> ~ In k (JsMap.keys m).
Proof.
  split.
  - intros Hg Hin. apply keys_get_Some in Hin as [v Hv]. congruence.
  - intros Hn. destruct (JsMap.get k m) eqn:E; [|done].
    apply get_Some_keys in E. contradiction.
Qed.

Lemma has_keys m k : JsMap.has k m = true <-> In k (JsMap.keys m).
Proof.
  unfold JsMap.has. split.
  - destruct (JsMap.get k m) eqn:E; [|done]. intros _. by eapply get_Some_keys.
  - intros Hin. apply keys_get_Some in Hin as [v ->]. done.
Qed.

Lemma keys_set m k v k' :
  In k' (JsMap.keys (JsMap.set k v m)) <-> k' = k \/ In k' (JsMap.keys m).
Proof.
  rewrite <- !has_keys. unfold JsMap.has. rewrite get_set.
  destruct (String.eqb_spec k k') as [->|Hne].
  - split; auto.
  - split; [auto|]. intros [->|H]; [done|auto].
Qed.

Lemma keys_delete m k k' :
  In k' (JsMap.keys (JsMap.delete k m)) <-> k' <> k /\ In k' (JsMap.keys m).
Proof.
  rewrite <- !has_keys. unfold JsMap.has. rewrite get_delete.
  destruct (String.eqb_spec k k') as [->|Hne].
  - split; [done|]. intros [H _]. done.
  - split; [|tauto]. intros H. split; [congruence|done].
Qed.
End MapFacts.

Lemma set_has_add x y s : JsSet.has x (JsSet.add y s) = String.eqb y x || JsSet.has x s.
Proof.
  unfold JsSet.add. destruct (JsSet.has y s) eqn:Hy.
  - destruct (String.eqb_spec y x) as [->|Hne]; [by rewrite Hy|done].
  - clear Hy. induction s as [|z s IH]; simpl.
    + by destruct (String.eqb y x).
    + destruct (String.eqb z x); [by rewrite orb_true_r|done].
Qed.

Lemma set_has_delete x y s :
  JsSet.has x (JsSet.delete y s) = negb (String.eqb y x) && JsSet.has x s.
Proof.
  induction s as [|z s IH]; simpl.
  - by rewrite andb_false_r.
  - destruct (String.eqb_spec z y) as [->|Hzy]; simpl.
    + rewrite IH. destruct (String.eqb y x); done.
    + rewrite IH. destruct (String.eqb_spec z x) as [->|Hzx]; [|done].
      apply String.eqb_neq in Hzy.
      rewrite String.eqb_sym in Hzy. by rewrite Hzy.
Qed.

Lemma set_has_In x s : JsSet.has x s = true <-> In x s.
Proof.
  induction s as [|z s IH]; simpl; [done|].
  destruct (String.eqb_spec z x) as [->|Hne]; [tauto|].
  rewrite IH. split; [auto|]. intros [?|?]; [done|auto].
Qed.

Lemma set_delete_In x y s : In x (JsSet.delete y s) <-> x <> y /\ In x s.
Proof.
  rewrite <- !set_has_In, set_has_delete.
  destruct (String.eqb_spec y x) as [->|Hne]; simpl.
  - split; [done|]. by intros [? _].
  - split; [|tauto]. intros H. split; [congruence|done].
Qed.

Lemma set_delete_length y s : (length (JsSet.delete y s) <= length s)%nat.
Proof.
  induction s as [|z s IH]; simpl; [done|].
  destruct (String.eqb z y); simpl; lia.
Qed.

Lemma set_delete_length_lt y s :
  In y s -> (length (JsSet.delete y s) < length s)%nat.
Proof.
  induction s as [|z s IH]; simpl; [done|].
  intros Hin. destruct (String.eqb_spec z y) as [->|Hne].
  - pose proof (set_delete_length y s). lia.
  - destruct Hin as [?|Hin]; [done|]. simpl. apply IH in Hin. lia.
Qed.

(** ** Reading and writing dots *)
Lemma parseDigits_uint d acc seen :
  Js.parseDigits 10 (Js.stringOfUint d) acc seen =
  match d with
  | Decimal.Nil => if seen then Some acc else None
  | _ => Some (uintValue d acc)
  end.
Proof.
  revert acc seen. induction d; intros acc seen; simpl; try done;
    rewrite IHd; destruct d; done.
Qed.

Lemma uintValue_acc d acc : Z.pos (Pos.of_uint_acc d acc) = uintValue d (Z.pos acc).
Proof.
  revert acc. induction d; intros acc; simpl; try done;
    rewrite IHd; f_equal; lia.
Qed.

Lemma uintValue_of_uint d : Z.of_N (Pos.of_uint d) = uintValue d 0.
Proof.
  induction d; simpl; try done; apply uintValue_acc.
Qed.

Lemma parseMagnitude_uint d :
  d <> Decimal.Nil -> Js.parseMagnitude (Js.stringOfUint d) = Some (uintValue d 0).
Proof.
  intros Hd. pose proof (parseDigits_uint d 0 false) as H.
  destruct d; try done; simpl in *; try done.
  destruct d; simpl in *; done.
Qed.

Lemma trimStart_uint d : Js.trimStart (Js.stringOfUint d) = Js.stringOfUint d.
Proof. destruct d; done. Qed.

Lemma parseInt_uint d :
  d <> Decimal.Nil -> Js.parseInt (Js.stringOfUint d) = Some (uintValue d 0).
Proof.
  intros Hd. unfold Js.parseInt. rewrite trimStart_uint.
  rewrite <- (parseMagnitude_uint d Hd).
  destruct d; done.
Qed.

Lemma uintValue_to_uint p : uintValue (Pos.to_uint p) 0 = Z.pos p.
Proof.
  rewrite <- uintValue_of_uint, DecimalPos.Unsigned.of_to. done.
Qed.

Lemma parseInt_numberToString n : Js.parseInt (Js.numberToString n) = Some n.
Proof.
  destruct n as [|p|p]; simpl.
  - done.
  - rewrite parseInt_uint by apply DecimalPos.Unsigned.to_uint_nonnil.
    by rewrite uintValue_to_uint.
  - unfold Js.parseInt. simpl.
    rewrite parseMagnitude_uint by apply DecimalPos.Unsigned.to_uint_nonnil.
    simpl. by rewrite uintValue_to_uint.
Qed.

Lemma noSep_uint d : noSep ":" (Js.stringOfUint d) = true.
Proof. induction d; simpl; done. Qed.

Lemma noSep_numberToString n : noSep ":" (Js.numberToString n) = true.
Proof. destruct n; simpl; try done; apply noSep_uint. Qed.

Lemma split_noSep sep s : noSep sep s = true -> Js.split sep s = [s].
Proof.
  induction s as [|c s IH]; simpl; [done|].
  intros [Hc Hs]%andb_prop. apply negb_true_iff in Hc. rewrite Hc.
  by rewrite IH.
Qed.

Lemma split_app sep i rest :
  noSep sep i = true ->
  Js.split sep (i ++ String sep rest) = i :: Js.split sep rest.
Proof.
  induction i as [|c i IH]; simpl.
  - intros _. by rewrite Ascii.eqb_refl.
  - intros [Hc Hs]%andb_prop. apply negb_true_iff in Hc. rewrite Hc.
    by rewrite IH.
Qed.

Lemma fromString_toString i n :
  wfId i = true -> Dot.fromString (Dot.toStringDot (mkDot i n)) = Ok (mkDot i n).
Proof.
  unfold wfId. intros [Hne Hsep]%andb_prop.
  unfold Dot.fromString, Dot.toStringDot.
  cbn [id counter String.append].
  change (":" +:+ Js.numberToString n) with (String ":" (Js.numberToString n)).
  rewrite split_app by done.
  rewrite split_noSep by apply noSep_numberToString.
  rewrite parseInt_numberToString.
  apply negb_true_iff in Hne. by rewrite Hne.
Qed.

(** ** C7: what [Dot.fromString] accepts *)

(** C7 (code defect). [Dot.fromString] is meant to reject every string that
    is not exactly [id:integer], but [parseInt] reads the longest numeric
    prefix of the counter part and ignores what follows: trailing text, a
    fraction, leading white space and a hexadecimal prefix are all
    accepted. *)
Theorem fromString_accepts_malformed_counter :
  Dot.fromString "a:1x" = Ok (mkDot "a" 1)
  /\ Dot.fromString "a:1.5" = Ok (mkDot "a" 1)
  /\ Dot.fromString "a: 7" = Ok (mkDot "a" 7)
  /\ Dot.fromString "a:0x1F" = Ok (mkDot "a" 31).
Proof. repeat split; vm_compute; reflexivity. Qed.

(** The strings that the claim describes are accepted, with the dot they
    denote, and the two tested rejections hold. *)
Lemma fromString_rejects_tested :
  Dot.fromString "invalid" = Throw InvalidDotFormat
  /\ Dot.fromString "a:b" = Throw InvalidDotFormat
  /\ Dot.fromString ":1" = Throw InvalidDotFormat
  /\ Dot.fromString "a:b:1" = Throw InvalidDotFormat.
Proof. repeat split; vm_compute; reflexivity. Qed.

(** ** C3: freshness of [makeDot] *)

Lemma makeDot_dot c i :
  fst (DotContext.makeDot c i) = mkDot i (Js.plus (cccOrZero c i) 1).
Proof.
  unfold DotContext.makeDot, cccOrZero. simpl.
  destruct (JsMap.get i (compactCausalContext c)) as [k|]; [|done].
  by destruct (Z.eqb_spec k 0) as [->|].
Qed.

Lemma makeDot_context c i :
  snd (DotContext.makeDot c i)
  = mkContext (JsMap.set i (Js.plus (cccOrZero c i) 1) (compactCausalContext c))
              (dotCloud c).
Proof.
  unfold DotContext.makeDot, cccOrZero. simpl.
  destruct (JsMap.get i (compactCausalContext c)) as [k|]; [|done].
  by destruct (Z.eqb_spec k 0) as [->|].
Qed.

Lemma dotIn_InDot c d :
  DotContext.dotIn c (InDot d) =
  Ok (match JsMap.get (id d) (compactCausalContext c) with
      | Some cc => (counter d <=? cc) || JsSet.has (Dot.toStringDot d) (dotCloud c)
      | None => JsSet.has (Dot.toStringDot d) (dotCloud c)
      end).
Proof.
  unfold DotContext.dotIn. simpl.
  destruct (JsMap.get (id d) (compactCausalContext c)); [|done].
  by destruct (counter d <=? z).
Qed.

(** C3, counterexample. The context [{CCC: a -> 1, DC: {a:2}}] is reached
    through [insertDot] and [makeDot] alone, and the dot [(a, 2)] that
    [makeDot('a')] returns on it was a member before the call. *)
Lemma makeDot_returns_member :
  staleCloudContext = Ok (mkContext [("a", 1)] ["a:2"])
  /\ fst (DotContext.makeDot (mkContext [("a", 1)] ["a:2"]) "a") = mkDot "a" 2
  /\ DotContext.dotIn (mkContext [("a", 1)] ["a:2"])
       (InDot (fst (DotContext.makeDot (mkContext [("a", 1)] ["a:2"]) "a")))
     = Ok true.
Proof. repeat split; vm_compute; reflexivity. Qed.

(** C3, amended. While [CCC[id]] is a safe integer, [makeDot(id)]
    returns the dot [(id, (CCC[id] or 0) + 1)] and never consults the dot
    cloud: that dot was a member of the context before the call exactly
    when its string was already in the dot cloud. *)
Theorem makeDot_fresh_iff_not_in_cloud (c : DotContext) (i : string) :
  safeInteger (cccOrZero c i) = true ->
  fst (DotContext.makeDot c i) = mkDot i (cccOrZero c i + 1)
  /\ DotContext.dotIn c (InDot (mkDot i (cccOrZero c i + 1)))
     = Ok (JsSet.has (Dot.toStringDot (mkDot i (cccOrZero c i + 1))) (dotCloud c)).
Proof.
  intros Hsafe. apply Z.ltb_lt in Hsafe.
  split; [by rewrite makeDot_dot, plus_safe|].
  rewrite dotIn_InDot. f_equal. unfold cccOrZero. simpl.
  destruct (JsMap.get i (compactCausalContext c)) as [cc|]; [|done].
  replace (cc + 1 <=? cc) with false by lia. done.
Qed.

(** C3, witness: the context [{CCC: a -> 2, DC: {a:5}}]; the dot
    [(a, 3)] is not in its cloud. *)
Lemma makeDot_fresh_iff_not_in_cloud_witness :
  let c := mkContext [("a", 2)] ["a:5"] in
  safeInteger (cccOrZero c "a") = true
  /\ fst (DotContext.makeDot c "a") = mkDot "a" (cccOrZero c "a" + 1)
  /\ DotContext.dotIn c (InDot (mkDot "a" (cccOrZero c "a" + 1)))
     = Ok (JsSet.has (Dot.toStringDot (mkDot "a" (cccOrZero c "a" + 1))) (dotCloud c)).
Proof.
  intros c. split; [reflexivity|].
  exact (makeDot_fresh_iff_not_in_cloud c "a" eq_refl).
Defined.

(** Beyond the safe integers the sum of [makeDot] is rounded: with
    [CCC[a] = 2^53] the call returns [(a, 2^53)], which was a member of
    the context although the cloud is empty, and the next call returns
    the same dot again. *)
Lemma makeDot_stalls :
  let c := mkContext [("a", 2 ^ 53)] [] in
  fst (DotContext.makeDot c "a") = mkDot "a" (2 ^ 53)
  /\ DotContext.dotIn c (InDot (fst (DotContext.makeDot c "a"))) = Ok true
  /\ fst (DotContext.makeDot (snd (DotContext.makeDot c "a")) "a") = mkDot "a" (2 ^ 53).
Proof. by vm_compute. Qed.

(** ** C8: [DeltaHelpers.join] *)

(** C8, counterexample. A [DotContext] exposes a [join] function, yet
    joining one with a number raises: the error comes from the [join] that
    the helper invokes on the copy. *)
Lemma join_raises_though_joinable :
  DeltaHelpers.repoJoinMethod (VContext DotContext.empty) <> None
  /\ DeltaHelpers.join DeltaHelpers.repoJoinMethod (VContext DotContext.empty) (VNum 5)
     = Throw TypeError.
Proof. split; [discriminate | reflexivity]. Qed.

(** C8, amended. Two numbers give their maximum; otherwise, when [left]
    is truthy and exposes a [join] function, the result is that of invoking
    [join(right)] on the copy, the copy when the call returns and its error
    when it raises; the helper raises its own error exactly when neither
    case applies. *)
Theorem join_cases (joinMethod : Value -> option (Value -> Outcome Value))
    (left right : Value) :
  (forall l r, left = VNum l -> right = VNum r ->
     DeltaHelpers.join joinMethod left right = Ok (VNum (Z.max l r)))
  /\ (forall m, ~ (exists l r, left = VNum l /\ right = VNum r) ->
        JsValue.truthy left = true -> joinMethod left = Some m ->
        DeltaHelpers.join joinMethod left right = m right)
  /\ (~ (exists l r, left = VNum l /\ right = VNum r) ->
      (JsValue.truthy left = false \/ joinMethod left = None) ->
      DeltaHelpers.join joinMethod left right = Throw CannotJoin).
Proof.
  assert (Hgen : ~ (exists l r, left = VNum l /\ right = VNum r) ->
    DeltaHelpers.join joinMethod left right =
    if JsValue.truthy left then
      match joinMethod left with Some m => m right | None => Throw CannotJoin end
    else Throw CannotJoin).
  { intros Hnum. unfold DeltaHelpers.join.
    destruct left; try reflexivity. destruct right; try reflexivity.
    exfalso. apply Hnum. eauto. }
  repeat split.
  - intros l r -> ->. reflexivity.
  - intros m Hnum Ht Hm. rewrite Hgen, Ht, Hm by done. reflexivity.
  - intros Hnum [Hf|Hn]; rewrite Hgen by done.
    + by rewrite Hf.
    + rewrite Hn. by destruct (JsValue.truthy left).
Qed.

(** The three cases on concrete arguments. *)
Example join_cases_examples :
  DeltaHelpers.join DeltaHelpers.repoJoinMethod (VNum 5) (VNum 8) = Ok (VNum 8)
  /\ DeltaHelpers.join DeltaHelpers.repoJoinMethod
       (VContext (mkContext [("a", 1)] [])) (VContext (mkContext [("a", 3)] ["b:1"]))
     = Ok (VContext (mkContext [("a", 3); ("b", 1)] []))
  /\ DeltaHelpers.join DeltaHelpers.repoJoinMethod (VStr "x") (VStr "y") = Throw CannotJoin
  /\ DeltaHelpers.join DeltaHelpers.repoJoinMethod (VNum 5) (VStr "y") = Throw CannotJoin.
Proof. repeat split; vm_compute; reflexivity. Qed.

(** ** Compaction *)

Lemma deleteAll_In del cloud x :
  In x (DotContext.deleteAll del cloud) <-> In x cloud /\ ~ In x del.
Proof.
  unfold DotContext.deleteAll. revert cloud.
  induction del as [|y del IH]; intros cloud; simpl.
  - tauto.
  - rewrite IH, set_delete_In. intuition congruence.
Qed.

Lemma deleteAll_length del cloud :
  (length (DotContext.deleteAll del cloud) <= length cloud)%nat.
Proof.
  unfold DotContext.deleteAll. revert cloud.
  induction del as [|y del IH]; intros cloud; simpl; [done|].
  etransitivity; [apply IH|apply set_delete_length].
Qed.

Lemma deleteAll_length_lt del cloud y :
  In y del -> In y cloud ->
  (length (DotContext.deleteAll del cloud) < length cloud)%nat.
Proof.
  unfold DotContext.deleteAll. revert cloud.
  induction del as [|z del IH]; intros cloud; simpl; [done|].
  intros [->|Hin] Hy.
  - eapply Nat.le_lt_trans; [apply deleteAll_length|by apply set_delete_length_lt].
  - destruct (String.eqb_spec z y) as [->|Hne].
    + eapply Nat.le_lt_trans; [apply deleteAll_length|by apply set_delete_length_lt].
    + eapply Nat.lt_le_trans; [apply IH; [done|]|apply set_delete_length].
      apply set_delete_In. split; [congruence|done].
Qed.

Lemma compactPass_total cloud cc del flag :
  (forall s, In s cloud -> exists d, Dot.fromString s = Ok d) ->
  exists r, DotContext.compactPass cloud cc del flag = Ok r.
Proof.
  revert cc del flag. induction cloud as [|s cloud IH]; intros cc del flag Hp; simpl.
  - eauto.
  - destruct (Hp s) as [d Hd]; [by left|]. rewrite Hd. simpl.
    assert (Hp' : forall s', In s' cloud -> exists d', Dot.fromString s' = Ok d')
      by (intros; apply Hp; by right).
    destruct (JsMap.get (id d) cc) as [k|].
    + destruct (counter d =? k + 1); [by apply IH|].
      destruct (counter d <=? k); by apply IH.
    + destruct (counter d =? 1); by apply IH.
Qed.

Lemma compactPass_spec cloud cc del flag cc' del' flag' :
  DotContext.compactPass cloud cc del flag = Ok (cc', del', flag') ->
  exists deleted,
    del' = (del ++ deleted)%list
    /\ (forall x, In x deleted -> In x cloud)
    /\ (flag = true -> flag' = true)
    /\ (flag = false -> flag' = true -> deleted <> [])
    /\ (flag' = false ->
        cc' = cc
        /\ forall s, In s cloud -> ~ In s deleted ->
             exists d, Dot.fromString s = Ok d /\ staysBeyond cc d).
Proof.
  revert cc del flag. induction cloud as [|s cloud IH]; intros cc del flag; simpl.
  - intros [= <- <- <-]. exists []. rewrite app_nil_r.
    split; [done|]. split; [by intros x []|]. split; [done|].
    split; [by intros -> [=]|]. intros _. split; [done|]. by intros s [].
  - intros H. inv_bind H. rename x into d.
    assert (Hstep : forall cc1 del1 flag1 (deleted0 : list string),
      DotContext.compactPass cloud cc1 del1 flag1 = Ok (cc', del', flag') ->
      del1 = (del ++ deleted0)%list ->
      (forall x, In x deleted0 -> x = s) ->
      (flag = true -> flag1 = true) ->
      (flag1 = true -> flag = true \/ deleted0 <> []) ->
      (flag1 = false -> cc1 = cc /\ (deleted0 = [] -> staysBeyond cc d)) ->
      exists deleted,
        del' = (del ++ deleted)%list
        /\ (forall x, In x deleted -> s = x \/ In x cloud)
        /\ (flag = true -> flag' = true)
        /\ (flag = false -> flag' = true -> deleted <> [])
        /\ (flag' = false ->
            cc' = cc
            /\ forall s0, s = s0 \/ In s0 cloud -> ~ In s0 deleted ->
                 exists d0, Dot.fromString s0 = Ok d0 /\ staysBeyond cc d0)).
    { intros cc1 del1 flag1 deleted0 Hrec -> Hdel0 Hf1 Hf2 Hf3.
      apply IH in Hrec as (deleted & -> & Hsub & Hmono & Hprog & Hfin).
      exists (deleted0 ++ deleted)%list. rewrite app_assoc.
      split; [done|]. split.
      { intros y [Hy|Hy]%in_app_or; [left; symmetry; by apply Hdel0|right; by apply Hsub]. }
      split; [by auto|]. split.
      { intros Hf Hf'. destruct flag1 eqn:E1.
        - destruct Hf2 as [?|Hne]; [done|congruence|].
          destruct deleted0; [done|discriminate].
        - specialize (Hprog eq_refl Hf'). destruct deleted; [done|].
          by destruct deleted0. }
      intros Hf'. destruct flag1 eqn:E1.
      { specialize (Hmono eq_refl). congruence. }
      destruct (Hfin Hf') as [-> Hstay]. destruct (Hf3 eq_refl) as [-> Hd].
      split; [done|]. intros s0 [<-|Hs0] Hnin.
      - exists d. split; [done|]. apply Hd.
        destruct deleted0 as [|y ?]; [done|].
        exfalso. apply Hnin. apply in_or_app. left.
        rewrite (Hdel0 y) by (by left). by left.
      - apply Hstay; [done|]. intros Hin. apply Hnin. apply in_or_app. by right. }
    unfold staysBeyond in *.
    destruct (JsMap.get (id d) cc) as [k|] eqn:Hget.
    + destruct (counter d =? k + 1) eqn:E1.
      { apply (Hstep _ _ _ [s] H); [done|by intros y [<-|[]]|done|by right|done]. }
      destruct (counter d <=? k) eqn:E2.
      { apply (Hstep _ _ _ [s] H); [done|by intros y [<-|[]]|done|by left|].
        intros _. split; [done|]. discriminate. }
      apply (Hstep _ _ _ [] H); [by rewrite app_nil_r|by intros y []|done|by left|].
      intros _. split; [done|]. intros _. lia.
    + destruct (counter d =? 1) eqn:E1.
      { apply (Hstep _ _ _ [s] H); [done|by intros y [<-|[]]|done|by right|done]. }
      apply (Hstep _ _ _ [] H); [by rewrite app_nil_r|by intros y []|done|by left|].
      intros _. split; [done|]. intros _. lia.
Qed.

Lemma compactLoop_spec fuel c :
  (length (dotCloud c) < fuel)%nat ->
  (forall s, In s (dotCloud c) -> exists d, Dot.fromString s = Ok d) ->
  exists c',
    DotContext.compactLoop fuel c = Ok c'
    /\ (forall s, In s (dotCloud c') -> In s (dotCloud c))
    /\ (forall s, In s (dotCloud c') ->
          exists d, Dot.fromString s = Ok d /\ staysBeyond (compactCausalContext c') d).
Proof.
  revert c. induction fuel as [|fuel IH]; intros c Hlen Hp; [lia|].
  simpl.
  destruct (compactPass_total (dotCloud c) (compactCausalContext c) [] false Hp)
    as [[[cc del] flag] Hpass].
  rewrite Hpass. simpl.
  destruct (compactPass_spec _ _ _ _ _ _ _ Hpass)
    as (deleted & Hdel & Hsub & _ & Hprog & Hfin).
  simpl in Hdel. subst del.
  destruct flag.
  - pose proof (Hprog eq_refl eq_refl) as Hne.
    destruct deleted as [|y deleted]; [done|].
    assert (Hlt : (length (DotContext.deleteAll (y :: deleted) (dotCloud c))
                   < length (dotCloud c))%nat).
    { apply (deleteAll_length_lt _ _ y); [apply in_eq|]. apply Hsub. apply in_eq. }
    destruct (IH (mkContext cc (DotContext.deleteAll (y :: deleted) (dotCloud c))))
      as (c' & Hc' & Hsub' & Hpost).
    { cbn [dotCloud]. lia. }
    { cbn [dotCloud]. intros s [Hs _]%deleteAll_In. by apply Hp. }
    exists c'. split; [done|]. split; [|done].
    intros s Hs. apply Hsub' in Hs. cbn [dotCloud] in Hs.
    by apply deleteAll_In in Hs as [Hs _].
  - eexists. split; [done|]. cbn [dotCloud compactCausalContext]. split.
    + intros s [Hs _]%deleteAll_In. done.
    + destruct (Hfin eq_refl) as [-> Hstay].
      intros s [Hs Hn]%deleteAll_In. by apply Hstay.
Qed.

Lemma compact_spec c :
  (forall s, In s (dotCloud c) -> exists d, Dot.fromString s = Ok d) ->
  exists c',
    DotContext.compact c = Ok c'
    /\ (forall s, In s (dotCloud c') -> In s (dotCloud c))
    /\ (forall s, In s (dotCloud c') ->
          exists d, Dot.fromString s = Ok d /\ staysBeyond (compactCausalContext c') d).
Proof. intros Hp. apply compactLoop_spec; [unfold lt; done|done]. Qed.

(** C5. When every entry of the dot cloud reads as a dot with a counter of
    at least 1, [compact] returns, and every dot [(id, c)] that remains in
    the dot cloud has [c > CCC[id] + 1], with [CCC[id]] taken as [0] when
    the map has no entry for [id]. *)
Theorem compact_postcondition (c : DotContext) :
  (forall s, In s (dotCloud c) ->
     exists d, Dot.fromString s = Ok d /\ 1 <= counter d) ->
  exists c',
    DotContext.compact c = Ok c'
    /\ forall s, In s (dotCloud c') ->
         exists d, Dot.fromString s = Ok d /\ counter d > cccOrZero c' (id d) + 1.
Proof.
  intros Hwf.
  destruct (compact_spec c) as (c' & Hc' & Hsub & Hpost).
  { intros s Hs. destruct (Hwf s Hs) as (d & Hd & _). eauto. }
  exists c'. split; [done|]. intros s Hs.
  destruct (Hpost s Hs) as (d & Hd & Hstay). exists d. split; [done|].
  destruct (Hwf s (Hsub s Hs)) as (d' & Hd' & Hge).
  assert (d' = d) by congruence. subst d'.
  unfold staysBeyond in Hstay. unfold cccOrZero.
  destruct (JsMap.get (id d) (compactCausalContext c')); lia.
Qed.

(** C5, witness: scenario S1 extended with a dot beyond a gap. *)
Lemma compact_postcondition_witness :
  exists c',
    DotContext.compact (mkContext [] ["a:2"; "a:1"; "a:4"; "b:3"]) = Ok c'
    /\ forall s, In s (dotCloud c') ->
         exists d, Dot.fromString s = Ok d /\ counter d > cccOrZero c' (id d) + 1.
Proof.
  apply (compact_postcondition (mkContext [] ["a:2"; "a:1"; "a:4"; "b:3"])).
  intros s Hs. simpl in Hs.
  destruct Hs as [<-|[<-|[<-|[<-|[]]]]]; eexists; (split; [vm_compute; reflexivity|simpl; lia]).
Defined.

(** ** Strings that read as dots *)

Lemma split_parts_noSep sep s p : In p (Js.split sep s) -> noSep sep p = true.
Proof.
  revert p. induction s as [|c s IH]; simpl; intros p.
  - intros [<-|[]]. done.
  - destruct (Ascii.eqb c sep) eqn:E.
    + intros [<-|Hin]; [done|by apply IH].
    + destruct (Js.split sep s) as [|q qs] eqn:Hs.
      * intros [<-|[]]. simpl. by rewrite E.
      * intros [<-|Hin].
        -- simpl. rewrite E. simpl. apply IH. by left.
        -- apply IH. by right.
Qed.

Lemma split_sep_two sep a b : (2 <= length (Js.split sep (a ++ String sep b)))%nat.
Proof.
  induction a as [|c a IH]; simpl.
  - rewrite Ascii.eqb_refl. simpl. destruct b; simpl; [lia|].
    destruct (Ascii.eqb a sep); simpl; [lia|]. destruct (Js.split sep b); simpl; lia.
  - destruct (Ascii.eqb c sep); simpl; [lia|].
    destruct (Js.split sep (a ++ String sep b)); simpl in *; lia.
Qed.

Lemma split_two_noSep sep a b i cs :
  Js.split sep (a ++ String sep b) = [i; cs] -> noSep sep a = true.
Proof.
  revert i. induction a as [|c a IH]; intros i; simpl; [done|].
  destruct (Ascii.eqb c sep) eqn:E.
  - intros [= _ Hs]. pose proof (split_sep_two sep a b) as Hlen.
    rewrite Hs in Hlen. simpl in Hlen. lia.
  - destruct (Js.split sep (a ++ String sep b)) as [|q qs] eqn:Hs; [done|].
    intros [= _ ->]. simpl. by eapply IH.
Qed.

Lemma fromString_wfId s d : Dot.fromString s = Ok d -> wfId (id d) = true.
Proof.
  unfold Dot.fromString.
  destruct (Js.split ":" s) as [|i [|cs [|? ?]]] eqn:Hs; try done.
  destruct (Js.parseInt cs); [|done].
  destruct (String.eqb i "") eqn:E; [done|].
  intros [= <-]. unfold wfId. simpl. rewrite E. simpl.
  apply (split_parts_noSep ":" s). rewrite Hs. by left.
Qed.

Lemma fromString_toString_inv d d' :
  Dot.fromString (Dot.toStringDot d) = Ok d' -> d' = d.
Proof.
  intros H. assert (Hwf : wfId (id d) = true).
  { unfold wfId. unfold Dot.fromString, Dot.toStringDot in H.
    change (":" +:+ Js.numberToString (counter d))
      with (String ":" (Js.numberToString (counter d))) in H.
    destruct (Js.split ":" (id d +:+ String ":" (Js.numberToString (counter d))))
      as [|i [|cs [|? ?]]] eqn:Hs; try done.
    pose proof (split_two_noSep _ _ _ _ _ Hs) as Hno.
    rewrite split_app in Hs by done. injection Hs as <- _.
    destruct (Js.parseInt cs); [|done].
    destruct (String.eqb (id d) ""); [done|]. by rewrite Hno. }
  destruct d as [i n]. rewrite fromString_toString in H by done. congruence.
Qed.

Lemma fromString_canonical s d :
  Dot.fromString s = Ok d -> Dot.fromString (Dot.toStringDot d) = Ok d.
Proof.
  intros H. apply fromString_wfId in H. destruct d as [i n].
  by apply fromString_toString.
Qed.

Lemma wfKey_spec k :
  wfKey k = true <-> exists d, Dot.fromString k = Ok d /\ Dot.toStringDot d = k.
Proof.
  unfold wfKey. split.
  - destruct (Dot.fromString k) as [d| | |]; try done.
    intros H%String.eqb_eq. eauto.
  - intros (d & -> & H). by apply String.eqb_eq.
Qed.

Lemma wfKey_toString i n : wfId i = true -> wfKey (Dot.toStringDot (mkDot i n)) = true.
Proof.
  intros H. apply wfKey_spec. exists (mkDot i n). split; [|done].
  by apply fromString_toString.
Qed.

Lemma toString_InStr s d :
  Dot.fromString s = Ok d -> Dot.toString (InStr s) = Ok (Dot.toStringDot d).
Proof. intros H. unfold Dot.toString. simpl. by rewrite H. Qed.

Lemma toString_wfKey k : wfKey k = true -> Dot.toString (InStr k) = Ok k.
Proof.
  intros (d & Hd & Hk)%wfKey_spec. rewrite (toString_InStr _ _ Hd). by rewrite Hk.
Qed.

(** ** The heap *)

Lemma getKernel_Ok r h k : Heap.getKernel r h = Ok k <-> kernels h !! r = Some k.
Proof.
  unfold Heap.getKernel. destruct (kernels h !! r); split; intros H; congruence.
Qed.

Lemma getContext_Ok r h c : Heap.getContext r h = Ok c <-> contexts h !! r = Some c.
Proof.
  unfold Heap.getContext. destruct (contexts h !! r); split; intros H; congruence.
Qed.

Lemma setStorage_Ok r st h k :
  kernels h !! r = Some k ->
  Heap.setStorage r st h
  = Ok (mkHeap (contexts h) (<[r := mkKernel st (contextBase k) (sharedContext k)]> (kernels h))).
Proof.
  intros Hk. unfold Heap.setStorage, Heap.getKernel. rewrite Hk. reflexivity.
Qed.

Lemma setStorage_inv r st h h' :
  Heap.setStorage r st h = Ok h' ->
  exists k, kernels h !! r = Some k
    /\ h' = mkHeap (contexts h)
              (<[r := mkKernel st (contextBase k) (sharedContext k)]> (kernels h)).
Proof.
  unfold Heap.setStorage. intros H. inv_bind H.
  apply getKernel_Ok in Hx. injection H as <-. eauto.
Qed.

Lemma new_eq shared h :
  DotKernel.new shared h
  = (length (kernels h),
     mkHeap (contexts h ++ [DotContext.empty])
            (kernels h ++ [mkKernel [] (length (contexts h))
                             (match shared with
                              | Some s => s
                              | None => length (contexts h)
                              end)])).
Proof. reflexivity. Qed.

Lemma delete_absent {V : Type} k (m : JsMap.t V) :
  JsMap.get k m = None -> JsMap.delete k m = m.
Proof.
  induction m as [|[k' v] m IH]; simpl; [done|].
  destruct (String.eqb k' k); [done|]. intros H. by rewrite IH.
Qed.

Lemma compact_singleton_total s d :
  Dot.fromString s = Ok d ->
  exists c', DotContext.compact (mkContext [] [Dot.toStringDot d]) = Ok c'.
Proof.
  intros Hd. destruct (compact_spec (mkContext [] [Dot.toStringDot d])) as (c' & H & _).
  - simpl. intros ? [<-|[]]. exists d. by eapply fromString_canonical.
  - eauto.
Qed.

(** ** C10: the selector of [rmv] *)

(** C10. On a selector that is a non-null object with an [id] and a
    [counter], [rmv] takes the branch of the removal of a dot: whenever it
    returns, the storage it leaves is the former one without the key
    [`${sel.id}:${sel.counter}`], every other entry is kept, also those
    whose payload has the JSON text of the selector; and it returns when
    that key is absent or reads as a dot. *)
Theorem rmv_dotLike_removes_one_dot (h : Heap) (this : nat) (kt : DotKernel)
    (sel : Value) :
  Heap.getKernel this h = Ok kt ->
  isDotLikeObject sel = true ->
  (forall res h',
     DotKernel.rmv this sel h = Ok (res, h') ->
     exists kt',
       Heap.getKernel this h' = Ok kt'
       /\ dataStorage kt' = JsMap.delete (dotLikeToString sel) (dataStorage kt)
       /\ forall k v,
            k <> dotLikeToString sel ->
            JsMap.get k (dataStorage kt) = Some v ->
            JsMap.get k (dataStorage kt') = Some v)
  /\ ((JsMap.has (dotLikeToString sel) (dataStorage kt) = true ->
       exists d, Dot.fromString (dotLikeToString sel) = Ok d) ->
      exists res h', DotKernel.rmv this sel h = Ok (res, h')).
Proof.
  intros Hkt%getKernel_Ok Hsel.
  assert (Hlt : (this < length (kernels h))%nat) by (by eapply lookup_lt_Some).
  destruct sel as [| | | | |props|]; try discriminate Hsel.
  set (sel := VObj props) in *. set (key := dotLikeToString sel).
  unfold DotKernel.rmv. rewrite new_eq.
  unfold Heap.getKernel, Heap.getContext. cbn [kernels contexts].
  rewrite (lookup_app_l (kernels h)) by done. rewrite Hkt.
  rewrite list_lookup_middle by done. cbn [bindO sharedContext].
  rewrite list_lookup_middle by done. cbn [bindO].
  subst sel. cbv beta iota. rewrite Hsel. fold key.
  unfold JsMap.has.
  destruct (JsMap.get key (dataStorage kt)) as [v|] eqn:Hget.
  - (* the key is present *)
    unfold DotContext.insertDot. split.
    + intros res h' H. inv_bind H. cbn [bindO] in H.
      unfold Heap.setContext in H. cbn [kernels contexts] in H.
      rewrite setStorage_Ok with (k := kt) in H
        by (cbn [kernels]; by rewrite lookup_app_l).
      cbn [bindO kernels contexts] in H. inv_bind H. injection H as _ <-.
      unfold Heap.setContext, Heap.getKernel. cbn [kernels].
      rewrite list_lookup_insert_eq by (rewrite length_app; lia).
      eexists. split; [done|]. cbn [dataStorage]. split; [done|].
      intros k w Hne Hk. by rewrite get_delete_ne.
    + intros Hparse. destruct Hparse as [d Hd]; [done|].
      rewrite (toString_InStr _ _ Hd). cbn [bindO].
      unfold Heap.setContext. cbn [kernels contexts].
      rewrite setStorage_Ok with (k := kt)
        by (cbn [kernels]; by rewrite lookup_app_l).
      cbn [bindO kernels contexts compactCausalContext dotCloud DotContext.empty].
      unfold JsSet.add. cbn [JsSet.has app].
      destruct (compact_singleton_total _ _ Hd) as [c' ->]. cbn [bindO]. eauto.
  - (* the key is absent *)
    split.
    + intros res h' H. inv_bind H. injection H as _ <-.
      unfold Heap.setContext, Heap.getKernel. cbn [kernels].
      rewrite lookup_app_l by done. rewrite Hkt.
      exists kt. split; [done|]. split; [by rewrite delete_absent|]. done.
    + intros _. change DotContext.empty with (mkContext [] []).
      assert (DotContext.compact (mkContext [] []) = Ok (mkContext [] [])) as -> by done.
      cbn [bindO]. eauto.
Qed.

(** C10, witness: a stored payload has the JSON text of the selector
    [{id: 'a', counter: 1}], and only the dot [a:1] is removed. *)
Lemma rmv_dotLike_removes_one_dot_witness :
  let sel := VObj [("id", VStr "a"); ("counter", VNum 1)] in
  let kt := mkKernel [("a:1", VStr "x"); ("a:2", sel)] 0 0 in
  let h := mkHeap [mkContext [("a", 2)] []] [kt] in
  (forall res h',
     DotKernel.rmv 0 sel h = Ok (res, h') ->
     exists kt',
       Heap.getKernel 0 h' = Ok kt'
       /\ dataStorage kt' = JsMap.delete (dotLikeToString sel) (dataStorage kt)
       /\ forall k v,
            k <> dotLikeToString sel ->
            JsMap.get k (dataStorage kt) = Some v ->
            JsMap.get k (dataStorage kt') = Some v)
  /\ ((JsMap.has (dotLikeToString sel) (dataStorage kt) = true ->
       exists d, Dot.fromString (dotLikeToString sel) = Ok d) ->
      exists res h', DotKernel.rmv 0 sel h = Ok (res, h')).
Proof.
  apply (rmv_dotLike_removes_one_dot
           (mkHeap [mkContext [("a", 2)] []]
              [mkKernel [("a:1", VStr "x");
                         ("a:2", VObj [("id", VStr "a"); ("counter", VNum 1)])] 0 0])
           0); reflexivity.
Defined.

Example rmv_dotLike_example :
  let sel := VObj [("id", VStr "a"); ("counter", VNum 1)] in
  let h := mkHeap [mkContext [("a", 2)] []]
                  [mkKernel [("a:1", VStr "x"); ("a:2", sel)] 0 0] in
  DotKernel.rmv 0 sel h
  = Ok (1%nat, mkHeap [mkContext [("a", 2)] []; mkContext [("a", 1)] []]
                 [mkKernel [("a:2", sel)] 0 0; mkKernel [] 1 1]).
Proof. vm_compute. reflexivity. Qed.

(** ** C9: what a join writes *)

Lemma joinContexts_inv this other h h' :
  DotKernel.joinContexts this other h = Ok h' ->
  kernels h' = kernels h
  /\ ((this = other /\ contexts h' = contexts h)
      \/ (this <> other /\ exists c o c',
            contexts h !! this = Some c /\ contexts h !! other = Some o
            /\ DotContext.join c o = Ok c'
            /\ contexts h' = <[this := c']> (contexts h))).
Proof.
  unfold DotKernel.joinContexts.
  destruct (Nat.eqb_spec this other) as [->|Hne].
  - intros [= <-]. split; [done|]. by left.
  - intros H. bind_inv H as c Hc. apply getContext_Ok in Hc.
    bind_inv H as o Ho. apply getContext_Ok in Ho.
    bind_inv H as c' Hc'. injection H as <-.
    split; [done|]. right. split; [done|]. eauto 10.
Qed.

Lemma join_writes lc this other h h' :
  this <> other -> DotKernel.join lc this other h = Ok h' -> joinWrites this other h h'.
Proof.
  intros Hne. unfold DotKernel.join.
  destruct (Nat.eqb_spec this other) as [|_]; [done|].
  intros H. bind_inv H as kt Hkt. apply getKernel_Ok in Hkt.
  bind_inv H as ko Hko. apply getKernel_Ok in Hko.
  bind_inv H as thisDots HthisDots. bind_inv H as otherDots HotherDots.
  bind_inv H as thisCtx HthisCtx. bind_inv H as otherCtx HotherCtx.
  bind_inv H as st Hst.
  bind_inv H as h1 Hh1. apply setStorage_inv in Hh1 as (kt' & Hkt' & ->).
  assert (kt' = kt) by congruence. subst kt'.
  apply joinContexts_inv in H as [Hk Hc]. cbn [kernels contexts] in *.
  exists kt, ko, st. repeat (split; [done|]).
  destruct Hc as [[? ?]|(? & c & o & c' & _ & _ & _ & ?)]; [by left|right; eauto].
Qed.

Lemma deepJoin_writes lc jm this other h h' :
  this <> other -> DotKernel.deepJoin lc jm this other h = Ok h' ->
  joinWrites this other h h'.
Proof.
  intros Hne. unfold DotKernel.deepJoin.
  destruct (Nat.eqb_spec this other) as [|_]; [done|].
  intros H. bind_inv H as kt Hkt. apply getKernel_Ok in Hkt.
  bind_inv H as ko Hko. apply getKernel_Ok in Hko.
  bind_inv H as thisDots HthisDots. bind_inv H as otherDots HotherDots.
  bind_inv H as thisCtx HthisCtx. bind_inv H as otherCtx HotherCtx.
  bind_inv H as st Hst.
  bind_inv H as h1 Hh1. apply setStorage_inv in Hh1 as (kt' & Hkt' & ->).
  assert (kt' = kt) by congruence. subst kt'.
  apply joinContexts_inv in H as [Hk Hc]. cbn [kernels contexts] in *.
  exists kt, ko, st. repeat (split; [done|]).
  destruct Hc as [[? ?]|(? & c & o & c' & _ & _ & _ & ?)]; [by left|right; eauto].
Qed.

Lemma joinWrites_frame this other h h' ko co :
  this <> other -> joinWrites this other h h' ->
  Heap.getKernel other h = Ok ko ->
  Heap.getContext (sharedContext ko) h = Ok co ->
  Heap.getKernel other h' = Ok ko
  /\ Heap.getContext (sharedContext ko) h' = Ok co.
Proof.
  intros Hne (kt & ko' & st & Hkt & Hko' & Hk & Hc) Hko%getKernel_Ok Hco%getContext_Ok.
  assert (ko' = ko) by congruence. subst ko'. split.
  - apply getKernel_Ok. rewrite Hk. by rewrite list_lookup_insert_ne.
  - apply getContext_Ok. destruct Hc as [[_ ->]|(Hsh & c' & ->)]; [done|].
    by rewrite list_lookup_insert_ne.
Qed.

(** C9. For two distinct kernels, [this.join(other)] and
    [this.deepJoin(other)] leave the storage of [other] and the context
    that [other] names as they were: the map and the dot cloud of that
    context are unchanged, also when both kernels name the same context. *)
Theorem join_leaves_argument_unchanged (lc : string -> string -> Z)
    (jm : Value -> option (Value -> Outcome Value))
    (this other : nat) (h h' : Heap) (ko : DotKernel) (co : DotContext) :
  this <> other ->
  Heap.getKernel other h = Ok ko ->
  Heap.getContext (sharedContext ko) h = Ok co ->
  DotKernel.join lc this other h = Ok h'
  \/ DotKernel.deepJoin lc jm this other h = Ok h' ->
  Heap.getKernel other h' = Ok ko
  /\ Heap.getContext (sharedContext ko) h' = Ok co.
Proof.
  intros Hne Hko Hco [H|H].
  - eapply joinWrites_frame; eauto using join_writes.
  - eapply joinWrites_frame; eauto using deepJoin_writes.
Qed.

(** C9, witness: the two kernels name the same context. *)
Lemma join_leaves_argument_unchanged_witness :
  exists h',
    DotKernel.join codeUnitCompare 0 1 sharedContextHeap = Ok h'
    /\ Heap.getKernel 1 h' = Ok (mkKernel [("b:1", VStr "y")] 2 0)
    /\ Heap.getContext 0 h' = Ok (mkContext [("a", 1); ("b", 1)] []).
Proof.
  eexists. split; [vm_compute; reflexivity|].
  apply (join_leaves_argument_unchanged codeUnitCompare DeltaHelpers.repoJoinMethod
           0 1 sharedContextHeap _ (mkKernel [("b:1", VStr "y")] 2 0)
           (mkContext [("a", 1); ("b", 1)] [])).
  - discriminate.
  - reflexivity.
  - reflexivity.
  - left. reflexivity.
Defined.

(** ** Membership *)

Lemma dotIn_member c input d :
  Dot.toDot input = Ok d -> DotContext.dotIn c input = Ok (member c d).
Proof.
  intros H. unfold DotContext.dotIn, member. rewrite H. cbn [bindO].
  destruct (JsMap.get (id d) (compactCausalContext c)); [|done].
  by destruct (counter d <=? z).
Qed.

Lemma dotIn_Ok_inv c input b :
  DotContext.dotIn c input = Ok b ->
  exists d, Dot.toDot input = Ok d /\ b = member c d.
Proof.
  intros H. destruct (Dot.toDot input) as [d| | |] eqn:E;
    try (unfold DotContext.dotIn in H; rewrite E in H; discriminate).
  exists d. split; [done|]. rewrite (dotIn_member _ _ _ E) in H. congruence.
Qed.

Lemma mapLe_refl cc : mapLe cc cc.
Proof. intros i k H. exists k. split; [done|lia]. Qed.

Lemma mapLe_trans a b c : mapLe a b -> mapLe b c -> mapLe a c.
Proof.
  intros Hab Hbc i k H. destruct (Hab i k H) as (k' & H' & ?).
  destruct (Hbc i k' H') as (k'' & H'' & ?). exists k''. split; [done|lia].
Qed.

Lemma mapLe_set cc i k :
  (forall k0, JsMap.get i cc = Some k0 -> k0 <= k) -> mapLe cc (JsMap.set i k cc).
Proof.
  intros Hk j kj Hj. rewrite get_set.
  destruct (String.eqb_spec i j) as [->|Hne].
  - exists k. split; [done|]. by apply Hk.
  - exists kj. split; [done|lia].
Qed.

(** What a pass of [compact] does to the map and to the deletions. *)
Lemma compactPass_mono cloud cc del flag cc' del' flag' :
  DotContext.compactPass cloud cc del flag = Ok (cc', del', flag') ->
  mapLe cc cc'
  /\ forall s, In s del' ->
       In s del
       \/ exists d k, Dot.fromString s = Ok d
            /\ JsMap.get (id d) cc' = Some k /\ counter d <= k.
Proof.
  revert cc del flag. induction cloud as [|s cloud IH]; intros cc del flag; simpl.
  - intros [= <- <- <-]. split; [apply mapLe_refl|]. by left.
  - intros H. bind_inv H as d Hd.
    assert (Hstep : forall cc1 del1 flag1,
      DotContext.compactPass cloud cc1 del1 flag1 = Ok (cc', del', flag') ->
      mapLe cc cc1 ->
      (forall x, In x del1 -> In x del
         \/ exists d k, Dot.fromString x = Ok d
              /\ JsMap.get (id d) cc1 = Some k /\ counter d <= k) ->
      mapLe cc cc'
      /\ forall x, In x del' -> In x del
           \/ exists d k, Dot.fromString x = Ok d
                /\ JsMap.get (id d) cc' = Some k /\ counter d <= k).
    { intros cc1 del1 flag1 Hrec Hle Hdel.
      apply IH in Hrec as [Hle' Hdel']. split; [by eapply mapLe_trans|].
      intros x Hx. destruct (Hdel' x Hx) as [Hx1|?]; [|by right].
      destruct (Hdel x Hx1) as [?|(d0 & k & Hd0 & Hk & ?)]; [by left|].
      right. destruct (Hle' _ _ Hk) as (k' & Hk' & ?).
      exists d0, k'. repeat split; [done|done|lia]. }
    assert (Hadd : forall cc1 k, JsMap.get (id d) cc1 = Some k -> counter d <= k ->
      forall x, In x (del ++ [s])%list -> In x del
         \/ exists d k, Dot.fromString x = Ok d
              /\ JsMap.get (id d) cc1 = Some k /\ counter d <= k).
    { intros cc1 k Hk Hle x [Hx|[<-|[]]]%in_app_or; [by left|]. right. eauto. }
    destruct (JsMap.get (id d) cc) as [k|] eqn:Hget.
    + destruct (counter d =? k + 1) eqn:E1.
      { apply Z.eqb_eq in E1. apply (Hstep _ _ _ H).
        - apply mapLe_set. intros k0. rewrite Hget. intros [= <-]. lia.
        - apply (Hadd _ (k + 1)); [apply get_set_eq|lia]. }
      destruct (counter d <=? k) eqn:E2.
      { apply Z.leb_le in E2. apply (Hstep _ _ _ H); [apply mapLe_refl|].
        by apply (Hadd _ k). }
      apply (Hstep _ _ _ H); [apply mapLe_refl|]. by left.
    + destruct (counter d =? 1) eqn:E1.
      { apply Z.eqb_eq in E1. apply (Hstep _ _ _ H).
        - apply mapLe_set. intros k0. by rewrite Hget.
        - apply (Hadd _ (counter d)); [apply get_set_eq|lia]. }
      apply (Hstep _ _ _ H); [apply mapLe_refl|]. by left.
Qed.

(** Membership under a larger map and a cloud that lost only dominated
    entries. *)
Lemma member_mono c c' d :
  mapLe (compactCausalContext c) (compactCausalContext c') ->
  (forall s, In s (dotCloud c) -> In s (dotCloud c')
     \/ exists d' k, Dot.fromString s = Ok d'
          /\ JsMap.get (id d') (compactCausalContext c') = Some k /\ counter d' <= k) ->
  member c d = true -> member c' d = true.
Proof.
  intros Hle Hcloud. unfold member.
  assert (Hc : JsSet.has (Dot.toStringDot d) (dotCloud c) = true ->
    match JsMap.get (id d) (compactCausalContext c') with
    | Some k => (counter d <=? k) || JsSet.has (Dot.toStringDot d) (dotCloud c')
    | None => JsSet.has (Dot.toStringDot d) (dotCloud c')
    end = true).
  { intros Hin%set_has_In. destruct (Hcloud _ Hin) as [Hin'|(d' & k & Hd' & Hk & Hle')].
    - apply set_has_In in Hin'. rewrite Hin'.
      destruct (JsMap.get (id d) (compactCausalContext c')); [apply orb_true_r|done].
    - apply fromString_toString_inv in Hd'. subst d'. rewrite Hk.
      apply orb_true_intro. left. by apply Z.leb_le. }
  destruct (JsMap.get (id d) (compactCausalContext c)) as [k|] eqn:Hk; [|done].
  intros [Hle'%Z.leb_le|Hin]%orb_prop; [|by apply Hc].
  destruct (Hle _ _ Hk) as (k' & -> & ?).
  apply orb_true_intro. left. apply Z.leb_le. lia.
Qed.

Lemma compactLoop_mono fuel c c' d :
  DotContext.compactLoop fuel c = Ok c' -> member c d = true -> member c' d = true.
Proof.
  revert c. induction fuel as [|fuel IH]; intros c; simpl; [done|].
  intros H. bind_inv H as [[cc del] flag] Hpass.
  apply compactPass_mono in Hpass as [Hle Hdel].
  assert (Hone : member c d = true ->
    member (mkContext cc (DotContext.deleteAll del (dotCloud c))) d = true).
  { apply member_mono; cbn [compactCausalContext dotCloud]; [done|].
    intros s Hs. destruct (in_dec string_dec s del) as [Hin|Hnin].
    - right. destruct (Hdel s Hin) as [[]|?]. done.
    - left. apply deleteAll_In. done. }
  destruct flag.
  - intros Hm. eapply IH; [done|]. by apply Hone.
  - injection H as <-. done.
Qed.

Lemma compact_mono c c' d :
  DotContext.compact c = Ok c' -> member c d = true -> member c' d = true.
Proof. apply compactLoop_mono. Qed.

(** ** Contexts only grow *)

Lemma member_cloud_mono cc cloud cloud' d :
  (forall s, In s cloud -> In s cloud') ->
  member (mkContext cc cloud) d = true -> member (mkContext cc cloud') d = true.
Proof.
  intros Hsub. apply member_mono; cbn [compactCausalContext dotCloud].
  - apply mapLe_refl.
  - intros s Hs. left. by apply Hsub.
Qed.

Lemma makeDot_member c i d :
  boundedCounter (cccOrZero c i) ->
  member c d = true -> member (snd (DotContext.makeDot c i)) d = true.
Proof.
  intros Hb. rewrite makeDot_context.
  apply member_mono; cbn [compactCausalContext dotCloud]; [|by left].
  apply mapLe_set. intros k0 Hk0. unfold cccOrZero in *. rewrite Hk0 in *.
  by apply plus_small.
Qed.

Lemma makeDot_new_member c i :
  member (snd (DotContext.makeDot c i)) (fst (DotContext.makeDot c i)) = true.
Proof.
  rewrite makeDot_context, makeDot_dot.
  unfold member. cbn [fst snd id counter compactCausalContext].
  rewrite get_set_eq. apply orb_true_intro. left. apply Z.leb_le. lia.
Qed.

Lemma insertDot_cloud c input compactNow c' :
  DotContext.insertDot c input compactNow = Ok c' ->
  exists d, Dot.toDot input = Ok d
    /\ (if compactNow
        then DotContext.compact
               (mkContext (compactCausalContext c)
                          (JsSet.add (Dot.toStringDot d) (dotCloud c))) = Ok c'
        else c' = mkContext (compactCausalContext c)
                            (JsSet.add (Dot.toStringDot d) (dotCloud c))).
Proof.
  unfold DotContext.insertDot, Dot.toString. intros H.
  bind_inv H as s Hs. bind_inv Hs as d Hd. injection Hs as <-.
  exists d. split; [done|]. destruct compactNow; [done|]. by injection H as <-.
Qed.

Lemma add_In x y s : In x (JsSet.add y s) <-> x = y \/ In x s.
Proof.
  rewrite <- !set_has_In, set_has_add.
  destruct (String.eqb_spec y x) as [->|Hne]; simpl; [tauto|].
  split; [auto|]. intros [->|?]; done.
Qed.

Lemma insertDot_member c input compactNow c' d :
  DotContext.insertDot c input compactNow = Ok c' ->
  member c d = true -> member c' d = true.
Proof.
  intros (d0 & _ & H)%insertDot_cloud Hm.
  assert (Hadd : member (mkContext (compactCausalContext c)
                           (JsSet.add (Dot.toStringDot d0) (dotCloud c))) d = true).
  { destruct c as [cc cloud]. eapply member_cloud_mono; [|done].
    intros s Hs. apply add_In. by right. }
  destruct compactNow; [by eapply compact_mono|by subst c'].
Qed.

Lemma insertDot_new_member c input compactNow c' d :
  DotContext.insertDot c input compactNow = Ok c' ->
  Dot.toDot input = Ok d -> member c' d = true.
Proof.
  intros (d0 & Hd0 & H)%insertDot_cloud Hd.
  assert (d0 = d) by congruence. subst d0.
  assert (Hadd : member (mkContext (compactCausalContext c)
                           (JsSet.add (Dot.toStringDot d) (dotCloud c))) d = true).
  { unfold member. cbn [compactCausalContext dotCloud].
    assert (JsSet.has (Dot.toStringDot d) (JsSet.add (Dot.toStringDot d) (dotCloud c)) = true)
      as -> by (apply set_has_In, add_In; by left).
    destruct (JsMap.get (id d) (compactCausalContext c)); [apply orb_true_r|done]. }
  destruct compactNow; [by eapply compact_mono|by subst c'].
Qed.

Lemma joinCompact_mono entries cc : mapLe cc (DotContext.joinCompact entries cc).
Proof.
  revert cc. induction entries as [|[i v] entries IH]; intros cc; simpl.
  - apply mapLe_refl.
  - eapply mapLe_trans; [|apply IH]. apply mapLe_set.
    intros k0 ->. lia.
Qed.

Lemma joinCompact_entries entries cc i k :
  In (i, k) entries ->
  exists k', JsMap.get i (DotContext.joinCompact entries cc) = Some k' /\ k <= k'.
Proof.
  revert cc. induction entries as [|[j v] entries IH]; intros cc; simpl; [done|].
  intros [[= -> ->]|Hin]; [|by apply IH].
  destruct (joinCompact_mono entries
              (JsMap.set i (match JsMap.get i cc with
                            | Some c => Z.max c k
                            | None => k
                            end) cc) i _ (get_set_eq _ _ _)) as (k' & Hk' & Hle).
  exists k'. split; [done|]. destruct (JsMap.get i cc); lia.
Qed.

Lemma get_Some_In {V : Type} (m : JsMap.t V) k v : JsMap.get k m = Some v -> In (k, v) m.
Proof.
  induction m as [|[k' v'] m IH]; simpl; [done|].
  destruct (String.eqb_spec k' k) as [->|Hne].
  - intros [= ->]. by left.
  - intros H. right. by apply IH.
Qed.

Lemma joinCloud_member dots c c' d :
  DotContext.joinCloud dots c = Ok c' -> member c d = true -> member c' d = true.
Proof.
  revert c. induction dots as [|s dots IH]; intros c; simpl.
  - by intros [= <-].
  - intros H. bind_inv H as c1 Hc1. intros Hm.
    eapply IH; [done|]. by eapply insertDot_member.
Qed.

Lemma joinCloud_new_member dots c c' s d :
  DotContext.joinCloud dots c = Ok c' -> In s dots ->
  Dot.fromString s = Ok d -> member c' d = true.
Proof.
  revert c. induction dots as [|s0 dots IH]; intros c; simpl; [done|].
  intros H [->|Hin] Hd; bind_inv H as c1 Hc1.
  - eapply joinCloud_member; [done|]. by eapply insertDot_new_member.
  - by eapply IH.
Qed.

Lemma joinCloud_map dots c c' :
  DotContext.joinCloud dots c = Ok c' -> compactCausalContext c' = compactCausalContext c.
Proof.
  revert c. induction dots as [|s dots IH]; intros c; simpl.
  - by intros [= <-].
  - intros H. bind_inv H as c1 Hc1. rewrite (IH _ H).
    apply insertDot_cloud in Hc1 as (d & _ & ->). done.
Qed.

(** [join] keeps the members of [this]. *)
Lemma contextJoin_member_l c o c' d :
  DotContext.join c o = Ok c' -> member c d = true -> member c' d = true.
Proof.
  unfold DotContext.join. intros H. bind_inv H as c1 Hc1. intros Hm.
  eapply compact_mono; [done|]. eapply joinCloud_member; [done|].
  revert Hm. apply member_mono; cbn [compactCausalContext dotCloud]; [|by left].
  apply joinCompact_mono.
Qed.

(** [join] takes in the members of the other context. *)
Lemma contextJoin_member_r c o c' d :
  DotContext.join c o = Ok c' -> member o d = true -> member c' d = true.
Proof.
  unfold DotContext.join. intros H. bind_inv H as c1 Hc1. intros Hm.
  eapply compact_mono; [done|].
  assert (Hcloud : JsSet.has (Dot.toStringDot d) (dotCloud o) = true -> member c1 d = true).
  { intros Hin%set_has_In.
    destruct (Dot.fromString (Dot.toStringDot d)) as [d'| | |] eqn:Hd'.
    - pose proof (fromString_toString_inv _ _ Hd'). subst d'.
      by eapply joinCloud_new_member.
    - exfalso. clear Hm H. revert Hc1 Hin.
      generalize (mkContext (DotContext.joinCompact (compactCausalContext o)
                               (compactCausalContext c)) (dotCloud c)).
      induction (dotCloud o) as [|s0 dots IH]; intros c0; simpl; [done|].
      intros H [->|Hin]; bind_inv H as c2 Hc2.
      + apply insertDot_cloud in Hc2 as (? & Hd & _). simpl in Hd. congruence.
      + by eapply IH.
    - exfalso. clear Hm H. revert Hc1 Hin.
      generalize (mkContext (DotContext.joinCompact (compactCausalContext o)
                               (compactCausalContext c)) (dotCloud c)).
      induction (dotCloud o) as [|s0 dots IH]; intros c0; simpl; [done|].
      intros H [->|Hin]; bind_inv H as c2 Hc2.
      + apply insertDot_cloud in Hc2 as (? & Hd & _). simpl in Hd. congruence.
      + by eapply IH.
    - exfalso. clear Hm H. revert Hc1 Hin.
      generalize (mkContext (DotContext.joinCompact (compactCausalContext o)
                               (compactCausalContext c)) (dotCloud c)).
      induction (dotCloud o) as [|s0 dots IH]; intros c0; simpl; [done|].
      intros H [->|Hin]; bind_inv H as c2 Hc2.
      + apply insertDot_cloud in Hc2 as (? & Hd & _). simpl in Hd. congruence.
      + by eapply IH. }
  unfold member in Hm.
  destruct (JsMap.get (id d) (compactCausalContext o)) as [k|] eqn:Hk; [|by apply Hcloud].
  apply orb_prop in Hm as [Hle%Z.leb_le|Hin]; [|by apply Hcloud].
  apply get_Some_In in Hk.
  destruct (joinCompact_entries _ (compactCausalContext c) _ _ Hk) as (k' & Hk' & ?).
  unfold member. rewrite (joinCloud_map _ _ _ Hc1). cbn [compactCausalContext].
  rewrite Hk'. apply orb_true_intro. left. apply Z.leb_le. lia.
Qed.

(** ** Sorting the keys *)

Lemma insertSorted_perm {A : Type} (cmp : A -> A -> Z) x l :
  Permutation (Js.insertSorted cmp x l) (x :: l).
Proof.
  induction l as [|y l IH]; simpl; [done|].
  destruct (cmp x y <=? 0); [done|].
  rewrite IH. apply perm_swap.
Qed.

Lemma sort_perm {A : Type} (cmp : A -> A -> Z) l : Permutation (Js.sort cmp l) l.
Proof.
  induction l as [|x l IH]; simpl; [done|].
  rewrite insertSorted_perm. by constructor.
Qed.

Lemma parseKeys_fst keys parsed :
  Dot.parseKeys keys = Ok parsed -> map fst parsed = keys.
Proof.
  revert parsed. induction keys as [|k keys IH]; intros parsed; simpl.
  - by intros [= <-].
  - intros H. bind_inv H as d Hd. bind_inv H as rest Hrest. injection H as <-.
    simpl. by rewrite (IH _ Hrest).
Qed.

Lemma parseKeys_parsed keys parsed k d :
  Dot.parseKeys keys = Ok parsed -> In (k, d) parsed -> Dot.fromString k = Ok d.
Proof.
  revert parsed. induction keys as [|k0 keys IH]; intros parsed; simpl.
  - by intros [= <-].
  - intros H. bind_inv H as d0 Hd0. bind_inv H as rest Hrest. injection H as <-.
    intros [[= -> ->]|Hin]; [done|]. by eapply IH.
Qed.

Lemma sortKeys_perm lc keys sorted :
  Dot.sortKeys lc keys = Ok sorted -> Permutation sorted keys.
Proof.
  unfold Dot.sortKeys. destruct keys as [|k1 [|k2 keys]]; try by intros [= <-].
  intros H. bind_inv H as parsed Hp. injection H as <-.
  rewrite sort_perm. by rewrite (parseKeys_fst _ _ Hp).
Qed.

Lemma sortKeys_In lc keys sorted x :
  Dot.sortKeys lc keys = Ok sorted -> In x sorted <-> In x keys.
Proof.
  intros H%sortKeys_perm. rewrite <- !list_elem_of_In. by rewrite H.
Qed.

(** ** The loops of [join] and [deepJoin] *)

Section Loops.
Variable lc : string -> string -> Z.
Variable jm : Value -> option (Value -> Outcome Value).
Variables thisCtx otherCtx : DotContext.
Variable otherStorage : JsMap.t Value.

Let onlyInThis (loop : list string -> list string -> JsMap.t Value -> Outcome (JsMap.t Value))
    thisDot ts otherDots st :=
  let! known := DotContext.dotIn otherCtx (InStr thisDot) in
  loop ts otherDots (if known then JsMap.delete thisDot st else st).

Let onlyInOther (loop : list string -> list string -> JsMap.t Value -> Outcome (JsMap.t Value))
    thisDots otherDot os st :=
  let! known := DotContext.dotIn thisCtx (InStr otherDot) in
  loop thisDots os
       (if known then st
        else JsMap.set otherDot (DotKernel.getValue otherDot otherStorage) st).

Let joinLoop := DotKernel.joinLoop lc thisCtx otherCtx otherStorage.
Let deepJoinLoop := DotKernel.deepJoinLoop jm thisCtx otherCtx otherStorage.

Lemma joinLoop_nil_nil st : joinLoop [] [] st = Ok st.
Proof. reflexivity. Qed.

Lemma joinLoop_cons_nil x ts st :
  joinLoop (x :: ts) [] st = onlyInThis joinLoop x ts [] st.
Proof. reflexivity. Qed.

Lemma joinLoop_nil_cons y os st :
  joinLoop [] (y :: os) st = onlyInOther joinLoop [] y os st.
Proof. reflexivity. Qed.

Lemma joinLoop_cons_cons x ts y os st :
  joinLoop (x :: ts) (y :: os) st =
  if Js.stringLt x y then onlyInThis joinLoop x ts (y :: os) st
  else
    let! c := Dot.compare lc (InStr y) (InStr x) in
    if c <? 0 then onlyInOther joinLoop (x :: ts) y os st
    else joinLoop ts os st.
Proof. reflexivity. Qed.

Lemma deepJoinLoop_nil_nil st : deepJoinLoop [] [] st = Ok st.
Proof. reflexivity. Qed.

Lemma deepJoinLoop_cons_nil x ts st :
  deepJoinLoop (x :: ts) [] st = onlyInThis deepJoinLoop x ts [] st.
Proof. reflexivity. Qed.

Lemma deepJoinLoop_nil_cons y os st :
  deepJoinLoop [] (y :: os) st = onlyInOther deepJoinLoop [] y os st.
Proof. reflexivity. Qed.

Lemma deepJoinLoop_cons_cons x ts y os st :
  deepJoinLoop (x :: ts) (y :: os) st =
  if Js.stringLt x y then onlyInThis deepJoinLoop x ts (y :: os) st
  else if Js.stringLt y x then onlyInOther deepJoinLoop (x :: ts) y os st
  else
    let thisVal := DotKernel.getValue x st in
    let otherVal := DotKernel.getValue y otherStorage in
    if negb (JsValue.sameJson thisVal otherVal) then
      let! joined := DeltaHelpers.join jm thisVal otherVal in
      deepJoinLoop ts os (JsMap.set x joined st)
    else deepJoinLoop ts os st.
Proof. reflexivity. Qed.

(** The keys a loop leaves in the storage were there before or are among
    the dots of the other kernel. *)
Lemma joinLoop_keys thisDots otherDots st st' key :
  joinLoop thisDots otherDots st = Ok st' ->
  In key (JsMap.keys st') ->
  In key (JsMap.keys st) \/ In key otherDots.
Proof.
  revert otherDots st.
  induction thisDots as [|x ts IHt]; intros otherDots;
    induction otherDots as [|y os IHo]; intros st.
  - rewrite joinLoop_nil_nil. intros [= <-]. by left.
  - rewrite joinLoop_nil_cons. unfold onlyInOther. intros H Hin.
    bind_inv H as known Hk. destruct (IHo _ H Hin) as [Hst|?]; [|right; by right].
    destruct known; [by left|]. apply keys_set in Hst as [->|?]; [right; by left|by left].
  - rewrite joinLoop_cons_nil. unfold onlyInThis. intros H Hin.
    bind_inv H as known Hk. destruct (IHt _ _ H Hin) as [Hst|?]; [|by right].
    left. destruct known; [|done]. by apply keys_delete in Hst as [_ ?].
  - rewrite joinLoop_cons_cons. destruct (Js.stringLt x y).
    + unfold onlyInThis. intros H Hin.
      bind_inv H as known Hk. destruct (IHt _ _ H Hin) as [Hst|?]; [|by right].
      left. destruct known; [|done]. by apply keys_delete in Hst as [_ ?].
    + intros H Hin. bind_inv H as c Hc. destruct (c <? 0).
      * unfold onlyInOther in H. bind_inv H as known Hk.
        destruct (IHo _ H Hin) as [Hst|?]; [|right; by right].
        destruct known; [by left|].
        apply keys_set in Hst as [->|?]; [right; by left|by left].
      * destruct (IHt _ _ H Hin) as [?|?]; [by left|right; by right].
Qed.

Lemma deepJoinLoop_keys thisDots otherDots st st' key :
  deepJoinLoop thisDots otherDots st = Ok st' ->
  In key (JsMap.keys st') ->
  In key (JsMap.keys st) \/ In key otherDots \/ In key thisDots.
Proof.
  revert otherDots st.
  induction thisDots as [|x ts IHt]; intros otherDots;
    induction otherDots as [|y os IHo]; intros st.
  - rewrite deepJoinLoop_nil_nil. intros [= <-]. by left.
  - rewrite deepJoinLoop_nil_cons. unfold onlyInOther. intros H Hin.
    bind_inv H as known Hk.
    destruct (IHo _ H Hin) as [Hst|[?|?]]; [|right; left; by right|done].
    destruct known; [by left|].
    apply keys_set in Hst as [->|?]; [right; left; by left|by left].
  - rewrite deepJoinLoop_cons_nil. unfold onlyInThis. intros H Hin.
    bind_inv H as known Hk.
    destruct (IHt _ _ H Hin) as [Hst|[?|?]]; [|done|right; right; by right].
    left. destruct known; [|done]. by apply keys_delete in Hst as [_ ?].
  - rewrite deepJoinLoop_cons_cons. destruct (Js.stringLt x y).
    + unfold onlyInThis. intros H Hin. bind_inv H as known Hk.
      destruct (IHt _ _ H Hin) as [Hst|[?|?]]; [|by right; left|right; right; by right].
      left. destruct known; [|done]. by apply keys_delete in Hst as [_ ?].
    + destruct (Js.stringLt y x).
      * unfold onlyInOther. intros H Hin. bind_inv H as known Hk.
        destruct (IHo _ H Hin) as [Hst|[?|?]]; [|right; left; by right|by right; right].
        destruct known; [by left|].
        apply keys_set in Hst as [->|?]; [right; left; by left|by left].
      * cbv zeta. destruct (negb _).
        -- intros H Hin. bind_inv H as joined Hj.
           destruct (IHt _ _ H Hin) as [Hst|[?|?]];
             [|right; left; by right|right; right; by right].
           apply keys_set in Hst as [->|?]; [right; right; by left|by left].
        -- intros H Hin.
           destruct (IHt _ _ H Hin) as [?|[?|?]];
             [by left|right; left; by right|right; right; by right].
Qed.

End Loops.

(** ** C4: anchoring is an invariant *)

Lemma boundedContext_ccc c i : boundedContext c -> boundedCounter (cccOrZero c i).
Proof.
  intros [Hcc _]. unfold cccOrZero.
  destruct (JsMap.get i (compactCausalContext c)) as [k|] eqn:E.
  - eapply Hcc, get_Some_In, E.
  - unfold boundedCounter. simpl. lia.
Qed.

Lemma contextsGrow_refl h ks : contextsGrow h (mkHeap (contexts h) ks).
Proof. intros r c H. exists c. split; done. Qed.

Lemma contextsGrow_trans h1 h2 h3 :
  contextsGrow h1 h2 -> contextsGrow h2 h3 -> contextsGrow h1 h3.
Proof.
  intros H12 H23 r c H. destruct (H12 r c H) as (c' & H' & Hm).
  destruct (H23 r c' H') as (c'' & H'' & Hm'). exists c''. split; [done|]. auto.
Qed.

Lemma contextsGrow_alloc h c ks : contextsGrow h (mkHeap (contexts h ++ [c]) ks).
Proof.
  intros r c0 H. exists c0. split; [|done]. cbn [contexts].
  rewrite lookup_app_l; [done|]. by eapply lookup_lt_Some.
Qed.

Lemma contextsGrow_insert h s c c' ks :
  contexts h !! s = Some c ->
  (forall d, member c d = true -> member c' d = true) ->
  contextsGrow h (mkHeap (<[s := c']> (contexts h)) ks).
Proof.
  intros Hs Hm r c0 H. cbn [contexts]. destruct (decide (s = r)) as [->|Hne].
  - exists c'. split; [|by assert (c0 = c) as -> by congruence].
    apply list_lookup_insert_eq. by eapply lookup_lt_Some.
  - exists c0. split; [|done]. by rewrite list_lookup_insert_ne.
Qed.

Lemma dotInAt_grow h h' s key :
  contextsGrow h h' -> dotInAt h s key -> dotInAt h' s key.
Proof.
  intros Hg (c & Hc & Hin). destruct (Hg s c Hc) as (c' & Hc' & Hm).
  exists c'. split; [done|].
  apply dotIn_Ok_inv in Hin as (d & Hd & Hmem).
  rewrite (dotIn_member _ _ _ Hd). f_equal. symmetry in Hmem. by apply Hm.
Qed.

(** The way to the invariant after an operation: contexts grew, and every
    kernel of the new heap either is a kernel of the old heap, with keys it
    had, or has its keys in its context. *)
Lemma anchored_step h h' :
  anchored h -> contextsGrow h h' ->
  (forall r k' key, kernels h' !! r = Some k' -> In key (JsMap.keys (dataStorage k')) ->
     (exists r0 k, kernels h !! r0 = Some k /\ sharedContext k = sharedContext k'
              /\ In key (JsMap.keys (dataStorage k)))
     \/ dotInAt h' (sharedContext k') key) ->
  anchored h'.
Proof.
  intros Ha Hg Hk r k' key Hr Hkey.
  destruct (Hk r k' key Hr Hkey) as [(r0 & k & Hk0 & Hsh & Hin)|?]; [|done].
  rewrite <- Hsh. eapply dotInAt_grow; [done|]. by eapply Ha.
Qed.

Lemma dotInAt_intro h s c key d :
  contexts h !! s = Some c -> Dot.fromString key = Ok d -> member c d = true ->
  dotInAt h s key.
Proof.
  intros Hc Hd Hm. exists c. split; [done|].
  rewrite (dotIn_member c (InStr key) d) by done. by rewrite Hm.
Qed.

Lemma insert_snoc {A : Type} (l : list A) (x y : A) :
  <[length l := x]> (l ++ [y])%list = (l ++ [x])%list.
Proof.
  replace (length l) with (length l + 0)%nat by lia.
  by rewrite insert_app_r.
Qed.

Lemma add_shape h k kt ctx i v res h' :
  kernels h !! k = Some kt ->
  contexts h !! sharedContext kt = Some ctx ->
  DotKernel.add k i v h = Ok (res, h') ->
  exists rctx',
    DotContext.insertDot DotContext.empty (InDot (fst (DotContext.makeDot ctx i))) true
    = Ok rctx'
    /\ res = length (kernels h)
    /\ contexts h'
        = (<[sharedContext kt := snd (DotContext.makeDot ctx i)]> (contexts h)
           ++ [rctx'])%list
    /\ kernels h'
        = (<[k := mkKernel
                    (JsMap.set (Dot.toStringDot (fst (DotContext.makeDot ctx i))) v
                               (dataStorage kt))
                    (contextBase kt) (sharedContext kt)]> (kernels h)
           ++ [mkKernel [(Dot.toStringDot (fst (DotContext.makeDot ctx i)), v)]
                        (length (contexts h)) (length (contexts h))])%list.
Proof.
  intros Hkt Hctx H. unfold DotKernel.add in H. rewrite new_eq in H.
  assert (Hlt : (k < length (kernels h))%nat) by (by eapply lookup_lt_Some).
  assert (Hs : (sharedContext kt < length (contexts h))%nat) by (by eapply lookup_lt_Some).
  unfold Heap.getKernel, Heap.getContext, Heap.setContext in H.
  cbn [kernels contexts] in H.
  rewrite (lookup_app_l (kernels h)) in H by done. rewrite Hkt in H. cbn [bindO] in H.
  rewrite (lookup_app_l (contexts h)) in H by done. rewrite Hctx in H. cbn [bindO] in H.
  destruct (DotContext.makeDot ctx i) as [dot ctx'] eqn:Hmk. cbn [fst snd].
  rewrite setStorage_Ok with (k := kt) in H
    by (cbn [kernels]; by rewrite lookup_app_l).
  cbn [bindO kernels contexts] in H.
  rewrite insert_app_l in H by done.
  rewrite list_lookup_middle in H by (by rewrite length_insert).
  cbn [bindO] in H.
  rewrite setStorage_Ok with (k := mkKernel [] (length (contexts h)) (length (contexts h))) in H
    by (cbn [kernels]; apply list_lookup_middle; by rewrite length_insert).
  cbn [bindO kernels contexts dataStorage contextBase sharedContext JsMap.set] in H.
  rewrite insert_app_l in H by done.
  rewrite list_lookup_middle in H by (by rewrite length_insert).
  cbn [bindO] in H. bind_inv H as rctx' Hr. injection H as <- <-.
  exists rctx'. split; [done|]. split; [done|]. cbn [contexts kernels]. split.
  - rewrite <- (length_insert (contexts h) (sharedContext kt) ctx') at 1.
    apply insert_snoc.
  - rewrite <- (length_insert (kernels h) k) at 1. apply insert_snoc.
Qed.

Lemma optInsert_length {A : Type} (o : option (nat * A)) l :
  length (optInsert o l) = length l.
Proof. destruct o as [[i x]|]; simpl; [apply length_insert|done]. Qed.

Lemma optInsert_lookup {A : Type} (o : option (nat * A)) l r y :
  optInsert o l !! r = Some y ->
  (exists x, o = Some (r, y) /\ l !! r = Some x) \/ l !! r = Some y.
Proof.
  destruct o as [[i x]|]; simpl; [|by right].
  intros [(-> & -> & Hlt)|[_ ?]]%list_lookup_insert_Some; [|by right].
  left. destruct (lookup_lt_is_Some_2 l r Hlt) as [x0 Hx0]. eauto.
Qed.

Lemma shape_contextsGrow h h' oc extraC :
  contexts h' = (optInsert oc (contexts h) ++ extraC)%list ->
  (forall s c', oc = Some (s, c') ->
     exists c, contexts h !! s = Some c
       /\ forall d, member c d = true -> member c' d = true) ->
  contextsGrow h h'.
Proof.
  intros Hc Hoc r c Hr. rewrite Hc.
  assert (Hlt : (r < length (contexts h))%nat) by (by eapply lookup_lt_Some).
  rewrite lookup_app_l by (by rewrite optInsert_length).
  destruct oc as [[s c']|]; simpl; [|by eauto].
  destruct (decide (s = r)) as [->|Hne].
  - destruct (Hoc r c' eq_refl) as (c0 & Hc0 & Hm).
    assert (c0 = c) by congruence. subst c0.
    exists c'. split; [by apply list_lookup_insert_eq|done].
  - exists c. split; [by rewrite list_lookup_insert_ne|done].
Qed.

Lemma heapInv_shape h h' oc ok extraC extraK :
  heapInv h ->
  contexts h' = (optInsert oc (contexts h) ++ extraC)%list ->
  kernels h' = (optInsert ok (kernels h) ++ extraK)%list ->
  (forall s c', oc = Some (s, c') ->
     exists c, contexts h !! s = Some c
       /\ forall d, member c d = true -> member c' d = true) ->
  (forall k kt', ok = Some (k, kt') ->
     exists kt, kernels h !! k = Some kt
       /\ sharedContext kt' = sharedContext kt
       /\ contextBase kt' = contextBase kt
       /\ forall key, In key (JsMap.keys (dataStorage kt')) ->
            In key (JsMap.keys (dataStorage kt))
            \/ dotInAt h' (sharedContext kt') key) ->
  (forall knew, In knew extraK ->
     (sharedContext knew < length (contexts h'))%nat
     /\ (contextBase knew < length (contexts h'))%nat
     /\ forall key, In key (JsMap.keys (dataStorage knew)) ->
          (exists r0 k0, kernels h !! r0 = Some k0
             /\ sharedContext k0 = sharedContext knew
             /\ In key (JsMap.keys (dataStorage k0)))
          \/ dotInAt h' (sharedContext knew) key) ->
  heapInv h'.
Proof.
  intros [Hv Ha] Hc Hk Hoc Hok Hnew.
  assert (Hlen : (length (contexts h) <= length (contexts h'))%nat).
  { rewrite Hc, length_app, optInsert_length. lia. }
  assert (Hcases : forall r k', kernels h' !! r = Some k' ->
    (exists kt, kernels h !! r = Some kt /\ ok = Some (r, k'))
    \/ kernels h !! r = Some k' \/ In k' extraK).
  { intros r k'. rewrite Hk. intros [Hr|[_ Hr]]%lookup_app_Some.
    - apply optInsert_lookup in Hr as [(x & -> & Hx)|?]; eauto.
    - right. right. apply list_elem_of_In. by eapply list_elem_of_lookup_2. }
  split.
  - intros r k' Hr. destruct (Hcases r k' Hr) as [(kt & Hkt & ->)|[Hold|Hin]].
    + destruct (Hok r k' eq_refl) as (kt0 & Hkt0 & -> & -> & _).
      destruct (Hv r kt0 Hkt0). lia.
    + destruct (Hv r k' Hold). lia.
    + destruct (Hnew k' Hin) as (? & ? & _). done.
  - apply (anchored_step h); [done|by eapply shape_contextsGrow|].
    intros r k' key Hr Hkey.
    destruct (Hcases r k' Hr) as [(kt & Hkt & ->)|[Hold|Hin]].
    + destruct (Hok r k' eq_refl) as (kt0 & Hkt0 & Hsh & _ & Hkeys).
      destruct (Hkeys key Hkey) as [?|?]; [|by right].
      left. exists r, kt0. done.
    + left. exists r, k'. done.
    + destruct (Hnew k' Hin) as (_ & _ & Hkeys). by apply Hkeys.
Qed.

Lemma heapInv_add h k i v res h' :
  wfId i = true -> heapInv h -> boundedHeap h ->
  (k < length (kernels h))%nat ->
  DotKernel.add k i v h = Ok (res, h') -> heapInv h'.
Proof.
  intros Hi Hinv Hbound Hlt H.
  destruct (lookup_lt_is_Some_2 _ _ Hlt) as [kt Hkt].
  destruct Hinv as [Hv Ha]. destruct (Hv k kt Hkt) as [Hs Hb].
  destruct (lookup_lt_is_Some_2 _ _ Hs) as [ctx Hctx].
  destruct (add_shape _ _ _ _ _ _ _ _ Hkt Hctx H) as (rctx' & Hr & -> & Hc & Hk).
  set (dot := fst (DotContext.makeDot ctx i)) in *.
  assert (Hdot : Dot.fromString (Dot.toStringDot dot) = Ok dot).
  { subst dot. unfold DotContext.makeDot. cbn [fst]. by apply fromString_toString. }
  eapply (heapInv_shape h h' (Some (_, _)) (Some (_, _))); [by split|exact Hc|exact Hk|..].
  - intros s c' [= <- <-]. exists ctx. split; [done|]. intros d. apply makeDot_member.
    eapply boundedContext_ccc, Hbound, Hctx.
  - intros k0 kt' [= <- <-]. exists kt. cbn [sharedContext contextBase dataStorage].
    repeat (split; [done|]). intros key [->|?]%keys_set; [|by left]. right.
    eapply dotInAt_intro; [|exact Hdot|apply makeDot_new_member].
    rewrite Hc. rewrite lookup_app_l by (by rewrite length_insert).
    by apply list_lookup_insert_eq.
  - intros knew [<-|[]]. cbn [sharedContext contextBase dataStorage].
    rewrite Hc, length_app, length_insert. simpl. split; [lia|]. split; [lia|].
    intros key [<-|[]]. right.
    eapply dotInAt_intro; [|exact Hdot|by eapply insertDot_new_member].
    rewrite Hc. apply list_lookup_middle. by rewrite length_insert.
Qed.

Lemma dotAdd_shape h k kt ctx i v dot h' :
  kernels h !! k = Some kt ->
  contexts h !! sharedContext kt = Some ctx ->
  DotKernel.dotAdd k i v h = Ok (dot, h') ->
  dot = fst (DotContext.makeDot ctx i)
  /\ contexts h' = <[sharedContext kt := snd (DotContext.makeDot ctx i)]> (contexts h)
  /\ kernels h'
     = <[k := mkKernel (JsMap.set (Dot.toStringDot dot) v (dataStorage kt))
                       (contextBase kt) (sharedContext kt)]> (kernels h).
Proof.
  intros Hkt Hctx H. unfold DotKernel.dotAdd in H.
  unfold Heap.getKernel, Heap.getContext, Heap.setContext in H.
  rewrite Hkt in H. cbn [bindO] in H. rewrite Hctx in H. cbn [bindO] in H.
  destruct (DotContext.makeDot ctx i) as [dot0 ctx'] eqn:Hmk. cbn [fst snd].
  rewrite setStorage_Ok with (k := kt) in H by done.
  cbn [bindO kernels contexts] in H. injection H as <- <-. done.
Qed.

Lemma heapInv_dotAdd h k i v dot h' :
  wfId i = true -> heapInv h -> boundedHeap h ->
  DotKernel.dotAdd k i v h = Ok (dot, h') -> heapInv h'.
Proof.
  intros Hi Hinv Hbound H.
  assert (exists kt, kernels h !! k = Some kt) as [kt Hkt].
  { unfold DotKernel.dotAdd in H. bind_inv H as kt Hkt.
    apply getKernel_Ok in Hkt. eauto. }
  destruct Hinv as [Hv Ha]. destruct (Hv k kt Hkt) as [Hs Hb].
  destruct (lookup_lt_is_Some_2 _ _ Hs) as [ctx Hctx].
  destruct (dotAdd_shape _ _ _ _ _ _ _ _ Hkt Hctx H) as (-> & Hc & Hk).
  set (dot := fst (DotContext.makeDot ctx i)) in *.
  assert (Hdot : Dot.fromString (Dot.toStringDot dot) = Ok dot).
  { subst dot. unfold DotContext.makeDot. cbn [fst]. by apply fromString_toString. }
  eapply (heapInv_shape h h' (Some (_, _)) (Some (_, _)) [] []);
    [by split|by rewrite app_nil_r|by rewrite app_nil_r|..].
  - intros s c' [= <- <-]. exists ctx. split; [done|]. intros d. apply makeDot_member.
    eapply boundedContext_ccc, Hbound, Hctx.
  - intros k0 kt' [= <- <-]. exists kt. cbn [sharedContext contextBase dataStorage].
    repeat (split; [done|]). intros key [->|?]%keys_set; [|by left]. right.
    eapply dotInAt_intro; [|exact Hdot|apply makeDot_new_member].
    rewrite Hc. by apply list_lookup_insert_eq.
  - by intros knew [].
Qed.

Lemma deleteKeys_keys toDelete (st : JsMap.t Value) key :
  In key (JsMap.keys (DotKernel.deleteKeys toDelete st)) -> In key (JsMap.keys st).
Proof.
  unfold DotKernel.deleteKeys. revert st.
  induction toDelete as [|k l IH]; intros st; simpl; [done|].
  intros H%IH. by apply keys_delete in H as [_ ?].
Qed.

(** The heap after [rmv]: a new kernel with an empty storage and a context
    of its own, and a storage of [this] that lost keys. *)
Lemma rmv_shape h k kt sel res h' :
  kernels h !! k = Some kt ->
  DotKernel.rmv k sel h = Ok (res, h') ->
  exists rctx st,
    res = length (kernels h)
    /\ contexts h' = (contexts h ++ [rctx])%list
    /\ kernels h'
       = (<[k := mkKernel st (contextBase kt) (sharedContext kt)]> (kernels h)
          ++ [mkKernel [] (length (contexts h)) (length (contexts h))])%list
    /\ (forall key, In key (JsMap.keys st) -> In key (JsMap.keys (dataStorage kt)))
    /\ (match sel with VNull | VUndefined => st = [] | _ => True end).
Proof.
  intros Hkt H. unfold DotKernel.rmv in H. rewrite new_eq in H.
  assert (Hlt : (k < length (kernels h))%nat) by (by eapply lookup_lt_Some).
  unfold Heap.getKernel, Heap.getContext, Heap.setContext in H.
  cbn [kernels contexts] in H.
  rewrite (lookup_app_l (kernels h)) in H by done. rewrite Hkt in H. cbn [bindO] in H.
  rewrite list_lookup_middle in H by done. cbn [bindO sharedContext] in H.
  rewrite list_lookup_middle in H by done. cbn [bindO] in H.
  assert (Hset : forall st (cs : list DotContext),
    Heap.setStorage k st (mkHeap cs
       (kernels h ++ [mkKernel [] (length (contexts h)) (length (contexts h))])%list)
    = Ok (mkHeap cs
       (<[k := mkKernel st (contextBase kt) (sharedContext kt)]> (kernels h)
        ++ [mkKernel [] (length (contexts h)) (length (contexts h))])%list)).
  { intros st cs. rewrite setStorage_Ok with (k := kt)
      by (cbn [kernels]; by rewrite lookup_app_l).
    cbn [kernels contexts]. by rewrite insert_app_l. }
  destruct sel as [| | | | |props|c0].
  - (* undefined: the default null *)
    bind_inv H as rctx1 H1. bind_inv H as rctx2 H2.
    rewrite Hset in H. cbn [bindO] in H. injection H as <- <-.
    exists rctx2, []. cbn [contexts kernels]. rewrite insert_snoc.
    repeat (split; [done|]). done.
  - bind_inv H as rctx1 H1. bind_inv H as rctx2 H2.
    rewrite Hset in H. cbn [bindO] in H. injection H as <- <-.
    exists rctx2, []. cbn [contexts kernels]. rewrite insert_snoc.
    repeat (split; [done|]). done.
  - change (isDotLikeObject (VBool b)) with false in H. cbv iota in H.
    bind_inv H as rctx1 H1. rewrite Hset in H. cbn [bindO] in H.
    bind_inv H as rctx2 H2. injection H as <- <-.
    exists rctx2, (DotKernel.deleteKeys (DotKernel.matching (VBool b) (dataStorage kt))
                     (dataStorage kt)).
    cbn [contexts kernels]. rewrite !insert_snoc.
    repeat (split; [done|]). split; [apply deleteKeys_keys|done].
  - change (isDotLikeObject (VNum n)) with false in H. cbv iota in H.
    bind_inv H as rctx1 H1. rewrite Hset in H. cbn [bindO] in H.
    bind_inv H as rctx2 H2. injection H as <- <-.
    exists rctx2, (DotKernel.deleteKeys (DotKernel.matching (VNum n) (dataStorage kt))
                     (dataStorage kt)).
    cbn [contexts kernels]. rewrite !insert_snoc.
    repeat (split; [done|]). split; [apply deleteKeys_keys|done].
  - change (isDotLikeObject (VStr s)) with false in H. cbv iota in H.
    bind_inv H as rctx1 H1. rewrite Hset in H. cbn [bindO] in H.
    bind_inv H as rctx2 H2. injection H as <- <-.
    exists rctx2, (DotKernel.deleteKeys (DotKernel.matching (VStr s) (dataStorage kt))
                     (dataStorage kt)).
    cbn [contexts kernels]. rewrite !insert_snoc.
    repeat (split; [done|]). split; [apply deleteKeys_keys|done].
  - destruct (isDotLikeObject (VObj props)).
    + destruct (JsMap.has _ (dataStorage kt)).
      * bind_inv H as rctx1 H1. rewrite Hset in H. cbn [bindO] in H.
        bind_inv H as rctx2 H2. injection H as <- <-.
        eexists rctx2, _. cbn [contexts kernels]. rewrite !insert_snoc.
        repeat (split; [done|]). split; [|done].
        intros key Hin. by apply keys_delete in Hin as [_ ?].
      * bind_inv H as rctx2 H2. injection H as <- <-.
        exists rctx2, (dataStorage kt). cbn [contexts kernels]. rewrite insert_snoc.
        split; [done|]. split; [done|]. split; [|done].
        f_equal. symmetry. destruct kt. by apply list_insert_id.
    + bind_inv H as rctx1 H1. rewrite Hset in H. cbn [bindO] in H.
      bind_inv H as rctx2 H2. injection H as <- <-.
      eexists rctx2, _.
      cbn [contexts kernels]. rewrite !insert_snoc.
      repeat (split; [done|]). split; [apply deleteKeys_keys|done].
  - change (isDotLikeObject (VContext c0)) with false in H. cbv iota in H.
    bind_inv H as rctx1 H1. rewrite Hset in H. cbn [bindO] in H.
    bind_inv H as rctx2 H2. injection H as <- <-.
    eexists rctx2, _.
    cbn [contexts kernels]. rewrite !insert_snoc.
    repeat (split; [done|]). split; [apply deleteKeys_keys|done].
Qed.

Lemma heapInv_rmv h k sel res h' :
  heapInv h -> (k < length (kernels h))%nat ->
  DotKernel.rmv k sel h = Ok (res, h') -> heapInv h'.
Proof.
  intros Hinv Hlt H.
  destruct (lookup_lt_is_Some_2 _ _ Hlt) as [kt Hkt].
  destruct (rmv_shape _ _ _ _ _ _ Hkt H) as (rctx & st & -> & Hc & Hk & Hkeys & _).
  eapply (heapInv_shape h h' None (Some (_, _))); [done|exact Hc|exact Hk|done|..].
  - intros k0 kt' [= <- <-]. exists kt. cbn [sharedContext contextBase dataStorage].
    repeat (split; [done|]). intros key Hin. left. by apply Hkeys.
  - intros knew [<-|[]]. cbn [sharedContext contextBase dataStorage].
    rewrite Hc, length_app. simpl. split; [lia|]. split; [lia|]. by intros key [].
Qed.

(** The heap after a join of [this] with another kernel. *)
Lemma join_shape lc this other h h' :
  this <> other -> DotKernel.join lc this other h = Ok h' ->
  exists kt ko thisDots otherDots ct co st,
    kernels h !! this = Some kt
    /\ kernels h !! other = Some ko
    /\ Dot.sortKeys lc (JsMap.keys (dataStorage kt)) = Ok thisDots
    /\ Dot.sortKeys lc (JsMap.keys (dataStorage ko)) = Ok otherDots
    /\ contexts h !! sharedContext kt = Some ct
    /\ contexts h !! sharedContext ko = Some co
    /\ DotKernel.joinLoop lc ct co (dataStorage ko) thisDots otherDots (dataStorage kt)
       = Ok st
    /\ kernels h' = <[this := mkKernel st (contextBase kt) (sharedContext kt)]> (kernels h)
    /\ ((sharedContext kt = sharedContext ko /\ contexts h' = contexts h)
        \/ (sharedContext kt <> sharedContext ko
            /\ exists c', DotContext.join ct co = Ok c'
                 /\ contexts h' = <[sharedContext kt := c']> (contexts h))).
Proof.
  intros Hne. unfold DotKernel.join.
  destruct (Nat.eqb_spec this other) as [|_]; [done|].
  intros H. bind_inv H as kt Hkt. apply getKernel_Ok in Hkt.
  bind_inv H as ko Hko. apply getKernel_Ok in Hko.
  bind_inv H as thisDots HthisDots. bind_inv H as otherDots HotherDots.
  bind_inv H as thisCtx HthisCtx. bind_inv H as otherCtx HotherCtx.
  apply getContext_Ok in HthisCtx, HotherCtx.
  bind_inv H as st Hst.
  bind_inv H as h1 Hh1. apply setStorage_inv in Hh1 as (kt' & Hkt' & ->).
  assert (kt' = kt) by congruence. subst kt'.
  apply joinContexts_inv in H as [Hk Hc]. cbn [kernels contexts] in *.
  exists kt, ko, thisDots, otherDots, thisCtx, otherCtx, st.
  repeat (split; [done|]).
  destruct Hc as [[? ?]|(? & c & o & c' & Hc1 & Hc2 & Hj & ?)]; [by left|right].
  split; [done|]. exists c'. split; [|done]. congruence.
Qed.

Lemma deepJoin_shape lc jm this other h h' :
  this <> other -> DotKernel.deepJoin lc jm this other h = Ok h' ->
  exists kt ko thisDots otherDots ct co st,
    kernels h !! this = Some kt
    /\ kernels h !! other = Some ko
    /\ Dot.sortKeys lc (JsMap.keys (dataStorage kt)) = Ok thisDots
    /\ Dot.sortKeys lc (JsMap.keys (dataStorage ko)) = Ok otherDots
    /\ contexts h !! sharedContext kt = Some ct
    /\ contexts h !! sharedContext ko = Some co
    /\ DotKernel.deepJoinLoop jm ct co (dataStorage ko) thisDots otherDots (dataStorage kt)
       = Ok st
    /\ kernels h' = <[this := mkKernel st (contextBase kt) (sharedContext kt)]> (kernels h)
    /\ ((sharedContext kt = sharedContext ko /\ contexts h' = contexts h)
        \/ (sharedContext kt <> sharedContext ko
            /\ exists c', DotContext.join ct co = Ok c'
                 /\ contexts h' = <[sharedContext kt := c']> (contexts h))).
Proof.
  intros Hne. unfold DotKernel.deepJoin.
  destruct (Nat.eqb_spec this other) as [|_]; [done|].
  intros H. bind_inv H as kt Hkt. apply getKernel_Ok in Hkt.
  bind_inv H as ko Hko. apply getKernel_Ok in Hko.
  bind_inv H as thisDots HthisDots. bind_inv H as otherDots HotherDots.
  bind_inv H as thisCtx HthisCtx. bind_inv H as otherCtx HotherCtx.
  apply getContext_Ok in HthisCtx, HotherCtx.
  bind_inv H as st Hst.
  bind_inv H as h1 Hh1. apply setStorage_inv in Hh1 as (kt' & Hkt' & ->).
  assert (kt' = kt) by congruence. subst kt'.
  apply joinContexts_inv in H as [Hk Hc]. cbn [kernels contexts] in *.
  exists kt, ko, thisDots, otherDots, thisCtx, otherCtx, st.
  repeat (split; [done|]).
  destruct Hc as [[? ?]|(? & c & o & c' & Hc1 & Hc2 & Hj & ?)]; [by left|right].
  split; [done|]. exists c'. split; [|done]. congruence.
Qed.

(** The invariant after a join, from the keys that the loop can leave. *)
Lemma heapInv_joined h h' this kt ko ct co st :
  heapInv h ->
  kernels h !! this = Some kt -> kernels h !! ko.1 = Some ko.2 ->
  contexts h !! sharedContext kt = Some ct ->
  contexts h !! sharedContext ko.2 = Some co ->
  (forall key, In key (JsMap.keys st) ->
     In key (JsMap.keys (dataStorage kt)) \/ In key (JsMap.keys (dataStorage ko.2))) ->
  kernels h' = <[this := mkKernel st (contextBase kt) (sharedContext kt)]> (kernels h) ->
  ((sharedContext kt = sharedContext ko.2 /\ contexts h' = contexts h)
   \/ (sharedContext kt <> sharedContext ko.2
       /\ exists c', DotContext.join ct co = Ok c'
            /\ contexts h' = <[sharedContext kt := c']> (contexts h))) ->
  heapInv h'.
Proof.
  destruct ko as [other ko]. cbn [fst snd].
  intros Hinv Hkt Hko Hct Hco Hkeys Hk Hc.
  assert (Hother : forall key, In key (JsMap.keys (dataStorage ko)) ->
    exists d, Dot.fromString key = Ok d /\ member co d = true).
  { intros key Hin. destruct Hinv as [_ Ha].
    destruct (Ha other ko key Hko Hin) as (c & Hc0 & Hd).
    assert (c = co) by congruence. subst c.
    apply dotIn_Ok_inv in Hd as (d & Hd & Hm). eauto. }
  destruct Hc as [[Hsh Hc]|(Hsh & c' & Hj & Hc)].
  - eapply (heapInv_shape h h' None (Some (_, _)) [] []);
      [done|by rewrite app_nil_r|by rewrite app_nil_r|done|..|by intros ? []].
    intros k0 kt' [= <- <-]. exists kt. cbn [sharedContext contextBase dataStorage].
    repeat (split; [done|]). intros key Hin.
    destruct (Hkeys key Hin) as [?|Hin']; [by left|right].
    destruct (Hother key Hin') as (d & Hd & Hm).
    eapply dotInAt_intro; [|exact Hd|exact Hm]. rewrite Hc, Hsh. done.
  - eapply (heapInv_shape h h' (Some (_, _)) (Some (_, _)) [] []);
      [done|by rewrite app_nil_r|by rewrite app_nil_r|..|by intros ? []].
    + intros s c0 [= <- <-]. exists ct. split; [done|].
      intros d. by apply (contextJoin_member_l ct co).
    + intros k0 kt' [= <- <-]. exists kt. cbn [sharedContext contextBase dataStorage].
      repeat (split; [done|]). intros key Hin.
      destruct (Hkeys key Hin) as [?|Hin']; [by left|right].
      destruct (Hother key Hin') as (d & Hd & Hm).
      eapply dotInAt_intro; [|exact Hd|by eapply contextJoin_member_r].
      rewrite Hc. apply list_lookup_insert_eq. by eapply lookup_lt_Some.
Qed.

Lemma heapInv_join lc this other h h' :
  heapInv h -> DotKernel.join lc this other h = Ok h' -> heapInv h'.
Proof.
  intros Hinv H. destruct (decide (this = other)) as [->|Hne].
  { unfold DotKernel.join in H. rewrite Nat.eqb_refl in H. by injection H as <-. }
  destruct (join_shape _ _ _ _ _ Hne H)
    as (kt & ko & thisDots & otherDots & ct & co & st
        & Hkt & Hko & Hts & Hos & Hct & Hco & Hloop & Hk & Hc).
  apply (heapInv_joined h h' this kt (other, ko) ct co st Hinv Hkt Hko Hct Hco);
    [|done|done].
  intros key Hin. cbn [snd].
  destruct (joinLoop_keys _ _ _ _ _ _ _ _ _ Hloop Hin) as [?|Hin']; [by left|right].
  by apply (sortKeys_In _ _ _ _ Hos).
Qed.

Lemma heapInv_deepJoin lc jm this other h h' :
  heapInv h -> DotKernel.deepJoin lc jm this other h = Ok h' -> heapInv h'.
Proof.
  intros Hinv H. destruct (decide (this = other)) as [->|Hne].
  { unfold DotKernel.deepJoin in H. rewrite Nat.eqb_refl in H. by injection H as <-. }
  destruct (deepJoin_shape _ _ _ _ _ _ Hne H)
    as (kt & ko & thisDots & otherDots & ct & co & st
        & Hkt & Hko & Hts & Hos & Hct & Hco & Hloop & Hk & Hc).
  apply (heapInv_joined h h' this kt (other, ko) ct co st Hinv Hkt Hko Hct Hco);
    [|done|done].
  intros key Hin. cbn [snd].
  destruct (deepJoinLoop_keys _ _ _ _ _ _ _ _ _ Hloop Hin) as [?|[Hin'|Hin']].
  - by left.
  - right. by apply (sortKeys_In _ _ _ _ Hos).
  - left. by apply (sortKeys_In _ _ _ _ Hts).
Qed.

Lemma clone_shape h k h' res :
  DotKernel.clone k h = Ok (res, h') ->
  exists kt base,
    kernels h !! k = Some kt
    /\ contexts h !! contextBase kt = Some base
    /\ res = length (kernels h)
    /\ contexts h' = (contexts h ++ [DotContext.clone base])%list
    /\ kernels h'
       = (kernels h
          ++ [mkKernel (dataStorage kt) (length (contexts h))
                (if Nat.eqb (sharedContext kt) (contextBase kt)
                 then length (contexts h) else sharedContext kt)])%list.
Proof.
  unfold DotKernel.clone. intros H.
  bind_inv H as kt Hkt. apply getKernel_Ok in Hkt.
  bind_inv H as base Hbase. apply getContext_Ok in Hbase.
  exists kt, base. repeat (split; [done|]).
  destruct (Nat.eqb (sharedContext kt) (contextBase kt)); by injection H as <- <-.
Qed.

Lemma clone_eq c : DotContext.clone c = c.
Proof. by destruct c. Qed.

Lemma heapInv_clone h k res h' :
  heapInv h -> DotKernel.clone k h = Ok (res, h') -> heapInv h'.
Proof.
  intros Hinv H.
  destruct (clone_shape _ _ _ _ H) as (kt & base & Hkt & Hbase & -> & Hc & Hk).
  rewrite clone_eq in Hc.
  eapply (heapInv_shape h h' None None); [done|exact Hc|exact Hk|done|done|].
  intros knew [<-|[]]. cbn [sharedContext contextBase dataStorage].
  destruct Hinv as [Hv Ha]. destruct (Hv k kt Hkt) as [Hs Hb].
  rewrite Hc, length_app. simpl.
  destruct (Nat.eqb_spec (sharedContext kt) (contextBase kt)) as [Heq|Hne].
  - split; [lia|]. split; [lia|]. intros key Hin. right.
    destruct (Ha k kt key Hkt Hin) as (c & Hc0 & Hd).
    assert (c = base) by congruence. subst c.
    exists base. split; [|done]. rewrite Hc. by apply list_lookup_middle.
  - split; [lia|]. split; [lia|]. intros key Hin. left. exists k, kt. done.
Qed.

Lemma heapInv_new h shared :
  heapInv h ->
  (forall s, shared = Some s -> (s < length (contexts h))%nat) ->
  heapInv (snd (DotKernel.new shared h)).
Proof.
  intros Hinv Hs. rewrite new_eq. cbn [snd].
  eapply (heapInv_shape h _ None None); [done|done|done|done|done|].
  intros knew [<-|[]]. cbn [sharedContext contextBase dataStorage contexts].
  rewrite length_app. simpl. split; [|split; [lia|by intros ? []]].
  destruct shared as [s|]; [|lia]. specialize (Hs s eq_refl). lia.
Qed.

Lemma heapInv_initial : heapInv World.initial.
Proof.
  apply (heapInv_new Heap.empty None); [|done].
  split; [intros r k H|intros r k key H]; cbn in H; by rewrite lookup_nil in H.
Qed.

(** ** Operations that return *)

Lemma compact_total c :
  cloudParses c -> exists c', DotContext.compact c = Ok c' /\ cloudParses c'.
Proof.
  intros Hp. destruct (compact_spec c Hp) as (c' & Hc' & Hsub & _).
  exists c'. split; [done|]. intros s Hs. apply Hp. by apply Hsub.
Qed.

Lemma insertDot_total c input d compactNow :
  cloudParses c -> Dot.toDot input = Ok d -> Dot.fromString (Dot.toStringDot d) = Ok d ->
  exists c', DotContext.insertDot c input compactNow = Ok c' /\ cloudParses c'.
Proof.
  intros Hp Hd Hcanon. unfold DotContext.insertDot, Dot.toString.
  rewrite Hd. cbn [bindO].
  assert (Hp' : cloudParses (mkContext (compactCausalContext c)
                               (JsSet.add (Dot.toStringDot d) (dotCloud c)))).
  { intros s [->|Hs]%add_In; [eauto|by apply Hp]. }
  destruct compactNow; [by apply compact_total|eauto].
Qed.

Lemma insertDot_InStr_total c s compactNow :
  cloudParses c -> (exists d, Dot.fromString s = Ok d) ->
  exists c', DotContext.insertDot c (InStr s) compactNow = Ok c' /\ cloudParses c'.
Proof.
  intros Hp [d Hd]. apply (insertDot_total c (InStr s) d); [done|done|].
  by eapply fromString_canonical.
Qed.

Lemma insertDots_total dots c :
  cloudParses c -> (forall s, In s dots -> exists d, Dot.fromString s = Ok d) ->
  exists c', DotKernel.insertDots dots c = Ok c' /\ cloudParses c'.
Proof.
  revert c. induction dots as [|s dots IH]; intros c Hp Hdots; simpl; [eauto|].
  destruct (insertDot_InStr_total c s false Hp) as (c1 & -> & Hp1).
  { apply Hdots. by left. }
  cbn [bindO]. apply IH; [done|]. intros s' Hs'. apply Hdots. by right.
Qed.

Lemma joinCloud_total dots c :
  cloudParses c -> (forall s, In s dots -> exists d, Dot.fromString s = Ok d) ->
  exists c', DotContext.joinCloud dots c = Ok c' /\ cloudParses c'.
Proof.
  revert c. induction dots as [|s dots IH]; intros c Hp Hdots; simpl; [eauto|].
  destruct (insertDot_InStr_total c s false Hp) as (c1 & -> & Hp1).
  { apply Hdots. by left. }
  cbn [bindO]. apply IH; [done|]. intros s' Hs'. apply Hdots. by right.
Qed.

Lemma contextJoin_total c o :
  cloudParses c -> cloudParses o ->
  exists c', DotContext.join c o = Ok c' /\ cloudParses c'.
Proof.
  intros Hc Ho. unfold DotContext.join.
  destruct (joinCloud_total (dotCloud o)
              (mkContext (DotContext.joinCompact (compactCausalContext o)
                            (compactCausalContext c)) (dotCloud c)))
    as (c1 & -> & Hp1); [done|done|].
  cbn [bindO]. by apply compact_total.
Qed.

Lemma cloudParses_empty : cloudParses DotContext.empty.
Proof. by intros s []. Qed.

Lemma rmv_null_total h k kt :
  kernels h !! k = Some kt ->
  (forall key, In key (JsMap.keys (dataStorage kt)) -> exists d, Dot.fromString key = Ok d) ->
  exists rctx,
    cloudParses rctx
    /\ DotKernel.rmv k VNull h
       = Ok (length (kernels h),
             mkHeap (contexts h ++ [rctx])
                    (<[k := mkKernel [] (contextBase kt) (sharedContext kt)]> (kernels h)
                     ++ [mkKernel [] (length (contexts h)) (length (contexts h))])).
Proof.
  intros Hkt Hkeys.
  assert (Hlt : (k < length (kernels h))%nat) by (by eapply lookup_lt_Some).
  unfold DotKernel.rmv. rewrite new_eq.
  unfold Heap.getKernel, Heap.getContext, Heap.setContext. cbn [kernels contexts].
  rewrite (lookup_app_l (kernels h)) by done. rewrite Hkt. cbn [bindO].
  rewrite list_lookup_middle by done. cbn [bindO sharedContext].
  rewrite list_lookup_middle by done. cbn [bindO].
  destruct (insertDots_total (JsMap.keys (dataStorage kt)) DotContext.empty
              cloudParses_empty Hkeys) as (rctx1 & -> & Hp1).
  cbn [bindO]. destruct (compact_total rctx1 Hp1) as (rctx2 & -> & Hp2).
  cbn [bindO]. exists rctx2. split; [done|].
  rewrite setStorage_Ok with (k := kt) by (cbn [kernels]; by rewrite lookup_app_l).
  cbn [bindO kernels contexts]. rewrite insert_snoc.
  by rewrite (insert_app_l (kernels h)) by done.
Qed.

Lemma add_total h k kt ctx i v :
  kernels h !! k = Some kt ->
  contexts h !! sharedContext kt = Some ctx ->
  wfId i = true ->
  exists rctx',
    cloudParses rctx'
    /\ DotKernel.add k i v h
       = Ok (length (kernels h),
             mkHeap (<[sharedContext kt := snd (DotContext.makeDot ctx i)]> (contexts h)
                     ++ [rctx'])
                    (<[k := mkKernel
                              (JsMap.set (Dot.toStringDot (fst (DotContext.makeDot ctx i))) v
                                         (dataStorage kt))
                              (contextBase kt) (sharedContext kt)]> (kernels h)
                     ++ [mkKernel [(Dot.toStringDot (fst (DotContext.makeDot ctx i)), v)]
                                  (length (contexts h)) (length (contexts h))])).
Proof.
  intros Hkt Hctx Hi.
  assert (Hdot : Dot.fromString (Dot.toStringDot (fst (DotContext.makeDot ctx i)))
                 = Ok (fst (DotContext.makeDot ctx i))).
  { unfold DotContext.makeDot. cbn [fst]. by apply fromString_toString. }
  destruct (insertDot_total DotContext.empty (InDot (fst (DotContext.makeDot ctx i)))
              _ true cloudParses_empty eq_refl Hdot) as (rctx' & Hr & Hp).
  exists rctx'. split; [done|].
  assert (Hlt : (k < length (kernels h))%nat) by (by eapply lookup_lt_Some).
  assert (Hs : (sharedContext kt < length (contexts h))%nat) by (by eapply lookup_lt_Some).
  unfold DotKernel.add. rewrite new_eq.
  unfold Heap.getKernel, Heap.getContext, Heap.setContext. cbn [kernels contexts].
  rewrite (lookup_app_l (kernels h)) by done. rewrite Hkt. cbn [bindO].
  rewrite (lookup_app_l (contexts h)) by done. rewrite Hctx. cbn [bindO].
  destruct (DotContext.makeDot ctx i) as [dot ctx'] eqn:Hmk. cbn [fst snd] in *.
  rewrite setStorage_Ok with (k := kt) by (cbn [kernels]; by rewrite lookup_app_l).
  cbn [bindO kernels contexts]. rewrite (insert_app_l (kernels h)) by done.
  rewrite list_lookup_middle by (by rewrite length_insert). cbn [bindO].
  rewrite setStorage_Ok with (k := mkKernel [] (length (contexts h)) (length (contexts h)))
    by (cbn [kernels]; apply list_lookup_middle; by rewrite length_insert).
  cbn [bindO kernels contexts dataStorage contextBase sharedContext JsMap.set].
  rewrite (insert_app_l (contexts h)) by done.
  rewrite list_lookup_middle by (by rewrite length_insert).
  cbn [bindO]. rewrite Hr. cbn [bindO]. do 3 f_equal.
  - rewrite <- (length_insert (contexts h) (sharedContext kt) ctx') at 1.
    apply insert_snoc.
  - rewrite <- (length_insert (kernels h) k) at 1. apply insert_snoc.
Qed.

(** The join of a delta with an empty storage and a delta with one entry,
    as [write] makes it. *)
Lemma join_deltas_total lc h rk ak kr ka cr ca key v :
  rk <> ak ->
  kernels h !! rk = Some kr -> kernels h !! ak = Some ka ->
  dataStorage kr = [] -> dataStorage ka = [(key, v)] ->
  (exists d, Dot.fromString key = Ok d) ->
  contexts h !! sharedContext kr = Some cr -> contexts h !! sharedContext ka = Some ca ->
  cloudParses cr -> cloudParses ca ->
  exists h',
    DotKernel.join lc rk ak h = Ok h'
    /\ forall j, j <> rk -> kernels h' !! j = kernels h !! j.
Proof.
  intros Hne Hkr Hka Hsr Hsa [d Hd] Hcr Hca Hpr Hpa.
  unfold DotKernel.join. destruct (Nat.eqb_spec rk ak) as [|_]; [done|].
  unfold Heap.getKernel, Heap.getContext. rewrite Hkr, Hka. cbn [bindO].
  rewrite Hsr, Hsa. cbn [JsMap.keys map fst Dot.sortKeys bindO].
  rewrite Hcr, Hca. cbn [bindO].
  change (DotKernel.joinLoop lc cr ca [(key, v)] [] [key] [])
    with (let! known := DotContext.dotIn cr (InStr key) in
          Ok (if known then []
              else JsMap.set key (DotKernel.getValue key [(key, v)]) [])).
  rewrite (dotIn_member cr (InStr key) d Hd). cbn [bindO].
  rewrite setStorage_Ok with (k := kr) by done. cbn [bindO].
  unfold DotKernel.joinContexts.
  destruct (Nat.eqb (sharedContext kr) (sharedContext ka)).
  - eexists. split; [done|]. intros j Hj. cbn [kernels].
    by rewrite list_lookup_insert_ne.
  - unfold Heap.getContext. cbn [contexts]. rewrite Hcr, Hca. cbn [bindO].
    destruct (contextJoin_total cr ca Hpr Hpa) as (c' & -> & _). cbn [bindO].
    eexists. split; [done|]. intros j Hj. cbn [kernels Heap.setContext].
    by rewrite list_lookup_insert_ne.
Qed.

Lemma new_facts shared h :
  exists h1,
    DotKernel.new shared h = (length (kernels h), h1)
    /\ contexts h1 = (contexts h ++ [DotContext.empty])%list
    /\ kernels h1
       = (kernels h ++ [mkKernel [] (length (contexts h))
                          (match shared with
                           | Some s => s
                           | None => length (contexts h)
                           end)])%list.
Proof. eexists. rewrite new_eq. done. Qed.

Lemma rmv_null_facts h k kt :
  kernels h !! k = Some kt ->
  (forall key, In key (JsMap.keys (dataStorage kt)) -> exists d, Dot.fromString key = Ok d) ->
  exists rctx h',
    DotKernel.rmv k VNull h = Ok (length (kernels h), h')
    /\ cloudParses rctx
    /\ contexts h' = (contexts h ++ [rctx])%list
    /\ kernels h'
       = (<[k := mkKernel [] (contextBase kt) (sharedContext kt)]> (kernels h)
          ++ [mkKernel [] (length (contexts h)) (length (contexts h))])%list.
Proof.
  intros Hkt Hkeys. destruct (rmv_null_total h k kt Hkt Hkeys) as (rctx & Hp & ->).
  eauto 10.
Qed.

Lemma add_facts h k kt ctx i v :
  kernels h !! k = Some kt ->
  contexts h !! sharedContext kt = Some ctx ->
  wfId i = true ->
  exists rctx' h',
    DotKernel.add k i v h = Ok (length (kernels h), h')
    /\ cloudParses rctx'
    /\ contexts h'
       = (<[sharedContext kt := snd (DotContext.makeDot ctx i)]> (contexts h)
          ++ [rctx'])%list
    /\ kernels h'
       = (<[k := mkKernel
                   (JsMap.set (Dot.toStringDot (fst (DotContext.makeDot ctx i))) v
                              (dataStorage kt))
                   (contextBase kt) (sharedContext kt)]> (kernels h)
          ++ [mkKernel [(Dot.toStringDot (fst (DotContext.makeDot ctx i)), v)]
                       (length (contexts h)) (length (contexts h))])%list.
Proof.
  intros Hkt Hctx Hi. destruct (add_total h k kt ctx i v Hkt Hctx Hi) as (rctx' & Hp & ->).
  eauto 10.
Qed.

Ltac heap_lengths :=
  repeat match goal with
         | H : kernels _ = _ |- _ => rewrite H
         | H : contexts _ = _ |- _ => rewrite H
         end;
  repeat first [rewrite length_app | rewrite length_insert]; simpl; lia.

(** ** C6: a local write leaves one value *)

(** C6. For a register with a replica identifier, in any state in which
    the keys of its kernel read as dots, [write(v)] returns, and [read()]
    immediately afterwards is the set that holds [v] alone. *)
Theorem write_then_read_singleton (lc : string -> string -> Z) (h : Heap)
    (this : MVReg) (i : string) (kt : DotKernel) (v : Value) :
  regId this = Some i -> wfId i = true ->
  kernels h !! dotKernel this = Some kt ->
  (sharedContext kt < length (contexts h))%nat ->
  (forall key, In key (JsMap.keys (dataStorage kt)) ->
     exists d, Dot.fromString key = Ok d) ->
  exists delta h',
    MVReg.write lc this v h = Ok (delta, h') /\ MVReg.read this h' = Ok [v].
Proof.
  intros Hid Hi Hkt Hs Hkeys. destruct this as [k regid]. cbn [dotKernel regId] in *.
  subst regid.
  destruct (lookup_lt_is_Some_2 _ _ Hs) as [ctx Hctx].
  assert (Hlt : (k < length (kernels h))%nat) by (by eapply lookup_lt_Some).
  unfold MVReg.write, MVReg.new. cbn [regId dotKernel].
  destruct (new_facts None h) as (h1 & -> & Hc1 & Hk1).
  destruct (new_facts None h1) as (h2 & -> & Hc2 & Hk2).
  assert (Hkt2 : kernels h2 !! k = Some kt).
  { rewrite Hk2. rewrite lookup_app_l by heap_lengths.
    rewrite Hk1. by rewrite lookup_app_l by heap_lengths. }
  destruct (rmv_null_facts h2 k kt Hkt2 Hkeys) as (rctx & h3 & -> & Hprctx & Hc3 & Hk3).
  cbn [bindO].
  set (kt0 := mkKernel [] (contextBase kt) (sharedContext kt)) in *.
  assert (Hkt3 : kernels h3 !! k = Some kt0).
  { rewrite Hk3. rewrite lookup_app_l by heap_lengths.
    apply list_lookup_insert_eq. heap_lengths. }
  assert (Hctx3 : contexts h3 !! sharedContext kt0 = Some ctx).
  { subst kt0. cbn [sharedContext].
    rewrite Hc3. rewrite lookup_app_l by heap_lengths.
    rewrite Hc2. rewrite lookup_app_l by heap_lengths.
    rewrite Hc1. by rewrite lookup_app_l by heap_lengths. }
  destruct (add_facts h3 k kt0 ctx i v Hkt3 Hctx3 Hi)
    as (rctx' & h4 & -> & Hprctx' & Hc4 & Hk4).
  cbn [bindO].
  set (dotStr := Dot.toStringDot (fst (DotContext.makeDot ctx i))) in *.
  set (rk := length (kernels h2)) in *. set (ak := length (kernels h3)) in *.
  assert (Hnk : rk <> ak) by (subst rk ak; heap_lengths).
  assert (Hrk : kernels h4 !! rk
                = Some (mkKernel [] (length (contexts h2)) (length (contexts h2)))).
  { rewrite Hk4. rewrite lookup_app_l by (subst rk ak; heap_lengths).
    rewrite list_lookup_insert_ne by (subst rk; heap_lengths).
    rewrite Hk3. apply list_lookup_middle. subst rk. by rewrite length_insert. }
  assert (Hak : kernels h4 !! ak
                = Some (mkKernel [(dotStr, v)] (length (contexts h3)) (length (contexts h3)))).
  { rewrite Hk4. apply list_lookup_middle. subst ak. by rewrite length_insert. }
  assert (Hcr : contexts h4 !! length (contexts h2) = Some rctx).
  { rewrite Hc4. rewrite lookup_app_l by heap_lengths.
    rewrite list_lookup_insert_ne by (subst kt0; cbn [sharedContext]; heap_lengths).
    rewrite Hc3. by apply list_lookup_middle. }
  assert (Hca : contexts h4 !! length (contexts h3) = Some rctx').
  { rewrite Hc4. apply list_lookup_middle. by rewrite length_insert. }
  destruct (join_deltas_total lc h4 rk ak _ _ rctx rctx' dotStr v Hnk Hrk Hak eq_refl eq_refl)
    as (h5 & Hjoin & Hframe); [|done|done|done|done|].
  { exists (fst (DotContext.makeDot ctx i)). subst dotStr.
    unfold DotContext.makeDot. cbn [fst]. by apply fromString_toString. }
  unfold MVReg.join. cbn [dotKernel]. rewrite Hjoin. cbn [bindO].
  eexists _, h5. split; [done|].
  unfold MVReg.read, Heap.getKernel. cbn [dotKernel].
  rewrite Hframe by (subst rk; heap_lengths).
  assert (kernels h4 !! k
          = Some (mkKernel (JsMap.set dotStr v []) (contextBase kt0) (sharedContext kt0))) as ->.
  { rewrite Hk4. rewrite lookup_app_l by heap_lengths.
    apply list_lookup_insert_eq. heap_lengths. }
  reflexivity.
Qed.

(** C6, witness: a write on a register that holds two values. *)
Lemma write_then_read_singleton_witness :
  exists delta h',
    MVReg.write codeUnitCompare (mkMVReg 0 (Some "n1")) (VStr "C") multiValuedHeap
    = Ok (delta, h')
    /\ MVReg.read (mkMVReg 0 (Some "n1")) h' = Ok [VStr "C"].
Proof.
  apply (write_then_read_singleton codeUnitCompare multiValuedHeap
           (mkMVReg 0 (Some "n1")) "n1"
           (mkKernel [("n1:1", VStr "A"); ("n2:1", VStr "B")] 0 0) (VStr "C")).
  - reflexivity.
  - reflexivity.
  - reflexivity.
  - simpl. lia.
  - intros key [<-|[<-|[]]]; eexists; vm_compute; reflexivity.
Defined.


(** ** The merge loop compares keys in two ways *)

(** C1 (fails on the code).  The loop of [join] decides "only in this"
    with the operator [<] on the two key strings and "only in other"
    with [Dot.compare].  On the keys ["a:9"] and ["a:10"] the first says
    that ["a:9"] is not below ["a:10"] (the character ['9'] is above
    ['1']) and the second that ["a:10"] is not below ["a:9"], so the
    loop takes the two keys for one dot present on both sides.  After
    [A.join(B)] the dot [a:10], held by B and unknown to A, is missing
    from A, and the dot [a:9], which B had seen and removed, is still
    there: both halves of the merge rule fail, whatever the collation. *)
Theorem join_confuses_keys_of_different_length (lc : string -> string -> Z) :
  Js.stringLt "a:9" "a:10" = false
  /\ Dot.compare lc (InStr "a:10") (InStr "a:9") = Ok 1
  /\ DotContext.dotIn (mkContext [("a", 9)] []) (InStr "a:10") = Ok false
  /\ DotContext.dotIn (mkContext [("a", 10)] []) (InStr "a:9") = Ok true
  /\ DotKernel.join lc 0 1 digitLengthHeap
     = Ok (mkHeap [mkContext [("a", 10)] []; mkContext [("a", 10)] []]
                  [mkKernel [("a:9", VStr "x")] 0 0;
                   mkKernel [("a:10", VStr "y")] 1 1]).
Proof. repeat split; vm_compute; reflexivity. Qed.


(** ** The order of [Dot.compare] *)

Section DotOrder.
Variable lc : string -> string -> Z.
Hypothesis Hlc : strictCollation lc.

Lemma compareDots_same d : Dot.compareDots lc d d = 0.
Proof. unfold Dot.compareDots. rewrite String.eqb_refl. simpl. lia. Qed.

Lemma compareDots_zero d1 d2 : Dot.compareDots lc d1 d2 = 0 -> d1 = d2.
Proof.
  destruct Hlc as (_ & Hz & _).
  destruct d1 as [i1 c1], d2 as [i2 c2]. unfold Dot.compareDots. simpl.
  destruct (String.eqb_spec i1 i2) as [->|Hne]; simpl; intros H.
  - f_equal. lia.
  - apply Hz in H. done.
Qed.

Lemma compareDots_sgn d1 d2 :
  Z.sgn (Dot.compareDots lc d2 d1) = - Z.sgn (Dot.compareDots lc d1 d2).
Proof.
  destruct Hlc as (Hs & _ & _).
  destruct d1 as [i1 c1], d2 as [i2 c2]. unfold Dot.compareDots. simpl.
  destruct (String.eqb_spec i1 i2) as [->|Hne].
  - rewrite String.eqb_refl. simpl. lia.
  - destruct (String.eqb_spec i2 i1) as [->|_]; [done|]. simpl. apply Hs.
Qed.

Lemma compareDots_trans d1 d2 d3 :
  Dot.compareDots lc d1 d2 < 0 -> Dot.compareDots lc d2 d3 < 0 ->
  Dot.compareDots lc d1 d3 < 0.
Proof.
  destruct Hlc as (Hs & _ & Ht).
  destruct d1 as [i1 c1], d2 as [i2 c2], d3 as [i3 c3]. unfold Dot.compareDots. simpl.
  destruct (String.eqb_spec i1 i2) as [->|H12];
    destruct (String.eqb_spec i2 i3) as [->|H23]; simpl; intros A B.
  - lia.
  - done.
  - destruct (String.eqb_spec i1 i3); done.
  - destruct (String.eqb_spec i1 i3) as [->|H13]; simpl.
    + pose proof (Hs i3 i2). lia.
    + by apply Ht with i2.
Qed.

(** The order on keys. *)

Lemma keyLtb_parsed x y dx dy :
  Dot.fromString x = Ok dx -> Dot.fromString y = Ok dy ->
  keyLtb lc x y = (Dot.compareDots lc dx dy <? 0).
Proof. intros Hx Hy. unfold keyLtb, Dot.compare. simpl. by rewrite Hx, Hy. Qed.

Lemma keyLtb_irrefl x : keyLtb lc x x = false.
Proof.
  unfold keyLtb, Dot.compare. simpl.
  destruct (Dot.fromString x) as [d| | |]; simpl; try done.
  rewrite compareDots_same. done.
Qed.

Lemma keyLtb_trans x y z :
  keyLtb lc x y = true -> keyLtb lc y z = true -> keyLtb lc x z = true.
Proof.
  unfold keyLtb, Dot.compare. simpl.
  destruct (Dot.fromString x) as [dx| | |]; simpl; try done.
  destruct (Dot.fromString y) as [dy| | |]; simpl; try done.
  destruct (Dot.fromString z) as [dz| | |]; simpl; try done.
  rewrite !Z.ltb_lt. apply compareDots_trans.
Qed.

Lemma keyLtb_total x y :
  wfKey x = true -> wfKey y = true ->
  keyLtb lc x y = false -> keyLtb lc y x = false -> x = y.
Proof.
  intros Hx Hy.
  apply wfKey_spec in Hx as (dx & Hx & Ex). apply wfKey_spec in Hy as (dy & Hy & Ey).
  rewrite (keyLtb_parsed x y dx dy), (keyLtb_parsed y x dy dx) by done.
  rewrite !Z.ltb_ge. intros A B.
  pose proof (compareDots_sgn dx dy) as S.
  assert (Dot.compareDots lc dx dy = 0) as Z0 by lia.
  apply compareDots_zero in Z0. subst dy. congruence.
Qed.

End DotOrder.


(** ** [sort] with a comparator that orders the elements *)

Section SortSorted.
Context {A : Type}.
Variable cmp : A -> A -> Z.
Hypothesis cmp_sgn : forall x y, Z.sgn (cmp y x) = - Z.sgn (cmp x y).
Hypothesis cmp_trans : forall x y z, cmp x y < 0 -> cmp y z < 0 -> cmp x z < 0.

Let before (x y : A) : Prop := cmp x y < 0.

Lemma insertSorted_sorted x l :
  Forall (fun y => cmp x y <> 0) l ->
  StronglySorted before l -> StronglySorted before (Js.insertSorted cmp x l).
Proof.
  intros Hnz Hs. induction Hs as [|y l Hs IH Hy]; simpl.
  - constructor; constructor.
  - apply Forall_cons_1 in Hnz as [Hxy Hnz].
    destruct (Z.leb_spec (cmp x y) 0) as [Hle|Hgt].
    + assert (before x y) as Bxy by (unfold before; lia).
      constructor; [by constructor|].
      constructor; [done|].
      eapply Forall_impl; [exact Hy|]. intros z Hz. by eapply cmp_trans.
    + assert (before y x) as Byx by (unfold before; pose proof (cmp_sgn x y); lia).
      constructor; [by apply IH|].
      apply List.Forall_forall. intros z Hz.
      eapply Permutation_in in Hz; [|apply insertSorted_perm].
      destruct Hz as [<-|Hz]; [done|].
      by eapply List.Forall_forall in Hy.
Qed.

Lemma sort_sorted l :
  ForallOrdPairs (fun x y => cmp x y <> 0) l -> StronglySorted before (Js.sort cmp l).
Proof.
  induction 1 as [|x l Hx Hl IH]; simpl.
  - constructor.
  - apply insertSorted_sorted; [|done].
    apply List.Forall_forall. intros y Hy.
    eapply Permutation_in in Hy; [|apply sort_perm].
    by eapply List.Forall_forall in Hx.
Qed.

End SortSorted.


Lemma StronglySorted_map {A B : Type} (R : A -> A -> Prop) (R' : B -> B -> Prop)
    (f : A -> B) (l : list A) :
  (forall x y, In x l -> In y l -> R x y -> R' (f x) (f y)) ->
  StronglySorted R l -> StronglySorted R' (map f l).
Proof.
  intros Hf Hs. induction Hs as [|x l Hs IH Hx]; simpl; constructor.
  - apply IH. intros a b Ha Hb. apply Hf; by right.
  - apply List.Forall_forall. intros b Hb.
    apply in_map_iff in Hb as (a & <- & Ha).
    apply Hf; [by left|by right|].
    by eapply List.Forall_forall in Hx.
Qed.

Lemma parseKeys_total keys :
  (forall k, In k keys -> exists d, Dot.fromString k = Ok d) ->
  exists parsed, Dot.parseKeys keys = Ok parsed.
Proof.
  induction keys as [|k ks IH]; intros Hp; simpl; [by eexists|].
  destruct (Hp k) as (d & Hd); [by left|]. rewrite Hd. simpl.
  destruct IH as (rest & Hr); [intros; apply Hp; by right|].
  rewrite Hr. simpl. by eexists.
Qed.

Lemma sortKeys_total lc keys :
  (forall k, In k keys -> exists d, Dot.fromString k = Ok d) ->
  exists sorted, Dot.sortKeys lc keys = Ok sorted.
Proof.
  intros Hp. unfold Dot.sortKeys.
  destruct keys as [|k1 [|k2 ks]]; try by eexists.
  destruct (parseKeys_total _ Hp) as (parsed & Hparsed). rewrite Hparsed. simpl.
  by eexists.
Qed.

Lemma parsed_distinct lc (parsed : list (string * Dot)) :
  strictCollation lc ->
  NoDup (map fst parsed) ->
  (forall k d, In (k, d) parsed -> Dot.toStringDot d = k) ->
  ForallOrdPairs (fun a b => Dot.compareDots lc (snd a) (snd b) <> 0) parsed.
Proof.
  intros Hlc Hnd Hcanon. induction parsed as [|[k d] rest IH]; [constructor|].
  simpl in Hnd. apply NoDup_cons in Hnd as [Hk Hnd].
  constructor.
  - apply List.Forall_forall. intros [k' d'] Hin. simpl. intros Hz.
    apply compareDots_zero in Hz; [|done]. subst d'.
    apply Hk. apply list_elem_of_In, in_map_iff. exists (k', d). split; [|done].
    simpl. rewrite <- (Hcanon k d) by (by left). symmetry. apply Hcanon. by right.
  - apply IH; [done|]. intros k' d' Hin. apply Hcanon. by right.
Qed.

Lemma sortKeys_sorted lc keys sorted :
  strictCollation lc ->
  NoDup keys -> (forall k, In k keys -> wfKey k = true) ->
  Dot.sortKeys lc keys = Ok sorted ->
  StronglySorted (fun x y => keyLtb lc x y = true) sorted.
Proof.
  intros Hlc Hnd Hwf Hs. unfold Dot.sortKeys in Hs.
  destruct keys as [|k1 [|k2 ks]].
  - inversion Hs. constructor.
  - inversion Hs. constructor; constructor.
  - remember (k1 :: k2 :: ks) as keys eqn:Ekeys. clear Ekeys.
    bind_inv Hs as parsed Hparsed. inversion Hs; subst sorted; clear Hs.
    pose proof (parseKeys_fst _ _ Hparsed) as Hfst.
    assert (forall k d, In (k, d) parsed -> Dot.fromString k = Ok d) as Hfrom
      by (intros; by eapply parseKeys_parsed).
    assert (forall k d, In (k, d) parsed -> Dot.toStringDot d = k) as Hcanon.
    { intros k d Hin. pose proof (Hfrom _ _ Hin) as Hd.
      assert (In k keys) as Hk by (rewrite <- Hfst; apply in_map_iff; by exists (k, d)).
      apply Hwf, wfKey_spec in Hk as (d' & Hd' & E). congruence. }
    eapply StronglySorted_map; [|apply sort_sorted].
    + intros [kx dx] [ky dy] Hx Hy Hb. simpl in *.
      eapply Permutation_in in Hx; [|apply sort_perm].
      eapply Permutation_in in Hy; [|apply sort_perm].
      rewrite (keyLtb_parsed lc kx ky dx dy) by (by apply Hfrom).
      by apply Z.ltb_lt.
    + intros x y. apply compareDots_sgn. done.
    + intros x y z. by apply compareDots_trans.
    + apply parsed_distinct; [done| |done]. by rewrite Hfst.
Qed.


(** ** The merge loop of [join] on ordered arrays *)

Lemma set_has_false x s : JsSet.has x s = false <-> ~ In x s.
Proof. rewrite <- set_has_In. by destruct (JsSet.has x s). Qed.

Lemma knows_wfKey c key :
  wfKey key = true ->
  exists b, DotContext.dotIn c (InStr key) = Ok b /\ knows c key = b.
Proof.
  intros Hwf. apply wfKey_spec in Hwf as (d & Hd & _).
  exists (member c d). unfold knows.
  rewrite (dotIn_member c (InStr key) d) by done. done.
Qed.

Section Merged.
Variables thisCtx otherCtx : DotContext.
Variable otherStorage : JsMap.t Value.

Let mergedAt := merged thisCtx otherCtx otherStorage.

Lemma merged_onlyInThis x ts os st key :
  JsSet.has x ts = false -> JsSet.has x os = false ->
  mergedAt ts os (if knows otherCtx x then JsMap.delete x st else st) key
  = mergedAt (x :: ts) os st key.
Proof.
  intros Hts Hos. unfold mergedAt, merged. simpl.
  destruct (String.eqb_spec x key) as [->|Hne].
  - rewrite Hts, Hos. destruct (knows otherCtx key); [apply get_delete_eq|done].
  - assert (JsMap.get key (if knows otherCtx x then JsMap.delete x st else st)
            = JsMap.get key st) as ->; [|done].
    destruct (knows otherCtx x); [by apply get_delete_ne|done].
Qed.

Lemma merged_onlyInOther y ts os st key :
  JsSet.has y ts = false -> JsSet.has y os = false ->
  mergedAt ts os (if knows thisCtx y then st
                else JsMap.set y (DotKernel.getValue y otherStorage) st) key
  = mergedAt ts (y :: os) st key.
Proof.
  intros Hts Hos. unfold mergedAt, merged. simpl.
  destruct (String.eqb_spec y key) as [->|Hne].
  - rewrite Hts, Hos. destruct (knows thisCtx key); [done|apply get_set_eq].
  - assert (JsMap.get key (if knows thisCtx y then st
                           else JsMap.set y (DotKernel.getValue y otherStorage) st)
            = JsMap.get key st) as ->; [|done].
    destruct (knows thisCtx y); [done|by apply get_set_ne].
Qed.

Lemma merged_both x ts os st key :
  JsSet.has x ts = false -> JsSet.has x os = false ->
  mergedAt ts os st key = mergedAt (x :: ts) (x :: os) st key.
Proof.
  intros Hts Hos. unfold mergedAt, merged. simpl.
  destruct (String.eqb_spec x key) as [->|Hne]; [by rewrite Hts, Hos|done].
Qed.

End Merged.


Section MergeLoop.
Variable lc : string -> string -> Z.
Hypothesis Hlc : strictCollation lc.
Variables thisCtx otherCtx : DotContext.
Variable otherStorage : JsMap.t Value.

Let before (x y : string) : Prop := keyLtb lc x y = true.

Lemma sorted_head_fresh x l : StronglySorted before (x :: l) -> JsSet.has x l = false.
Proof.
  intros Hs. apply set_has_false. intros Hin.
  apply StronglySorted_inv in Hs as [_ Hx].
  eapply List.Forall_forall in Hx; [|exact Hin].
  unfold before in Hx. by rewrite keyLtb_irrefl in Hx.
Qed.

Lemma sorted_below_fresh x y l :
  keyLtb lc x y = true -> StronglySorted before (y :: l) -> JsSet.has x (y :: l) = false.
Proof.
  intros Hxy Hs. apply set_has_false. intros [->|Hin].
  - by rewrite keyLtb_irrefl in Hxy.
  - apply StronglySorted_inv in Hs as [_ Hy].
    eapply List.Forall_forall in Hy; [|exact Hin].
    pose proof (keyLtb_trans lc Hlc _ _ _ Hxy Hy) as Hxx.
    by rewrite keyLtb_irrefl in Hxx.
Qed.

Lemma joinLoop_merged ts :
  forall os st,
    StronglySorted before ts -> StronglySorted before os ->
    (forall x, In x ts -> wfKey x = true) ->
    (forall y, In y os -> wfKey y = true) ->
    (forall x y, In x ts -> In y os -> Js.stringLt x y = keyLtb lc x y) ->
    exists st',
      DotKernel.joinLoop lc thisCtx otherCtx otherStorage ts os st = Ok st'
      /\ forall key,
           JsMap.get key st' = merged thisCtx otherCtx otherStorage ts os st key.
Proof.
  induction ts as [|x ts IHts]; intros os; induction os as [|y os IHos];
    intros st Sts Sos Wts Wos Hagree.
  - exists st. split; [done|]. intros key. done.
  - rewrite joinLoop_nil_cons.
    destruct (knows_wfKey thisCtx y) as (b & Hb & Kb); [apply Wos; by left|].
    rewrite Hb. simpl.
    destruct (IHos (if b then st
                    else JsMap.set y (DotKernel.getValue y otherStorage) st))
      as (st' & Hst' & Hget); try done.
    + by apply StronglySorted_inv in Sos as [? _].
    + intros; apply Wos; by right.
    + exists st'. split; [done|]. intros key. rewrite Hget, <- Kb.
      apply merged_onlyInOther; [done|by apply sorted_head_fresh].
  - rewrite joinLoop_cons_nil.
    destruct (knows_wfKey otherCtx x) as (b & Hb & Kb); [apply Wts; by left|].
    rewrite Hb. simpl.
    destruct (IHts [] (if b then JsMap.delete x st else st))
      as (st' & Hst' & Hget); try done.
    + by apply StronglySorted_inv in Sts as [? _].
    + intros; apply Wts; by right.
    + exists st'. split; [done|]. intros key. rewrite Hget, <- Kb.
      apply merged_onlyInThis; [by apply sorted_head_fresh|done].
  - rewrite joinLoop_cons_cons.
    assert (wfKey x = true) as Wx by (apply Wts; by left).
    assert (wfKey y = true) as Wy by (apply Wos; by left).
    pose proof (Hagree x y (or_introl eq_refl) (or_introl eq_refl)) as Hxy.
    destruct (Js.stringLt x y) eqn:Hlt.
    + (* only in this *)
      destruct (knows_wfKey otherCtx x) as (b & Hb & Kb); [done|].
      rewrite Hb. simpl.
      destruct (IHts (y :: os) (if b then JsMap.delete x st else st))
        as (st' & Hst' & Hget); try done.
      * by apply StronglySorted_inv in Sts as [? _].
      * intros; apply Wts; by right.
      * intros x' y' Hx' Hy'. apply Hagree; [by right|done].
      * exists st'. split; [done|]. intros key. rewrite Hget, <- Kb.
        apply merged_onlyInThis; [by apply sorted_head_fresh|].
        by apply sorted_below_fresh.
    + apply wfKey_spec in Wx as (dx & Hdx & Ex). apply wfKey_spec in Wy as (dy & Hdy & Ey).
      unfold Dot.compare. simpl. rewrite Hdy, Hdx. simpl.
      rewrite <- (keyLtb_parsed lc y x dy dx) by done.
      destruct (keyLtb lc y x) eqn:Hyx.
      * (* only in other *)
        destruct (knows_wfKey thisCtx y) as (b & Hb & Kb);
          [apply wfKey_spec; eauto|].
        rewrite Hb. simpl.
        destruct (IHos (if b then st
                        else JsMap.set y (DotKernel.getValue y otherStorage) st))
          as (st' & Hst' & Hget); try done.
        -- by apply StronglySorted_inv in Sos as [? _].
        -- intros; apply Wos; by right.
        -- intros x' y' Hx' Hy'. apply Hagree; [done|by right].
        -- exists st'. split; [done|]. intros key. rewrite Hget, <- Kb.
           apply merged_onlyInOther; [by apply sorted_below_fresh|].
           by apply sorted_head_fresh.
      * (* in both *)
        assert (x = y) as <-.
        { apply (keyLtb_total lc Hlc); try done; apply wfKey_spec; eauto. }
        destruct (IHts os st) as (st' & Hst' & Hget); try done.
        -- by apply StronglySorted_inv in Sts as [? _].
        -- by apply StronglySorted_inv in Sos as [? _].
        -- intros; apply Wts; by right.
        -- intros; apply Wos; by right.
        -- intros x' y' Hx' Hy'. apply Hagree; by right.
        -- exists st'. split; [done|]. intros key. rewrite Hget.
           apply merged_both; by apply sorted_head_fresh.
Qed.

End MergeLoop.


(** ** The merged storage does not depend on the side *)

Lemma set_has_perm key l l' : Permutation l l' -> JsSet.has key l = JsSet.has key l'.
Proof.
  intros Hp. destruct (JsSet.has key l') eqn:E.
  - apply set_has_In. apply set_has_In in E. by eapply Permutation_in; [symmetry|].
  - apply set_has_false. apply set_has_false in E. intros Hin. apply E.
    by eapply Permutation_in.
Qed.

Lemma merged_perm thisCtx otherCtx otherStorage ts ts' os os' st key :
  Permutation ts ts' -> Permutation os os' ->
  merged thisCtx otherCtx otherStorage ts os st key
  = merged thisCtx otherCtx otherStorage ts' os' st key.
Proof.
  intros Hts Hos. unfold merged.
  by rewrite (set_has_perm key ts ts'), (set_has_perm key os os').
Qed.

Lemma has_keys_get {V : Type} key (m : JsMap.t V) :
  JsSet.has key (JsMap.keys m) = match JsMap.get key m with Some _ => true | None => false end.
Proof.
  induction m as [|[k v] m IH]; simpl; [done|].
  destruct (String.eqb k key); done.
Qed.

Lemma merged_commutes ca cb sa sb key :
  sameWrites sa sb ->
  merged ca cb sb (JsMap.keys sa) (JsMap.keys sb) sa key
  = merged cb ca sa (JsMap.keys sb) (JsMap.keys sa) sb key.
Proof.
  intros Hsame. unfold merged, DotKernel.getValue. rewrite !has_keys_get.
  destruct (JsMap.get key sa) as [va|] eqn:Ea;
    destruct (JsMap.get key sb) as [vb|] eqn:Eb; try done.
  f_equal. by eapply Hsame.
Qed.


(** ** Compaction adds no dot *)

(** Moving the map of [id] up to the counter of a cloud entry that is
    next in line leaves the dots with a positive counter as they were. *)
Lemma member_absorb cc cloud cd d :
  In (Dot.toStringDot cd) cloud ->
  match JsMap.get (id cd) cc with
  | None => counter cd = 1
  | Some k => counter cd = k + 1
  end ->
  1 <= counter d ->
  member (mkContext (JsMap.set (id cd) (counter cd) cc) cloud) d = true ->
  member (mkContext cc cloud) d = true.
Proof.
  intros Hin Hnext Hpos. unfold member. simpl. rewrite get_set.
  destruct (String.eqb_spec (id cd) (id d)) as [E|Hne]; [|done].
  rewrite <- E. intros H. apply orb_true_iff in H as [H|H].
  - apply Z.leb_le in H.
    destruct (Z.eq_dec (counter d) (counter cd)) as [Ec|Hc].
    + assert (d = cd) as -> by (destruct d, cd; simpl in *; congruence).
      apply set_has_In in Hin. rewrite Hin.
      destruct (JsMap.get (id cd) cc); [apply orb_true_r|done].
    + destruct (JsMap.get (id cd) cc) as [k|]; [|lia].
      apply orb_true_iff. left. apply Z.leb_le. lia.
  - rewrite H. destruct (JsMap.get (id cd) cc); [apply orb_true_r|done].
Qed.

Lemma compactPass_member_inv cloud0 cloud cc del flag cc' del' flag' d :
  (forall s, In s cloud -> In s cloud0 /\ wfKey s = true) ->
  DotContext.compactPass cloud cc del flag = Ok (cc', del', flag') ->
  1 <= counter d ->
  member (mkContext cc' cloud0) d = true -> member (mkContext cc cloud0) d = true.
Proof.
  intros Hcloud Hpass Hpos. revert cc del flag Hpass.
  induction cloud as [|s cloud IH]; intros cc del flag Hpass; simpl in Hpass.
  - by inversion Hpass.
  - destruct (Hcloud s) as [Hs0 Hwf]; [by left|].
    apply wfKey_spec in Hwf as (cd & Hcd & Ecd).
    rewrite Hcd in Hpass. simpl in Hpass.
    assert (forall s', In s' cloud -> In s' cloud0 /\ wfKey s' = true) as Hrest
      by (intros; apply Hcloud; by right).
    specialize (IH Hrest).
    destruct (JsMap.get (id cd) cc) as [k|] eqn:Ek.
    + destruct (Z.eqb_spec (counter cd) (k + 1)) as [E1|_].
      * intros H. eapply IH in H; [|exact Hpass].
        rewrite <- E1 in H. eapply member_absorb; [| |done|exact H].
        -- by rewrite Ecd.
        -- by rewrite Ek.
      * destruct (counter cd <=? k); by eapply IH.
    + destruct (Z.eqb_spec (counter cd) 1) as [E1|_].
      * intros H. eapply IH in H; [|exact Hpass].
        eapply member_absorb; [| |done|exact H].
        -- by rewrite Ecd.
        -- by rewrite Ek.
      * by eapply IH.
Qed.

Lemma compactLoop_member_inv fuel c c' d :
  wfCloud c -> DotContext.compactLoop fuel c = Ok c' ->
  1 <= counter d -> member c' d = true -> member c d = true.
Proof.
  revert c. induction fuel as [|fuel IH]; intros c Hwf Hloop Hpos; [done|].
  simpl in Hloop. bind_inv Hloop as [[cc del] flag] Hpass.
  assert (member (mkContext cc (DotContext.deleteAll del (dotCloud c))) d = true ->
          member c d = true) as Hstep.
  { intros H. destruct c as [cc0 cloud0]. simpl in *.
    eapply compactPass_member_inv; [|exact Hpass|done|].
    - intros s Hs. split; [done|by apply Hwf].
    - eapply member_cloud_mono; [|exact H].
      intros s Hs. by apply deleteAll_In in Hs as [? _]. }
  destruct flag.
  - intros H. apply Hstep. eapply IH; [|exact Hloop|done|done].
    intros s Hs. simpl in Hs. apply deleteAll_In in Hs as [Hs _]. by apply Hwf.
  - inversion Hloop; subst c'. exact Hstep.
Qed.

Lemma compact_member_inv c c' d :
  wfCloud c -> DotContext.compact c = Ok c' ->
  1 <= counter d -> member c' d = true -> member c d = true.
Proof. apply compactLoop_member_inv. Qed.


(** ** The members of a joined context *)

Lemma joinCompact_get_inv entries cc i k :
  JsMap.get i (DotContext.joinCompact entries cc) = Some k ->
  JsMap.get i cc = Some k \/ In (i, k) entries.
Proof.
  revert cc. induction entries as [|[j v] rest IH]; intros cc; simpl; [by left|].
  intros H. apply IH in H as [H|H]; [|by right; right].
  rewrite get_set in H. destruct (String.eqb_spec j i) as [->|Hne]; [|by left].
  destruct (JsMap.get i cc) as [c|] eqn:Ec.
  - destruct (Z.max_spec c v) as [[_ Em]|[_ Em]]; rewrite Em in H.
    + right. left. congruence.
    + left. congruence.
  - right. left. congruence.
Qed.

Lemma In_get_NoDup {V : Type} (m : JsMap.t V) i v :
  NoDup (JsMap.keys m) -> In (i, v) m -> JsMap.get i m = Some v.
Proof.
  induction m as [|[j w] m IH]; simpl; [done|].
  intros Hnd Hin. apply NoDup_cons in Hnd as [Hj Hnd].
  destruct (String.eqb_spec j i) as [->|Hne].
  - destruct Hin as [Hin|Hin]; [congruence|].
    exfalso. apply Hj. apply list_elem_of_In, in_map_iff. by exists (i, v).
  - destruct Hin as [Hin|Hin]; [congruence|]. by apply IH.
Qed.

Lemma joinCloud_cloud dots c c' s :
  DotContext.joinCloud dots c = Ok c' -> In s (dotCloud c') ->
  In s (dotCloud c)
  \/ exists s0 d0, In s0 dots /\ Dot.fromString s0 = Ok d0 /\ s = Dot.toStringDot d0.
Proof.
  revert c. induction dots as [|dot rest IH]; intros c H Hs; simpl in H.
  - inversion H; subst. by left.
  - bind_inv H as c1 Hc1.
    apply insertDot_cloud in Hc1 as (d & Hd & ->). simpl in Hd.
    destruct (IH _ H Hs) as [Hin|(s0 & d0 & Hin & Hd0 & E)].
    + simpl in Hin. apply add_In in Hin as [->|Hin]; [|by left].
      right. exists dot, d. split; [by left|done].
    + right. exists s0, d0. split; [by right|done].
Qed.

Lemma member_cloud c d :
  In (Dot.toStringDot d) (dotCloud c) -> member c d = true.
Proof.
  intros Hin. apply set_has_In in Hin. unfold member. rewrite Hin.
  destruct (JsMap.get (id d) (compactCausalContext c)); [apply orb_true_r|done].
Qed.

Lemma member_covered c d k :
  JsMap.get (id d) (compactCausalContext c) = Some k -> counter d <= k ->
  member c d = true.
Proof.
  intros Hk Hle. unfold member. rewrite Hk. apply orb_true_iff. left. by apply Z.leb_le.
Qed.

Lemma member_inv c d :
  member c d = true ->
  In (Dot.toStringDot d) (dotCloud c)
  \/ exists k, JsMap.get (id d) (compactCausalContext c) = Some k /\ counter d <= k.
Proof.
  unfold member. destruct (JsMap.get (id d) (compactCausalContext c)) as [k|].
  - intros H. apply orb_true_iff in H as [H|H].
    + right. exists k. split; [done|]. by apply Z.leb_le.
    + left. by apply set_has_In.
  - intros H. left. by apply set_has_In.
Qed.

Lemma contextJoin_member_inv c o c' d :
  wfCloud c -> wfContext o ->
  DotContext.join c o = Ok c' ->
  1 <= counter d -> member c' d = true ->
  member c d = true \/ member o d = true.
Proof.
  intros Hc [Hnd Ho] Hjoin Hpos Hm. unfold DotContext.join in Hjoin.
  bind_inv Hjoin as c1 Hc1.
  pose proof (joinCloud_map _ _ _ Hc1) as Hmap. simpl in Hmap.
  assert (forall s, In s (dotCloud c1) -> In s (dotCloud c) \/ In s (dotCloud o)) as Hcloud.
  { intros s Hs. destruct (joinCloud_cloud _ _ _ _ Hc1 Hs) as [Hin|(s0 & d0 & Hin & Hd0 & E)].
    - by left.
    - right. pose proof (Ho _ Hin) as Hwf. apply wfKey_spec in Hwf as (d1 & Hd1 & E1).
      congruence. }
  assert (wfCloud c1) as Hwf1.
  { intros s Hs. destruct (Hcloud s Hs) as [Hin|Hin]; [by apply Hc|by apply Ho]. }
  eapply compact_member_inv in Hm; [|done|exact Hjoin|done].
  apply member_inv in Hm as [Hin|(k & Hk & Hle)].
  - destruct (Hcloud _ Hin) as [H|H]; [left|right]; by apply member_cloud.
  - rewrite Hmap in Hk. apply joinCompact_get_inv in Hk as [Hk|Hk].
    + left. by eapply member_covered.
    + right. eapply member_covered; [|done]. by apply In_get_NoDup.
Qed.

Lemma contextJoin_member c o c' d :
  wfCloud c -> wfContext o ->
  DotContext.join c o = Ok c' -> 1 <= counter d ->
  member c' d = member c d || member o d.
Proof.
  intros Hc Ho Hjoin Hpos.
  destruct (member c' d) eqn:E.
  - symmetry. apply orb_true_iff. by eapply contextJoin_member_inv.
  - symmetry. apply orb_false_iff. split.
    + destruct (member c d) eqn:E1; [|done].
      by rewrite (contextJoin_member_l _ _ _ _ Hjoin E1) in E.
    + destruct (member o d) eqn:E2; [|done].
      by rewrite (contextJoin_member_r _ _ _ _ Hjoin E2) in E.
Qed.


(** ** [clone] and [join] on the heap, when they return *)

Lemma clone_facts h k kt base :
  kernels h !! k = Some kt ->
  contexts h !! contextBase kt = Some base ->
  exists h',
    DotKernel.clone k h = Ok (length (kernels h), h')
    /\ contexts h' = (contexts h ++ [base])%list
    /\ kernels h'
       = (kernels h
          ++ [mkKernel (dataStorage kt) (length (contexts h))
                (if Nat.eqb (sharedContext kt) (contextBase kt)
                 then length (contexts h) else sharedContext kt)])%list.
Proof.
  intros Hk Hb. unfold DotKernel.clone.
  apply getKernel_Ok in Hk. apply getContext_Ok in Hb. rewrite Hk. simpl.
  rewrite Hb. simpl. rewrite clone_eq.
  destruct (Nat.eqb (sharedContext kt) (contextBase kt)); eexists; done.
Qed.

Lemma join_facts lc this other h kt ko ts os ct co st c' :
  this <> other ->
  kernels h !! this = Some kt -> kernels h !! other = Some ko ->
  Dot.sortKeys lc (JsMap.keys (dataStorage kt)) = Ok ts ->
  Dot.sortKeys lc (JsMap.keys (dataStorage ko)) = Ok os ->
  contexts h !! sharedContext kt = Some ct ->
  contexts h !! sharedContext ko = Some co ->
  DotKernel.joinLoop lc ct co (dataStorage ko) ts os (dataStorage kt) = Ok st ->
  (sharedContext kt <> sharedContext ko -> DotContext.join ct co = Ok c') ->
  exists h',
    DotKernel.join lc this other h = Ok h'
    /\ kernels h' = <[this := mkKernel st (contextBase kt) (sharedContext kt)]> (kernels h)
    /\ contexts h'
       = if Nat.eqb (sharedContext kt) (sharedContext ko) then contexts h
         else <[sharedContext kt := c']> (contexts h).
Proof.
  intros Hne Hkt Hko Hts Hos Hct Hco Hloop Hjoin. unfold DotKernel.join.
  destruct (Nat.eqb_spec this other) as [|_]; [done|].
  rewrite (proj2 (getKernel_Ok _ _ _) Hkt), (proj2 (getKernel_Ok _ _ _) Hko). simpl.
  rewrite Hts, Hos. simpl.
  rewrite (proj2 (getContext_Ok _ _ _) Hct), (proj2 (getContext_Ok _ _ _) Hco). simpl.
  rewrite Hloop. simpl. rewrite (setStorage_Ok _ _ _ _ Hkt). simpl.
  unfold DotKernel.joinContexts.
  destruct (Nat.eqb_spec (sharedContext kt) (sharedContext ko)) as [E|Hs].
  - eexists. done.
  - unfold Heap.getContext. simpl. rewrite Hct, Hco. simpl.
    rewrite (Hjoin Hs). simpl. eexists. done.
Qed.


Lemma wfCloud_parses c : wfCloud c -> cloudParses c.
Proof.
  intros Hwf s Hs. apply Hwf, wfKey_spec in Hs as (d & Hd & _). by exists d.
Qed.

(** [a.clone()] joined with [b]: the calls return, the storage is the
    merge of the two storages and the context has the dots of both. *)
Lemma joinedClone_facts lc h a b ka kb ca cb :
  strictCollation lc ->
  kernels h !! a = Some ka -> kernels h !! b = Some kb ->
  contexts h !! sharedContext ka = Some ca ->
  contexts h !! sharedContext kb = Some cb ->
  (contextBase ka < length (contexts h))%nat ->
  wfStorage (dataStorage ka) -> wfStorage (dataStorage kb) ->
  wfCloud ca -> wfContext cb ->
  (forall x y, In x (JsMap.keys (dataStorage ka)) -> In y (JsMap.keys (dataStorage kb)) ->
     Js.stringLt x y = keyLtb lc x y) ->
  exists st c,
    joinedClone lc a b h = Ok (st, c)
    /\ (forall key,
          JsMap.get key st
          = merged ca cb (dataStorage kb) (JsMap.keys (dataStorage ka))
                   (JsMap.keys (dataStorage kb)) (dataStorage ka) key)
    /\ (forall d, 1 <= counter d -> member c d = member ca d || member cb d).
Proof.
  intros Hlc Hka Hkb Hca Hcb Hbase [NDa Wa] [NDb Wb] Hwca Hwcb Hagree.
  destruct (lookup_lt_is_Some_2 (contexts h) (contextBase ka) Hbase) as [base Hb].
  destruct (clone_facts h a ka base Hka Hb) as (h1 & Hclone & Hc1 & Hk1).
  pose proof (lookup_lt_Some _ _ _ Hkb) as Hblt.
  pose proof (lookup_lt_Some _ _ _ Hca) as Hsalt.
  pose proof (lookup_lt_Some _ _ _ Hcb) as Hsblt.
  remember (mkKernel (dataStorage ka) (length (contexts h))
              (if Nat.eqb (sharedContext ka) (contextBase ka)
               then length (contexts h) else sharedContext ka)) as kr eqn:Ekr.
  assert (kernels h1 !! length (kernels h) = Some kr) as Hkr
    by (rewrite Hk1; apply list_lookup_middle; done).
  assert (kernels h1 !! b = Some kb) as Hkb1
    by (rewrite Hk1, lookup_app_l; done).
  assert (length (kernels h) <> b) as Hne by lia.
  assert (dataStorage kr = dataStorage ka) as Est by (by subst kr).
  assert (contexts h1 !! sharedContext kr = Some ca) as Hca1.
  { subst kr. simpl. rewrite Hc1.
    destruct (Nat.eqb_spec (sharedContext ka) (contextBase ka)) as [E|_].
    - rewrite list_lookup_middle by done. congruence.
    - by rewrite lookup_app_l. }
  assert (contexts h1 !! sharedContext kb = Some cb) as Hcb1
    by (rewrite Hc1, lookup_app_l; done).
  assert (forall k, In k (JsMap.keys (dataStorage ka)) -> exists d, Dot.fromString k = Ok d)
    as Pa by (intros k Hk; apply Wa, wfKey_spec in Hk as (d & Hd & _); by exists d).
  assert (forall k, In k (JsMap.keys (dataStorage kb)) -> exists d, Dot.fromString k = Ok d)
    as Pb by (intros k Hk; apply Wb, wfKey_spec in Hk as (d & Hd & _); by exists d).
  destruct (sortKeys_total lc _ Pa) as (ts & Hts).
  destruct (sortKeys_total lc _ Pb) as (os & Hos).
  destruct (joinLoop_merged lc Hlc ca cb (dataStorage kb) ts os (dataStorage ka))
    as (st & Hst & Hget).
  { by apply (sortKeys_sorted lc (JsMap.keys (dataStorage ka))). }
  { by apply (sortKeys_sorted lc (JsMap.keys (dataStorage kb))). }
  { intros x Hx. apply Wa. by apply (sortKeys_In lc _ _ x Hts). }
  { intros y Hy. apply Wb. by apply (sortKeys_In lc _ _ y Hos). }
  { intros x y Hx Hy.
    apply Hagree; [by apply (sortKeys_In lc _ _ x Hts)|by apply (sortKeys_In lc _ _ y Hos)]. }
  destruct (contextJoin_total ca cb) as (c' & Hc' & _);
    [by apply wfCloud_parses|apply wfCloud_parses, Hwcb|].
  destruct (join_facts lc (length (kernels h)) b h1 kr kb ts os ca cb st c')
    as (h2 & Hjoin & Hk2 & Hc2); try done; try (by rewrite Est).
  exists st.
  exists (if Nat.eqb (sharedContext kr) (sharedContext kb) then ca else c').
  split; [|split].
  - unfold joinedClone. rewrite Hclone. simpl. rewrite Hjoin. simpl.
    assert (kernels h2 !! length (kernels h)
            = Some (mkKernel st (contextBase kr) (sharedContext kr))) as Hr2.
    { rewrite Hk2. apply list_lookup_insert_eq. by eapply lookup_lt_Some. }
    rewrite (proj2 (getKernel_Ok _ _ _) Hr2). simpl.
    unfold Heap.getContext. rewrite Hc2.
    destruct (Nat.eqb (sharedContext kr) (sharedContext kb)).
    + by rewrite Hca1.
    + rewrite list_lookup_insert_eq by (by eapply lookup_lt_Some). done.
  - intros key. rewrite Hget. apply merged_perm; by eapply sortKeys_perm.
  - intros d Hpos.
    destruct (Nat.eqb_spec (sharedContext kr) (sharedContext kb)) as [E|_].
    + rewrite E in Hca1. assert (cb = ca) as -> by congruence.
      by rewrite orb_diag.
    + by eapply contextJoin_member.
Qed.


(** ** The code-unit order is a strict collation *)

Lemma stringLt_irrefl a : Js.stringLt a a = false.
Proof.
  induction a as [|x a IH]; simpl; [done|].
  by rewrite Nat.ltb_irrefl.
Qed.

Lemma stringLt_asym a b : Js.stringLt a b = true -> Js.stringLt b a = false.
Proof.
  revert b. induction a as [|x a IH]; intros [|y b]; simpl; try done.
  destruct (Nat.ltb_spec (nat_of_ascii x) (nat_of_ascii y)) as [Hlt|Hge].
  - intros _. destruct (Nat.ltb_spec (nat_of_ascii y) (nat_of_ascii x)); [lia|done].
  - destruct (Nat.ltb_spec (nat_of_ascii y) (nat_of_ascii x)); [done|]. apply IH.
Qed.

Lemma stringLt_total a b :
  Js.stringLt a b = false -> Js.stringLt b a = false -> a = b.
Proof.
  revert b. induction a as [|x a IH]; intros [|y b]; simpl; try done.
  destruct (Nat.ltb_spec (nat_of_ascii x) (nat_of_ascii y)) as [Hlt|Hge]; [done|].
  destruct (Nat.ltb_spec (nat_of_ascii y) (nat_of_ascii x)) as [Hlt'|Hge']; [done|].
  intros Hab Hba. f_equal; [|by apply IH].
  rewrite <- (ascii_nat_embedding x), <- (ascii_nat_embedding y). f_equal. lia.
Qed.

Lemma stringLt_trans a b c :
  Js.stringLt a b = true -> Js.stringLt b c = true -> Js.stringLt a c = true.
Proof.
  revert b c. induction a as [|x a IH]; intros [|y b] [|z c]; simpl; try done.
  destruct (Nat.ltb_spec (nat_of_ascii x) (nat_of_ascii y));
    destruct (Nat.ltb_spec (nat_of_ascii y) (nat_of_ascii x));
    destruct (Nat.ltb_spec (nat_of_ascii y) (nat_of_ascii z));
    destruct (Nat.ltb_spec (nat_of_ascii z) (nat_of_ascii y));
    destruct (Nat.ltb_spec (nat_of_ascii x) (nat_of_ascii z));
    destruct (Nat.ltb_spec (nat_of_ascii z) (nat_of_ascii x));
    try done; try lia.
  apply IH.
Qed.

Lemma codeUnitCompare_strict : strictCollation codeUnitCompare.
Proof.
  unfold strictCollation, codeUnitCompare. repeat split.
  - intros a b.
    destruct (Js.stringLt a b) eqn:Eab; destruct (Js.stringLt b a) eqn:Eba; try done.
    by rewrite (stringLt_asym _ _ Eab) in Eba.
  - intros a b.
    destruct (Js.stringLt a b) eqn:Eab; [done|].
    destruct (Js.stringLt b a) eqn:Eba; [done|].
    intros _. by apply stringLt_total.
  - intros a b c.
    destruct (Js.stringLt a b) eqn:Eab; [|destruct (Js.stringLt b a); lia].
    destruct (Js.stringLt b c) eqn:Ebc; [|destruct (Js.stringLt c b); lia].
    by rewrite (stringLt_trans _ _ _ Eab Ebc).
Qed.


(** ** Commutativity of the kernel join *)

Lemma sameWrites_intro sa sb :
  (forall key va, In (key, va) sa -> forall vb, JsMap.get key sb = Some vb -> va = vb) ->
  sameWrites sa sb.
Proof.
  intros H key va vb Ha Hb. apply get_Some_In in Ha. by eapply H.
Qed.

(** C2, as stated, fails: two kernels with well-formed dots and anchored
    storage that hold the dot [a:1] with two values (both replicas wrote
    as ["a"]).  The loop takes a dot held by both sides for one write
    and keeps the value of [this], so each of the two joins keeps the
    value of its own side. *)
Lemma join_keeps_own_value_of_common_dot :
  wfKey "a:1" = true
  /\ DotContext.dotIn (mkContext [("a", 1)] []) (InStr "a:1") = Ok true
  /\ joinedClone codeUnitCompare 0 1 twoWritersHeap
     = Ok ([("a:1", VNum 5)], mkContext [("a", 1)] [])
  /\ joinedClone codeUnitCompare 1 0 twoWritersHeap
     = Ok ([("a:1", VNum 8)], mkContext [("a", 1)] [])
  /\ ~ joinCommutes codeUnitCompare 0 1 twoWritersHeap.
Proof.
  repeat split; try (vm_compute; reflexivity).
  intros (st1 & c1 & st2 & c2 & H1 & H2 & Hst & _).
  vm_compute in H1, H2. inversion H1; inversion H2; subst.
  specialize (Hst "a:1"). discriminate.
Qed.

(** C2 (amended).  For two kernels of a heap whose storages hold each
    key once and only strings of dots, whose contexts are maps with each
    replica once and clouds of strings of dots, and under a collation
    that is a strict total order: when a dot held by both kernels
    carries the same value in both, and the operator [<] on the key
    strings agrees with [Dot.compare] on every pair of a key of one and
    a key of the other, then [a.clone()] joined with [b] and [b.clone()]
    joined with [a], each made in the same state, both return, hold the
    same entries, and their contexts have the same dots.  The two
    kernels may name one context; anchoring is not needed. *)
Theorem clone_join_commutes (lc : string -> string -> Z) (h : Heap) (a b : nat)
    (ka kb : DotKernel) (ca cb : DotContext) :
  strictCollation lc ->
  kernels h !! a = Some ka -> kernels h !! b = Some kb ->
  contexts h !! sharedContext ka = Some ca ->
  contexts h !! sharedContext kb = Some cb ->
  (contextBase ka < length (contexts h))%nat ->
  (contextBase kb < length (contexts h))%nat ->
  wfStorage (dataStorage ka) -> wfStorage (dataStorage kb) ->
  wfContext ca -> wfContext cb ->
  sameWrites (dataStorage ka) (dataStorage kb) ->
  ordersAgree lc (dataStorage ka) (dataStorage kb) ->
  joinCommutes lc a b h.
Proof.
  intros Hlc Hka Hkb Hca Hcb Hba Hbb Wa Wb Wca Wcb Hsame Hagree.
  assert (forall x y, In x (JsMap.keys (dataStorage ka)) ->
            In y (JsMap.keys (dataStorage kb)) -> Js.stringLt x y = keyLtb lc x y)
    as Hab by (intros x y Hx Hy; by destruct (Hagree x y Hx Hy)).
  assert (forall y x, In y (JsMap.keys (dataStorage kb)) ->
            In x (JsMap.keys (dataStorage ka)) -> Js.stringLt y x = keyLtb lc y x)
    as Hba' by (intros y x Hy Hx; by destruct (Hagree x y Hx Hy)).
  destruct (joinedClone_facts lc h a b ka kb ca cb
              Hlc Hka Hkb Hca Hcb Hba Wa Wb (proj2 Wca) Wcb Hab)
    as (st1 & c1 & H1 & Hst1 & Hm1).
  destruct (joinedClone_facts lc h b a kb ka cb ca
              Hlc Hkb Hka Hcb Hca Hbb Wb Wa (proj2 Wcb) Wca Hba')
    as (st2 & c2 & H2 & Hst2 & Hm2).
  exists st1, c1, st2, c2. repeat split; try done.
  - intros key. rewrite Hst1, Hst2. by apply merged_commutes.
  - intros d Hpos. rewrite !dotIn_InDot.
    change (Ok (member c1 d) = Ok (member c2 d)).
    rewrite Hm1, Hm2 by done. by rewrite orb_comm.
Qed.

(** C2 (amended), witness: kernel 0 has removed [b:1], which kernel 1
    still holds, and kernel 1 holds [c:2], which kernel 0 has not seen;
    both joins hold [a:1], [b:2] and [c:2]. *)
Lemma clone_join_commutes_witness : joinCommutes codeUnitCompare 0 1 divergedHeap.
Proof.
  apply (clone_join_commutes codeUnitCompare divergedHeap 0 1
           (mkKernel [("a:1", VStr "x"); ("b:2", VStr "y")] 0 0)
           (mkKernel [("c:2", VStr "z"); ("b:1", VStr "w"); ("a:1", VStr "x")] 1 1)
           (mkContext [("a", 1); ("b", 2)] [])
           (mkContext [("a", 1); ("b", 1)] ["c:2"])).
  - exact codeUnitCompare_strict.
  - reflexivity.
  - reflexivity.
  - reflexivity.
  - reflexivity.
  - simpl. lia.
  - simpl. lia.
  - split.
    + apply (bool_decide_unpack _). vm_compute. reflexivity.
    + intros key [<-|[<-|[]]]; reflexivity.
  - split.
    + apply (bool_decide_unpack _). vm_compute. reflexivity.
    + intros key [<-|[<-|[<-|[]]]]; reflexivity.
  - split.
    + apply (bool_decide_unpack _). vm_compute. reflexivity.
    + intros s [].
  - split.
    + apply (bool_decide_unpack _). vm_compute. reflexivity.
    + intros s [<-|[]]. reflexivity.
  - apply sameWrites_intro.
    intros key va [E|[E|[]]] vb; inversion E; subst; vm_compute; congruence.
  - intros x y [<-|[<-|[]]] [<-|[<-|[<-|[]]]]; split; reflexivity.
Defined.


(** ** The merge rule of [join] where the two orders agree *)

(** X1.  For two distinct kernels with well-formed storages, under a
    strict collation and when the operator [<] agrees with
    [Dot.compare] on every pair of a key of [this] and a key of
    [other], [this.join(other)] returns and follows the observed-remove
    rule: a dot held only by [other] that the context of [this] does
    not know arrives with the value of [other]; a dot held only by
    [this] that the context of [other] knows is removed; every other
    key is as before, held with its value or absent. *)
Theorem join_merge_rule (lc : string -> string -> Z) (h : Heap) (a b : nat)
    (ka kb : DotKernel) (ca cb : DotContext) :
  strictCollation lc -> a <> b ->
  kernels h !! a = Some ka -> kernels h !! b = Some kb ->
  contexts h !! sharedContext ka = Some ca ->
  contexts h !! sharedContext kb = Some cb ->
  wfStorage (dataStorage ka) -> wfStorage (dataStorage kb) ->
  cloudParses ca -> cloudParses cb ->
  (forall x y, In x (JsMap.keys (dataStorage ka)) -> In y (JsMap.keys (dataStorage kb)) ->
     Js.stringLt x y = keyLtb lc x y) ->
  exists h' ka',
    DotKernel.join lc a b h = Ok h'
    /\ kernels h' !! a = Some ka'
    /\ (forall key v,
          JsMap.get key (dataStorage kb) = Some v ->
          JsMap.get key (dataStorage ka) = None ->
          DotContext.dotIn ca (InStr key) = Ok false ->
          JsMap.get key (dataStorage ka') = Some v)
    /\ (forall key v,
          JsMap.get key (dataStorage ka) = Some v ->
          JsMap.get key (dataStorage kb) = None ->
          DotContext.dotIn cb (InStr key) = Ok true ->
          JsMap.get key (dataStorage ka') = None)
    /\ (forall key v,
          JsMap.get key (dataStorage ka) = Some v ->
          (JsMap.get key (dataStorage kb) <> None
           \/ DotContext.dotIn cb (InStr key) = Ok false) ->
          JsMap.get key (dataStorage ka') = Some v)
    /\ (forall key,
          JsMap.get key (dataStorage ka) = None ->
          (JsMap.get key (dataStorage kb) = None
           \/ DotContext.dotIn ca (InStr key) = Ok true) ->
          JsMap.get key (dataStorage ka') = None).
Proof.
  intros Hlc Hne Hka Hkb Hca Hcb [NDa Wa] [NDb Wb] Pca Pcb Hagree.
  assert (forall k, In k (JsMap.keys (dataStorage ka)) -> exists d, Dot.fromString k = Ok d)
    as Pa by (intros k Hk; apply Wa, wfKey_spec in Hk as (d & Hd & _); by exists d).
  assert (forall k, In k (JsMap.keys (dataStorage kb)) -> exists d, Dot.fromString k = Ok d)
    as Pb by (intros k Hk; apply Wb, wfKey_spec in Hk as (d & Hd & _); by exists d).
  destruct (sortKeys_total lc _ Pa) as (ts & Hts).
  destruct (sortKeys_total lc _ Pb) as (os & Hos).
  destruct (joinLoop_merged lc Hlc ca cb (dataStorage kb) ts os (dataStorage ka))
    as (st & Hst & Hget).
  { by apply (sortKeys_sorted lc (JsMap.keys (dataStorage ka))). }
  { by apply (sortKeys_sorted lc (JsMap.keys (dataStorage kb))). }
  { intros x Hx. apply Wa. by apply (sortKeys_In lc _ _ x Hts). }
  { intros y Hy. apply Wb. by apply (sortKeys_In lc _ _ y Hos). }
  { intros x y Hx Hy.
    apply Hagree; [by apply (sortKeys_In lc _ _ x Hts)|by apply (sortKeys_In lc _ _ y Hos)]. }
  destruct (contextJoin_total ca cb Pca Pcb) as (c' & Hc' & _).
  destruct (join_facts lc a b h ka kb ts os ca cb st c')
    as (h' & Hjoin & Hk' & _); try done.
  exists h', (mkKernel st (contextBase ka) (sharedContext ka)).
  split; [done|]. split.
  { rewrite Hk'. apply list_lookup_insert_eq. by eapply lookup_lt_Some. }
  assert (forall key,
            JsMap.get key st
            = merged ca cb (dataStorage kb) (JsMap.keys (dataStorage ka))
                     (JsMap.keys (dataStorage kb)) (dataStorage ka) key) as Hm.
  { intros key. rewrite Hget. apply merged_perm; by eapply sortKeys_perm. }
  simpl. repeat split; intros key; [intros v..|].
  - intros Hb Ha Hknow. rewrite Hm. unfold merged, knows, DotKernel.getValue.
    rewrite !has_keys_get, Ha, Hb, Hknow. done.
  - intros Ha Hb Hknow. rewrite Hm. unfold merged, knows.
    rewrite !has_keys_get, Ha, Hb, Hknow. done.
  - intros Ha Hor. rewrite Hm. unfold merged, knows.
    rewrite !has_keys_get, Ha.
    destruct (JsMap.get key (dataStorage kb)) eqn:Eb; [done|].
    destruct Hor as [Hor|Hor]; [done|]. by rewrite Hor.
  - intros Ha Hor. rewrite Hm. unfold merged, knows.
    rewrite !has_keys_get, Ha.
    destruct (JsMap.get key (dataStorage kb)) eqn:Eb; [|done].
    destruct Hor as [Hor|Hor]; [done|]. by rewrite Hor.
Qed.

(** X1, witness: kernel 1 joined with kernel 0 receives [b:2], loses
    [b:1], which the context of kernel 0 knows, and keeps [c:2]. *)
Lemma join_merge_rule_witness :
  exists h' ka',
    DotKernel.join codeUnitCompare 1 0 divergedHeap = Ok h'
    /\ kernels h' !! 1%nat = Some ka'
    /\ JsMap.get "b:2" (dataStorage ka') = Some (VStr "y")
    /\ JsMap.get "b:1" (dataStorage ka') = None
    /\ JsMap.get "c:2" (dataStorage ka') = Some (VStr "z").
Proof.
  destruct (join_merge_rule codeUnitCompare divergedHeap 1 0
              (mkKernel [("c:2", VStr "z"); ("b:1", VStr "w"); ("a:1", VStr "x")] 1 1)
              (mkKernel [("a:1", VStr "x"); ("b:2", VStr "y")] 0 0)
              (mkContext [("a", 1); ("b", 1)] ["c:2"])
              (mkContext [("a", 1); ("b", 2)] []))
    as (h' & ka' & Hjoin & Hk & Hin & Hout & Hkeep & _).
  - exact codeUnitCompare_strict.
  - discriminate.
  - reflexivity.
  - reflexivity.
  - reflexivity.
  - reflexivity.
  - split.
    + apply (bool_decide_unpack _). vm_compute. reflexivity.
    + intros key [<-|[<-|[<-|[]]]]; reflexivity.
  - split.
    + apply (bool_decide_unpack _). vm_compute. reflexivity.
    + intros key [<-|[<-|[]]]; reflexivity.
  - intros s [<-|[]]. by exists (mkDot "c" 2).
  - intros s [].
  - intros x y [<-|[<-|[<-|[]]]] [<-|[<-|[]]]; reflexivity.
  - exists h', ka'. repeat split; try done.
    + by apply (Hin "b:2" (VStr "y")).
    + by apply (Hout "b:1" (VStr "w")).
    + apply (Hkeep "c:2" (VStr "z")); [done|by right].
Defined.


(** ** Idempotence of the kernel join *)

Lemma joinLoop_same lc thisCtx otherCtx otherStorage ts st :
  (forall x, In x ts -> exists d, Dot.fromString x = Ok d) ->
  DotKernel.joinLoop lc thisCtx otherCtx otherStorage ts ts st = Ok st.
Proof.
  induction ts as [|x ts IH]; intros Hp; [done|].
  rewrite joinLoop_cons_cons, stringLt_irrefl.
  destruct (Hp x) as (d & Hd); [by left|].
  unfold Dot.compare. simpl. rewrite Hd. simpl. rewrite compareDots_same. simpl.
  apply IH. intros; apply Hp; by right.
Qed.

(** X2.  A clone of a kernel joined with the kernel itself holds the
    storage of the kernel, and its context has the dots of the context
    of the kernel.  The keys need only read as dots: the two arrays are
    the same, so the loop meets equal keys at every step, whatever the
    collation. *)
Theorem clone_join_self (lc : string -> string -> Z) (h : Heap) (a : nat)
    (ka : DotKernel) (ca : DotContext) :
  kernels h !! a = Some ka ->
  contexts h !! sharedContext ka = Some ca ->
  (contextBase ka < length (contexts h))%nat ->
  (forall key, In key (JsMap.keys (dataStorage ka)) ->
     exists d, Dot.fromString key = Ok d) ->
  wfContext ca ->
  exists c,
    joinedClone lc a a h = Ok (dataStorage ka, c)
    /\ forall d, 1 <= counter d ->
         DotContext.dotIn c (InDot d) = DotContext.dotIn ca (InDot d).
Proof.
  intros Hka Hca Hbase Pa Wca.
  destruct (lookup_lt_is_Some_2 (contexts h) (contextBase ka) Hbase) as [base Hb].
  destruct (clone_facts h a ka base Hka Hb) as (h1 & Hclone & Hc1 & Hk1).
  pose proof (lookup_lt_Some _ _ _ Hka) as Halt.
  pose proof (lookup_lt_Some _ _ _ Hca) as Hsalt.
  remember (mkKernel (dataStorage ka) (length (contexts h))
              (if Nat.eqb (sharedContext ka) (contextBase ka)
               then length (contexts h) else sharedContext ka)) as kr eqn:Ekr.
  assert (kernels h1 !! length (kernels h) = Some kr) as Hkr
    by (rewrite Hk1; apply list_lookup_middle; done).
  assert (kernels h1 !! a = Some ka) as Hka1
    by (rewrite Hk1, lookup_app_l; done).
  assert (length (kernels h) <> a) as Hne by lia.
  assert (dataStorage kr = dataStorage ka) as Est by (by subst kr).
  assert (contexts h1 !! sharedContext kr = Some ca) as Hca1.
  { subst kr. simpl. rewrite Hc1.
    destruct (Nat.eqb_spec (sharedContext ka) (contextBase ka)) as [E|_].
    - rewrite list_lookup_middle by done. congruence.
    - by rewrite lookup_app_l. }
  assert (contexts h1 !! sharedContext ka = Some ca) as Hca1'
    by (rewrite Hc1, lookup_app_l; done).
  destruct (sortKeys_total lc _ Pa) as (ts & Hts).
  destruct (contextJoin_total ca ca) as (c' & Hc' & _);
    [apply wfCloud_parses, Wca|apply wfCloud_parses, Wca|].
  destruct (join_facts lc (length (kernels h)) a h1 kr ka ts ts ca ca (dataStorage ka) c')
    as (h2 & Hjoin & Hk2 & Hc2); try done; try (by rewrite Est).
  { rewrite Est. apply joinLoop_same.
    intros x Hx. apply Pa. by apply (sortKeys_In lc _ _ x Hts). }
  exists (if Nat.eqb (sharedContext kr) (sharedContext ka) then ca else c').
  split.
  - unfold joinedClone. rewrite Hclone. simpl. rewrite Hjoin. simpl.
    assert (kernels h2 !! length (kernels h)
            = Some (mkKernel (dataStorage ka) (contextBase kr) (sharedContext kr))) as Hr2.
    { rewrite Hk2. apply list_lookup_insert_eq. by eapply lookup_lt_Some. }
    rewrite (proj2 (getKernel_Ok _ _ _) Hr2). simpl.
    unfold Heap.getContext. rewrite Hc2.
    destruct (Nat.eqb (sharedContext kr) (sharedContext ka)).
    + by rewrite Hca1.
    + rewrite list_lookup_insert_eq by (by eapply lookup_lt_Some). done.
  - intros d Hpos. rewrite !dotIn_InDot.
    change (Ok (member (if Nat.eqb (sharedContext kr) (sharedContext ka) then ca else c') d)
            = Ok (member ca d)).
    destruct (Nat.eqb (sharedContext kr) (sharedContext ka)); [done|].
    rewrite (contextJoin_member ca ca c' d) by (done || apply Wca).
    by rewrite orb_diag.
Qed.

(** X2, witness: the keys ["a:9"] and ["a:10"], on which the two orders
    disagree. *)
Lemma clone_join_self_witness :
  let h := mkHeap [mkContext [("a", 10)] ["b:2"]]
                  [mkKernel [("a:10", VStr "y"); ("a:9", VStr "x")] 0 0] in
  exists c,
    joinedClone codeUnitCompare 0 0 h
    = Ok ([("a:10", VStr "y"); ("a:9", VStr "x")], c)
    /\ forall d, 1 <= counter d ->
         DotContext.dotIn c (InDot d)
         = DotContext.dotIn (mkContext [("a", 10)] ["b:2"]) (InDot d).
Proof.
  apply (clone_join_self codeUnitCompare
           (mkHeap [mkContext [("a", 10)] ["b:2"]]
                   [mkKernel [("a:10", VStr "y"); ("a:9", VStr "x")] 0 0])
           0 (mkKernel [("a:10", VStr "y"); ("a:9", VStr "x")] 0 0)
           (mkContext [("a", 10)] ["b:2"])).
  - reflexivity.
  - reflexivity.
  - simpl. lia.
  - intros key [<-|[<-|[]]]; by eexists.
  - split.
    + apply (bool_decide_unpack _). vm_compute. reflexivity.
    + intros s [<-|[]]. reflexivity.
Defined.


(** ** The dots of a joined context *)



(** ** Round trip of a dot through its string *)

(** X4.  For a dot whose counter is a safe integer, the string of the
    dot reads back as the dot exactly when the replica identifier is
    not empty and has no [':']. *)
Theorem toString_fromString_roundtrip (d : Dot) :
  safeInteger (counter d) = true ->
  (Dot.fromString (Dot.toStringDot d) = Ok d <-> wfId (id d) = true).
Proof.
  intros _. split.
  - apply fromString_wfId.
  - destruct d as [i n]. apply fromString_toString.
Qed.

(** X4, witness: the dot [(n1, 12)]. *)
Lemma toString_fromString_roundtrip_witness :
  safeInteger (counter (mkDot "n1" 12)) = true
  /\ (Dot.fromString (Dot.toStringDot (mkDot "n1" 12)) = Ok (mkDot "n1" 12)
      <-> wfId (id (mkDot "n1" 12)) = true).
Proof.
  split; [reflexivity|].
  exact (toString_fromString_roundtrip (mkDot "n1" 12) eq_refl).
Defined.


(** ** The comparison methods of a dot *)

(** X5.  Under a collation that is a strict total order, [Dot.compare]
    orders the dots: it answers [0] on equal dots only, [a.lt(b)] is
    [b.gt(a)] and [a.lte(b)] is [b.gte(a)], [lt] is transitive, and two
    different dots are related by [lt] one way or the other. *)
Theorem dot_methods_order (lc : string -> string -> Z) (a b c : Dot) :
  strictCollation lc ->
  (Dot.compare lc (InDot a) (InDot b) = Ok 0 <-> a = b)
  /\ DotMethods.lt lc a (InDot b) = DotMethods.gt lc b (InDot a)
  /\ DotMethods.lte lc a (InDot b) = DotMethods.gte lc b (InDot a)
  /\ (DotMethods.lt lc a (InDot b) = Ok true ->
      DotMethods.lt lc b (InDot c) = Ok true ->
      DotMethods.lt lc a (InDot c) = Ok true)
  /\ (a <> b ->
      DotMethods.lt lc a (InDot b) = Ok true \/ DotMethods.lt lc b (InDot a) = Ok true).
Proof.
  intros Hlc. unfold DotMethods.lt, DotMethods.gt, DotMethods.lte, DotMethods.gte,
    Dot.compare. simpl.
  pose proof (compareDots_sgn lc Hlc a b) as Hs.
  repeat split.
  - intros H. apply (compareDots_zero lc Hlc). congruence.
  - intros ->. by rewrite compareDots_same.
  - f_equal. destruct (Z.ltb_spec (Dot.compareDots lc a b) 0);
      destruct (Z.ltb_spec 0 (Dot.compareDots lc b a)); try done; lia.
  - f_equal. destruct (Z.leb_spec (Dot.compareDots lc a b) 0);
      destruct (Z.leb_spec 0 (Dot.compareDots lc b a)); try done; lia.
  - intros Hab Hbc. f_equal. apply Z.ltb_lt.
    apply (compareDots_trans lc Hlc a b c); apply Z.ltb_lt; congruence.
  - intros Hne.
    destruct (Z.ltb_spec (Dot.compareDots lc a b) 0) as [|Hge]; [by left|].
    right. f_equal. apply Z.ltb_lt.
    assert (Dot.compareDots lc a b <> 0)
      by (intros Hz; by apply (compareDots_zero lc Hlc) in Hz).
    lia.
Qed.

(** X5, witness: by code units, [a:9] is before [a:10] and [a:10]
    before [b:1]. *)
Lemma dot_methods_order_witness :
  DotMethods.lt codeUnitCompare (mkDot "a" 9) (InDot (mkDot "a" 10)) = Ok true
  /\ DotMethods.lt codeUnitCompare (mkDot "a" 9) (InDot (mkDot "b" 1)) = Ok true
  /\ DotMethods.gte codeUnitCompare (mkDot "a" 10) (InDot (mkDot "a" 9)) = Ok true.
Proof.
  destruct (dot_methods_order codeUnitCompare (mkDot "a" 9) (mkDot "a" 10) (mkDot "b" 1)
              codeUnitCompare_strict) as (_ & _ & Hlte & Htrans & _).
  split; [reflexivity|]. split.
  - apply Htrans; reflexivity.
  - rewrite <- Hlte. reflexivity.
Defined.


(** ** The string of a parsed dot *)

(** X6.  Whatever string [Dot.fromString] accepts with a counter that
    is a safe integer, the dot it returns has a replica identifier that
    is not empty and has no [':'], and the static [Dot.toString] gives
    the string of that dot, which reads back as the same dot and is
    left unchanged by [Dot.toString]: the text that [parseInt] skipped
    is dropped. *)
Theorem fromString_normal_form (s : string) (d : Dot) :
  Dot.fromString s = Ok d ->
  safeInteger (counter d) = true ->
  wfId (id d) = true
  /\ Dot.toString (InStr s) = Ok (Dot.toStringDot d)
  /\ Dot.fromString (Dot.toStringDot d) = Ok d
  /\ Dot.toString (InStr (Dot.toStringDot d)) = Ok (Dot.toStringDot d).
Proof.
  intros H _. pose proof (fromString_canonical _ _ H) as Hc.
  split; [by eapply fromString_wfId|].
  split; [by apply toString_InStr|].
  split; [done|]. by apply toString_InStr.
Qed.

(** X6, witness: a counter followed by text. *)
Lemma fromString_normal_form_witness :
  Dot.toString (InStr "n1: 12px") = Ok "n1:12"
  /\ Dot.fromString "n1:12" = Ok (mkDot "n1" 12).
Proof.
  destruct (fromString_normal_form "n1: 12px" (mkDot "n1" 12)) as (_ & Hs & Hd & _).
  - reflexivity.
  - reflexivity.
  - split; [exact Hs|exact Hd].
Defined.


(** ** What [compact] keeps *)

Lemma compactPass_stable cloud cc del flag :
  (forall s, In s cloud -> exists d, Dot.fromString s = Ok d /\ staysBeyond cc d) ->
  DotContext.compactPass cloud cc del flag = Ok (cc, del, flag).
Proof.
  induction cloud as [|s cloud IH]; intros Hst; simpl; [done|].
  destruct (Hst s) as (d & Hd & Hb); [by left|]. rewrite Hd. simpl.
  unfold staysBeyond in Hb.
  destruct (JsMap.get (id d) cc) as [k|].
  - destruct (Z.eqb_spec (counter d) (k + 1)); [lia|].
    destruct (Z.leb_spec (counter d) k); [lia|].
    apply IH. intros; apply Hst; by right.
  - destruct (Z.eqb_spec (counter d) 1); [done|].
    apply IH. intros; apply Hst; by right.
Qed.



(** X8.  A second [compact] changes nothing: a context returned by
    [compact] is returned as it is by the next call. *)
Theorem compact_idempotent (c c' : DotContext) :
  cloudParses c ->
  DotContext.compact c = Ok c' ->
  DotContext.compact c' = Ok c'.
Proof.
  intros Hp Hc.
  destruct (compact_spec c Hp) as (c1 & Hc1 & _ & Hpost).
  assert (c1 = c') as -> by congruence.
  unfold DotContext.compact. simpl.
  rewrite (compactPass_stable (dotCloud c') (compactCausalContext c') [] false Hpost).
  simpl. by destruct c'.
Qed.

(** X8, witness: a cloud with a gap that stays open. *)
Lemma compact_idempotent_witness :
  DotContext.compact (mkContext [("a", 3)] ["b:2"]) = Ok (mkContext [("a", 3)] ["b:2"]).
Proof.
  apply (compact_idempotent (mkContext [] ["a:2"; "b:2"; "a:1"; "a:3"])).
  - intros s [<-|[<-|[<-|[<-|[]]]]]; by eexists.
  - vm_compute. reflexivity.
Defined.


(** ** Successive calls of [makeDot] *)

(** X9.  Two calls of [makeDot] with the same identifier on a context,
    where the counter of the first dot is a safe integer, give two dots
    of that identifier with consecutive counters; both are in the
    context afterwards, no dot that was in the context is lost, and the
    counter made for another identifier is not affected by the
    calls. *)
Theorem makeDot_twice (c : DotContext) (i j : string) :
  safeInteger (cccOrZero c i + 1) = true ->
  let d1 := fst (DotContext.makeDot c i) in
  let c1 := snd (DotContext.makeDot c i) in
  let d2 := fst (DotContext.makeDot c1 i) in
  let c2 := snd (DotContext.makeDot c1 i) in
  id d1 = i /\ id d2 = i
  /\ counter d2 = counter d1 + 1
  /\ DotContext.dotIn c2 (InDot d1) = Ok true
  /\ DotContext.dotIn c2 (InDot d2) = Ok true
  /\ (forall d, DotContext.dotIn c (InDot d) = Ok true ->
                DotContext.dotIn c2 (InDot d) = Ok true)
  /\ (i <> j -> fst (DotContext.makeDot c2 j) = fst (DotContext.makeDot c j)).
Proof.
  intros Hsafe d1 c1 d2 c2. apply Z.ltb_lt in Hsafe.
  assert (forall x d, DotContext.dotIn x (InDot d) = Ok true <-> member x d = true) as Hm.
  { intros x d. rewrite (dotIn_member x (InDot d) d) by done.
    split; [congruence|by intros ->]. }
  assert (Js.plus (cccOrZero c i) 1 = cccOrZero c i + 1) as H1.
  { destruct (Z.eq_dec (cccOrZero c i) (- 2 ^ 53)) as [->|Hne]; [by vm_compute|].
    apply plus_safe. lia. }
  assert (cccOrZero c1 i = cccOrZero c i + 1) as Hc1.
  { subst c1. rewrite makeDot_context, H1. unfold cccOrZero at 1. simpl.
    by rewrite get_set_eq. }
  assert (boundedCounter (cccOrZero c i)) as Hb by (unfold boundedCounter; lia).
  assert (boundedCounter (cccOrZero c1 i)) as Hb1 by (unfold boundedCounter; lia).
  assert (counter d2 = counter d1 + 1) as Hc.
  { subst d1 d2. rewrite !makeDot_dot, Hc1, H1. simpl. apply plus_safe. lia. }
  repeat split; try done.
  - apply Hm. subst c2. by apply makeDot_member, makeDot_new_member.
  - apply Hm. apply makeDot_new_member.
  - intros d H. apply Hm. apply Hm in H. by apply makeDot_member, makeDot_member.
  - intros Hne. subst d1 c1 d2 c2. rewrite !makeDot_dot. f_equal. f_equal.
    rewrite !makeDot_context. unfold cccOrZero. simpl. by rewrite !get_set_ne.
Qed.

(** X9, witness: the third and the fourth dot of replica [a]. *)
Lemma makeDot_twice_witness :
  let c := mkContext [("a", 2)] ["b:4"] in
  let d1 := fst (DotContext.makeDot c "a") in
  let c1 := snd (DotContext.makeDot c "a") in
  let d2 := fst (DotContext.makeDot c1 "a") in
  let c2 := snd (DotContext.makeDot c1 "a") in
  safeInteger (cccOrZero c "a" + 1) = true
  /\ counter d2 = counter d1 + 1
  /\ DotContext.dotIn c2 (InDot d1) = Ok true
  /\ DotContext.dotIn c2 (InDot d2) = Ok true.
Proof.
  intros c d1 c1 d2 c2.
  destruct (makeDot_twice c "a" "b" eq_refl) as (_ & _ & Hc & H1 & H2 & _).
  split; [reflexivity|]. split; [exact Hc|]. split; [exact H1|exact H2].
Defined.


(** ** [insertDot] adds one dot *)

Lemma toStringDot_inj d d' :
  wfId (id d) = true -> Dot.toStringDot d' = Dot.toStringDot d -> d' = d.
Proof.
  intros Hwf E. destruct d as [i n]. pose proof (fromString_toString i n Hwf) as H.
  rewrite <- E in H. by apply fromString_toString_inv in H.
Qed.

(** X10.  [insertDot], with or without compaction, returns for a dot
    whose identifier is well formed and whose counter is a safe integer
    when the cloud holds strings of dots and the counters of the
    context are bounded; afterwards the dot is in the context, no dot
    is lost, and a dot with a positive counter is in the context only
    if it was before or is the inserted one. *)
Theorem insertDot_adds_one (c : DotContext) (input : DotInput) (d : Dot)
    (compactNow : bool) :
  wfCloud c -> boundedContext c ->
  Dot.toDot input = Ok d -> wfId (id d) = true ->
  safeInteger (counter d) = true ->
  exists c',
    DotContext.insertDot c input compactNow = Ok c'
    /\ DotContext.dotIn c' (InDot d) = Ok true
    /\ (forall d', DotContext.dotIn c (InDot d') = Ok true ->
                   DotContext.dotIn c' (InDot d') = Ok true)
    /\ (forall d', 1 <= counter d' ->
                   DotContext.dotIn c' (InDot d') = Ok true ->
                   d' = d \/ DotContext.dotIn c (InDot d') = Ok true).
Proof.
  intros Hwf _ Hd Hid _.
  assert (Dot.fromString (Dot.toStringDot d) = Ok d) as Hcanon
    by (destruct d; by apply fromString_toString).
  destruct (insertDot_total c input d compactNow) as (c' & Hc' & _);
    [by apply wfCloud_parses|done|done|].
  exists c'. split; [done|].
  assert (forall x y, DotContext.dotIn x (InDot y) = Ok true <-> member x y = true) as Hm.
  { intros x y. rewrite (dotIn_member x (InDot y) y) by done.
    split; [congruence|by intros ->]. }
  split; [|split].
  - apply Hm. by eapply insertDot_new_member.
  - intros d' H. apply Hm. apply Hm in H. by eapply insertDot_member.
  - intros d' Hpos H. apply Hm in H. rewrite Hm.
    pose proof Hc' as Hshape. apply insertDot_cloud in Hshape as (d0 & Hd0 & Hshape).
    assert (d0 = d) as -> by congruence.
    set (c1 := mkContext (compactCausalContext c)
                         (JsSet.add (Dot.toStringDot d) (dotCloud c))) in *.
    assert (member c1 d' = true) as H1.
    { destruct compactNow; [|by subst c'].
      eapply compact_member_inv; [|exact Hshape|done|done].
      intros s Hs. simpl in Hs. apply add_In in Hs as [->|Hs]; [|by apply Hwf].
      apply wfKey_spec. by exists d. }
    apply member_inv in H1 as [Hin|(k & Hk & Hle)].
    + simpl in Hin. apply add_In in Hin as [E|Hin].
      * left. by apply toStringDot_inj.
      * right. by apply member_cloud.
    + right. by eapply member_covered.
Qed.

(** X10, witness: the dot [a:2] inserted next to [a:3], with
    compaction. *)
Lemma insertDot_adds_one_witness :
  exists c',
    DotContext.insertDot (mkContext [("a", 1)] ["a:3"]) (InStr "a:2") true = Ok c'
    /\ DotContext.dotIn c' (InDot (mkDot "a" 2)) = Ok true
    /\ DotContext.dotIn c' (InDot (mkDot "a" 3)) = Ok true.
Proof.
  destruct (insertDot_adds_one (mkContext [("a", 1)] ["a:3"]) (InStr "a:2")
              (mkDot "a" 2) true) as (c' & Hc' & Hin & Hkeep & _).
  - intros s [<-|[]]. reflexivity.
  - split.
    + intros i k [[= <- <-]|[]]. by vm_compute.
    + intros s [<-|[]] d Hd. vm_compute in Hd. injection Hd as <-. by vm_compute.
  - reflexivity.
  - reflexivity.
  - reflexivity.
  - exists c'. split; [done|]. split; [done|]. apply Hkeep. reflexivity.
Defined.


(** ** The lattice laws of the context join *)

Lemma keys_set_eq {V : Type} (m : JsMap.t V) k v :
  JsMap.keys (JsMap.set k v m)
  = if JsMap.has k m then JsMap.keys m else (JsMap.keys m ++ [k])%list.
Proof.
  unfold JsMap.has. induction m as [|[k' v'] m IH]; simpl; [done|].
  destruct (String.eqb_spec k' k) as [->|Hne]; simpl; [done|].
  rewrite IH. by destruct (JsMap.get k m).
Qed.

Lemma set_NoDup {V : Type} (m : JsMap.t V) k v :
  NoDup (JsMap.keys m) -> NoDup (JsMap.keys (JsMap.set k v m)).
Proof.
  intros Hnd. rewrite keys_set_eq. destruct (JsMap.has k m) eqn:E; [done|].
  apply NoDup_app. split; [done|]. split; [|apply NoDup_singleton].
  intros x Hx Hk. apply list_elem_of_singleton in Hk as ->.
  apply list_elem_of_In, has_keys in Hx. congruence.
Qed.

Lemma joinCompact_NoDup entries cc :
  NoDup (JsMap.keys cc) -> NoDup (JsMap.keys (DotContext.joinCompact entries cc)).
Proof.
  revert cc. induction entries as [|[i v] rest IH]; intros cc Hnd; simpl; [done|].
  apply IH. by apply set_NoDup.
Qed.

Lemma compactPass_NoDup cloud cc del flag cc' del' flag' :
  DotContext.compactPass cloud cc del flag = Ok (cc', del', flag') ->
  NoDup (JsMap.keys cc) -> NoDup (JsMap.keys cc').
Proof.
  revert cc del flag. induction cloud as [|s cloud IH]; intros cc del flag H Hnd;
    simpl in H.
  - by inversion H; subst.
  - bind_inv H as d Hd.
    destruct (JsMap.get (id d) cc) as [k|].
    + destruct (counter d =? k + 1); [eapply IH; [exact H|by apply set_NoDup]|].
      destruct (counter d <=? k); by eapply IH.
    + destruct (counter d =? 1); [eapply IH; [exact H|by apply set_NoDup]|].
      by eapply IH.
Qed.

Lemma compactLoop_wf fuel c c' :
  DotContext.compactLoop fuel c = Ok c' -> wfContext c -> wfContext c'.
Proof.
  revert c. induction fuel as [|fuel IH]; intros c H [Hnd Hwf]; [done|].
  simpl in H. bind_inv H as [[cc del] flag] Hpass.
  assert (wfContext (mkContext cc (DotContext.deleteAll del (dotCloud c)))) as Hnext.
  { split; simpl.
    - by eapply compactPass_NoDup.
    - intros s Hs. simpl in Hs. apply deleteAll_In in Hs as [Hs _]. by apply Hwf. }
  destruct flag; [by eapply IH|]. by inversion H; subst.
Qed.

Lemma joinCloud_wf dots c c' :
  DotContext.joinCloud dots c = Ok c' -> wfContext c -> wfContext c'.
Proof.
  intros H [Hnd Hwf]. split.
  - by rewrite (joinCloud_map _ _ _ H).
  - intros s Hs. destruct (joinCloud_cloud _ _ _ _ H Hs) as [Hin|(s0 & d0 & _ & Hd0 & ->)].
    + by apply Hwf.
    + apply wfKey_spec. exists d0. split; [|done]. by eapply fromString_canonical.
Qed.

Lemma contextJoin_wf c o c' :
  wfContext c -> DotContext.join c o = Ok c' -> wfContext c'.
Proof.
  intros [Hnd Hwf] H. unfold DotContext.join in H. bind_inv H as c1 Hc1.
  eapply compactLoop_wf; [exact H|]. eapply joinCloud_wf; [exact Hc1|].
  split; simpl; [by apply joinCompact_NoDup|done].
Qed.




(** ** [rmv] and its delta *)

Lemma get_deleteKeys l (st : JsMap.t Value) key :
  JsMap.get key (DotKernel.deleteKeys l st)
  = if JsSet.has key l then None else JsMap.get key st.
Proof.
  unfold DotKernel.deleteKeys. revert st.
  induction l as [|k l IH]; intros st; simpl; [done|].
  rewrite IH, get_delete. destruct (String.eqb k key); [|done].
  by destruct (JsSet.has key l).
Qed.

Lemma matching_keys sel (st : JsMap.t Value) key :
  In key (DotKernel.matching sel st) -> In key (JsMap.keys st).
Proof.
  unfold DotKernel.matching. intros H. apply in_map_iff in H as ([k v] & <- & Hin).
  apply list_elem_of_In, list_elem_of_filter in Hin as [_ Hin%list_elem_of_In].
  apply in_map_iff. by exists (k, v).
Qed.

Lemma removedKeys_keys sel st key :
  In key (removedKeys sel st) -> In key (JsMap.keys st).
Proof.
  assert (In key (if isDotLikeObject sel
                  then if JsMap.has (dotLikeToString sel) st
                       then [dotLikeToString sel] else []
                  else DotKernel.matching sel st) -> In key (JsMap.keys st)) as H.
  { destruct (isDotLikeObject sel); [|apply matching_keys].
    destruct (JsMap.has (dotLikeToString sel) st) eqn:E; [|done].
    intros [<-|[]]. by apply has_keys. }
  destruct sel; try done; exact H.
Qed.

Lemma insertDots_joinCloud dots c : DotKernel.insertDots dots c = DotContext.joinCloud dots c.
Proof.
  revert c. induction dots as [|s dots IH]; intros c; simpl; [done|].
  destruct (DotContext.insertDot c (InStr s) false); simpl; [apply IH|done..].
Qed.


Ltac by_value :=
  match goal with
  | H1 : DotKernel.insertDots (removedKeys ?sel _) _ = Ok _,
    H2 : DotContext.compact _ = Ok _,
    Hset : forall st cs, Heap.setStorage _ st _ = Ok _ |- _ =>
      change (isDotLikeObject sel) with false; cbv iota;
      change (removedKeys sel ?st) with (DotKernel.matching sel st) in H1 |- *;
      rewrite H1; cbn [bindO]; rewrite Hset; cbn [bindO]; rewrite H2; cbn [bindO];
      eexists _, _; split; [reflexivity|]; cbn [contexts kernels];
      rewrite !insert_snoc; repeat (split; [done|]);
      intros key; apply get_deleteKeys
  end.

(** [rmv] returns when the keys of the storage read as dots: the heap
    afterwards and the context of the delta. *)
Lemma rmv_facts h k kt sel :
  kernels h !! k = Some kt ->
  (forall key, In key (JsMap.keys (dataStorage kt)) -> exists d, Dot.fromString key = Ok d) ->
  exists rctx1 rctx st' h',
    DotKernel.rmv k sel h = Ok (length (kernels h), h')
    /\ DotKernel.insertDots (removedKeys sel (dataStorage kt)) DotContext.empty = Ok rctx1
    /\ DotContext.compact rctx1 = Ok rctx
    /\ contexts h' = (contexts h ++ [rctx])%list
    /\ kernels h'
       = (<[k := mkKernel st' (contextBase kt) (sharedContext kt)]> (kernels h)
          ++ [mkKernel [] (length (contexts h)) (length (contexts h))])%list
    /\ forall key,
         JsMap.get key st'
         = if JsSet.has key (removedKeys sel (dataStorage kt)) then None
           else JsMap.get key (dataStorage kt).
Proof.
  intros Hkt Hp.
  assert (Hlt : (k < length (kernels h))%nat) by (by eapply lookup_lt_Some).
  destruct (insertDots_total (removedKeys sel (dataStorage kt)) DotContext.empty)
    as (rctx1 & H1 & P1);
    [apply cloudParses_empty|intros s Hs; by apply Hp, (removedKeys_keys sel)|].
  destruct (compact_total rctx1 P1) as (rctx & H2 & _).
  exists rctx1, rctx.
  assert (Hset : forall st (cs : list DotContext),
    Heap.setStorage k st (mkHeap cs
       (kernels h ++ [mkKernel [] (length (contexts h)) (length (contexts h))])%list)
    = Ok (mkHeap cs
       (<[k := mkKernel st (contextBase kt) (sharedContext kt)]> (kernels h)
        ++ [mkKernel [] (length (contexts h)) (length (contexts h))])%list)).
  { intros st cs. rewrite setStorage_Ok with (k := kt)
      by (cbn [kernels]; by rewrite lookup_app_l).
    cbn [kernels contexts]. by rewrite insert_app_l. }
  unfold DotKernel.rmv. rewrite new_eq.
  unfold Heap.getKernel, Heap.getContext, Heap.setContext.
  cbn [kernels contexts].
  rewrite (lookup_app_l (kernels h)) by done. rewrite Hkt. cbn [bindO].
  rewrite list_lookup_middle by done. cbn [bindO sharedContext].
  rewrite list_lookup_middle by done. cbn [bindO].
  assert (Hnull : forall key,
            @None Value
            = if JsSet.has key (JsMap.keys (dataStorage kt)) then None
              else JsMap.get key (dataStorage kt)).
  { intros key. rewrite has_keys_get. by destruct (JsMap.get key (dataStorage kt)). }
  destruct sel as [| | | | |props|c0].
  - simpl in H1. rewrite H1. cbn [bindO]. rewrite H2. cbn [bindO].
    rewrite Hset. cbn [bindO].
    eexists [], _. split; [reflexivity|]. cbn [contexts kernels]. rewrite insert_snoc.
    repeat (split; [done|]). intros key. apply Hnull.
  - simpl in H1. rewrite H1. cbn [bindO]. rewrite H2. cbn [bindO].
    rewrite Hset. cbn [bindO].
    eexists [], _. split; [reflexivity|]. cbn [contexts kernels]. rewrite insert_snoc.
    repeat (split; [done|]). intros key. apply Hnull.
  - by_value.
  - by_value.
  - by_value.
  - destruct (isDotLikeObject (VObj props)) eqn:Edl.
    + unfold removedKeys in *. rewrite Edl in *.
      destruct (JsMap.has (dotLikeToString (VObj props)) (dataStorage kt)) eqn:Ehas.
      * pose proof H1 as H1c. simpl in H1. bind_inv H1 as rA HA. inversion H1; subst rA.
        rewrite HA. cbn [bindO]. rewrite Hset. cbn [bindO]. rewrite H2. cbn [bindO].
        eexists _, _. split; [reflexivity|]. cbn [contexts kernels]. rewrite !insert_snoc.
        split; [exact H1c|]. repeat (split; [done|]). intros key. simpl. rewrite get_delete.
        by destruct (String.eqb (dotLikeToString (VObj props)) key).
      * pose proof H1 as H1c. simpl in H1. inversion H1; subst rctx1.
        rewrite H2. cbn [bindO].
        exists (dataStorage kt). eexists. split; [reflexivity|].
        cbn [contexts kernels]. rewrite !insert_snoc.
        split; [exact H1c|]. do 2 (split; [done|]). split; [|done].
        f_equal. symmetry. destruct kt. by apply list_insert_id.
    + unfold removedKeys in H1 |- *. rewrite Edl in H1 |- *.
      rewrite H1. cbn [bindO]. rewrite Hset. cbn [bindO]. rewrite H2. cbn [bindO].
      eexists _, _. split; [reflexivity|]. cbn [contexts kernels]. rewrite !insert_snoc.
      repeat (split; [done|]). intros key. apply get_deleteKeys.
  - by_value.
Qed.


(** ** C4: counters stay bounded, and the invariant along a run *)

Lemma boundedKey_toString d : boundedCounter (counter d) -> boundedKey (Dot.toStringDot d).
Proof. intros Hb d' Hd'. by apply fromString_toString_inv in Hd' as ->. Qed.

Lemma boundedContext_empty : boundedContext DotContext.empty.
Proof. split; [by intros i k []|by intros s []]. Qed.

Lemma set_In {V : Type} (cc : JsMap.t V) i k j n :
  In (j, n) (JsMap.set i k cc) -> (j, n) = (i, k) \/ In (j, n) cc.
Proof.
  induction cc as [|[i0 k0] cc IH]; simpl.
  - intros [H|[]]. by left.
  - destruct (String.eqb i0 i); simpl.
    + intros [H|H]; [by left|right; by right].
    + intros [H|H]; [right; by left|]. destruct (IH H); [by left|right; by right].
Qed.

Lemma bounded_set (cc : JsMap.t Z) i k :
  boundedCounter k ->
  (forall j n, In (j, n) cc -> boundedCounter n) ->
  forall j n, In (j, n) (JsMap.set i k cc) -> boundedCounter n.
Proof.
  intros Hk Hcc j n [[= -> ->]|H]%set_In; [done|by eapply Hcc].
Qed.

Lemma makeDot_bounded c i :
  boundedContext c ->
  boundedContext (snd (DotContext.makeDot c i))
  /\ boundedCounter (counter (fst (DotContext.makeDot c i))).
Proof.
  intros Hc. pose proof (boundedContext_ccc c i Hc) as Hb.
  rewrite makeDot_context, makeDot_dot. destruct Hc as [Hcc Hcloud].
  assert (boundedCounter (Js.plus (cccOrZero c i) 1)) as Hnew by (by apply plus_small).
  split; [|done]. split; [|done]. by apply bounded_set.
Qed.

Lemma compactPass_bounded cloud :
  forall cc del flag cc' del' flag',
    DotContext.compactPass cloud cc del flag = Ok (cc', del', flag') ->
    (forall s, In s cloud -> boundedKey s) ->
    (forall j n, In (j, n) cc -> boundedCounter n) ->
    forall j n, In (j, n) cc' -> boundedCounter n.
Proof.
  induction cloud as [|s cloud IH]; intros cc del flag cc' del' flag' H Hcloud Hcc.
  - simpl in H. by injection H as <- _ _.
  - simpl in H. bind_inv H as d Hd.
    assert (boundedCounter (counter d)) as Hbd by (apply (Hcloud s); [by left|done]).
    assert (forall s0, In s0 cloud -> boundedKey s0) as Hrest
      by (intros s0 Hs0; apply Hcloud; by right).
    destruct (JsMap.get (id d) cc) as [k|] eqn:Hget.
    + destruct (Z.eqb_spec (counter d) (k + 1)) as [E|_].
      * eapply IH; [exact H|done|]. apply bounded_set; [by rewrite <- E|done].
      * destruct (counter d <=? k); eapply IH; try exact H; done.
    + destruct (counter d =? 1); [|eapply IH; try exact H; done].
      eapply IH; [exact H|done|]. by apply bounded_set.
Qed.

Lemma compactLoop_bounded fuel :
  forall c c', DotContext.compactLoop fuel c = Ok c' ->
    boundedContext c -> boundedContext c'.
Proof.
  induction fuel as [|fuel IH]; intros c c' H [Hcc Hcloud]; [done|].
  simpl in H. bind_inv H as [[cc del] flag] Hpass.
  assert (boundedContext (mkContext cc (DotContext.deleteAll del (dotCloud c)))) as Hnext.
  { split; simpl.
    - by eapply compactPass_bounded.
    - intros s [Hs _]%deleteAll_In. by apply Hcloud. }
  destruct flag; [by eapply IH|]. by injection H as <-.
Qed.

Lemma compact_bounded c c' :
  DotContext.compact c = Ok c' -> boundedContext c -> boundedContext c'.
Proof. apply compactLoop_bounded. Qed.

Lemma insertDot_bounded c input compactNow c' :
  DotContext.insertDot c input compactNow = Ok c' ->
  boundedContext c ->
  (forall d, Dot.toDot input = Ok d -> boundedCounter (counter d)) ->
  boundedContext c'.
Proof.
  intros H [Hcc Hcloud] Hin. apply insertDot_cloud in H as (d & Hd & H).
  assert (boundedContext (mkContext (compactCausalContext c)
                            (JsSet.add (Dot.toStringDot d) (dotCloud c)))) as Hb.
  { split; [done|]. intros s [->|Hs]%add_In; [|by apply Hcloud].
    by apply boundedKey_toString, Hin. }
  destruct compactNow; [by eapply compact_bounded|by subst c'].
Qed.

Lemma joinCloud_bounded dots :
  forall c c', DotContext.joinCloud dots c = Ok c' ->
    boundedContext c -> (forall s, In s dots -> boundedKey s) -> boundedContext c'.
Proof.
  induction dots as [|s dots IH]; intros c c' H Hc Hdots; simpl in H.
  - by injection H as <-.
  - bind_inv H as c1 Hc1. eapply IH; [exact H| |intros; apply Hdots; by right].
    eapply insertDot_bounded; [exact Hc1|done|]. intros d Hd. apply (Hdots s); [by left|done].
Qed.

Lemma joinCompact_bounded entries :
  forall cc,
    (forall i k, In (i, k) entries -> boundedCounter k) ->
    (forall j n, In (j, n) cc -> boundedCounter n) ->
    forall j n, In (j, n) (DotContext.joinCompact entries cc) -> boundedCounter n.
Proof.
  induction entries as [|[i k] entries IH]; intros cc Hentries Hcc; simpl; [done|].
  apply IH; [intros; eapply Hentries; by right|].
  assert (boundedCounter k) as Hk by (eapply Hentries; by left).
  apply bounded_set; [|done].
  destruct (JsMap.get i cc) as [c0|] eqn:E; [|done].
  pose proof (Hcc i c0 (get_Some_In _ _ _ E)) as Hc0. unfold boundedCounter in *. lia.
Qed.

Lemma contextJoin_bounded c o c' :
  DotContext.join c o = Ok c' -> boundedContext c -> boundedContext o ->
  boundedContext c'.
Proof.
  intros H [Hcc Hcloud] [Hocc Hocloud]. unfold DotContext.join in H.
  bind_inv H as c1 Hc1. eapply compact_bounded; [exact H|].
  eapply joinCloud_bounded; [exact Hc1| |done].
  split; simpl; [|done]. by apply joinCompact_bounded.
Qed.

Lemma boundedHeap_shape h h' oc ok extraC extraK :
  boundedHeap h ->
  contexts h' = (optInsert oc (contexts h) ++ extraC)%list ->
  kernels h' = (optInsert ok (kernels h) ++ extraK)%list ->
  (forall s c', oc = Some (s, c') -> boundedContext c') ->
  (forall c, In c extraC -> boundedContext c) ->
  (forall k kt', ok = Some (k, kt') ->
     forall key, In key (JsMap.keys (dataStorage kt')) -> boundedKey key) ->
  (forall knew, In knew extraK ->
     forall key, In key (JsMap.keys (dataStorage knew)) -> boundedKey key) ->
  boundedHeap h'.
Proof.
  intros [Hbc Hbk] Hc Hk Hoc HextraC Hok HextraK. split.
  - intros r c. rewrite Hc. intros [Hr|[_ Hr]]%lookup_app_Some.
    + apply optInsert_lookup in Hr as [(x & -> & Hx)|Hr]; [by eapply Hoc|by eapply Hbc].
    + apply HextraC, list_elem_of_In. by eapply list_elem_of_lookup_2.
  - intros r k key. rewrite Hk. intros [Hr|[_ Hr]]%lookup_app_Some.
    + apply optInsert_lookup in Hr as [(x & -> & Hx)|Hr]; [by eapply Hok|by eapply Hbk].
    + apply HextraK, list_elem_of_In. by eapply list_elem_of_lookup_2.
Qed.

Lemma boundedHeap_add h k kt ctx i v res h' :
  boundedHeap h ->
  kernels h !! k = Some kt -> contexts h !! sharedContext kt = Some ctx ->
  DotKernel.add k i v h = Ok (res, h') -> boundedHeap h'.
Proof.
  intros Hb Hkt Hctx H.
  destruct (add_shape _ _ _ _ _ _ _ _ Hkt Hctx H) as (rctx' & Hr & -> & Hc & Hk).
  destruct (makeDot_bounded ctx i) as [Hctx' Hdot]; [by eapply Hb|].
  eapply (boundedHeap_shape h h' (Some (_, _)) (Some (_, _))); [done|exact Hc|exact Hk|..].
  - by intros s c' [= <- <-].
  - intros c [<-|[]]. eapply insertDot_bounded; [exact Hr|apply boundedContext_empty|].
    by intros d [= <-].
  - intros k0 kt' [= <- <-] key. cbn [dataStorage].
    intros [->|Hin]%keys_set; [by apply boundedKey_toString|]. by eapply Hb.
  - intros knew [<-|[]] key [<-|[]]. by apply boundedKey_toString.
Qed.

Lemma boundedHeap_dotAdd h k kt ctx i v dot h' :
  boundedHeap h ->
  kernels h !! k = Some kt -> contexts h !! sharedContext kt = Some ctx ->
  DotKernel.dotAdd k i v h = Ok (dot, h') -> boundedHeap h'.
Proof.
  intros Hb Hkt Hctx H.
  destruct (dotAdd_shape _ _ _ _ _ _ _ _ Hkt Hctx H) as (-> & Hc & Hk).
  destruct (makeDot_bounded ctx i) as [Hctx' Hdot]; [by eapply Hb|].
  eapply (boundedHeap_shape h h' (Some (_, _)) (Some (_, _)) [] []);
    [done|by rewrite app_nil_r|by rewrite app_nil_r|..].
  - by intros s c' [= <- <-].
  - by intros c [].
  - intros k0 kt' [= <- <-] key. cbn [dataStorage].
    intros [->|Hin]%keys_set; [by apply boundedKey_toString|]. by eapply Hb.
  - by intros knew [].
Qed.

Lemma boundedHeap_rmv h k kt sel res h' :
  heapInv h -> boundedHeap h ->
  kernels h !! k = Some kt ->
  DotKernel.rmv k sel h = Ok (res, h') -> boundedHeap h'.
Proof.
  intros [_ Ha] Hb Hkt H.
  assert (forall key, In key (JsMap.keys (dataStorage kt)) ->
            exists d, Dot.fromString key = Ok d) as Hparse.
  { intros key Hin. destruct (Ha k kt key Hkt Hin) as (c & _ & Hd).
    apply dotIn_Ok_inv in Hd as (d & Hd & _). eauto. }
  destruct (rmv_facts h k kt sel Hkt Hparse)
    as (rctx1 & rctx & st' & h0 & Hrmv & Hins & Hcomp & Hc & Hk & Hget).
  assert (h0 = h') as -> by congruence.
  eapply (boundedHeap_shape h h' None (Some (_, _))); [done|exact Hc|exact Hk|done|..].
  - intros c [<-|[]]. eapply compact_bounded; [exact Hcomp|].
    rewrite insertDots_joinCloud in Hins.
    eapply joinCloud_bounded; [exact Hins|apply boundedContext_empty|].
    intros s Hs%removedKeys_keys. by eapply Hb.
  - intros k0 kt' [= <- <-] key Hin. cbn [dataStorage] in Hin.
    apply keys_get_Some in Hin as (v & Hv). rewrite Hget in Hv.
    destruct (JsSet.has key (removedKeys sel (dataStorage kt))); [done|].
    eapply Hb; [exact Hkt|]. by eapply get_Some_keys.
  - by intros knew [<-|[]] key [].
Qed.

Lemma boundedHeap_joined h h' this other kt ko ct co st :
  boundedHeap h ->
  kernels h !! this = Some kt -> kernels h !! other = Some ko ->
  contexts h !! sharedContext kt = Some ct ->
  contexts h !! sharedContext ko = Some co ->
  (forall key, In key (JsMap.keys st) ->
     In key (JsMap.keys (dataStorage kt)) \/ In key (JsMap.keys (dataStorage ko))) ->
  kernels h' = <[this := mkKernel st (contextBase kt) (sharedContext kt)]> (kernels h) ->
  ((sharedContext kt = sharedContext ko /\ contexts h' = contexts h)
   \/ (sharedContext kt <> sharedContext ko
       /\ exists c', DotContext.join ct co = Ok c'
            /\ contexts h' = <[sharedContext kt := c']> (contexts h))) ->
  boundedHeap h'.
Proof.
  intros Hb Hkt Hko Hct Hco Hkeys Hk Hc.
  assert (forall k0 kt', Some (this, mkKernel st (contextBase kt) (sharedContext kt))
                         = Some (k0, kt') ->
            forall key, In key (JsMap.keys (dataStorage kt')) -> boundedKey key) as Hst.
  { intros k0 kt' [= <- <-] key Hin. cbn [dataStorage] in Hin.
    destruct (Hkeys key Hin);
      [exact (proj2 Hb this kt key Hkt H)|exact (proj2 Hb other ko key Hko H)]. }
  destruct Hc as [[Hsh Hc]|(Hsh & c' & Hj & Hc)].
  - eapply (boundedHeap_shape h h' None (Some (_, _)) [] []);
      [done|by rewrite app_nil_r|by rewrite app_nil_r|done|by intros ? []|exact Hst
      |by intros ? []].
  - eapply (boundedHeap_shape h h' (Some (_, _)) (Some (_, _)) [] []);
      [done|by rewrite app_nil_r|by rewrite app_nil_r| |by intros ? []|exact Hst
      |by intros ? []].
    intros s c0 [= <- <-].
    exact (contextJoin_bounded ct co c' Hj (proj1 Hb _ _ Hct) (proj1 Hb _ _ Hco)).
Qed.

Lemma boundedHeap_join lc this other h h' :
  boundedHeap h -> DotKernel.join lc this other h = Ok h' -> boundedHeap h'.
Proof.
  intros Hb H. destruct (decide (this = other)) as [->|Hne].
  { unfold DotKernel.join in H. rewrite Nat.eqb_refl in H. by injection H as <-. }
  destruct (join_shape _ _ _ _ _ Hne H)
    as (kt & ko & thisDots & otherDots & ct & co & st
        & Hkt & Hko & Hts & Hos & Hct & Hco & Hloop & Hk & Hc).
  apply (boundedHeap_joined h h' this other kt ko ct co st Hb Hkt Hko Hct Hco);
    [|done|done].
  intros key Hin.
  destruct (joinLoop_keys _ _ _ _ _ _ _ _ _ Hloop Hin) as [?|Hin']; [by left|right].
  by apply (sortKeys_In _ _ _ _ Hos).
Qed.

Lemma boundedHeap_deepJoin lc jm this other h h' :
  boundedHeap h -> DotKernel.deepJoin lc jm this other h = Ok h' -> boundedHeap h'.
Proof.
  intros Hb H. destruct (decide (this = other)) as [->|Hne].
  { unfold DotKernel.deepJoin in H. rewrite Nat.eqb_refl in H. by injection H as <-. }
  destruct (deepJoin_shape _ _ _ _ _ _ Hne H)
    as (kt & ko & thisDots & otherDots & ct & co & st
        & Hkt & Hko & Hts & Hos & Hct & Hco & Hloop & Hk & Hc).
  apply (boundedHeap_joined h h' this other kt ko ct co st Hb Hkt Hko Hct Hco);
    [|done|done].
  intros key Hin.
  destruct (deepJoinLoop_keys _ _ _ _ _ _ _ _ _ Hloop Hin) as [?|[Hin'|Hin']].
  - by left.
  - right. by apply (sortKeys_In _ _ _ _ Hos).
  - left. by apply (sortKeys_In _ _ _ _ Hts).
Qed.

Lemma boundedHeap_clone h k res h' :
  boundedHeap h -> DotKernel.clone k h = Ok (res, h') -> boundedHeap h'.
Proof.
  intros Hb H.
  destruct (clone_shape _ _ _ _ H) as (kt & base & Hkt & Hbase & -> & Hc & Hk).
  rewrite clone_eq in Hc.
  eapply (boundedHeap_shape h h' None None); [done|exact Hc|exact Hk|done|..|done|].
  - intros c [<-|[]]. by eapply Hb.
  - intros knew [<-|[]] key Hin. cbn [dataStorage] in Hin. by eapply Hb.
Qed.

Lemma boundedHeap_new h shared : boundedHeap h -> boundedHeap (snd (DotKernel.new shared h)).
Proof.
  intros Hb. rewrite new_eq. cbn [snd].
  eapply (boundedHeap_shape h _ None None); [done|done|done|done|..|done|].
  - intros c [<-|[]]. apply boundedContext_empty.
  - by intros knew [<-|[]] key [].
Qed.

Lemma boundedHeap_initial : boundedHeap World.initial.
Proof.
  apply (boundedHeap_new Heap.empty None).
  split; [intros r c H|intros r k key H]; cbn in H; by rewrite lookup_nil in H.
Qed.

Lemma heapInv_step lc jm op h h' :
  wfOp op -> heapInv h -> boundedHeap h -> World.step lc jm op h = Ok h' ->
  heapInv h' /\ boundedHeap h'.
Proof.
  intros Hop Hinv Hb H.
  destruct op as [|shared|k i v|k i v|k sel|k o|k o|k]; unfold World.step in H.
  - injection H as <-. split.
    + eapply (heapInv_shape h _ None None [DotContext.empty] []);
        [done|done|by rewrite app_nil_r|done|done|by intros ? []].
    + eapply (boundedHeap_shape h _ None None [DotContext.empty] []);
        [done|done|by rewrite app_nil_r|done| |done|by intros ? []].
      intros c [<-|[]]. apply boundedContext_empty.
  - destruct shared as [c|].
    + bind_inv H as c0 Hc0. injection H as <-.
      split; [|exact (boundedHeap_new h (Some c) Hb)].
      apply (heapInv_new h (Some c)); [done|].
      intros s [= <-]. apply getContext_Ok in Hc0. by eapply lookup_lt_Some.
    + injection H as <-.
      split; [by apply (heapInv_new h None)|exact (boundedHeap_new h None Hb)].
  - bind_inv H as kt Hkt. bind_inv H as [res h1] Hadd. injection H as <-.
    apply getKernel_Ok in Hkt. split.
    + eapply heapInv_add; eauto. by eapply lookup_lt_Some.
    + destruct (proj1 Hinv k kt Hkt) as [Hs _].
      destruct (lookup_lt_is_Some_2 _ _ Hs) as [ctx Hctx].
      by eapply boundedHeap_add.
  - bind_inv H as [dot h1] Hadd. injection H as <-. split; [by eapply heapInv_dotAdd|].
    pose proof Hadd as Hadd'. unfold DotKernel.dotAdd in Hadd'.
    bind_inv Hadd' as kt Hkt. apply getKernel_Ok in Hkt.
    bind_inv Hadd' as ctx Hctx. apply getContext_Ok in Hctx.
    by eapply boundedHeap_dotAdd.
  - bind_inv H as kt Hkt. bind_inv H as [res h1] Hrmv. injection H as <-.
    apply getKernel_Ok in Hkt. split.
    + eapply heapInv_rmv; eauto. by eapply lookup_lt_Some.
    + by eapply boundedHeap_rmv.
  - split; [by eapply heapInv_join|by eapply boundedHeap_join].
  - split; [by eapply heapInv_deepJoin|by eapply boundedHeap_deepJoin].
  - bind_inv H as [res h1] Hc. injection H as <-.
    split; [by eapply heapInv_clone|by eapply boundedHeap_clone].
Qed.

Lemma heapInv_run lc jm ops h h' :
  Forall wfOp ops -> heapInv h -> boundedHeap h -> World.run lc jm ops h = Ok h' ->
  heapInv h' /\ boundedHeap h'.
Proof.
  intros Hops. revert h.
  induction Hops as [|op ops Hop Hops IH]; intros h Hinv Hb; simpl.
  - by intros [= <-].
  - intros H. bind_inv H as h1 Hstep.
    destruct (heapInv_step lc jm op h h1 Hop Hinv Hb Hstep) as [Hinv1 Hb1].
    by eapply IH.
Qed.

(** C4. From a heap that holds one empty kernel, after every sequence of
    public operations with well-formed replica identifiers that returns,
    every key of the storage of every kernel is a member of the context
    that the kernel names: [sharedContext.dotIn(key)] returns [true]. *)
Theorem anchoring_invariant (lc : string -> string -> Z)
    (jm : Value -> option (Value -> Outcome Value)) (ops : list Op) (h : Heap) :
  Forall wfOp ops ->
  World.run lc jm ops World.initial = Ok h ->
  forall r k key,
    kernels h !! r = Some k -> In key (JsMap.keys (dataStorage k)) ->
    exists c, contexts h !! sharedContext k = Some c
      /\ DotContext.dotIn c (InStr key) = Ok true.
Proof.
  intros Hops Hrun.
  destruct (heapInv_run lc jm ops _ _ Hops heapInv_initial boundedHeap_initial Hrun)
    as [[_ Ha] _].
  exact Ha.
Qed.

(** C4, witness: the run [sampleOps] returns, and its final heap is
    anchored. *)
Lemma anchoring_invariant_witness :
  exists h,
    World.run codeUnitCompare DeltaHelpers.repoJoinMethod sampleOps World.initial = Ok h
    /\ forall r k key,
         kernels h !! r = Some k -> In key (JsMap.keys (dataStorage k)) ->
         exists c, contexts h !! sharedContext k = Some c
           /\ DotContext.dotIn c (InStr key) = Ok true.
Proof.
  eexists. split; [vm_compute; reflexivity|].
  apply (anchoring_invariant codeUnitCompare DeltaHelpers.repoJoinMethod sampleOps).
  - repeat constructor.
  - vm_compute. reflexivity.
Defined.


Lemma knows_parsed c key d :
  Dot.fromString key = Ok d ->
  DotContext.dotIn c (InStr key) = Ok (member c d) /\ knows c key = member c d.
Proof.
  intros Hd. unfold knows. by rewrite (dotIn_member c (InStr key) d).
Qed.

(** The dots of the context of a delta of [rmv]: the dots of the keys
    that were removed. *)
Lemma delta_members removed rctx1 rctx d :
  (forall s, In s removed -> exists d0, Dot.fromString s = Ok d0) ->
  DotKernel.insertDots removed DotContext.empty = Ok rctx1 ->
  DotContext.compact rctx1 = Ok rctx ->
  ((exists r, In r removed /\ Dot.fromString r = Ok d) -> member rctx d = true)
  /\ (1 <= counter d -> member rctx d = true ->
      exists r, In r removed /\ Dot.fromString r = Ok d).
Proof.
  intros Hp H1 H2. rewrite insertDots_joinCloud in H1. split.
  - intros (r & Hr & Hd). eapply compact_mono; [exact H2|].
    by eapply joinCloud_new_member.
  - intros Hpos Hm.
    assert (wfContext rctx1) as [_ Hwf].
    { eapply joinCloud_wf; [exact H1|]. split; [constructor|by intros s []]. }
    eapply compact_member_inv in Hm; [|done|exact H2|done].
    apply member_inv in Hm as [Hin|(k & Hk & _)].
    + destruct (joinCloud_cloud _ _ _ _ H1 Hin) as [[]|(s0 & d0 & Hs0 & Hd0 & E)].
      exists s0. split; [done|].
      assert (d = d0) as -> by (apply toStringDot_inj; [by eapply fromString_wfId|done]).
      done.
    + by rewrite (joinCloud_map _ _ _ H1) in Hk.
Qed.

(** The loop of [join] against an empty storage: a key of [this] goes
    when the other context knows it. *)
Lemma joinLoop_nil_other lc thisCtx otherCtx otherStorage ts :
  forall st,
    (forall x, In x ts -> exists d, Dot.fromString x = Ok d) ->
    exists st',
      DotKernel.joinLoop lc thisCtx otherCtx otherStorage ts [] st = Ok st'
      /\ forall key,
           JsMap.get key st'
           = if JsSet.has key ts && knows otherCtx key then None else JsMap.get key st.
Proof.
  induction ts as [|x ts IH]; intros st Hp.
  - exists st. split; [done|]. by intros key.
  - rewrite joinLoop_cons_nil.
    destruct (Hp x) as (d & Hd); [by left|].
    destruct (knows_parsed otherCtx x d Hd) as [Hin Hk]. rewrite Hin. simpl.
    destruct (IH (if member otherCtx d then JsMap.delete x st else st))
      as (st' & Hst' & Hget); [intros; apply Hp; by right|].
    exists st'. split; [done|]. intros key. rewrite Hget. simpl.
    destruct (String.eqb_spec x key) as [->|Hne].
    + rewrite Hk. simpl. destruct (member otherCtx d).
      * rewrite get_delete_eq. by destruct (JsSet.has key ts).
      * by rewrite andb_false_r.
    + assert (JsMap.get key (if member otherCtx d then JsMap.delete x st else st)
              = JsMap.get key st) as ->; [|done].
      destruct (member otherCtx d); [by apply get_delete_ne|done].
Qed.


(** X12.  The delta of [rmv], in any of its three modes, carries the
    removal: when the keys of the two storages read as dots, [a.rmv(sel)]
    returns a delta [res] and [b.join(res)] returns; a key of [b] whose
    dot is the dot of a key that [rmv] took out of [a] is gone from
    [b], and every key of [b] with another dot (of positive counter)
    is as before.  [b] may be [a] itself. *)
Theorem rmv_delta_removes (lc : string -> string -> Z) (h : Heap) (a b : nat)
    (ka kb : DotKernel) (cb : DotContext) (sel : Value) :
  kernels h !! a = Some ka -> kernels h !! b = Some kb ->
  contexts h !! sharedContext kb = Some cb ->
  (forall key, In key (JsMap.keys (dataStorage ka)) -> exists d, Dot.fromString key = Ok d) ->
  (forall key, In key (JsMap.keys (dataStorage kb)) -> exists d, Dot.fromString key = Ok d) ->
  cloudParses cb ->
  exists res h1 h2 ka1 kb1 kb2,
    DotKernel.rmv a sel h = Ok (res, h1)
    /\ DotKernel.join lc b res h1 = Ok h2
    /\ kernels h1 !! a = Some ka1 /\ kernels h1 !! b = Some kb1
    /\ kernels h2 !! b = Some kb2
    /\ (forall key,
          JsMap.get key (dataStorage ka1)
          = if JsSet.has key (removedKeys sel (dataStorage ka)) then None
            else JsMap.get key (dataStorage ka))
    /\ (forall key d r,
          In r (removedKeys sel (dataStorage ka)) ->
          Dot.fromString r = Ok d -> Dot.fromString key = Ok d ->
          JsMap.get key (dataStorage kb2) = None)
    /\ (forall key d,
          Dot.fromString key = Ok d -> 1 <= counter d ->
          (forall r, In r (removedKeys sel (dataStorage ka)) -> Dot.fromString r <> Ok d) ->
          JsMap.get key (dataStorage kb2) = JsMap.get key (dataStorage kb1)).
Proof.
  intros Hka Hkb Hcb Pa Pb Pcb.
  destruct (rmv_facts h a ka sel Hka Pa)
    as (rctx1 & rctx & st' & h1 & Hrmv & Hins & Hcomp & Hc1 & Hk1 & Hget1).
  pose proof (lookup_lt_Some _ _ _ Hka) as Halt.
  pose proof (lookup_lt_Some _ _ _ Hkb) as Hblt.
  pose proof (lookup_lt_Some _ _ _ Hcb) as Hcblt.
  set (ka1 := mkKernel st' (contextBase ka) (sharedContext ka)) in *.
  set (kres := mkKernel [] (length (contexts h)) (length (contexts h))) in *.
  assert (kernels h1 !! a = Some ka1) as Hka1.
  { rewrite Hk1, lookup_app_l by (by rewrite length_insert).
    by apply list_lookup_insert_eq. }
  assert (exists kb1, kernels h1 !! b = Some kb1
            /\ sharedContext kb1 = sharedContext kb
            /\ forall key, In key (JsMap.keys (dataStorage kb1)) ->
                 In key (JsMap.keys (dataStorage kb))) as (kb1 & Hkb1 & Hsh & Hsub).
  { destruct (Nat.eq_dec b a) as [->|Hne].
    - exists ka1. assert (kb = ka) as -> by congruence.
      split; [done|]. split; [done|]. intros key Hin.
      apply keys_get_Some in Hin as (v & Hv). rewrite Hget1 in Hv.
      destruct (JsSet.has key (removedKeys sel (dataStorage ka))); [done|].
      by eapply get_Some_keys.
    - exists kb. split; [|done].
      rewrite Hk1, lookup_app_l by (by rewrite length_insert).
      by rewrite list_lookup_insert_ne. }
  assert (kernels h1 !! length (kernels h) = Some kres) as Hres.
  { rewrite Hk1. rewrite <- (length_insert (kernels h) a ka1).
    by apply list_lookup_middle. }
  assert (contexts h1 !! sharedContext kb1 = Some cb) as Hcb1
    by (rewrite Hsh, Hc1, lookup_app_l; done).
  assert (contexts h1 !! sharedContext kres = Some rctx) as Hrctx
    by (rewrite Hc1; by apply list_lookup_middle).
  assert (forall key, In key (JsMap.keys (dataStorage kb1)) ->
            exists d, Dot.fromString key = Ok d) as Pb1 by (intros; by apply Pb, Hsub).
  destruct (sortKeys_total lc _ Pb1) as (ts & Hts).
  destruct (joinLoop_nil_other lc cb rctx (dataStorage kres) ts (dataStorage kb1))
    as (st & Hst & Hget).
  { intros x Hx. apply Pb1. by apply (sortKeys_In lc _ _ x Hts). }
  assert (cloudParses rctx) as Prctx.
  { assert (cloudParses rctx1) as P1.
    { rewrite insertDots_joinCloud in Hins.
      apply wfCloud_parses. eapply joinCloud_wf; [exact Hins|].
      split; [constructor|by intros s []]. }
    destruct (compact_total rctx1 P1) as (r' & Hr' & Pr').
    assert (r' = rctx) as <- by congruence. done. }
  destruct (contextJoin_total cb rctx Pcb Prctx) as (c' & Hc' & _).
  destruct (join_facts lc b (length (kernels h)) h1 kb1 kres ts [] cb rctx st c')
    as (h2 & Hjoin & Hk2 & _); try done; [lia|].
  exists (length (kernels h)), h1, h2, ka1, kb1,
         (mkKernel st (contextBase kb1) (sharedContext kb1)).
  split; [done|]. split; [done|]. split; [done|]. split; [done|]. split.
  { rewrite Hk2. apply list_lookup_insert_eq. by eapply lookup_lt_Some. }
  split; [exact Hget1|].
  assert (forall r, In r (removedKeys sel (dataStorage ka)) ->
            exists d0, Dot.fromString r = Ok d0) as Pr
    by (intros r Hr; by apply Pa, (removedKeys_keys sel)).
  simpl. split.
  - intros key d r Hr Hrd Hkd. rewrite Hget.
    destruct (knows_parsed rctx key d Hkd) as [_ ->].
    destruct (delta_members _ _ _ d Pr Hins Hcomp) as [Hin _].
    rewrite Hin by eauto. rewrite andb_true_r.
    destruct (JsSet.has key ts) eqn:E; [done|].
    apply set_has_false in E. apply get_None_keys. intros Hk. apply E.
    by apply (sortKeys_In lc _ _ key Hts).
  - intros key d Hkd Hpos Hnot. rewrite Hget.
    destruct (knows_parsed rctx key d Hkd) as [_ ->].
    destruct (member rctx d) eqn:E; [|by rewrite andb_false_r].
    destruct (delta_members _ _ _ d Pr Hins Hcomp) as [_ Hinv].
    destruct (Hinv Hpos E) as (r & Hr & Hrd). by destruct (Hnot r Hr).
Qed.

(** X12, witness: removing the value ["x"] from kernel 1 takes its key
    [a:1]; the delta, joined into kernel 0, takes [a:1] from it and
    leaves [b:2]. *)
Lemma rmv_delta_removes_witness :
  exists res h1 h2 kb2,
    DotKernel.rmv 1 (VStr "x") divergedHeap = Ok (res, h1)
    /\ DotKernel.join codeUnitCompare 0 res h1 = Ok h2
    /\ kernels h2 !! 0%nat = Some kb2
    /\ JsMap.get "a:1" (dataStorage kb2) = None
    /\ JsMap.get "b:2" (dataStorage kb2) = Some (VStr "y").
Proof.
  destruct (rmv_delta_removes codeUnitCompare divergedHeap 1 0
              (mkKernel [("c:2", VStr "z"); ("b:1", VStr "w"); ("a:1", VStr "x")] 1 1)
              (mkKernel [("a:1", VStr "x"); ("b:2", VStr "y")] 0 0)
              (mkContext [("a", 1); ("b", 2)] []) (VStr "x"))
    as (res & h1 & h2 & ka1 & kb1 & kb2 & Hrmv & Hjoin & _ & Hkb1 & Hkb2 & _ & Hgone & Hkept).
  - reflexivity.
  - reflexivity.
  - reflexivity.
  - intros key [<-|[<-|[<-|[]]]]; by eexists.
  - intros key [<-|[<-|[]]]; by eexists.
  - intros s [].
  - exists res, h1, h2, kb2. repeat (split; [done|]). split.
    + apply (Hgone "a:1" (mkDot "a" 1) "a:1"); [by left|reflexivity..].
    + rewrite (Hkept "b:2" (mkDot "b" 2)); [|reflexivity|simpl; lia|].
      * vm_compute in Hrmv. injection Hrmv as <- <-. vm_compute in Hkb1.
        injection Hkb1 as <-. reflexivity.
      * intros r [<-|[]]. discriminate.
Defined.


Lemma has_matching sel (st : JsMap.t Value) key v :
  NoDup (JsMap.keys st) -> JsMap.get key st = Some v ->
  JsSet.has key (DotKernel.matching sel st) = JsValue.sameJson v sel.
Proof.
  intros Hnd Hget. destruct (JsValue.sameJson v sel) eqn:E.
  - apply set_has_In. unfold DotKernel.matching. apply in_map_iff.
    exists (key, v). split; [done|].
    apply list_elem_of_In, list_elem_of_filter. split; [simpl; by rewrite E|].
    apply list_elem_of_In. by apply get_Some_In.
  - apply set_has_false. unfold DotKernel.matching. intros Hin.
    apply in_map_iff in Hin as ([k w] & Hk & Hin). simpl in Hk. subst k.
    apply list_elem_of_In, list_elem_of_filter in Hin as [Hw Hin%list_elem_of_In].
    simpl in Hw. rewrite (In_get_NoDup st key w Hnd Hin) in Hget.
    injection Hget as ->. by rewrite E in Hw.
Qed.

(** X13.  A selector that is neither [null] nor [undefined] nor a
    dot-like object removes by value: when the storage holds each key
    once and its keys read as dots, [rmv(sel)] returns, an entry goes
    exactly when the JSON text of its value is the JSON text of the
    selector, and every other entry keeps its value.  A string such as
    ["a:1"] is a value, not a dot. *)
Theorem rmv_by_value (h : Heap) (a : nat) (ka : DotKernel) (sel : Value) :
  kernels h !! a = Some ka ->
  NoDup (JsMap.keys (dataStorage ka)) ->
  (forall key, In key (JsMap.keys (dataStorage ka)) -> exists d, Dot.fromString key = Ok d) ->
  sel <> VNull -> sel <> VUndefined -> isDotLikeObject sel = false ->
  exists res h1 ka1,
    DotKernel.rmv a sel h = Ok (res, h1)
    /\ kernels h1 !! a = Some ka1
    /\ kernels h1 !! res = Some (mkKernel [] (length (contexts h)) (length (contexts h)))
    /\ forall key,
         JsMap.get key (dataStorage ka1)
         = match JsMap.get key (dataStorage ka) with
           | Some v => if JsValue.sameJson v sel then None else Some v
           | None => None
           end.
Proof.
  intros Hka Hnd Pa Hnull Hundef Hdl.
  destruct (rmv_facts h a ka sel Hka Pa)
    as (rctx1 & rctx & st' & h1 & Hrmv & _ & _ & _ & Hk1 & Hget1).
  pose proof (lookup_lt_Some _ _ _ Hka) as Halt.
  exists (length (kernels h)), h1, (mkKernel st' (contextBase ka) (sharedContext ka)).
  split; [done|]. split; [|split].
  - rewrite Hk1, lookup_app_l by (by rewrite length_insert).
    by apply list_lookup_insert_eq.
  - rewrite Hk1.
    rewrite <- (length_insert (kernels h) a
                  (mkKernel st' (contextBase ka) (sharedContext ka))).
    by apply list_lookup_middle.
  - intros key. simpl. rewrite Hget1.
    assert (removedKeys sel (dataStorage ka) = DotKernel.matching sel (dataStorage ka)) as ->.
    { unfold removedKeys. rewrite Hdl. by destruct sel. }
    destruct (JsMap.get key (dataStorage ka)) as [v|] eqn:E.
    + rewrite (has_matching sel _ key v Hnd E). by destruct (JsValue.sameJson v sel).
    + destruct (JsSet.has key _) eqn:Eh; [|done].
      apply set_has_In, matching_keys in Eh. by apply get_None_keys in E.
Qed.

(** X13, witness: the selector ["a:1"] removes the entry whose value is
    that string and keeps the entry of the dot [a:1]. *)
Lemma rmv_by_value_witness :
  exists res h1 ka1,
    DotKernel.rmv 0 (VStr "a:1")
      (mkHeap [mkContext [("a", 2)] []]
              [mkKernel [("a:1", VStr "x"); ("a:2", VStr "a:1")] 0 0]) = Ok (res, h1)
    /\ kernels h1 !! 0%nat = Some ka1
    /\ JsMap.get "a:1" (dataStorage ka1) = Some (VStr "x")
    /\ JsMap.get "a:2" (dataStorage ka1) = None.
Proof.
  destruct (rmv_by_value
              (mkHeap [mkContext [("a", 2)] []]
                      [mkKernel [("a:1", VStr "x"); ("a:2", VStr "a:1")] 0 0])
              0 (mkKernel [("a:1", VStr "x"); ("a:2", VStr "a:1")] 0 0) (VStr "a:1"))
    as (res & h1 & ka1 & Hrmv & Hka1 & _ & Hget).
  - reflexivity.
  - apply (bool_decide_unpack _). vm_compute. reflexivity.
  - intros key [<-|[<-|[]]]; by eexists.
  - discriminate.
  - discriminate.
  - reflexivity.
  - exists res, h1, ka1. split; [done|]. split; [done|].
    split; rewrite Hget; reflexivity.
Defined.


(** ** The merge loop of [deepJoin] on ordered arrays *)

Section DeepMerged.
Variable jm : Value -> option (Value -> Outcome Value).
Variables thisCtx otherCtx : DotContext.
Variable otherStorage : JsMap.t Value.

Let deepMergedAt := deepMerged jm thisCtx otherCtx otherStorage.

Lemma deepMerged_ext ts os st st1 key :
  JsMap.get key st1 = JsMap.get key st ->
  deepMergedAt ts os st1 key = deepMergedAt ts os st key.
Proof.
  intros E. unfold deepMergedAt, deepMerged, DotKernel.getValue. by rewrite E.
Qed.

Lemma deepMerged_onlyInThis x ts os st key :
  JsSet.has x ts = false -> JsSet.has x os = false ->
  deepMergedAt ts os (if knows otherCtx x then JsMap.delete x st else st) key
  = deepMergedAt (x :: ts) os st key.
Proof.
  intros Hts Hos. destruct (String.eqb_spec x key) as [->|Hne].
  - unfold deepMergedAt, deepMerged. simpl. rewrite String.eqb_refl, Hts, Hos.
    destruct (knows otherCtx key); [apply get_delete_eq|done].
  - rewrite deepMerged_ext with (st := st)
      by (destruct (knows otherCtx x); [by apply get_delete_ne|done]).
    unfold deepMergedAt, deepMerged. simpl.
    by destruct (String.eqb_spec x key).
Qed.

Lemma deepMerged_onlyInOther y ts os st key :
  JsSet.has y ts = false -> JsSet.has y os = false ->
  deepMergedAt ts os (if knows thisCtx y then st
                      else JsMap.set y (DotKernel.getValue y otherStorage) st) key
  = deepMergedAt ts (y :: os) st key.
Proof.
  intros Hts Hos. destruct (String.eqb_spec y key) as [->|Hne].
  - unfold deepMergedAt, deepMerged. simpl. rewrite String.eqb_refl, Hts, Hos.
    destruct (knows thisCtx key); [done|apply get_set_eq].
  - rewrite deepMerged_ext with (st := st)
      by (destruct (knows thisCtx y); [done|by apply get_set_ne]).
    unfold deepMergedAt, deepMerged. simpl.
    by destruct (String.eqb_spec y key).
Qed.

Lemma deepMerged_both x ts os st joined key :
  JsSet.has x ts = false -> JsSet.has x os = false ->
  (negb (JsValue.sameJson (DotKernel.getValue x st) (DotKernel.getValue x otherStorage))
   = true ->
   DeltaHelpers.join jm (DotKernel.getValue x st) (DotKernel.getValue x otherStorage)
   = Ok joined) ->
  deepMergedAt ts os
    (if negb (JsValue.sameJson (DotKernel.getValue x st)
                (DotKernel.getValue x otherStorage))
     then JsMap.set x joined st else st) key
  = deepMergedAt (x :: ts) (x :: os) st key.
Proof.
  intros Hts Hos Hj. destruct (String.eqb_spec x key) as [->|Hne].
  - unfold deepMergedAt, deepMerged. simpl. rewrite String.eqb_refl, Hts, Hos.
    destruct (negb (JsValue.sameJson (DotKernel.getValue key st)
                      (DotKernel.getValue key otherStorage))); [|done].
    rewrite Hj by done. apply get_set_eq.
  - rewrite deepMerged_ext with (st := st).
    + unfold deepMergedAt, deepMerged. simpl. by destruct (String.eqb_spec x key).
    + destruct (negb _); [by apply get_set_ne|done].
Qed.

End DeepMerged.


Section DeepMergeLoop.
Variable lc : string -> string -> Z.
Hypothesis Hlc : strictCollation lc.
Variable jm : Value -> option (Value -> Outcome Value).
Variables thisCtx otherCtx : DotContext.
Variable otherStorage : JsMap.t Value.

Let before (x y : string) : Prop := keyLtb lc x y = true.

Let joinable (ts os : list string) (st : JsMap.t Value) : Prop :=
  forall key, In key ts -> In key os ->
    negb (JsValue.sameJson (DotKernel.getValue key st)
            (DotKernel.getValue key otherStorage)) = true ->
    exists v, DeltaHelpers.join jm (DotKernel.getValue key st)
                (DotKernel.getValue key otherStorage) = Ok v.

Lemma joinable_ext ts os ts' os' st st1 :
  joinable ts os st ->
  (forall key, In key ts' -> In key ts) -> (forall key, In key os' -> In key os) ->
  (forall key, In key ts' -> In key os' -> JsMap.get key st1 = JsMap.get key st) ->
  joinable ts' os' st1.
Proof.
  intros Hj Hts Hos Hsame key Hk1 Hk2.
  unfold DotKernel.getValue. rewrite (Hsame key Hk1 Hk2).
  apply Hj; [by apply Hts|by apply Hos].
Qed.

Lemma deepJoinLoop_merged ts :
  forall os st,
    StronglySorted before ts -> StronglySorted before os ->
    (forall x, In x ts -> wfKey x = true) ->
    (forall y, In y os -> wfKey y = true) ->
    (forall x y, In x ts -> In y os ->
       Js.stringLt x y = keyLtb lc x y /\ Js.stringLt y x = keyLtb lc y x) ->
    joinable ts os st ->
    exists st',
      DotKernel.deepJoinLoop jm thisCtx otherCtx otherStorage ts os st = Ok st'
      /\ forall key,
           JsMap.get key st'
           = deepMerged jm thisCtx otherCtx otherStorage ts os st key.
Proof.
  induction ts as [|x ts IHts]; intros os; induction os as [|y os IHos];
    intros st Sts Sos Wts Wos Hagree Hjoin.
  - exists st. split; [done|]. intros key. done.
  - rewrite deepJoinLoop_nil_cons.
    destruct (knows_wfKey thisCtx y) as (b & Hb & Kb); [apply Wos; by left|].
    rewrite Hb. simpl.
    destruct (IHos (if b then st
                    else JsMap.set y (DotKernel.getValue y otherStorage) st))
      as (st' & Hst' & Hget); try done.
    + by apply StronglySorted_inv in Sos as [? _].
    + intros; apply Wos; by right.
    + by intros key [].
    + exists st'. split; [done|]. intros key. rewrite Hget, <- Kb.
      apply deepMerged_onlyInOther; [done|by apply (sorted_head_fresh lc)].
  - rewrite deepJoinLoop_cons_nil.
    destruct (knows_wfKey otherCtx x) as (b & Hb & Kb); [apply Wts; by left|].
    rewrite Hb. simpl.
    destruct (IHts [] (if b then JsMap.delete x st else st))
      as (st' & Hst' & Hget); try done.
    + by apply StronglySorted_inv in Sts as [? _].
    + intros; apply Wts; by right.
    + by intros key _ [].
    + exists st'. split; [done|]. intros key. rewrite Hget, <- Kb.
      apply deepMerged_onlyInThis; [by apply (sorted_head_fresh lc)|done].
  - rewrite deepJoinLoop_cons_cons.
    assert (wfKey x = true) as Wx by (apply Wts; by left).
    assert (wfKey y = true) as Wy by (apply Wos; by left).
    destruct (Hagree x y (or_introl eq_refl) (or_introl eq_refl)) as [Hxy Hyx].
    assert (JsSet.has x ts = false) as Fx by (by apply (sorted_head_fresh lc)).
    assert (JsSet.has y os = false) as Fy by (by apply (sorted_head_fresh lc)).
    destruct (Js.stringLt x y) eqn:Hlt.
    + (* only in this *)
      destruct (knows_wfKey otherCtx x) as (b & Hb & Kb); [done|].
      rewrite Hb. simpl.
      destruct (IHts (y :: os) (if b then JsMap.delete x st else st))
        as (st' & Hst' & Hget); try done.
      * by apply StronglySorted_inv in Sts as [? _].
      * intros; apply Wts; by right.
      * intros x' y' Hx' Hy'. apply Hagree; [by right|done].
      * eapply joinable_ext; [exact Hjoin|by right|done|].
        intros key Hk _. destruct b; [|done]. apply get_delete_ne.
        intros ->. apply set_has_false in Fx. done.
      * exists st'. split; [done|]. intros key. rewrite Hget, <- Kb.
        apply deepMerged_onlyInThis; [done|by apply (sorted_below_fresh lc Hlc)].
    + destruct (Js.stringLt y x) eqn:Hgt.
      * (* only in other *)
        destruct (knows_wfKey thisCtx y) as (b & Hb & Kb); [done|].
        rewrite Hb. simpl.
        destruct (IHos (if b then st
                        else JsMap.set y (DotKernel.getValue y otherStorage) st))
          as (st' & Hst' & Hget); try done.
        -- by apply StronglySorted_inv in Sos as [? _].
        -- intros; apply Wos; by right.
        -- intros x' y' Hx' Hy'. apply Hagree; [done|by right].
        -- eapply joinable_ext; [exact Hjoin|done|by right|].
           intros key _ Hk. destruct b; [done|]. apply get_set_ne.
           intros ->. apply set_has_false in Fy. done.
        -- exists st'. split; [done|]. intros key. rewrite Hget, <- Kb.
           apply deepMerged_onlyInOther; [by apply (sorted_below_fresh lc Hlc)|done].
      * (* in both *)
        assert (x = y) as <- by (by apply (keyLtb_total lc Hlc)).
        cbv zeta.
        assert (exists joined,
                  negb (JsValue.sameJson (DotKernel.getValue x st)
                          (DotKernel.getValue x otherStorage)) = true ->
                  DeltaHelpers.join jm (DotKernel.getValue x st)
                    (DotKernel.getValue x otherStorage) = Ok joined) as (joined & Hjoined).
        { destruct (negb _) eqn:E; [|by exists VNull].
          destruct (Hjoin x) as (v & Hv); [by left|by left|done|]. by exists v. }
        destruct (IHts os (if negb (JsValue.sameJson (DotKernel.getValue x st)
                                      (DotKernel.getValue x otherStorage))
                           then JsMap.set x joined st else st))
          as (st' & Hst' & Hget); try done.
        -- by apply StronglySorted_inv in Sts as [? _].
        -- by apply StronglySorted_inv in Sos as [? _].
        -- intros; apply Wts; by right.
        -- intros; apply Wos; by right.
        -- intros x' y' Hx' Hy'. apply Hagree; by right.
        -- eapply joinable_ext; [exact Hjoin|by right|by right|].
           intros key Hk _. destruct (negb _); [|done]. apply get_set_ne.
           intros ->. apply set_has_false in Fx. done.
        -- exists st'. split.
           ++ destruct (negb (JsValue.sameJson (DotKernel.getValue x st)
                                (DotKernel.getValue x otherStorage))) eqn:E.
              ** rewrite Hjoined by done. simpl. exact Hst'.
              ** exact Hst'.
           ++ intros key. rewrite Hget. by apply deepMerged_both.
Qed.

End DeepMergeLoop.


Lemma deepJoin_facts lc jm this other h kt ko ts os ct co st c' :
  this <> other ->
  kernels h !! this = Some kt -> kernels h !! other = Some ko ->
  Dot.sortKeys lc (JsMap.keys (dataStorage kt)) = Ok ts ->
  Dot.sortKeys lc (JsMap.keys (dataStorage ko)) = Ok os ->
  contexts h !! sharedContext kt = Some ct ->
  contexts h !! sharedContext ko = Some co ->
  DotKernel.deepJoinLoop jm ct co (dataStorage ko) ts os (dataStorage kt) = Ok st ->
  (sharedContext kt <> sharedContext ko -> DotContext.join ct co = Ok c') ->
  exists h',
    DotKernel.deepJoin lc jm this other h = Ok h'
    /\ kernels h' = <[this := mkKernel st (contextBase kt) (sharedContext kt)]> (kernels h)
    /\ contexts h'
       = if Nat.eqb (sharedContext kt) (sharedContext ko) then contexts h
         else <[sharedContext kt := c']> (contexts h).
Proof.
  intros Hne Hkt Hko Hts Hos Hct Hco Hloop Hjoin. unfold DotKernel.deepJoin.
  destruct (Nat.eqb_spec this other) as [|_]; [done|].
  rewrite (proj2 (getKernel_Ok _ _ _) Hkt), (proj2 (getKernel_Ok _ _ _) Hko). simpl.
  rewrite Hts, Hos. simpl.
  rewrite (proj2 (getContext_Ok _ _ _) Hct), (proj2 (getContext_Ok _ _ _) Hco). simpl.
  rewrite Hloop. simpl. rewrite (setStorage_Ok _ _ _ _ Hkt). simpl.
  unfold DotKernel.joinContexts.
  destruct (Nat.eqb_spec (sharedContext kt) (sharedContext ko)) as [E|Hs].
  - eexists. done.
  - unfold Heap.getContext. simpl. rewrite Hct, Hco. simpl.
    rewrite (Hjoin Hs). simpl. eexists. done.
Qed.

Lemma sameJson_numbers l r :
  JsValue.sameJson (VNum l) (VNum r) = true -> l = r.
Proof.
  unfold JsValue.sameJson. simpl. intros E. apply String.eqb_eq in E.
  pose proof (parseInt_numberToString l) as Hl. rewrite E in Hl.
  rewrite parseInt_numberToString in Hl. congruence.
Qed.

(** X14.  For two distinct kernels with well-formed storages, under a
    strict collation and when the operator [<] agrees with
    [Dot.compare] on the pairs of a key of [this] and a key of [other],
    [this.deepJoin(other)] returns as soon as the payloads of the dots
    held by both can be joined.  Dots held by one side follow the rule
    of [join]; a dot held by both keeps the value of [this] when the
    two values have the same JSON text and gets their join otherwise:
    for two numbers, their maximum. *)
Theorem deepJoin_merge_rule (lc : string -> string -> Z)
    (jm : Value -> option (Value -> Outcome Value)) (h : Heap) (a b : nat)
    (ka kb : DotKernel) (ca cb : DotContext) :
  strictCollation lc -> a <> b ->
  kernels h !! a = Some ka -> kernels h !! b = Some kb ->
  contexts h !! sharedContext ka = Some ca ->
  contexts h !! sharedContext kb = Some cb ->
  wfStorage (dataStorage ka) -> wfStorage (dataStorage kb) ->
  cloudParses ca -> cloudParses cb ->
  ordersAgree lc (dataStorage ka) (dataStorage kb) ->
  (forall key va vb,
     JsMap.get key (dataStorage ka) = Some va ->
     JsMap.get key (dataStorage kb) = Some vb ->
     JsValue.sameJson va vb = false ->
     exists v, DeltaHelpers.join jm va vb = Ok v) ->
  exists h' ka',
    DotKernel.deepJoin lc jm a b h = Ok h'
    /\ kernels h' !! a = Some ka'
    /\ (forall key v,
          JsMap.get key (dataStorage kb) = Some v ->
          JsMap.get key (dataStorage ka) = None ->
          DotContext.dotIn ca (InStr key) = Ok false ->
          JsMap.get key (dataStorage ka') = Some v)
    /\ (forall key v,
          JsMap.get key (dataStorage ka) = Some v ->
          JsMap.get key (dataStorage kb) = None ->
          forall known, DotContext.dotIn cb (InStr key) = Ok known ->
          JsMap.get key (dataStorage ka') = if known then None else Some v)
    /\ (forall key va vb,
          JsMap.get key (dataStorage ka) = Some va ->
          JsMap.get key (dataStorage kb) = Some vb ->
          (JsValue.sameJson va vb = true -> JsMap.get key (dataStorage ka') = Some va)
          /\ (forall v, JsValue.sameJson va vb = false ->
                DeltaHelpers.join jm va vb = Ok v ->
                JsMap.get key (dataStorage ka') = Some v))
    /\ (forall key l r,
          JsMap.get key (dataStorage ka) = Some (VNum l) ->
          JsMap.get key (dataStorage kb) = Some (VNum r) ->
          JsMap.get key (dataStorage ka') = Some (VNum (Z.max l r))).
Proof.
  intros Hlc Hne Hka Hkb Hca Hcb [NDa Wa] [NDb Wb] Pca Pcb Hagree Hjoinable.
  assert (forall k, In k (JsMap.keys (dataStorage ka)) -> exists d, Dot.fromString k = Ok d)
    as Pa by (intros k Hk; apply Wa, wfKey_spec in Hk as (d & Hd & _); by exists d).
  assert (forall k, In k (JsMap.keys (dataStorage kb)) -> exists d, Dot.fromString k = Ok d)
    as Pb by (intros k Hk; apply Wb, wfKey_spec in Hk as (d & Hd & _); by exists d).
  destruct (sortKeys_total lc _ Pa) as (ts & Hts).
  destruct (sortKeys_total lc _ Pb) as (os & Hos).
  destruct (deepJoinLoop_merged lc Hlc jm ca cb (dataStorage kb) ts os (dataStorage ka))
    as (st & Hst & Hget).
  { by apply (sortKeys_sorted lc (JsMap.keys (dataStorage ka))). }
  { by apply (sortKeys_sorted lc (JsMap.keys (dataStorage kb))). }
  { intros x Hx. apply Wa. by apply (sortKeys_In lc _ _ x Hts). }
  { intros y Hy. apply Wb. by apply (sortKeys_In lc _ _ y Hos). }
  { intros x y Hx Hy.
    apply Hagree; [by apply (sortKeys_In lc _ _ x Hts)|by apply (sortKeys_In lc _ _ y Hos)]. }
  { intros key Hx Hy Hdiff.
    apply (sortKeys_In lc _ _ key Hts), keys_get_Some in Hx as (va & Hva).
    apply (sortKeys_In lc _ _ key Hos), keys_get_Some in Hy as (vb & Hvb).
    unfold DotKernel.getValue in *. rewrite Hva, Hvb in *.
    apply (Hjoinable key va vb Hva Hvb). by apply negb_true_iff. }
  destruct (contextJoin_total ca cb Pca Pcb) as (c' & Hc' & _).
  destruct (deepJoin_facts lc jm a b h ka kb ts os ca cb st c')
    as (h' & Hjoin & Hk' & _); try done.
  exists h', (mkKernel st (contextBase ka) (sharedContext ka)).
  split; [done|]. split.
  { rewrite Hk'. apply list_lookup_insert_eq. by eapply lookup_lt_Some. }
  assert (forall key,
            JsMap.get key st
            = deepMerged jm ca cb (dataStorage kb) (JsMap.keys (dataStorage ka))
                (JsMap.keys (dataStorage kb)) (dataStorage ka) key) as Hm.
  { intros key. rewrite Hget. unfold deepMerged.
    rewrite (set_has_perm key ts (JsMap.keys (dataStorage ka)))
      by (by eapply sortKeys_perm).
    by rewrite (set_has_perm key os (JsMap.keys (dataStorage kb)))
      by (by eapply sortKeys_perm). }
  assert (forall key va vb,
            JsMap.get key (dataStorage ka) = Some va ->
            JsMap.get key (dataStorage kb) = Some vb ->
            (JsValue.sameJson va vb = true -> JsMap.get key st = Some va)
            /\ (forall v, JsValue.sameJson va vb = false ->
                  DeltaHelpers.join jm va vb = Ok v -> JsMap.get key st = Some v)) as Hboth.
  { intros key va vb Ha Hb. rewrite Hm. unfold deepMerged, DotKernel.getValue.
    rewrite !has_keys_get, Ha, Hb. split.
    - by intros ->.
    - intros v -> Hv. simpl. by rewrite Hv. }
  simpl. split; [|split; [|split; [exact Hboth|]]].
  - intros key v Hb Ha Hknow. rewrite Hm. unfold deepMerged, knows, DotKernel.getValue.
    rewrite !has_keys_get, Ha, Hb, Hknow. done.
  - intros key v Ha Hb known Hknow. rewrite Hm. unfold deepMerged, knows.
    rewrite !has_keys_get, Ha, Hb, Hknow. done.
  - intros key l r Ha Hb. destruct (Hboth key _ _ Ha Hb) as [Hsame Hdiff].
    destruct (JsValue.sameJson (VNum l) (VNum r)) eqn:E.
    + rewrite Hsame by done. apply sameJson_numbers in E as ->. by rewrite Z.max_id.
    + by apply Hdiff.
Qed.

(** X14, witness: two counters under the dot [a:1]; the join holds the
    larger one, keeps [b:1] and receives [c:1]. *)
Lemma deepJoin_merge_rule_witness :
  let h := mkHeap [mkContext [("a", 1); ("b", 1)] []; mkContext [("a", 1); ("c", 1)] []]
                  [mkKernel [("a:1", VNum 5); ("b:1", VNum 2)] 0 0;
                   mkKernel [("a:1", VNum 8); ("c:1", VNum 1)] 1 1] in
  exists h' ka',
    DotKernel.deepJoin codeUnitCompare DeltaHelpers.repoJoinMethod 0 1 h = Ok h'
    /\ kernels h' !! 0%nat = Some ka'
    /\ JsMap.get "a:1" (dataStorage ka') = Some (VNum 8)
    /\ JsMap.get "b:1" (dataStorage ka') = Some (VNum 2)
    /\ JsMap.get "c:1" (dataStorage ka') = Some (VNum 1).
Proof.
  intros h.
  destruct (deepJoin_merge_rule codeUnitCompare DeltaHelpers.repoJoinMethod h 0 1
              (mkKernel [("a:1", VNum 5); ("b:1", VNum 2)] 0 0)
              (mkKernel [("a:1", VNum 8); ("c:1", VNum 1)] 1 1)
              (mkContext [("a", 1); ("b", 1)] []) (mkContext [("a", 1); ("c", 1)] []))
    as (h' & ka' & Hjoin & Hk & Hin & Hthis & _ & Hnum).
  - exact codeUnitCompare_strict.
  - discriminate.
  - reflexivity.
  - reflexivity.
  - reflexivity.
  - reflexivity.
  - split.
    + apply (bool_decide_unpack _). vm_compute. reflexivity.
    + intros key [<-|[<-|[]]]; reflexivity.
  - split.
    + apply (bool_decide_unpack _). vm_compute. reflexivity.
    + intros key [<-|[<-|[]]]; reflexivity.
  - intros s [].
  - intros s [].
  - intros x y [<-|[<-|[]]] [<-|[<-|[]]]; split; reflexivity.
  - intros key va vb Ha Hb _. apply get_Some_In in Ha. apply get_Some_In in Hb.
    destruct Ha as [Ha|[Ha|[]]]; destruct Hb as [Hb|[Hb|[]]];
      inversion Ha; inversion Hb; subst; try discriminate.
    by eexists.
  - exists h', ka'. split; [done|]. split; [done|]. split; [|split].
    + apply (Hnum "a:1" 5 8); reflexivity.
    + apply (Hthis "b:1" (VNum 2) eq_refl eq_refl false). reflexivity.
    + apply (Hin "c:1" (VNum 1)); reflexivity.
Defined.


(** ** What a clone shares with its original *)

(** X15.  A join or deep join into a clone never touches the storage of
    the original.  When the original owns its context (built without a
    shared context), the clone has a context of its own and the context
    of the original is left as it was; when the original was built on a
    shared context, the clone names that same context, and a join of
    the clone with a kernel on another context replaces the context
    that the original names by the join of the two. *)
Theorem clone_isolation (lc : string -> string -> Z)
    (jm : Value -> option (Value -> Outcome Value)) (h h1 h2 : Heap) (a b r : nat)
    (ka : DotKernel) (ca : DotContext) :
  kernels h !! a = Some ka ->
  contexts h !! sharedContext ka = Some ca ->
  DotKernel.clone a h = Ok (r, h1) ->
  DotKernel.join lc r b h1 = Ok h2 \/ DotKernel.deepJoin lc jm r b h1 = Ok h2 ->
  kernels h2 !! a = Some ka
  /\ (sharedContext ka = contextBase ka -> contexts h2 !! sharedContext ka = Some ca)
  /\ (sharedContext ka <> contextBase ka ->
      forall kb cb,
        kernels h !! b = Some kb -> contexts h !! sharedContext kb = Some cb ->
        sharedContext kb <> sharedContext ka ->
        exists kr c',
          kernels h2 !! r = Some kr /\ sharedContext kr = sharedContext ka
          /\ DotContext.join ca cb = Ok c'
          /\ contexts h2 !! sharedContext ka = Some c').
Proof.
  intros Hka Hca Hclone Hjoin.
  destruct (clone_shape _ _ _ _ Hclone) as (ka0 & base & Hka0 & Hbase & -> & Hc1 & Hk1).
  assert (ka0 = ka) as -> by congruence.
  pose proof (lookup_lt_Some _ _ _ Hka) as Halt.
  pose proof (lookup_lt_Some _ _ _ Hca) as Hsalt.
  set (kr := mkKernel (dataStorage ka) (length (contexts h))
               (if Nat.eqb (sharedContext ka) (contextBase ka)
                then length (contexts h) else sharedContext ka)) in *.
  assert (kernels h1 !! length (kernels h) = Some kr) as Hkr
    by (rewrite Hk1; by apply list_lookup_middle).
  assert (kernels h1 !! a = Some ka) as Hka1 by (by rewrite Hk1, lookup_app_l).
  assert (contexts h1 !! sharedContext ka = Some ca) as Hca1
    by (by rewrite Hc1, lookup_app_l).
  destruct (Nat.eq_dec (length (kernels h)) b) as [<-|Hne].
  { (* the clone joined with itself *)
    assert (h2 = h1) as ->.
    { destruct Hjoin as [H|H]; unfold DotKernel.join, DotKernel.deepJoin in H;
        rewrite Nat.eqb_refl in H; congruence. }
    split; [done|]. split; [done|].
    intros _ kb cb Hkb. apply lookup_lt_Some in Hkb. lia. }
  assert (exists kt ko ct co st,
            kernels h1 !! length (kernels h) = Some kt
            /\ kernels h1 !! b = Some ko
            /\ contexts h1 !! sharedContext kt = Some ct
            /\ contexts h1 !! sharedContext ko = Some co
            /\ kernels h2
               = <[length (kernels h) := mkKernel st (contextBase kt) (sharedContext kt)]>
                   (kernels h1)
            /\ ((sharedContext kt = sharedContext ko /\ contexts h2 = contexts h1)
                \/ (sharedContext kt <> sharedContext ko
                    /\ exists c', DotContext.join ct co = Ok c'
                         /\ contexts h2 = <[sharedContext kt := c']> (contexts h1))))
    as (kt & ko & ct & co & st & Hkt & Hko & Hct & Hco & Hk2 & Hc2).
  { destruct Hjoin as [H|H].
    - destruct (join_shape _ _ _ _ _ Hne H)
        as (kt & ko & ? & ? & ct & co & st & ? & ? & _ & _ & ? & ? & _ & ? & ?).
      by exists kt, ko, ct, co, st.
    - destruct (deepJoin_shape _ _ _ _ _ _ Hne H)
        as (kt & ko & ? & ? & ct & co & st & ? & ? & _ & _ & ? & ? & _ & ? & ?).
      by exists kt, ko, ct, co, st. }
  assert (kt = kr) as -> by congruence.
  split; [|split].
  - rewrite Hk2, list_lookup_insert_ne by lia. done.
  - intros Eown. destruct Hc2 as [[_ ->]|(_ & c' & _ & ->)]; [done|].
    subst kr. simpl. rewrite Eown, Nat.eqb_refl.
    rewrite list_lookup_insert_ne by lia. congruence.
  - intros Hshared kb cb Hkb Hcb Hdiff.
    assert (sharedContext kr = sharedContext ka) as Ekr.
    { subst kr. simpl. by destruct (Nat.eqb_spec (sharedContext ka) (contextBase ka)). }
    assert (ko = kb) as ->.
    { rewrite Hk1, lookup_app_l in Hko by (by eapply lookup_lt_Some). congruence. }
    assert (co = cb) as ->.
    { rewrite Hc1, lookup_app_l in Hco by (by eapply lookup_lt_Some). congruence. }
    assert (ct = ca) as -> by (rewrite Ekr in Hct; congruence).
    destruct Hc2 as [[E _]|(_ & c' & Hc' & Hc2)]; [by rewrite Ekr in E|].
    exists (mkKernel st (contextBase kr) (sharedContext kr)), c'.
    split; [rewrite Hk2; apply list_lookup_insert_eq; by eapply lookup_lt_Some|].
    split; [done|]. split; [done|].
    rewrite Hc2, Ekr. apply list_lookup_insert_eq. by eapply lookup_lt_Some.
Qed.

(** X15, witness: the two kernels of [sharedContextHeap] name context
    0, kernel 0 of [divergedHeap] owns its context. *)
Lemma clone_isolation_witness :
  exists r h1 h2,
    DotKernel.clone 0 divergedHeap = Ok (r, h1)
    /\ DotKernel.join codeUnitCompare r 1 h1 = Ok h2
    /\ kernels h2 !! 0%nat = kernels divergedHeap !! 0%nat
    /\ contexts h2 !! 0%nat = contexts divergedHeap !! 0%nat.
Proof.
  eexists _, _, _. split; [vm_compute; reflexivity|]. split; [vm_compute; reflexivity|].
  destruct (clone_isolation codeUnitCompare DeltaHelpers.repoJoinMethod divergedHeap
              _ _ 0 1 _ (mkKernel [("a:1", VStr "x"); ("b:2", VStr "y")] 0 0)
              (mkContext [("a", 1); ("b", 2)] []) eq_refl eq_refl eq_refl
              (or_introl eq_refl)) as (Hk & Hown & _).
  split; [exact Hk|]. exact (Hown eq_refl).
Defined.


(** ** [add], [dotAdd] and the delta of [add] *)

Lemma insertDot_member_inv c input d compactNow c' d' :
  wfCloud c -> Dot.toDot input = Ok d -> wfId (id d) = true ->
  DotContext.insertDot c input compactNow = Ok c' ->
  1 <= counter d' -> member c' d' = true ->
  d' = d \/ member c d' = true.
Proof.
  intros Hwf Hd Hid Hc' Hpos H.
  assert (Dot.fromString (Dot.toStringDot d) = Ok d) as Hcanon
    by (destruct d; by apply fromString_toString).
  pose proof Hc' as Hshape. apply insertDot_cloud in Hshape as (d0 & Hd0 & Hshape).
  assert (d0 = d) as -> by congruence.
  set (c1 := mkContext (compactCausalContext c)
                       (JsSet.add (Dot.toStringDot d) (dotCloud c))) in *.
  assert (member c1 d' = true) as H1.
  { destruct compactNow; [|by subst c'].
    eapply compact_member_inv; [|exact Hshape|done|done].
    intros s Hs. simpl in Hs. apply add_In in Hs as [->|Hs]; [|by apply Hwf].
    apply wfKey_spec. by exists d. }
  apply member_inv in H1 as [Hin|(k & Hk & Hle)].
  - simpl in Hin. apply add_In in Hin as [E|Hin].
    + left. by apply toStringDot_inj.
    + right. by apply member_cloud.
  - right. by eapply member_covered.
Qed.

(** X16.  [add] and [dotAdd] with a well-formed identifier, on a
    context whose count for it is a safe integer, return and make the
    dot [(id, CCC[id] + 1)], a missing or zero entry counting as 0.
    The storage of [this] gets the value under the string of that dot
    and is otherwise unchanged, the context of [this] gains the dot
    and loses none, and no other kernel is written.  The delta of [add]
    is a new kernel that holds this one entry, on a context of its own
    whose only dot is the new one. *)
Theorem add_effect (h : Heap) (a : nat) (ka : DotKernel) (ca : DotContext)
    (i : string) (v : Value) :
  kernels h !! a = Some ka ->
  contexts h !! sharedContext ka = Some ca ->
  wfId i = true ->
  safeInteger (cccOrZero ca i) = true ->
  exists dot res h' hd ka' kres cres ca',
    DotKernel.add a i v h = Ok (res, h')
    /\ DotKernel.dotAdd a i v h = Ok (dot, hd)
    /\ id dot = i /\ counter dot = cccOrZero ca i + 1
    /\ kernels h' !! a = Some ka' /\ kernels hd !! a = Some ka'
    /\ (forall key,
          JsMap.get key (dataStorage ka')
          = if String.eqb (Dot.toStringDot dot) key then Some v
            else JsMap.get key (dataStorage ka))
    /\ contexts h' !! sharedContext ka = Some ca'
    /\ contexts hd !! sharedContext ka = Some ca'
    /\ DotContext.dotIn ca' (InDot dot) = Ok true
    /\ (forall d, DotContext.dotIn ca (InDot d) = Ok true ->
                  DotContext.dotIn ca' (InDot d) = Ok true)
    /\ (forall j, j <> a -> (j < length (kernels h))%nat ->
                  kernels h' !! j = kernels h !! j /\ kernels hd !! j = kernels h !! j)
    /\ res = length (kernels h)
    /\ kernels h' !! res = Some kres
    /\ dataStorage kres = [(Dot.toStringDot dot, v)]
    /\ sharedContext kres = length (contexts h)
    /\ contexts h' !! sharedContext kres = Some cres
    /\ (forall d, 1 <= counter d ->
          DotContext.dotIn cres (InDot d) = Ok true <-> d = dot).
Proof.
  intros Hka Hca Hid Hsafe. apply Z.ltb_lt in Hsafe.
  destruct (add_facts h a ka ca i v Hka Hca Hid) as (rctx & h' & Hadd & _ & Hc' & Hk').
  destruct (add_shape _ _ _ _ _ _ _ _ Hka Hca Hadd) as (rctx0 & Hins & _ & Hc0 & _).
  assert (rctx0 = rctx) as ->.
  { rewrite Hc' in Hc0. by apply app_inv_head in Hc0 as [= ->]. }
  pose proof (lookup_lt_Some _ _ _ Hka) as Halt.
  pose proof (lookup_lt_Some _ _ _ Hca) as Hsalt.
  set (dot := fst (DotContext.makeDot ca i)) in *.
  set (ca' := snd (DotContext.makeDot ca i)) in *.
  set (ka' := mkKernel (JsMap.set (Dot.toStringDot dot) v (dataStorage ka))
                (contextBase ka) (sharedContext ka)) in *.
  assert (DotKernel.dotAdd a i v h
          = Ok (dot, mkHeap (<[sharedContext ka := ca']> (contexts h))
                            (<[a := ka']> (kernels h)))) as Hdot.
  { unfold DotKernel.dotAdd.
    rewrite (proj2 (getKernel_Ok _ _ _) Hka). cbn [bindO].
    rewrite (proj2 (getContext_Ok _ _ _) Hca). cbn [bindO].
    fold dot ca'. rewrite (surjective_pairing (DotContext.makeDot ca i)).
    fold dot ca'. unfold Heap.setContext.
    rewrite (setStorage_Ok _ _ _ ka) by done. done. }
  assert (forall x y, DotContext.dotIn x (InDot y) = Ok true <-> member x y = true) as Hm.
  { intros x y. rewrite (dotIn_member x (InDot y) y) by done.
    split; [congruence|by intros ->]. }
  exists dot, (length (kernels h)), h',
         (mkHeap (<[sharedContext ka := ca']> (contexts h)) (<[a := ka']> (kernels h))), ka',
         (mkKernel [(Dot.toStringDot dot, v)] (length (contexts h)) (length (contexts h))),
         rctx, ca'.
  split; [done|]. split; [exact Hdot|].
  split; [subst dot; by rewrite makeDot_dot|]. split.
  { subst dot. rewrite makeDot_dot. simpl. by apply plus_safe. }
  split.
  { rewrite Hk', lookup_app_l by (by rewrite length_insert).
    by apply list_lookup_insert_eq. }
  split; [by apply list_lookup_insert_eq|].
  split; [intros key; apply get_set|].
  split.
  { rewrite Hc', lookup_app_l by (by rewrite length_insert).
    by apply list_lookup_insert_eq. }
  split; [by apply list_lookup_insert_eq|].
  split; [apply Hm, makeDot_new_member|].
  split.
  { intros d Hd. apply Hm. apply Hm in Hd. apply makeDot_member; [|done].
    unfold boundedCounter. lia. }
  split.
  { intros j Hj Hjlt. cbn [kernels]. rewrite Hk'. split.
    - rewrite lookup_app_l by (by rewrite length_insert).
      by apply list_lookup_insert_ne.
    - by apply list_lookup_insert_ne. }
  split; [done|]. split.
  { rewrite Hk'. rewrite <- (length_insert (kernels h) a ka'). by apply list_lookup_middle. }
  split; [done|]. split; [done|]. split.
  { cbn [sharedContext]. rewrite Hc'.
    rewrite <- (length_insert (contexts h) (sharedContext ka) ca').
    by apply list_lookup_middle. }
  intros d Hpos. rewrite Hm. split.
  - intros H.
    destruct (insertDot_member_inv DotContext.empty (InDot dot) dot true rctx d)
      as [->|Hempty]; try done.
    by intros s [].
  - intros ->. by eapply insertDot_new_member.
Qed.

(** X16, witness: a third write of replica [n1]. *)
Lemma add_effect_witness :
  let h := mkHeap [mkContext [("n1", 2)] []] [mkKernel [("n1:2", VStr "A")] 0 0] in
  exists res h' ka',
    DotKernel.add 0 "n1" (VStr "B") h = Ok (res, h')
    /\ kernels h' !! 0%nat = Some ka'
    /\ JsMap.get "n1:3" (dataStorage ka') = Some (VStr "B")
    /\ JsMap.get "n1:2" (dataStorage ka') = Some (VStr "A").
Proof.
  intros h.
  destruct (add_effect h 0 (mkKernel [("n1:2", VStr "A")] 0 0) (mkContext [("n1", 2)] [])
              "n1" (VStr "B") eq_refl eq_refl eq_refl eq_refl)
    as (dot & res & h' & hd & ka' & kres & cres & ca' & Hadd & _ & Hid & Hcnt & Hka' & _
        & Hget & _).
  assert (dot = mkDot "n1" 3) as ->
    by (destruct dot as [i n]; simpl in Hid, Hcnt; subst; reflexivity).
  exists res, h', ka'. split; [done|]. split; [done|]. split; rewrite Hget; reflexivity.
Defined.


(** ** [reset] of a register *)

(** X17.  [reset] returns when the keys of the register read as dots;
    afterwards the register reads as the empty set, the context it
    names is the same as before, and the delta is an empty register
    whose context knows the dot of every key that was removed. *)
Theorem reset_empties (h : Heap) (this : MVReg) (kt : DotKernel) (ct : DotContext) :
  kernels h !! dotKernel this = Some kt ->
  contexts h !! sharedContext kt = Some ct ->
  (forall key, In key (JsMap.keys (dataStorage kt)) -> exists d, Dot.fromString key = Ok d) ->
  exists delta h' cref c,
    MVReg.reset this h = Ok (delta, h')
    /\ MVReg.read this h' = Ok []
    /\ MVReg.read delta h' = Ok []
    /\ MVReg.context this h' = Ok (sharedContext kt)
    /\ contexts h' !! sharedContext kt = Some ct
    /\ MVReg.context delta h' = Ok cref
    /\ contexts h' !! cref = Some c
    /\ forall key d,
         In key (JsMap.keys (dataStorage kt)) -> Dot.fromString key = Ok d ->
         DotContext.dotIn c (InDot d) = Ok true.
Proof.
  intros Hkt Hct Pk.
  pose proof (lookup_lt_Some _ _ _ Hkt) as Hklt.
  pose proof (lookup_lt_Some _ _ _ Hct) as Hclt.
  destruct (new_facts None h) as (h1 & Hnew & Hc1 & Hk1).
  assert (kernels h1 !! dotKernel this = Some kt) as Hkt1
    by (by rewrite Hk1, lookup_app_l).
  destruct (rmv_facts h1 (dotKernel this) kt VNull Hkt1 Pk)
    as (rctx1 & rctx & st' & h2 & Hrmv & Hins & Hcomp & Hc2 & Hk2 & Hget).
  assert (st' = []) as ->.
  { destruct st' as [|[k v] st']; [done|].
    specialize (Hget k). simpl in Hget. rewrite String.eqb_refl in Hget.
    rewrite has_keys_get in Hget.
    by destruct (JsMap.get k (dataStorage kt)). }
  assert (length (kernels h1) = S (length (kernels h))) as Hl1
    by (rewrite Hk1, length_app; simpl; lia).
  assert (length (contexts h1) = S (length (contexts h))) as Hl1c
    by (rewrite Hc1, length_app; simpl; lia).
  exists (mkMVReg (length (kernels h1)) None), h2, (length (contexts h1)), rctx.
  assert (kernels h2 !! dotKernel this
          = Some (mkKernel [] (contextBase kt) (sharedContext kt))) as Hthis.
  { rewrite Hk2, lookup_app_l by (rewrite length_insert; lia).
    apply list_lookup_insert_eq. lia. }
  assert (kernels h2 !! length (kernels h1)
          = Some (mkKernel [] (length (contexts h1)) (length (contexts h1)))) as Hdelta.
  { rewrite Hk2.
    rewrite <- (length_insert (kernels h1) (dotKernel this)
                  (mkKernel [] (contextBase kt) (sharedContext kt))) at 1.
    by apply list_lookup_middle. }
  split.
  { unfold MVReg.reset, MVReg.new. rewrite Hnew. cbn [bindO]. rewrite Hrmv. done. }
  split; [unfold MVReg.read; by rewrite (proj2 (getKernel_Ok _ _ _) Hthis)|].
  split; [unfold MVReg.read; cbn [dotKernel];
          by rewrite (proj2 (getKernel_Ok _ _ _) Hdelta)|].
  split; [unfold MVReg.context; by rewrite (proj2 (getKernel_Ok _ _ _) Hthis)|].
  split.
  { rewrite Hc2, lookup_app_l by lia. by rewrite Hc1, lookup_app_l. }
  split; [unfold MVReg.context; cbn [dotKernel];
          by rewrite (proj2 (getKernel_Ok _ _ _) Hdelta)|].
  split; [rewrite Hc2; by apply list_lookup_middle|].
  intros key d Hin Hd. rewrite (dotIn_member rctx (InDot d) d) by done. f_equal.
  eapply (delta_members (JsMap.keys (dataStorage kt)) rctx1 rctx d); [done|done|done|].
  by exists key.
Qed.

(** X17, witness: a register that holds two concurrent values. *)
Lemma reset_empties_witness :
  exists delta h',
    MVReg.reset (mkMVReg 0 (Some "n1")) multiValuedHeap = Ok (delta, h')
    /\ MVReg.read (mkMVReg 0 (Some "n1")) h' = Ok []
    /\ MVReg.read delta h' = Ok [].
Proof.
  destruct (reset_empties multiValuedHeap (mkMVReg 0 (Some "n1"))
              (mkKernel [("n1:1", VStr "A"); ("n2:1", VStr "B")] 0 0)
              (mkContext [("n1", 1); ("n2", 1)] []))
    as (delta & h' & cref & c & Hreset & Hread & Hdelta & _).
  - reflexivity.
  - reflexivity.
  - intros key [<-|[<-|[]]]; by eexists.
  - by exists delta, h'.
Defined.


(** ** The observed-remove set: properties and sets of tags *)

Lemma newSet_acc l acc x :
  In x (fold_left (fun s y => JsSet.add y s) l acc) <-> In x acc \/ In x l.
Proof.
  revert acc. induction l as [|y l IH]; intros acc; simpl; [tauto|].
  rewrite IH, add_In. intuition congruence.
Qed.

Lemma newSet_In l x : In x (ORSet.newSet l) <-> In x l.
Proof. unfold ORSet.newSet. rewrite newSet_acc. simpl. tauto. Qed.

Lemma get_insertIndex n k v (o : ORSet.TagMap) k' :
  JsMap.get k o = None ->
  JsMap.get k' (ORSet.insertIndex n k v o)
  = if String.eqb k k' then Some v else JsMap.get k' o.
Proof.
  induction o as [|[k0 v0] o IH]; simpl; intros Hk.
  - done.
  - destruct (String.eqb_spec k0 k) as [->|Hne0]; [done|].
    destruct (ORSet.arrayIndex k0) as [n0|]; [destruct (n0 <? n)|]; simpl;
      try done.
    rewrite IH by done.
    destruct (String.eqb_spec k0 k') as [->|_]; [|done].
    by destruct (String.eqb_spec k k') as [->|_].
Qed.

Lemma get_app_new {V : Type} (o : JsMap.t V) k v k' :
  JsMap.get k o = None ->
  JsMap.get k' (o ++ [(k, v)])%list
  = if String.eqb k k' then Some v else JsMap.get k' o.
Proof.
  induction o as [|[k0 v0] o IH]; simpl; intros Hk; [done|].
  destruct (String.eqb_spec k0 k) as [->|Hne0]; [done|].
  rewrite IH by done.
  destruct (String.eqb_spec k0 k') as [->|_]; [|done].
  by destruct (String.eqb_spec k k') as [->|_].
Qed.

Lemma get_setProp k v (o : ORSet.TagMap) k' :
  JsMap.get k' (ORSet.setProp k v o)
  = if String.eqb k k' then Some v else JsMap.get k' o.
Proof.
  unfold ORSet.setProp, JsMap.has.
  destruct (JsMap.get k o) eqn:E; [apply get_set|].
  destruct (ORSet.arrayIndex k); [by apply get_insertIndex|by apply get_app_new].
Qed.

Lemma insertIndex_perm n k v (o : ORSet.TagMap) :
  Permutation (ORSet.insertIndex n k v o) ((k, v) :: o).
Proof.
  induction o as [|[k0 v0] o IH]; simpl; [done|].
  destruct (ORSet.arrayIndex k0) as [n0|]; [destruct (n0 <? n)|]; try done.
  rewrite IH. apply perm_swap.
Qed.

Lemma keys_setProp k v (o : ORSet.TagMap) k' :
  In k' (JsMap.keys (ORSet.setProp k v o)) <-> k' = k \/ In k' (JsMap.keys o).
Proof.
  rewrite <- !has_keys. unfold JsMap.has. rewrite get_setProp.
  destruct (String.eqb_spec k k') as [->|Hne].
  - split; [by left|done].
  - split; [by right|]. intros [->|H]; done.
Qed.

Lemma setProp_NoDup k v (o : ORSet.TagMap) :
  NoDup (JsMap.keys o) -> NoDup (JsMap.keys (ORSet.setProp k v o)).
Proof.
  intros Hnd. unfold ORSet.setProp.
  destruct (JsMap.has k o) eqn:E; [by apply set_NoDup|].
  assert (NoDup (k :: JsMap.keys o)) as Hcons.
  { apply NoDup_cons. split; [|done]. intros Hin%list_elem_of_In%has_keys. congruence. }
  destruct (ORSet.arrayIndex k) as [n|].
  - assert (Permutation (JsMap.keys (ORSet.insertIndex n k v o)) (k :: JsMap.keys o))
      as ->; [|done].
    unfold JsMap.keys.
    change (k :: map fst o) with (map fst ((k, v) :: o)).
    apply Permutation_map, insertIndex_perm.
  - unfold JsMap.keys. rewrite map_app. simpl.
    by rewrite <- Permutation_cons_append.
Qed.

Lemma setProp_wf k v (o : ORSet.TagMap) :
  JsSet.has k ORSet.inheritedNames = false -> wfTagMap o ->
  wfTagMap (ORSet.setProp k v o).
Proof.
  intros Hk [Hnd Hplain]. split; [by apply setProp_NoDup|].
  intros k' [->|Hin]%keys_setProp; [done|by apply Hplain].
Qed.

Lemma tagsOf_setProp k v (o : ORSet.TagMap) item :
  tagsOf item (ORSet.setProp k v o) = if String.eqb k item then v else tagsOf item o.
Proof. unfold tagsOf. rewrite get_setProp. by destruct (String.eqb k item). Qed.

Lemma lookup_plain item (o : ORSet.TagMap) :
  JsSet.has item ORSet.inheritedNames = false ->
  ORSet.lookup item o = match JsMap.get item o with
                        | Some tags => ORSet.Own tags
                        | None => ORSet.Absent
                        end.
Proof. intros H. unfold ORSet.lookup. by rewrite H. Qed.

Lemma tagsOf_cons k v (o : ORSet.TagMap) item :
  tagsOf item ((k, v) :: o) = if String.eqb k item then v else tagsOf item o.
Proof. unfold tagsOf. simpl. by destruct (String.eqb k item). Qed.

Lemma tagsOf_absent item (o : ORSet.TagMap) :
  ~ In item (JsMap.keys o) -> tagsOf item o = [].
Proof.
  intros Hn. unfold tagsOf. destruct (JsMap.get item o) eqn:E; [|done].
  exfalso. apply Hn, has_keys. unfold JsMap.has. by rewrite E.
Qed.

Lemma wfTagMap_cons k v (o : ORSet.TagMap) :
  wfTagMap ((k, v) :: o) ->
  JsSet.has k ORSet.inheritedNames = false /\ ~ In k (JsMap.keys o) /\ wfTagMap o.
Proof.
  intros [Hnd Hplain]. simpl in Hnd. apply NoDup_cons in Hnd as [Hk Hnd].
  split; [apply Hplain; by left|]. split; [by rewrite <- list_elem_of_In|].
  split; [done|]. intros k' Hin. apply Hplain. by right.
Qed.

Lemma joinEntries_union entries o :
  wfTagMap entries -> wfTagMap o ->
  exists o', ORSet.joinEntries entries o = Ok o' /\ wfTagMap o'
    /\ forall item tag,
         In tag (tagsOf item o')
         <-> In tag (tagsOf item o) \/ In tag (tagsOf item entries).
Proof.
  revert o. induction entries as [|[k v] rest IH]; intros o We Wo.
  - exists o. split; [done|]. split; [done|]. intros item tag.
    unfold tagsOf at 3. simpl. tauto.
  - apply wfTagMap_cons in We as (Hk & Hfresh & Wrest).
    simpl. rewrite (lookup_plain k o Hk).
    set (o1 := match JsMap.get k o with
               | Some a => ORSet.setProp k (ORSet.newSet (a ++ v)) o
               | None => ORSet.setProp k (ORSet.newSet v) o
               end).
    assert (wfTagMap o1) as Wo1.
    { unfold o1. destruct (JsMap.get k o); by apply setProp_wf. }
    assert (forall item tag, In tag (tagsOf item o1)
              <-> In tag (tagsOf item o)
                  \/ In tag (if String.eqb k item then v else [])) as H1.
    { intros item tag. unfold o1.
      destruct (JsMap.get k o) as [a|] eqn:E; rewrite tagsOf_setProp;
        destruct (String.eqb_spec k item) as [<-|Hne]; simpl; try tauto.
      - rewrite newSet_In, in_app_iff. unfold tagsOf. by rewrite E.
      - rewrite newSet_In. unfold tagsOf. rewrite E. simpl. tauto. }
    destruct (IH o1 Wrest Wo1) as (o' & Ho' & Wo' & Hu).
    exists o'. split.
    { unfold o1 in Ho'. by destruct (JsMap.get k o). }
    split; [done|]. intros item tag.
    rewrite Hu, H1, tagsOf_cons.
    destruct (String.eqb_spec k item) as [<-|Hne]; simpl.
    + rewrite (tagsOf_absent k rest Hfresh). simpl. tauto.
    + tauto.
Qed.

Lemma live_spec (addTags remTags : JsSet.t) :
  existsb (fun tag => negb (JsSet.has tag remTags)) addTags = true
  <-> exists tag, In tag addTags /\ ~ In tag remTags.
Proof.
  rewrite existsb_exists. split; intros (tag & Hin & H); exists tag; split; try done.
  - apply set_has_false. by destruct (JsSet.has tag remTags).
  - apply set_has_false in H. by rewrite H.
Qed.

Lemma valueLoop_spec items rem :
  wfTagMap items ->
  exists result, ORSet.valueLoop items rem = Ok result
    /\ NoDup result
    /\ (forall item, In item result -> In item (JsMap.keys items))
    /\ forall item, In item result
         <-> exists tag, In tag (tagsOf item items) /\ ~ In tag (tagsOf item rem).
Proof.
  induction items as [|[k v] rest IH]; intros W.
  - exists []. split; [done|]. split; [constructor|]. split; [done|].
    intros item. simpl. split; [done|]. by intros (tag & [] & _).
  - apply wfTagMap_cons in W as (Hk & Hfresh & Wrest).
    destruct (IH Wrest) as (result & Hres & Hnd & Hsub & Hspec).
    simpl. rewrite (lookup_plain k rem Hk).
    set (b := existsb (fun tag => negb (JsSet.has tag (tagsOf k rem))) v).
    exists (if b then k :: result else result). split.
    { unfold b, tagsOf. destruct (JsMap.get k rem); by rewrite Hres. }
    assert (~ In k result) as Hkr by (intros H; by apply Hfresh, Hsub).
    split.
    { destruct b; [|done]. apply NoDup_cons. by rewrite list_elem_of_In. }
    split.
    { intros item Hin. destruct b; [destruct Hin as [<-|Hin]|]; auto. }
    intros item. rewrite tagsOf_cons.
    destruct (String.eqb_spec k item) as [<-|Hne].
    + rewrite <- live_spec. fold b. destruct b; simpl; [by split; auto|].
      split; [done|]. done.
    + rewrite <- Hspec. destruct b; simpl; [|done].
      split; [by intros [?|?]|by right].
Qed.

Lemma wfTagMap_nil : wfTagMap [].
Proof. split; [constructor|]. by intros k []. Qed.

Lemma wfTagMap_single item v :
  JsSet.has item ORSet.inheritedNames = false -> wfTagMap [(item, v)].
Proof.
  intros H. split; [apply NoDup_singleton|]. by intros k [<-|[]].
Qed.

Lemma setFresh_plain item v :
  JsSet.has item ORSet.inheritedNames = false -> ORSet.setFresh item v = [(item, v)].
Proof.
  intros H. unfold ORSet.setFresh.
  destruct (String.eqb_spec item "__proto__") as [->|_]; [|done].
  by vm_compute in H.
Qed.

Lemma orset_join_facts delta this :
  wfORSet delta -> wfORSet this ->
  exists s', ORSet.join delta this = Ok s' /\ wfORSet s'
    /\ (forall item tag,
          In tag (tagsOf item (ORSet.added s'))
          <-> In tag (tagsOf item (ORSet.added this))
              \/ In tag (tagsOf item (ORSet.added delta)))
    /\ (forall item tag,
          In tag (tagsOf item (ORSet.removed s'))
          <-> In tag (tagsOf item (ORSet.removed this))
              \/ In tag (tagsOf item (ORSet.removed delta))).
Proof.
  intros [Wda Wdr] [Wa Wr].
  destruct (joinEntries_union _ _ Wda Wa) as (a & Ha & Wa' & Hua).
  destruct (joinEntries_union _ _ Wdr Wr) as (r & Hr & Wr' & Hur).
  exists (ORSet.mk a r). unfold ORSet.join. rewrite Ha. cbn [bindO]. rewrite Hr.
  by cbn [bindO].
Qed.

Lemma orset_value_facts s :
  wfTagMap (ORSet.added s) ->
  exists items, ORSet.value s = Ok items /\ NoDup items
    /\ forall item, In item items <-> liveIn s item.
Proof.
  intros W. destruct (valueLoop_spec (ORSet.added s) (ORSet.removed s) W)
    as (items & Hv & Hnd & _ & Hspec).
  by exists items.
Qed.

Lemma orset_add_facts item tag s :
  JsSet.has item ORSet.inheritedNames = false ->
  exists d, ORSet.add item tag s = Ok d /\ wfORSet d
    /\ ORSet.removed d = []
    /\ forall j t, In t (tagsOf j (ORSet.added d))
         <-> j = item /\ (t = tag \/ In t (tagsOf item (ORSet.added s))).
Proof.
  intros Hi. unfold ORSet.add. rewrite (lookup_plain item _ Hi).
  destruct (JsMap.get item (ORSet.added s)) as [a|] eqn:E;
    rewrite (setFresh_plain item _ Hi); eexists; (split; [reflexivity|]);
    (split; [split; [by apply wfTagMap_single|apply wfTagMap_nil]|]);
    (split; [done|]); intros j t; simpl; rewrite tagsOf_cons;
    destruct (String.eqb_spec item j) as [<-|Hne];
    try (split; [done|by intros [-> _]]);
    rewrite newSet_In; unfold tagsOf; rewrite E.
  - rewrite in_app_iff. simpl. intuition congruence.
  - simpl. intuition congruence.
Qed.

Lemma orset_remove_facts item s :
  JsSet.has item ORSet.inheritedNames = false ->
  exists d, ORSet.remove item s = Ok d /\ wfORSet d
    /\ ORSet.added d = []
    /\ forall j t, In t (tagsOf j (ORSet.removed d))
         <-> j = item /\ In item (JsMap.keys (ORSet.added s))
             /\ (In t (tagsOf item (ORSet.added s))
                 \/ In t (tagsOf item (ORSet.removed s))).
Proof.
  intros Hi. unfold ORSet.remove. rewrite !(lookup_plain item _ Hi).
  destruct (JsMap.get item (ORSet.added s)) as [a|] eqn:E.
  - assert (In item (JsMap.keys (ORSet.added s))) as Hkey.
    { apply has_keys. unfold JsMap.has. by rewrite E. }
    destruct (JsMap.get item (ORSet.removed s)) as [r|] eqn:Er;
      rewrite (setFresh_plain item _ Hi); eexists; (split; [reflexivity|]);
      (split; [split; [apply wfTagMap_nil|by apply wfTagMap_single]|]);
      (split; [done|]); intros j t; simpl; rewrite tagsOf_cons;
      destruct (String.eqb_spec item j) as [<-|Hne];
      try (split; [done|by intros [-> _]]);
      rewrite newSet_In; unfold tagsOf; rewrite E, ?Er.
    + rewrite in_app_iff. tauto.
    + simpl. tauto.
  - exists ORSet.init. split; [done|].
    split; [split; apply wfTagMap_nil|]. split; [done|].
    intros j t. simpl. split; [done|]. intros (_ & Hkey & _).
    apply has_keys in Hkey. unfold JsMap.has in Hkey. by rewrite E in Hkey.
Qed.

Lemma wfTagMap_intro (o : ORSet.TagMap) :
  NoDup (JsMap.keys o) ->
  forallb (fun k => negb (JsSet.has k ORSet.inheritedNames)) (JsMap.keys o) = true ->
  wfTagMap o.
Proof.
  intros Hnd Hall. split; [done|]. intros k Hin.
  rewrite forallb_forall in Hall. specialize (Hall k Hin).
  by destruct (JsSet.has k ORSet.inheritedNames).
Qed.

Ltac wf_concrete :=
  repeat match goal with
  | |- wfORSet _ => split
  | |- wfTagMap _ =>
      apply wfTagMap_intro;
      [apply (bool_decide_unpack _); vm_compute; reflexivity
      |vm_compute; reflexivity]
  end.

Lemma replica0_wf : wfORSet replica0.
Proof. wf_concrete. Qed.

Lemma replica1_wf : wfORSet replica1.
Proof. wf_concrete. Qed.

(** X18. [join(delta)] unites, item by item, the tags of the delta with
    the tags of the set, for the added and for the removed tags; it
    raises nothing when neither holds a name of [Object.prototype], and
    the set it leaves holds none either. *)
Theorem orset_join_unites_tags delta this :
  wfORSet delta -> wfORSet this ->
  exists s', ORSet.join delta this = Ok s' /\ wfORSet s'
    /\ (forall item tag,
          In tag (tagsOf item (ORSet.added s'))
          <-> In tag (tagsOf item (ORSet.added this))
              \/ In tag (tagsOf item (ORSet.added delta)))
    /\ (forall item tag,
          In tag (tagsOf item (ORSet.removed s'))
          <-> In tag (tagsOf item (ORSet.removed this))
              \/ In tag (tagsOf item (ORSet.removed delta))).
Proof. apply orset_join_facts. Qed.

Lemma orset_join_unites_tags_witness :
  wfORSet replica1 /\ wfORSet replica0
  /\ exists s', ORSet.join replica1 replica0 = Ok s' /\ wfORSet s'
    /\ (forall item tag,
          In tag (tagsOf item (ORSet.added s'))
          <-> In tag (tagsOf item (ORSet.added replica0))
              \/ In tag (tagsOf item (ORSet.added replica1)))
    /\ (forall item tag,
          In tag (tagsOf item (ORSet.removed s'))
          <-> In tag (tagsOf item (ORSet.removed replica0))
              \/ In tag (tagsOf item (ORSet.removed replica1))).
Proof.
  split; [apply replica1_wf|]. split; [apply replica0_wf|].
  apply (orset_join_unites_tags replica1 replica0); [apply replica1_wf|apply replica0_wf].
Defined.

(** X19. The getter [value] lists each item once, and lists exactly the
    items that have an added tag which is not among their removed
    tags. *)
Theorem orset_value_lists_live_items s :
  wfTagMap (ORSet.added s) ->
  exists items, ORSet.value s = Ok items /\ NoDup items
    /\ forall item, In item items <-> liveIn s item.
Proof. apply orset_value_facts. Qed.

Lemma orset_value_lists_live_items_witness :
  wfTagMap (ORSet.added replica0)
  /\ exists items, ORSet.value replica0 = Ok items /\ NoDup items
       /\ forall item, In item items <-> liveIn replica0 item.
Proof.
  split; [apply replica0_wf|].
  apply (orset_value_lists_live_items replica0), replica0_wf.
Defined.

(** X20. Adding an item with a tag that is not among the item's removed
    tags and joining the delta puts the item in the value; every other
    item is listed as before. *)
Theorem orset_add_then_join item tag s :
  wfORSet s ->
  JsSet.has item ORSet.inheritedNames = false ->
  ~ In tag (tagsOf item (ORSet.removed s)) ->
  exists d s' items,
    ORSet.add item tag s = Ok d /\ ORSet.join d s = Ok s' /\ wfORSet s'
    /\ ORSet.value s' = Ok items /\ In item items
    /\ forall j, j <> item -> (In j items <-> liveIn s j).
Proof.
  intros W Hi Hfresh.
  destruct (orset_add_facts item tag s Hi) as (d & Hd & Wd & Hdr & Hda).
  destruct (orset_join_facts d s Wd W) as (s' & Hs' & Ws' & Hua & Hur).
  destruct (orset_value_facts s' (proj1 Ws')) as (items & Hv & _ & Hspec).
  exists d, s', items. do 4 (split; [done|]).
  assert (forall j t, In t (tagsOf j (ORSet.removed s'))
                      <-> In t (tagsOf j (ORSet.removed s))) as Hrem.
  { intros j t. rewrite Hur, Hdr. unfold tagsOf at 3. simpl. tauto. }
  split.
  - apply Hspec. exists tag. split.
    + apply Hua. right. apply Hda. auto.
    + by rewrite Hrem.
  - intros j Hne. rewrite Hspec. unfold liveIn.
    split; intros (t & Hin & Hnot); exists t; rewrite Hrem in *; split; try done.
    + apply Hua in Hin as [Hin|Hin]; [done|]. apply Hda in Hin as [-> _]. done.
    + apply Hua. by left.
Qed.

Lemma orset_add_then_join_witness :
  wfORSet replica0
  /\ JsSet.has "a" ORSet.inheritedNames = false
  /\ ~ In "t3" (tagsOf "a" (ORSet.removed replica0))
  /\ exists d s' items,
       ORSet.add "a" "t3" replica0 = Ok d /\ ORSet.join d replica0 = Ok s'
       /\ wfORSet s'
       /\ ORSet.value s' = Ok items /\ In "a" items
       /\ forall j, j <> "a" -> (In j items <-> liveIn replica0 j).
Proof.
  assert (~ In "t3" (tagsOf "a" (ORSet.removed replica0))) as H.
  { vm_compute. intros [E|[]]. discriminate E. }
  split; [apply replica0_wf|]. split; [reflexivity|]. split; [exact H|].
  exact (orset_add_then_join "a" "t3" replica0 replica0_wf eq_refl H).
Defined.

(** X21. Removing an item and joining the delta takes the item out of
    the value, whatever tags it had; every other item is listed as
    before. *)
Theorem orset_remove_then_join item s :
  wfORSet s ->
  JsSet.has item ORSet.inheritedNames = false ->
  exists d s' items,
    ORSet.remove item s = Ok d /\ ORSet.join d s = Ok s' /\ wfORSet s'
    /\ ORSet.value s' = Ok items /\ ~ In item items
    /\ forall j, j <> item -> (In j items <-> liveIn s j).
Proof.
  intros W Hi.
  destruct (orset_remove_facts item s Hi) as (d & Hd & Wd & Hda & Hdr).
  destruct (orset_join_facts d s Wd W) as (s' & Hs' & Ws' & Hua & Hur).
  destruct (orset_value_facts s' (proj1 Ws')) as (items & Hv & _ & Hspec).
  exists d, s', items. do 4 (split; [done|]).
  assert (forall j t, In t (tagsOf j (ORSet.added s'))
                      <-> In t (tagsOf j (ORSet.added s))) as Hadd.
  { intros j t. rewrite Hua, Hda. unfold tagsOf at 3. simpl. tauto. }
  split.
  - rewrite Hspec. intros (t & Hin & Hnot). apply Hnot, Hur. right.
    apply Hdr. rewrite Hadd in Hin. split; [done|]. split; [|by left].
    destruct (in_dec string_dec item (JsMap.keys (ORSet.added s))) as [|Hn]; [done|].
    by rewrite (tagsOf_absent _ _ Hn) in Hin.
  - intros j Hne. rewrite Hspec. unfold liveIn.
    split; intros (t & Hin & Hnot); exists t; rewrite Hadd in *; split; try done.
    + intros Hr. apply Hnot, Hur. by left.
    + intros [Hr|Hr]%Hur; [done|]. apply Hdr in Hr as [-> _]. done.
Qed.

Lemma orset_remove_then_join_witness :
  wfORSet replica0
  /\ JsSet.has "b" ORSet.inheritedNames = false
  /\ exists d s' items,
       ORSet.remove "b" replica0 = Ok d /\ ORSet.join d replica0 = Ok s'
       /\ wfORSet s'
       /\ ORSet.value s' = Ok items /\ ~ In "b" items
       /\ forall j, j <> "b" -> (In j items <-> liveIn replica0 j).
Proof.
  split; [apply replica0_wf|]. split; [reflexivity|].
  exact (orset_remove_then_join "b" replica0 replica0_wf eq_refl).
Defined.

(** X22. Add wins: when one replica adds an item under a tag the other
    replica has not seen while the other removes the item, the item is
    in the value of both once each has joined the other's state. *)
Theorem orset_add_wins item tag a b :
  wfORSet a -> wfORSet b ->
  JsSet.has item ORSet.inheritedNames = false ->
  ~ In tag (tagsOf item (ORSet.removed a)) ->
  ~ In tag (tagsOf item (ORSet.added b)) ->
  ~ In tag (tagsOf item (ORSet.removed b)) ->
  exists da a1 db b1 a2 b2 va vb,
    ORSet.add item tag a = Ok da /\ ORSet.join da a = Ok a1
    /\ ORSet.remove item b = Ok db /\ ORSet.join db b = Ok b1
    /\ ORSet.join b1 a1 = Ok a2 /\ ORSet.join a2 b1 = Ok b2
    /\ ORSet.value a2 = Ok va /\ ORSet.value b2 = Ok vb
    /\ In item va /\ In item vb.
Proof.
  intros Wa Wb Hi Hra Hab Hrb.
  destruct (orset_add_facts item tag a Hi) as (da & Hda & Wda & Hdar & Hdaa).
  destruct (orset_join_facts da a Wda Wa) as (a1 & Ha1 & Wa1 & Ha1a & Ha1r).
  destruct (orset_remove_facts item b Hi) as (db & Hdb & Wdb & Hdba & Hdbr).
  destruct (orset_join_facts db b Wdb Wb) as (b1 & Hb1 & Wb1 & Hb1a & Hb1r).
  destruct (orset_join_facts b1 a1 Wb1 Wa1) as (a2 & Ha2 & Wa2 & Ha2a & Ha2r).
  destruct (orset_join_facts a2 b1 Wa2 Wb1) as (b2 & Hb2 & Wb2 & Hb2a & Hb2r).
  destruct (orset_value_facts a2 (proj1 Wa2)) as (va & Hva & _ & Hsa).
  destruct (orset_value_facts b2 (proj1 Wb2)) as (vb & Hvb & _ & Hsb).
  exists da, a1, db, b1, a2, b2, va, vb. do 8 (split; [done|]).
  assert (In tag (tagsOf item (ORSet.added a1))) as Hin1.
  { apply Ha1a. right. apply Hdaa. auto. }
  assert (~ In tag (tagsOf item (ORSet.removed a1))) as Hn1.
  { rewrite Ha1r, Hdar. unfold tagsOf at 2. simpl. tauto. }
  assert (~ In tag (tagsOf item (ORSet.removed b1))) as Hn2.
  { rewrite Hb1r, Hdbr. tauto. }
  assert (~ In tag (tagsOf item (ORSet.removed a2))) as Hn3.
  { rewrite Ha2r. tauto. }
  split.
  - apply Hsa. exists tag. split; [|done]. apply Ha2a. by left.
  - apply Hsb. exists tag. split.
    + apply Hb2a. right. apply Ha2a. by left.
    + rewrite Hb2r. tauto.
Qed.

Lemma orset_add_wins_witness :
  wfORSet replica0 /\ wfORSet replica1
  /\ JsSet.has "b" ORSet.inheritedNames = false
  /\ ~ In "t9" (tagsOf "b" (ORSet.removed replica0))
  /\ ~ In "t9" (tagsOf "b" (ORSet.added replica1))
  /\ ~ In "t9" (tagsOf "b" (ORSet.removed replica1))
  /\ exists da a1 db b1 a2 b2 va vb,
       ORSet.add "b" "t9" replica0 = Ok da /\ ORSet.join da replica0 = Ok a1
       /\ ORSet.remove "b" replica1 = Ok db /\ ORSet.join db replica1 = Ok b1
       /\ ORSet.join b1 a1 = Ok a2 /\ ORSet.join a2 b1 = Ok b2
       /\ ORSet.value a2 = Ok va /\ ORSet.value b2 = Ok vb
       /\ In "b" va /\ In "b" vb.
Proof.
  assert (~ In "t9" (tagsOf "b" (ORSet.removed replica0))) as H1.
  { vm_compute. tauto. }
  assert (~ In "t9" (tagsOf "b" (ORSet.added replica1))) as H2.
  { vm_compute. intros [E|[]]. discriminate E. }
  assert (~ In "t9" (tagsOf "b" (ORSet.removed replica1))) as H3.
  { vm_compute. intros [E|[]]. discriminate E. }
  split; [apply replica0_wf|]. split; [apply replica1_wf|].
  split; [reflexivity|]. split; [exact H1|]. split; [exact H2|]. split; [exact H3|].
  exact (orset_add_wins "b" "t9" replica0 replica1 replica0_wf replica1_wf
           eq_refl H1 H2 H3).
Defined.

(** X23. Synchronisation converges: after [a.join(b)] and then
    [b.join(a)] the two sets hold the same tags for every item and list
    the same items. *)
Theorem orset_sync_converges a b :
  wfORSet a -> wfORSet b ->
  exists a' b' va vb,
    ORSet.join b a = Ok a' /\ ORSet.join a' b = Ok b'
    /\ ORSet.value a' = Ok va /\ ORSet.value b' = Ok vb
    /\ (forall item tag,
          (In tag (tagsOf item (ORSet.added a'))
           <-> In tag (tagsOf item (ORSet.added b')))
          /\ (In tag (tagsOf item (ORSet.removed a'))
              <-> In tag (tagsOf item (ORSet.removed b'))))
    /\ Permutation va vb.
Proof.
  intros Wa Wb.
  destruct (orset_join_facts b a Wb Wa) as (a' & Ha' & Wa' & Haa & Har).
  destruct (orset_join_facts a' b Wa' Wb) as (b' & Hb' & Wb' & Hba & Hbr).
  destruct (orset_value_facts a' (proj1 Wa')) as (va & Hva & Hnda & Hsa).
  destruct (orset_value_facts b' (proj1 Wb')) as (vb & Hvb & Hndb & Hsb).
  exists a', b', va, vb. do 4 (split; [done|]).
  assert (forall item tag,
            (In tag (tagsOf item (ORSet.added a'))
             <-> In tag (tagsOf item (ORSet.added b')))
            /\ (In tag (tagsOf item (ORSet.removed a'))
                <-> In tag (tagsOf item (ORSet.removed b')))) as Hsame.
  { intros item tag. rewrite Hba, Hbr, Haa, Har. tauto. }
  split; [done|].
  apply NoDup_Permutation; [done|done|].
  intros item. rewrite !list_elem_of_In, Hsa, Hsb. unfold liveIn.
  split; intros (t & Hin & Hnot); exists t; split;
    try (by apply Hsame); intros H; by apply Hnot, Hsame.
Qed.

Lemma orset_sync_converges_witness :
  wfORSet replica0 /\ wfORSet replica1
  /\ exists a' b' va vb,
       ORSet.join replica1 replica0 = Ok a' /\ ORSet.join a' replica1 = Ok b'
       /\ ORSet.value a' = Ok va /\ ORSet.value b' = Ok vb
       /\ (forall item tag,
             (In tag (tagsOf item (ORSet.added a'))
              <-> In tag (tagsOf item (ORSet.added b')))
             /\ (In tag (tagsOf item (ORSet.removed a'))
                 <-> In tag (tagsOf item (ORSet.removed b'))))
       /\ Permutation va vb.
Proof.
  split; [apply replica0_wf|]. split; [apply replica1_wf|].
  exact (orset_sync_converges replica0 replica1 replica0_wf replica1_wf).
Defined.

(** X24. A set that holds no name of [Object.prototype] cannot take one:
    [add] and [remove] of such a name ("constructor", "toString",
    "__proto__", ...) raise a TypeError, because the lookup finds the
    inherited member instead of a set of tags. *)
Theorem orset_inherited_name_raises item tag s :
  wfORSet s ->
  JsSet.has item ORSet.inheritedNames = true ->
  ORSet.add item tag s = Throw TypeError
  /\ ORSet.remove item s = Throw TypeError.
Proof.
  intros [[_ Hplain] _] Hi.
  assert (ORSet.lookup item (ORSet.added s) = ORSet.Inherited) as Hl.
  { unfold ORSet.lookup. destruct (JsMap.get item (ORSet.added s)) eqn:E.
    - assert (In item (JsMap.keys (ORSet.added s))) as Hin.
      { apply has_keys. unfold JsMap.has. by rewrite E. }
      apply Hplain in Hin. congruence.
    - by rewrite Hi. }
  unfold ORSet.add, ORSet.remove. by rewrite Hl.
Qed.

Lemma orset_inherited_name_raises_witness :
  wfORSet replica0
  /\ JsSet.has "constructor" ORSet.inheritedNames = true
  /\ ORSet.add "constructor" "t3" replica0 = Throw TypeError
  /\ ORSet.remove "constructor" replica0 = Throw TypeError.
Proof.
  split; [apply replica0_wf|]. split; [reflexivity|].
  exact (orset_inherited_name_raises "constructor" "t3" replica0 replica0_wf eq_refl).
Defined.

Lemma spread_acc (l acc : ORSet.TagMap) k :
  NoDup (JsMap.keys l) ->
  JsMap.get k (fold_left (fun acc kv => ORSet.setProp (fst kv) (snd kv) acc) l acc)
  = match JsMap.get k l with
    | Some v => Some v
    | None => JsMap.get k acc
    end.
Proof.
  revert acc. induction l as [|[k0 v0] l IH]; intros acc Hnd; [done|].
  simpl in Hnd. apply NoDup_cons in Hnd as [Hk0 Hnd].
  cbn [fold_left fst snd]. rewrite (IH _ Hnd), get_setProp. simpl.
  destruct (String.eqb_spec k0 k) as [->|Hne]; [|done].
  destruct (JsMap.get k l) eqn:E; [|done].
  exfalso. apply Hk0, list_elem_of_In, has_keys. unfold JsMap.has. by rewrite E.
Qed.

Lemma spread_get (o : ORSet.TagMap) k :
  NoDup (JsMap.keys o) -> JsMap.get k (ORSet.spread o) = JsMap.get k o.
Proof.
  intros Hnd. unfold ORSet.spread. rewrite (spread_acc o [] k Hnd).
  by destruct (JsMap.get k o).
Qed.

Lemma spread_keys_acc (l acc : ORSet.TagMap) :
  NoDup (JsMap.keys acc) ->
  NoDup (JsMap.keys
           (fold_left (fun acc kv => ORSet.setProp (fst kv) (snd kv) acc) l acc)).
Proof.
  revert acc. induction l as [|[k0 v0] l IH]; intros acc Hnd; [done|].
  cbn [fold_left fst snd]. by apply IH, setProp_NoDup.
Qed.

Lemma spread_wf (o : ORSet.TagMap) : wfTagMap o -> wfTagMap (ORSet.spread o).
Proof.
  intros [Hnd Hplain]. split.
  - apply spread_keys_acc. constructor.
  - intros k Hin. apply Hplain. apply has_keys. apply has_keys in Hin.
    unfold JsMap.has in *. by rewrite spread_get in Hin.
Qed.

(** X25. The constructor copies the two fields it is given: the new set
    has, for every item, the tags of the original, and its value lists
    the same items. *)
Theorem orset_constructor_copies s :
  wfORSet s ->
  let c := ORSet.new (ORSet.added s) (ORSet.removed s) in
  wfORSet c
  /\ (forall item, tagsOf item (ORSet.added c) = tagsOf item (ORSet.added s)
                   /\ tagsOf item (ORSet.removed c) = tagsOf item (ORSet.removed s))
  /\ exists vs vc, ORSet.value s = Ok vs /\ ORSet.value c = Ok vc
                   /\ Permutation vs vc.
Proof.
  intros [Wa Wr] c.
  assert (wfORSet c) as Wc by (split; by apply spread_wf).
  assert (forall item, tagsOf item (ORSet.added c) = tagsOf item (ORSet.added s)
                   /\ tagsOf item (ORSet.removed c) = tagsOf item (ORSet.removed s))
    as Hsame.
  { intros item. unfold tagsOf, c. simpl.
    by rewrite (spread_get _ item (proj1 Wa)), (spread_get _ item (proj1 Wr)). }
  split; [done|]. split; [done|].
  destruct (orset_value_facts s Wa) as (vs & Hvs & Hnds & Hss).
  destruct (orset_value_facts c (proj1 Wc)) as (vc & Hvc & Hndc & Hsc).
  exists vs, vc. split; [done|]. split; [done|].
  apply NoDup_Permutation; [done|done|].
  intros item. rewrite !list_elem_of_In, Hss, Hsc. unfold liveIn.
  destruct (Hsame item) as [-> ->]. done.
Qed.

Lemma orset_constructor_copies_witness :
  wfORSet replica1
  /\ let c := ORSet.new (ORSet.added replica1) (ORSet.removed replica1) in
     wfORSet c
     /\ (forall item,
           tagsOf item (ORSet.added c) = tagsOf item (ORSet.added replica1)
           /\ tagsOf item (ORSet.removed c) = tagsOf item (ORSet.removed replica1))
     /\ exists vs vc, ORSet.value replica1 = Ok vs /\ ORSet.value c = Ok vc
                      /\ Permutation vs vc.
Proof.
  split; [apply replica1_wf|].
  exact (orset_constructor_copies replica1 replica1_wf).
Defined.


(** ** A write delivered to another replica *)

Lemma delete_NoDup {V : Type} (m : JsMap.t V) k :
  NoDup (JsMap.keys m) -> NoDup (JsMap.keys (JsMap.delete k m)).
Proof.
  induction m as [|[k0 v0] m IH]; simpl; [done|]. intros Hnd.
  apply NoDup_cons in Hnd as [Hk0 Hnd].
  destruct (String.eqb k0 k); [by apply IH|]. simpl.
  apply NoDup_cons. split; [|by apply IH].
  intros Hin%list_elem_of_In%keys_delete. apply Hk0, list_elem_of_In, Hin.
Qed.

Lemma joinLoop_NoDup lc thisCtx otherCtx otherStorage ts :
  forall os st st',
    DotKernel.joinLoop lc thisCtx otherCtx otherStorage ts os st = Ok st' ->
    NoDup (JsMap.keys st) -> NoDup (JsMap.keys st').
Proof.
  induction ts as [|x ts IHt]; intros os;
    induction os as [|y os IHo]; intros st st'.
  - rewrite joinLoop_nil_nil. by intros [= <-].
  - rewrite joinLoop_nil_cons. intros H Hnd.
    bind_inv H as known Hk. apply (IHo _ _ H).
    destruct known; [done|by apply set_NoDup].
  - rewrite joinLoop_cons_nil. intros H Hnd.
    bind_inv H as known Hk. apply (IHt _ _ _ H).
    destruct known; [by apply delete_NoDup|done].
  - rewrite joinLoop_cons_cons. destruct (Js.stringLt x y).
    + intros H Hnd. bind_inv H as known Hk. apply (IHt _ _ _ H).
      destruct known; [by apply delete_NoDup|done].
    + intros H Hnd. bind_inv H as c Hc. destruct (c <? 0).
      * bind_inv H as known Hk. apply (IHo _ _ H).
        destruct known; [done|by apply set_NoDup].
      * by apply (IHt _ _ _ H).
Qed.

(** [this.join(other)] of two distinct kernels: the heap afterwards,
    with the storage given by [merged] and the context by the join of
    the two contexts. *)
Lemma join_merged_facts lc h a b ka kb ca cb :
  strictCollation lc -> a <> b ->
  kernels h !! a = Some ka -> kernels h !! b = Some kb ->
  contexts h !! sharedContext ka = Some ca ->
  contexts h !! sharedContext kb = Some cb ->
  wfStorage (dataStorage ka) -> wfStorage (dataStorage kb) ->
  cloudParses ca -> cloudParses cb ->
  (forall x y, In x (JsMap.keys (dataStorage ka)) -> In y (JsMap.keys (dataStorage kb)) ->
     Js.stringLt x y = keyLtb lc x y) ->
  exists h' st c',
    DotKernel.join lc a b h = Ok h'
    /\ DotContext.join ca cb = Ok c'
    /\ kernels h' = <[a := mkKernel st (contextBase ka) (sharedContext ka)]> (kernels h)
    /\ contexts h'
       = (if Nat.eqb (sharedContext ka) (sharedContext kb) then contexts h
          else <[sharedContext ka := c']> (contexts h))
    /\ NoDup (JsMap.keys st)
    /\ forall key,
         JsMap.get key st
         = merged ca cb (dataStorage kb) (JsMap.keys (dataStorage ka))
                  (JsMap.keys (dataStorage kb)) (dataStorage ka) key.
Proof.
  intros Hlc Hne Hka Hkb Hca Hcb [NDa Wa] [NDb Wb] Pca Pcb Hagree.
  assert (forall k, In k (JsMap.keys (dataStorage ka)) -> exists d, Dot.fromString k = Ok d)
    as Pa by (intros k Hk; apply Wa, wfKey_spec in Hk as (d & Hd & _); by exists d).
  assert (forall k, In k (JsMap.keys (dataStorage kb)) -> exists d, Dot.fromString k = Ok d)
    as Pb by (intros k Hk; apply Wb, wfKey_spec in Hk as (d & Hd & _); by exists d).
  destruct (sortKeys_total lc _ Pa) as (ts & Hts).
  destruct (sortKeys_total lc _ Pb) as (os & Hos).
  destruct (joinLoop_merged lc Hlc ca cb (dataStorage kb) ts os (dataStorage ka))
    as (st & Hst & Hget).
  { by apply (sortKeys_sorted lc (JsMap.keys (dataStorage ka))). }
  { by apply (sortKeys_sorted lc (JsMap.keys (dataStorage kb))). }
  { intros x Hx. apply Wa. by apply (sortKeys_In lc _ _ x Hts). }
  { intros y Hy. apply Wb. by apply (sortKeys_In lc _ _ y Hos). }
  { intros x y Hx Hy.
    apply Hagree; [by apply (sortKeys_In lc _ _ x Hts)|by apply (sortKeys_In lc _ _ y Hos)]. }
  destruct (contextJoin_total ca cb Pca Pcb) as (c' & Hc' & _).
  destruct (join_facts lc a b h ka kb ts os ca cb st c')
    as (h' & Hjoin & Hk' & Hcs'); try done.
  exists h', st, c'. do 4 (split; [done|]). split.
  { by eapply joinLoop_NoDup. }
  intros key. rewrite Hget. apply merged_perm; by eapply sortKeys_perm.
Qed.

Lemma storage_single (st : JsMap.t Value) key v :
  NoDup (JsMap.keys st) ->
  (forall x, JsMap.get x st = if String.eqb key x then Some v else None) ->
  st = [(key, v)].
Proof.
  intros Hnd Hget. destruct st as [|[k0 v0] st].
  - specialize (Hget key). rewrite String.eqb_refl in Hget. done.
  - pose proof (Hget k0) as H0. simpl in H0. rewrite String.eqb_refl in H0.
    destruct (String.eqb_spec key k0) as [<-|Hne]; [|done]. injection H0 as ->.
    destruct st as [|[k1 v1] st]; [done|]. exfalso.
    simpl in Hnd. apply NoDup_cons in Hnd as [Hk Hnd].
    assert (key <> k1) as Hne.
    { intros ->. apply Hk. apply list_elem_of_In. by left. }
    pose proof (Hget k1) as H1. simpl in H1.
    destruct (String.eqb_spec key k1) as [|_]; [done|].
    by rewrite String.eqb_refl in H1.
Qed.

(** The join of the two deltas that [write] makes: the delta of [rmv],
    with an empty storage, takes the one entry of the delta of [add]
    unless its context knows the dot. *)
Lemma join_deltas_facts lc h rk ak kr ka cr ca key v d :
  rk <> ak ->
  kernels h !! rk = Some kr -> kernels h !! ak = Some ka ->
  dataStorage kr = [] -> dataStorage ka = [(key, v)] ->
  Dot.fromString key = Ok d ->
  contexts h !! sharedContext kr = Some cr -> contexts h !! sharedContext ka = Some ca ->
  sharedContext kr <> sharedContext ka ->
  cloudParses cr -> cloudParses ca ->
  exists c',
    DotContext.join cr ca = Ok c'
    /\ DotKernel.join lc rk ak h
       = Ok (mkHeap (<[sharedContext kr := c']> (contexts h))
                    (<[rk := mkKernel (if member cr d then [] else [(key, v)])
                                      (contextBase kr) (sharedContext kr)]> (kernels h))).
Proof.
  intros Hne Hkr Hka Hsr Hsa Hd Hcr Hca Hctx Hpr Hpa.
  destruct (contextJoin_total cr ca Hpr Hpa) as (c' & Hc' & _).
  exists c'. split; [done|].
  unfold DotKernel.join. destruct (Nat.eqb_spec rk ak) as [|_]; [done|].
  unfold Heap.getKernel, Heap.getContext. rewrite Hkr, Hka. cbn [bindO].
  rewrite Hsr, Hsa. cbn [JsMap.keys map fst Dot.sortKeys bindO].
  rewrite Hcr, Hca. cbn [bindO].
  change (DotKernel.joinLoop lc cr ca [(key, v)] [] [key] [])
    with (let! known := DotContext.dotIn cr (InStr key) in
          Ok (if known then []
              else JsMap.set key (DotKernel.getValue key [(key, v)]) [])).
  rewrite (dotIn_member cr (InStr key) d Hd). cbn [bindO].
  rewrite setStorage_Ok with (k := kr) by done. cbn [bindO].
  unfold DotKernel.joinContexts.
  destruct (Nat.eqb_spec (sharedContext kr) (sharedContext ka)) as [|_]; [done|].
  unfold Heap.getContext. cbn [contexts]. rewrite Hcr, Hca. cbn [bindO].
  rewrite Hc'. cbn [bindO]. unfold Heap.setContext. cbn [contexts kernels].
  do 3 f_equal. destruct (member cr d); [done|].
  unfold DotKernel.getValue. simpl. by rewrite String.eqb_refl.
Qed.

(** [write]: the delta register and the heap afterwards.  The delta is
    the third of the four kernels that the call makes; its context is
    the join of the context of the removed dots and the context of the
    new dot. *)
Lemma write_facts lc h this i kt ct v :
  regId this = Some i -> wfId i = true ->
  kernels h !! dotKernel this = Some kt ->
  contexts h !! sharedContext kt = Some ct ->
  (forall key, In key (JsMap.keys (dataStorage kt)) -> exists d, Dot.fromString key = Ok d) ->
  let dot := fst (DotContext.makeDot ct i) in
  let key := Dot.toStringDot dot in
  exists rctx1 rctx actx dctx h',
    DotKernel.insertDots (JsMap.keys (dataStorage kt)) DotContext.empty = Ok rctx1
    /\ DotContext.compact rctx1 = Ok rctx
    /\ DotContext.insertDot DotContext.empty (InDot dot) true = Ok actx
    /\ DotContext.join rctx actx = Ok dctx
    /\ MVReg.write lc this v h = Ok (mkMVReg (length (kernels h) + 2) None, h')
    /\ kernels h' !! (length (kernels h) + 2)%nat
       = Some (mkKernel (if member rctx dot then [] else [(key, v)])
                        (length (contexts h) + 2) (length (contexts h) + 2))
    /\ contexts h' !! (length (contexts h) + 2)%nat = Some dctx
    /\ kernels h' !! dotKernel this
       = Some (mkKernel [(key, v)] (contextBase kt) (sharedContext kt))
    /\ contexts h' !! sharedContext kt = Some (snd (DotContext.makeDot ct i))
    /\ (forall j, (j < length (kernels h))%nat -> j <> dotKernel this ->
          kernels h' !! j = kernels h !! j)
    /\ (forall c, (c < length (contexts h))%nat -> c <> sharedContext kt ->
          contexts h' !! c = contexts h !! c).
Proof.
  intros Hid Hi Hkt Hctx Hkeys dot key. destruct this as [k regid].
  cbn [dotKernel regId] in *. subst regid.
  assert (Hlt : (k < length (kernels h))%nat) by (by eapply lookup_lt_Some).
  assert (Hs : (sharedContext kt < length (contexts h))%nat) by (by eapply lookup_lt_Some).
  unfold MVReg.write, MVReg.new. cbn [regId dotKernel].
  destruct (new_facts None h) as (h1 & -> & Hc1 & Hk1).
  destruct (new_facts None h1) as (h2 & -> & Hc2 & Hk2).
  assert (Hkt2 : kernels h2 !! k = Some kt).
  { rewrite Hk2. rewrite lookup_app_l by heap_lengths.
    rewrite Hk1. by rewrite lookup_app_l by heap_lengths. }
  destruct (rmv_facts h2 k kt VNull Hkt2 Hkeys)
    as (rctx1 & rctx & st0 & h3 & Hrmv & Hins & Hcomp & Hc3 & _ & _).
  destruct (rmv_shape _ _ _ _ _ _ Hkt2 Hrmv) as (rctx0 & st & _ & Hc3' & Hk3 & _ & ->).
  clear Hc3' rctx0 st0. rewrite Hrmv. cbn [bindO].
  simpl in Hins.
  assert (cloudParses rctx) as Hprctx.
  { assert (cloudParses rctx1) as P1.
    { rewrite insertDots_joinCloud in Hins.
      apply wfCloud_parses. eapply joinCloud_wf; [exact Hins|].
      split; [constructor|by intros s []]. }
    destruct (compact_total rctx1 P1) as (r' & Hr' & Pr').
    assert (r' = rctx) as <- by congruence. done. }
  set (kt0 := mkKernel [] (contextBase kt) (sharedContext kt)) in *.
  assert (Hkt3 : kernels h3 !! k = Some kt0).
  { rewrite Hk3. rewrite lookup_app_l by heap_lengths.
    apply list_lookup_insert_eq. heap_lengths. }
  assert (Hctx3 : contexts h3 !! sharedContext kt0 = Some ct).
  { subst kt0. cbn [sharedContext].
    rewrite Hc3. rewrite lookup_app_l by heap_lengths.
    rewrite Hc2. rewrite lookup_app_l by heap_lengths.
    rewrite Hc1. by rewrite lookup_app_l by heap_lengths. }
  destruct (add_facts h3 k kt0 ct i v Hkt3 Hctx3 Hi)
    as (actx & h4 & Hadd & Hpactx & Hc4 & Hk4).
  destruct (add_shape _ _ _ _ _ _ _ _ Hkt3 Hctx3 Hadd) as (actx0 & Hinsa & _ & Hc4' & _).
  assert (actx0 = actx) as ->.
  { rewrite Hc4 in Hc4'. by apply app_inv_head in Hc4' as [= ->]. }
  clear Hc4'. rewrite Hadd. cbn [bindO]. fold dot in Hc4, Hk4, Hinsa. fold key in Hk4.
  set (rk := length (kernels h2)) in *. set (ak := length (kernels h3)) in *.
  assert (Hnk : rk <> ak) by (subst rk ak; heap_lengths).
  assert (Hrk : kernels h4 !! rk
                = Some (mkKernel [] (length (contexts h2)) (length (contexts h2)))).
  { rewrite Hk4. rewrite lookup_app_l by (subst rk ak; heap_lengths).
    rewrite list_lookup_insert_ne by (subst rk; heap_lengths).
    rewrite Hk3. apply list_lookup_middle. subst rk. by rewrite length_insert. }
  assert (Hak : kernels h4 !! ak
                = Some (mkKernel [(key, v)] (length (contexts h3)) (length (contexts h3)))).
  { rewrite Hk4. apply list_lookup_middle. subst ak. by rewrite length_insert. }
  assert (Hcr : contexts h4 !! length (contexts h2) = Some rctx).
  { rewrite Hc4. rewrite lookup_app_l by heap_lengths.
    rewrite list_lookup_insert_ne by (subst kt0; cbn [sharedContext]; heap_lengths).
    rewrite Hc3. by apply list_lookup_middle. }
  assert (Hca : contexts h4 !! length (contexts h3) = Some actx).
  { rewrite Hc4. apply list_lookup_middle. by rewrite length_insert. }
  assert (Hdot : Dot.fromString key = Ok dot).
  { subst key dot. unfold DotContext.makeDot. cbn [fst]. by apply fromString_toString. }
  destruct (join_deltas_facts lc h4 rk ak _ _ rctx actx key v dot Hnk Hrk Hak
              eq_refl eq_refl Hdot Hcr Hca) as (dctx & Hdctx & Hjoin);
    [cbn [sharedContext]; heap_lengths|done|done|].
  unfold MVReg.join. cbn [dotKernel]. rewrite Hjoin. cbn [bindO].
  exists rctx1, rctx, actx, dctx. eexists.
  do 4 (split; [done|]).
  assert (rk = (length (kernels h) + 2)%nat) as Erk by (subst rk; heap_lengths).
  assert (length (contexts h2) = (length (contexts h) + 2)%nat) as Ec2 by heap_lengths.
  split; [by rewrite Erk|]. cbn [kernels contexts sharedContext contextBase].
  rewrite <- Erk, <- Ec2.
  split.
  { apply list_lookup_insert_eq. by eapply lookup_lt_Some. }
  split.
  { apply list_lookup_insert_eq. by eapply lookup_lt_Some. }
  split.
  { rewrite list_lookup_insert_ne by (subst rk; heap_lengths).
    rewrite Hk4. rewrite lookup_app_l by heap_lengths.
    subst kt0. cbn [dataStorage contextBase sharedContext JsMap.set].
    apply list_lookup_insert_eq. heap_lengths. }
  split.
  { rewrite list_lookup_insert_ne by heap_lengths.
    rewrite Hc4. rewrite lookup_app_l by heap_lengths.
    subst kt0. cbn [sharedContext]. apply list_lookup_insert_eq. heap_lengths. }
  split.
  - intros j Hj Hjk. rewrite list_lookup_insert_ne by (subst rk; heap_lengths).
    rewrite Hk4. rewrite lookup_app_l by heap_lengths.
    rewrite list_lookup_insert_ne by done.
    rewrite Hk3. rewrite lookup_app_l by heap_lengths.
    rewrite list_lookup_insert_ne by done.
    rewrite Hk2. rewrite lookup_app_l by heap_lengths.
    rewrite Hk1. by rewrite lookup_app_l by heap_lengths.
  - intros c Hc Hcs. rewrite list_lookup_insert_ne by heap_lengths.
    rewrite Hc4. rewrite lookup_app_l by heap_lengths.
    rewrite list_lookup_insert_ne by (subst kt0; cbn [sharedContext]; done).
    rewrite Hc3. rewrite lookup_app_l by heap_lengths.
    rewrite Hc2. rewrite lookup_app_l by heap_lengths.
    rewrite Hc1. by rewrite lookup_app_l by heap_lengths.
Qed.

Lemma makeDot_counter c i :
  counter (fst (DotContext.makeDot c i)) = Js.plus (cccOrZero c i) 1.
Proof. by rewrite makeDot_dot. Qed.

Lemma compact_wf c c' : DotContext.compact c = Ok c' -> wfContext c -> wfContext c'.
Proof. apply compactLoop_wf. Qed.

(** X26.  A write delivered to another replica.  [this.write(v)]
    returns a delta, and [other.join(delta)] returns; afterwards
    [other] holds [v] under the new dot, holds none of the dots that
    [this] held before the write, keeps every other dot (of positive
    counter) it had, and knows the new dot.  When [other] held only
    dots that [this] held, it reads as the set that holds [v] alone.
    The dot is new to both replicas, the counter of [this] for its
    identifier is not negative, and the operator [<] agrees with
    [Dot.compare] between the keys of [other] and the new key. *)
Theorem write_delta_delivered (lc : string -> string -> Z) (h : Heap)
    (this other : MVReg) (i : string) (kt kb : DotKernel) (ct cb : DotContext)
    (v : Value) :
  strictCollation lc ->
  regId this = Some i -> wfId i = true ->
  kernels h !! dotKernel this = Some kt ->
  contexts h !! sharedContext kt = Some ct ->
  kernels h !! dotKernel other = Some kb ->
  contexts h !! sharedContext kb = Some cb ->
  dotKernel other <> dotKernel this -> sharedContext kb <> sharedContext kt ->
  wfStorage (dataStorage kt) -> wfStorage (dataStorage kb) -> cloudParses cb ->
  0 <= cccOrZero ct i ->
  let dot := fst (DotContext.makeDot ct i) in
  let key := Dot.toStringDot dot in
  ~ In key (JsMap.keys (dataStorage kt)) ->
  ~ In key (JsMap.keys (dataStorage kb)) ->
  knows cb key = false ->
  (forall x, In x (JsMap.keys (dataStorage kb)) -> Js.stringLt x key = keyLtb lc x key) ->
  exists delta h1 h2 kb2 cb2,
    MVReg.write lc this v h = Ok (delta, h1)
    /\ MVReg.join lc other delta h1 = Ok h2
    /\ kernels h2 !! dotKernel other = Some kb2
    /\ contexts h2 !! sharedContext kb = Some cb2
    /\ JsMap.get key (dataStorage kb2) = Some v
    /\ (forall x, In x (JsMap.keys (dataStorage kt)) ->
          JsMap.get x (dataStorage kb2) = None)
    /\ (forall x d,
          x <> key -> Dot.fromString x = Ok d -> 1 <= counter d ->
          (forall r, In r (JsMap.keys (dataStorage kt)) -> Dot.fromString r <> Ok d) ->
          JsMap.get x (dataStorage kb2) = JsMap.get x (dataStorage kb))
    /\ DotContext.dotIn cb2 (InDot dot) = Ok true
    /\ ((forall x, In x (JsMap.keys (dataStorage kb)) ->
           In x (JsMap.keys (dataStorage kt))) ->
        MVReg.read other h2 = Ok [v]).
Proof.
  intros Hlc Hid Hi Hkt Hct Hkb Hcb Hne Hnec Wt Wb Pcb Hnonneg dot key
         Hnewt Hnewb Hunknown Hagree.
  assert (forall k, In k (JsMap.keys (dataStorage kt)) -> exists d, Dot.fromString k = Ok d)
    as Pt by (intros k Hk; apply (proj2 Wt), wfKey_spec in Hk as (d & Hd & _); by exists d).
  destruct (write_facts lc h this i kt ct v Hid Hi Hkt Hct Pt)
    as (rctx1 & rctx & actx & dctx & h1 & Hins & Hcomp & Hinsa & Hdctx & Hwrite
        & Hdk & Hdc & _ & _ & Hframe & Hframec).
  fold dot in Hinsa, Hdk. fold key in Hdk.
  pose proof (lookup_lt_Some _ _ _ Hkb) as Hblt.
  pose proof (lookup_lt_Some _ _ _ Hcb) as Hcblt.
  assert (wfId (id dot) = true) as Hiddot by (subst dot; by unfold DotContext.makeDot).
  assert (Dot.fromString key = Ok dot) as Hkey.
  { subst key dot. unfold DotContext.makeDot. cbn [fst]. by apply fromString_toString. }
  assert (wfKey key = true) as Wkey.
  { apply wfKey_spec. by exists dot. }
  assert (1 <= counter dot) as Hpos.
  { subst dot. rewrite makeDot_counter. by apply plus_pos. }
  (* the context of the removed dots does not know the new dot *)
  assert (member rctx dot = false) as Hfresh.
  { destruct (member rctx dot) eqn:E; [|done]. exfalso.
    destruct (delta_members _ _ _ dot Pt Hins Hcomp) as [_ Hinv].
    destruct (Hinv Hpos E) as (r & Hr & Hrd). apply Hnewt.
    destruct (proj1 (wfKey_spec r) (proj2 Wt r Hr)) as (d' & Hd' & Er).
    assert (d' = dot) as -> by congruence. rewrite <- Er in Hr. exact Hr. }
  rewrite Hfresh in Hdk.
  assert (wfContext rctx) as Wrctx.
  { eapply compact_wf; [exact Hcomp|]. rewrite insertDots_joinCloud in Hins.
    eapply joinCloud_wf; [exact Hins|]. split; [constructor|by intros s []]. }
  assert (wfContext actx) as Wactx.
  { pose proof Hinsa as Hshape. apply insertDot_cloud in Hshape as (d0 & Hd0 & Hshape).
    injection Hd0 as <-. eapply compact_wf; [exact Hshape|].
    split; [constructor|]. intros s Hs. simpl in Hs.
    destruct Hs as [<-|[]]. exact Wkey. }
  assert (wfContext dctx) as Wdctx by exact (contextJoin_wf rctx actx dctx Wrctx Hdctx).
  set (dk := mkKernel [(key, v)] (length (contexts h) + 2) (length (contexts h) + 2)) in *.
  destruct (join_merged_facts lc h1 (dotKernel other) (length (kernels h) + 2) kb dk cb dctx)
    as (h2 & st & cb2 & Hjoin & Hcb2 & Hk2 & Hc2 & Hnd & Hget); try done.
  { lia. }
  { by rewrite Hframe. }
  { rewrite Hframec; [done|done|done]. }
  { split; [apply NoDup_singleton|]. by intros x [<-|[]]. }
  { by apply wfCloud_parses, Wdctx. }
  { intros x y Hx [<-|[]]. by apply Hagree. }
  assert (Nat.eqb (sharedContext kb) (sharedContext dk) = false) as Esh.
  { apply Nat.eqb_neq. simpl. lia. }
  rewrite Esh in Hc2.
  assert (forall x, JsMap.get x st
            = if String.eqb key x then Some v
              else if knows dctx x then None else JsMap.get x (dataStorage kb)) as Hst.
  { intros x. rewrite Hget. unfold merged. rewrite has_keys_get. simpl.
    destruct (String.eqb_spec key x) as [<-|Hnx].
    - apply get_None_keys in Hnewb. rewrite Hnewb, Hunknown.
      unfold DotKernel.getValue. simpl. by rewrite String.eqb_refl.
    - destruct (JsMap.get x (dataStorage kb)) eqn:E; [done|].
      by destruct (knows dctx x). }
  assert (forall x, In x (JsMap.keys (dataStorage kt)) -> knows dctx x = true) as Hold.
  { intros x Hx. destruct (Pt x Hx) as (d & Hd).
    destruct (knows_parsed dctx x d Hd) as [_ ->].
    eapply contextJoin_member_l; [exact Hdctx|].
    destruct (delta_members _ _ _ d Pt Hins Hcomp) as [Hin _]. apply Hin. eauto. }
  exists (mkMVReg (length (kernels h) + 2) None), h1, h2,
         (mkKernel st (contextBase kb) (sharedContext kb)), cb2.
  split; [done|]. split; [done|]. split.
  { rewrite Hk2. apply list_lookup_insert_eq. rewrite <- (Hframe _ Hblt Hne) in Hkb.
    by eapply lookup_lt_Some. }
  split.
  { rewrite Hc2. apply list_lookup_insert_eq.
    rewrite <- (Hframec _ Hcblt Hnec) in Hcb. by eapply lookup_lt_Some. }
  cbn [dataStorage]. split.
  { rewrite Hst. by rewrite String.eqb_refl. }
  split.
  { intros x Hx. rewrite Hst.
    destruct (String.eqb_spec key x) as [<-|_]; [done|]. by rewrite (Hold x Hx). }
  split.
  { intros x d Hnx Hd Hdpos Hnot. rewrite Hst.
    destruct (String.eqb_spec key x) as [E|_]; [by destruct Hnx|].
    destruct (JsMap.get x (dataStorage kb)) eqn:Eg; [|by destruct (knows dctx x)].
    assert (wfKey x = true) as Wx by (apply (proj2 Wb); by eapply get_Some_keys).
    destruct (knows_parsed dctx x d Hd) as [_ ->].
    destruct (member dctx d) eqn:E; [|done]. exfalso.
    apply (contextJoin_member_inv rctx actx dctx d (proj2 Wrctx) Wactx Hdctx Hdpos)
      in E as [E|E].
    - destruct (delta_members _ _ _ d Pt Hins Hcomp) as [_ Hinv].
      destruct (Hinv Hdpos E) as (r & Hr & Hrd). by apply (Hnot r Hr).
    - destruct (insertDot_member_inv DotContext.empty (InDot dot) dot true actx d)
        as [->|Hempty]; try done.
      + by intros s [].
      + apply Hnx. apply wfKey_spec in Wx as (d' & Hd' & Ex).
        rewrite <- Ex. unfold key. f_equal. congruence. }
  split.
  { rewrite (dotIn_member cb2 (InDot dot) dot eq_refl). f_equal.
    eapply contextJoin_member_r; [exact Hcb2|].
    eapply contextJoin_member_r; [exact Hdctx|].
    by eapply insertDot_new_member. }
  intros Hsub. unfold MVReg.read, Heap.getKernel. rewrite Hk2.
  rewrite list_lookup_insert_eq
    by (rewrite <- (Hframe _ Hblt Hne) in Hkb; by eapply lookup_lt_Some).
  cbn [bindO dataStorage].
  assert (st = [(key, v)]) as ->; [|done].
  apply storage_single; [done|]. intros x. rewrite Hst.
  destruct (String.eqb_spec key x) as [|_]; [done|].
  destruct (JsMap.get x (dataStorage kb)) eqn:E; [|by destruct (knows dctx x)].
  rewrite Hold; [done|]. apply Hsub. by eapply get_Some_keys.
Qed.

(** X26, witness: replica [n1] overwrites ["A"] by ["B"]; replica [n2],
    which held ["A"], reads ["B"] alone once it has joined the delta. *)
Lemma write_delta_delivered_witness :
  exists delta h1 h2,
    MVReg.write codeUnitCompare (mkMVReg 0 (Some "n1")) (VStr "B") syncedHeap
    = Ok (delta, h1)
    /\ MVReg.join codeUnitCompare (mkMVReg 1 (Some "n2")) delta h1 = Ok h2
    /\ MVReg.read (mkMVReg 1 (Some "n2")) h2 = Ok [VStr "B"].
Proof.
  assert (wfStorage [("n1:1", VStr "A")]) as W.
  { split; [apply NoDup_singleton|]. intros key [<-|[]]. reflexivity. }
  destruct (write_delta_delivered codeUnitCompare syncedHeap
              (mkMVReg 0 (Some "n1")) (mkMVReg 1 (Some "n2")) "n1"
              (mkKernel [("n1:1", VStr "A")] 0 0) (mkKernel [("n1:1", VStr "A")] 1 1)
              (mkContext [("n1", 1)] []) (mkContext [("n1", 1)] []) (VStr "B"))
    as (delta & h1 & h2 & kb2 & cb2 & Hw & Hj & _ & _ & _ & _ & _ & _ & Hread);
    try reflexivity; try exact W.
  - apply codeUnitCompare_strict.
  - simpl. lia.
  - simpl. lia.
  - by intros s [].
  - vm_compute. discriminate.
  - vm_compute. intros [E|[]]. discriminate E.
  - vm_compute. intros [E|[]]. discriminate E.
  - intros x [<-|[]]. vm_compute. reflexivity.
  - exists delta, h1, h2. split; [exact Hw|]. split; [exact Hj|].
    apply Hread. intros x Hx. exact Hx.
Defined.
